(* ===== verification/_CoqProject ===== *)
-Q . S2P
Prelude.v
StdContainers.v
Bytes.v
CacheTypes.v
CacheStorage.v
CacheStorageInv.v
LruSpec.v
CacheStorageOps.v
CacheStorageRefine.v
SnapshotChunk.v
CacheStorageReach.v
CacheStorageThms.v
SnapshotStorage.v
CacheState.v
CacheStateReplay.v
CacheStateThms.v
Buffer.v
BufferSpec.v
BufferThms.v
BufferSerializer.v
BufferSerializerThms.v
Crc32.v
Crc32Thms.v
Wire.v
RaftTypes.v
SrvState.v
RaftTypesThms.v
LogEntry.v
LogStore.v
LogStoreSpec.v
LogStoreOps.v
LogStorePack.v
LogStoreThms.v
CacheStateMachine.v
CacheStateMachineThms.v
StateMgr.v
RaftParams.v
RaftMsg.v
RpcFrame.v
RpcFrameSpec.v
RpcFrameThms.v
RpcRespThms.v
Peer.v
RaftServer.v
RaftRoles.v
RaftReplicate.v
SnapshotIo.v
RaftVote.v
RaftAppend.v
RaftCommit.v
RaftClient.v
RaftMember.v
RaftDispatch.v
RaftRun.v
Election.v
RaftQuiet.v
RaftVoteSpec.v
RaftHandlerSpec.v
RaftNet.v
RaftElection.v
RaftElectionThms.v
RaftCommitThms.v
SnapshotIoThms.v
LogMerge.v
RaftAppendSpec.v
RaftAppendRun.v
RaftRequestSpec.v
RaftAppendThms.v
RaftLogNet.v
Server.v
ServerThms.v
Async.v
AsyncThms.v
Workers.v
WorkersThms.v
AutoForward.v
AutoForwardThms.v
RpcClient.v
RpcClientThms.v
Stats.v
