(* ===== verification/Prelude.v ===== *)
(** * A verification library for the lrucache distributed cache

    The program is a cache with a bounded memory, kept the same on several
    servers by a Raft library of its own (a modified NuRaft).  This library models
    its own code and the Raft library under src/libs/lrucache, and proves what
    makes them correct, as far as they are; where the code does something else,
    the theorem says what it does.

    ** The parts of the program, and where they are

    Paths are under src/libs/lrucache; nuraft stands for libs/nuraft.

    - The cache.  CacheTypes: configuration and items (cache_config.hxx,
      cache_item.hxx).  CacheStorage: the LRU storage with its list, map and
      expiry buckets (src/cache/cache_storage.cc), over the nodes and iterators of
      StdContainers.  SnapshotStorage and CacheState: what happens while a snapshot
      is taken (snapshot_storage.cc, cache_state.cc).  CacheStateMachine: the
      commands as log entries (src/raft/cache_state_machine.cc).
    - Bytes.  Buffer, BufferSerializer and Crc32 (nuraft/src/buffer.cxx,
      buffer_serializer.cxx, crc32.cxx).  Wire is the interface of a serializable
      type, RaftTypes its instances (srv_config, cluster_config, snapshot,
      snapshot_sync_req), SrvState and LogEntry the other two formats.
    - Storage of the Raft library.  LogStore (src/raft/in_memory_log_store.cc) and
      StateMgr (in_memory_state_mgr.hxx).
    - The Raft server.  RaftServer has its state, the monad of its handlers and the
      operations they share; a handler runs as one step, as it does under [lock_],
      reads the clock, the state machine and the application's callbacks from an
      [env], and puts out [effect]s: messages, timers, calls of the state machine.
      RaftRoles, RaftReplicate, RaftVote, RaftAppend, RaftCommit, RaftClient and
      RaftMember have the handlers (raft_server.cxx and the handle_*.cxx files),
      RaftDispatch the entry points, which call them by the type of the message.
      RaftParams, RaftMsg and Peer have the data they use.
    - Between servers.  RpcFrame: the bytes of requests and responses and how a
      session and a client read them (nuraft/src/asio_service.cxx).  RpcClient: a
      client's connection as a machine over the completions of asynchronous
      operations; it writes and reads with RpcFrame.  RaftNet: servers that run the
      handlers of RaftDispatch, and the messages between them.  RaftLogNet: servers
      that store, send and receive entries.
    - Threads.  Async (event_awaiter.hxx, async.hxx, delayed_task.hxx), Workers (the
      commit thread of handle_commit.cxx, the append thread of
      handle_append_entries.cxx and the shared workers of global_mgr.cxx),
      SnapshotIo (the thread of snapshot_sync_ctx.cxx that reads snapshots, over the
      state and the handlers of RaftServer and RaftReplicate) and AutoForward
      (handle_user_cmd.cxx).  Here methods are cut into the parts that are atomic,
      and any order of the parts of all threads is a run.
    - Stats: histogram.h and stat_mgr.cxx.
    - The process.  Server: configuration, connections, dispatch, discovery and the
      start of the Raft server (src/server.cc, network_manager.cc,
      request_dispatcher.cc, request_handler.cc, raft_manager.cc).

    Machine integers are [Z] with their wrap-around; pointers, iterators and the
    nodes they refer to are modelled where the code relies on their validity, and
    using one that is gone is an undefined behaviour, a value of [outcome].

    ** What is proved

    - CacheStorageThms: the storage refines the abstract cache of LruSpec and never
      has undefined behaviour on the requests covered; its containers stay linked
      and its memory exact; what a write, an eviction, a purge and a chunk of a
      snapshot do; a snapshot parses back to the items.
    - CacheStateThms: a snapshot leaves the frozen data alone, reads see what was
      written meanwhile, and replaying its events takes the main storage where the
      commands applied directly would have, under the conditions it needs.
    - BufferThms, BufferSerializerThms, Crc32Thms, RaftTypesThms, RpcFrameThms,
      RpcRespThms, CacheStateMachineThms: round trips, bounds, and that the
      checksums are CRC-32 and find a burst of changed bytes.  Any bytes at all
      read from a connection end in one of the session's own ways.
    - LogStoreThms: the log store refines a log with a first index.
    - RaftElectionThms: the network refines the voting protocol of Election, no two
      servers lead in one term, a vote cast is kept, through restarts too.
    - RaftAppendThms: what a follower's log becomes of the entries it is sent
      (LogMerge); logs that match go on matching; a leader and a follower come to a
      request that is accepted.  RaftLogNet: the logs of all servers match in any
      run of a cluster in which leaders store and send and followers receive.
    - RaftCommitThms: the commit index is the greatest that a quorum has, and the
      background commit applies the entries in order, each once.
    - AsyncThms, WorkersThms, AutoForwardThms, RpcClientThms: no wake-up, request or
      answer is lost or given twice, and every run ends; and where the code loses
      some: two global workers, a paused commit thread, two waiters with a reset, a
      result waited for without a predicate, a client whose response was damaged or
      made it throw.
    - SnapshotIoThms: one request per peer at a time as long as none is dropped, and
      what the thread sends is what the server would have sent at once; a leader
      deposed during a read sends all the same.
    - Stats: a histogram counts the values between the bounds it reports.
    - ServerThms: what a connection makes of what it reads.

    Termination is a part of these: where a model has fuel, the theorem gives an
    amount that is enough (the items of the storage for its loops, the distance of
    two indices for those of the log, the length of the input for the parsers, the
    next index for the probing), and [OutOfFuel] then does not occur.

    ** What the network takes for granted

    A request is delivered at most once and answered at most once, may be lost, and
    so may its answer; messages overtake each other.  The members stay: requests to
    join and leave are not delivered, no server is a learner, the quorum is more
    than half, and commits keep the electors.  The term does not reach the last
    64-bit number.  The installation of a snapshot is one step of the network, with
    nothing in between its two halves.  [others] and [ext_args] are what the rest of
    the process does while a handler has given back its lock.

    ** What is not modelled

    asio, OpenSSL, flatbuffers, the INI reader and the Poco sockets are libraries
    and are arguments of the definitions that use them.  Of asio_service.cxx the
    accepting of connections, TLS and the timers are calls of asio and nothing else.
    The logger and the tracer have no influence on anything else.  geo_locator and
    the percentiles of a histogram are floating-point arithmetic of the C library,
    and so left out.  Creating and joining threads, and the tests, examples and
    benchmarks of the Raft library, are left out.  Of raft_params and of the
    interfaces of the state machine what no handler reads is left out.  RaftLogNet
    runs the functions that change logs or send them; it supposes of the other
    handlers that they leave the log alone, and of elections what RaftElectionThms
    proves.  Logs that are compacted or replaced by
    a snapshot are covered request by request only. *)
From Stdlib Require Export Lia ZArith.
From stdpp Require Export base gmap strings sorting numbers list.

Declare Scope cpp_scope.
Delimit Scope cpp_scope with cpp.

(** ** Outcomes of C++ code

    A computation returns a value, throws a C++ exception, has undefined
    behaviour or exits the process.  [OutOfFuel] is the outcome of a loop model whose fuel is
    exhausted: it stands for no behaviour of the code, and the termination
    theorems rule it out. *)
Inductive exn :=
  | overflow_error (what : string)
  | out_of_range (what : string)
  | length_error (what : string)
  | runtime_error (what : string)
  | assertion_failed.

Inductive ub :=
  | DanglingIterator
  | DanglingPointer
  | NullPointer
  | UninitialisedRead
  | DivisionByZero
  | SignedOverflow
  | OutOfBounds
  | ShiftTooFar.

Inductive fault :=
  | Exn (e : exn)
  | Undefined (u : ub)
  | Exited (code : Z)
  | OutOfFuel.

Inductive outcome (A : Type) :=
  | Ok (a : A)
  | Fault (f : fault).
Arguments Ok {A} a.
Arguments Fault {A} f.

#[export] Instance outcome_ret : MRet outcome := @Ok.
#[export] Instance outcome_bind : MBind outcome := λ A B f m,
  match m with Ok a => f a | Fault e => Fault e end.
#[export] Instance outcome_fmap : FMap outcome := λ A B f m,
  match m with Ok a => Ok (f a) | Fault e => Fault e end.

Notation "'throw' e" := (Fault (Exn e)) (at level 10, e at level 9) : cpp_scope.
Notation "'undefined' u" := (Fault (Undefined u)) (at level 10, u at level 9) : cpp_scope.
Open Scope cpp_scope.

#[export] Instance exn_eq_dec : EqDecision exn.
Proof. solve_decision. Defined.
#[export] Instance ub_eq_dec : EqDecision ub.
Proof. solve_decision. Defined.
#[export] Instance fault_eq_dec : EqDecision fault.
Proof. solve_decision. Defined.
#[export] Instance outcome_eq_dec {A} `{EqDecision A} : EqDecision (outcome A).
Proof. solve_decision. Defined.

(** Reading through something that may be gone. *)
Definition or_ub {A} (u : ub) (o : option A) : outcome A :=
  match o with Some a => Ok a | None => undefined u end.

Section outcome_lemmas.
Context {A B : Type}.
Implicit Types (m : outcome A) (k : A → outcome B).

Lemma bind_Ok m k b : m ≫= k = Ok b ↔ ∃ a, m = Ok a ∧ k a = Ok b.
Proof.
  destruct m as [a|f]; simpl; split.
  - eauto.
  - by intros (? & [= ->] & ?).
  - done.
  - by intros (? & ? & ?).
Qed.

Lemma bind_Fail m k f :
  m ≫= k = Fault f ↔ m = Fault f ∨ ∃ a, m = Ok a ∧ k a = Fault f.
Proof.
  destruct m as [a|g]; simpl; split.
  - eauto.
  - by intros [?|(? & [= ->] & ?)].
  - intros [= ->]. by left.
  - by intros [[= ->]|(? & ? & ?)].
Qed.

Lemma bind_assoc {C} m k (h : B → outcome C) : (m ≫= k) ≫= h = m ≫= λ a, k a ≫= h.
Proof. by destruct m. Qed.

Lemma bind_ret a k : Ok a ≫= k = k a.
Proof. done. Qed.

Lemma bind_ext m k k' : (∀ a, k a = k' a) → m ≫= k = m ≫= k'.
Proof. intros Hk. destruct m; [apply Hk|done]. Qed.

Lemma or_ub_Ok u (o : option A) a : or_ub u o = Ok a ↔ o = Some a.
Proof. destruct o; simpl; split; congruence. Qed.
End outcome_lemmas.

(** [run_ok] takes a hypothesis that a sequence of steps returned apart into
    one hypothesis per step. *)
Ltac run_ok :=
  repeat match goal with
    | H : (_ ≫= _) = Ok _ |- _ => apply bind_Ok in H as (? & ? & H)
    | H : or_ub _ _ = Ok _ |- _ => apply or_ub_Ok in H
    | H : Ok _ = Ok _ |- _ => injection H as H
    | H : Fault _ = Ok _ |- _ => discriminate H
    | H : mret _ = Ok _ |- _ => injection H as H
    | H : (_, _) = (_, _) |- _ => injection H as ? ?
    | p : (_ * _)%type |- _ => destruct p
    end; simplify_eq/=.

(** [ok_bind] passes what a step returned to the next one.  It rewrites, as a
    conversion would make the kernel compare the step with the one after. *)
Ltac ok_bind := rewrite ?bind_ret; cbv beta iota.
Tactic Notation "ok_bind" "in" hyp(H) := rewrite ?bind_ret in H; cbv beta iota in H.

(** [same_steps] proves that two sequences with the same steps, nested
    differently, are equal. *)
Ltac same_steps :=
  repeat (rewrite ?bind_assoc; apply bind_ext; intros ?); try done.

(** ** Machine integers

    A [w]-bit unsigned integer is a [Z] in [0, 2^w), a signed one a [Z] in
    [-2^(w-1), 2^(w-1)).  [wrap_u] and [wrap_s] are the conversions to them. *)
Definition wrap_u (w : Z) (x : Z) : Z := x mod 2 ^ w.
Definition wrap_s (w : Z) (x : Z) : Z := (x + 2 ^ (w - 1)) mod 2 ^ w - 2 ^ (w - 1).
Abbreviation u8 := (wrap_u 8).
Abbreviation u16 := (wrap_u 16).
Abbreviation u32 := (wrap_u 32).
Abbreviation u64 := (wrap_u 64).
Abbreviation i32 := (wrap_s 32).
Abbreviation i64 := (wrap_s 64).

Definition in_u (w x : Z) : Prop := (0 ≤ x < 2 ^ w)%Z.
Definition in_s (w x : Z) : Prop := (- 2 ^ (w - 1) ≤ x < 2 ^ (w - 1))%Z.

(** The result of a signed operation, undefined when it does not fit. *)
Definition chk_s (w x : Z) : outcome Z :=
  if decide (- 2 ^ (w - 1) ≤ x < 2 ^ (w - 1))%Z then Ok x else undefined SignedOverflow.

Section machine_integers.
Local Open Scope Z_scope.

Lemma wrap_u_range w x : 0 ≤ w → in_u w (wrap_u w x).
Proof. intros. apply Z.mod_pos_bound, Z.pow_pos_nonneg; lia. Qed.

Lemma wrap_u_id w x : in_u w x → wrap_u w x = x.
Proof. intros. by apply Z.mod_small. Qed.

Lemma wrap_s_id w x : 0 < w → in_s w x → wrap_s w x = x.
Proof.
  unfold wrap_s, in_s. intros Hw Hx.
  assert (2 ^ w = 2 * 2 ^ (w - 1)) as E.
  { rewrite <- Z.pow_succ_r by lia. f_equal. lia. }
  rewrite Z.mod_small; lia.
Qed.

Lemma wrap_s_range w x : 0 < w → in_s w (wrap_s w x).
Proof.
  unfold wrap_s, in_s. intros Hw.
  assert (2 ^ w = 2 * 2 ^ (w - 1)) as E.
  { rewrite <- Z.pow_succ_r by lia. f_equal. lia. }
  pose proof (Z.mod_pos_bound (x + 2 ^ (w - 1)) (2 ^ w)).
  assert (0 < 2 ^ w) by (apply Z.pow_pos_nonneg; lia). lia.
Qed.

(** Equal modulo [2^w]: equal as unsigned words, equal as signed words. *)
Lemma wrap_u_mod w x y : x mod 2 ^ w = y mod 2 ^ w → wrap_u w x = wrap_u w y.
Proof. done. Qed.

Lemma wrap_s_mod w x y : x mod 2 ^ w = y mod 2 ^ w → wrap_s w x = wrap_s w y.
Proof.
  unfold wrap_s. intros H.
  by rewrite <- (Zplus_mod_idemp_l x), H, Zplus_mod_idemp_l.
Qed.

Lemma wrap_u_idemp w x : wrap_u w (wrap_u w x) = wrap_u w x.
Proof. apply Zmod_mod. Qed.

Lemma wrap_s_wrap_u w x : wrap_s w (wrap_u w x) = wrap_s w x.
Proof. apply wrap_s_mod, Zmod_mod. Qed.

Lemma wrap_u_wrap_s w x : wrap_u w (wrap_s w x) = wrap_u w x.
Proof.
  unfold wrap_u, wrap_s.
  rewrite Zminus_mod_idemp_l. f_equal. lia.
Qed.

(** Narrowing a wider unsigned word. *)
Lemma wrap_s_narrow w v x : 0 ≤ w ≤ v → wrap_s w (wrap_u v x) = wrap_s w x.
Proof.
  intros. apply wrap_s_mod. unfold wrap_u.
  rewrite (Z.mod_eq x (2 ^ v)) by (apply Z.pow_nonzero; lia).
  replace v with (w + (v - w)) by lia.
  rewrite Z.pow_add_r by lia.
  rewrite Zminus_mod, <- Z.mul_assoc, (Z.mul_comm (2 ^ w)), Z_mod_mult, Z.sub_0_r.
  apply Zmod_mod.
Qed.

Lemma wrap_u_add w x y : wrap_u w (wrap_u w x + y) = wrap_u w (x + y).
Proof. apply Zplus_mod_idemp_l. Qed.

Lemma wrap_u_sub w x y : wrap_u w (wrap_u w x - y) = wrap_u w (x - y).
Proof. apply Zminus_mod_idemp_l. Qed.

Lemma chk_s_Ok w x : in_s w x → chk_s w x = Ok x.
Proof. intros H. unfold chk_s. by rewrite decide_True. Qed.

Lemma chk_s_inv w x y : chk_s w x = Ok y → y = x ∧ in_s w x.
Proof.
  unfold chk_s, in_s. case_decide; [|done]. by intros [= <-].
Qed.
End machine_integers.

Create HintDb cpp discriminated.
Create Rewrite HintDb cpp.
#[export] Hint Rewrite wrap_u_idemp wrap_s_wrap_u wrap_u_wrap_s : cpp.
#[export] Hint Resolve wrap_u_range wrap_s_range : cpp.

(** [range] decides membership of a literal-width range. *)
Ltac range := unfold in_u, in_s in *; simpl Z.pow in *; simpl Z.sub in *; lia.

(** ** Lists *)
Section filter_lemmas.
Context {A : Type}.

Lemma filter_true (P : A → Prop) `{∀ x, Decision (P x)} (l : list A) :
  (∀ x, x ∈ l → P x) → filter P l = l.
Proof.
  induction l as [|x l IH]; [done|]. intros HP.
  rewrite filter_cons, decide_True by (apply HP; left). f_equal.
  apply IH. intros. apply HP. by right.
Qed.

Lemma filter_fmap {B} (f : A → B) (P : B → Prop) `{∀ x, Decision (P x)} (l : list A) :
  filter P (f <$> l) = f <$> filter (λ x, P (f x)) l.
Proof.
  induction l as [|x l IH]; [done|]. simpl. rewrite !filter_cons. simpl.
  case_decide; simpl; [f_equal|]; exact IH.
Qed.

Lemma filter_reverse (P : A → Prop) `{∀ x, Decision (P x)} (l : list A) :
  filter P (reverse l) = reverse (filter P l).
Proof.
  induction l as [|x l IH]; [done|].
  rewrite reverse_cons, filter_app, IH, !filter_cons. case_decide; [|by rewrite app_nil_r].
  by rewrite reverse_cons.
Qed.

(** Filtering twice, with a single test equivalent on the elements. *)
Lemma filter_and (P Q R : A → Prop) `{∀ x, Decision (P x), ∀ x, Decision (Q x),
    ∀ x, Decision (R x)} (l : list A) :
  (∀ x, x ∈ l → (R x ↔ P x ∧ Q x)) → filter P (filter Q l) = filter R l.
Proof.
  induction l as [|x l IH]; intros Hx; [done|]. rewrite !filter_cons.
  assert (R x ↔ P x ∧ Q x) by (apply Hx; left).
  assert (∀ y, y ∈ l → (R y ↔ P y ∧ Q y)) by (intros; apply Hx; by right).
  destruct (decide (Q x)); rewrite ?filter_cons; repeat case_decide; try tauto;
    rewrite ?IH by done; done.
Qed.

Lemma StronglySorted_filter (R : A → A → Prop) (P : A → Prop) `{∀ x, Decision (P x)} l :
  StronglySorted R l → StronglySorted R (filter P l).
Proof.
  induction 1 as [|x l Hl IH Hx]; [constructor|]. rewrite filter_cons.
  case_decide; [|done]. constructor; [done|].
  rewrite Forall_forall in Hx |- *. intros y [_ Hy]%list_elem_of_filter. by apply Hx.
Qed.
End filter_lemmas.

(** ** Runs with a measure *)
Lemma nsteps_measure {A} (R : A → A → Prop) (μ : A → nat) k x y :
  (∀ x y, R x y → μ y < μ x)%nat → nsteps R k x y → (k + μ y ≤ μ x)%nat.
Proof. intros HR. induction 1 as [|k x z y Hs _ IH]; [done|]. apply HR in Hs. lia. Qed.

Lemma sum_list_insert {A} (f : A → nat) (l : list A) i x y :
  l !! i = Some x → (sum_list (f <$> <[i := y]> l) + f x = sum_list (f <$> l) + f y)%nat.
Proof.
  revert i. induction l as [|z l IH]; intros [|i] Hi; simplify_eq/=; [lia|]. specialize (IH i Hi). lia.
Qed.

Lemma sum_list_replicate {A} (f : A → nat) n x : sum_list (f <$> replicate n x) = (n * f x)%nat.
Proof. induction n as [|n IH]; [done|]. cbn. lia. Qed.

(** ** Record update

    [s <| f := v |>] is [s] with the field [f] changed to [v], the form an
    assignment to a member takes.  A record type says how it is rebuilt from
    its fields once, with an instance of [Rebuild]; the update of each field is
    found from that. *)

(** [rebuild] is the constructor applied to the projections. *)
Class Rebuild (R : Type) := rebuild : R → R.

Class Update {R T : Type} (proj : R → T) := update : (T → T) → R → R.
Arguments update {R T} proj {_} _ _ : assert.

(** Abstract the projection in [rebuild] and put the changed field there. *)
Ltac derive_update :=
  lazymatch goal with
  | |- @Update ?R ?T ?proj =>
      let b := eval hnf in (@rebuild R _) in
      let p := eval pattern proj in b in
      lazymatch p with
      | ?k _ =>
          let t := eval cbv beta in (λ (g : T → T) (r : R), k (λ r, g (proj r)) r) in
          exact t
      end
  end.
#[export] Hint Extern 1 (Update _) => derive_update : typeclass_instances.

Declare Scope record_scope.
Notation "s <| f := v |>" := (update f (λ _, v) s)
  (at level 12, left associativity, format "s  <| f  :=  v |>") : record_scope.
Notation "s <| f ::= g |>" := (update f g s)
  (at level 12, left associativity, format "s  <| f  ::=  g |>") : record_scope.
Open Scope record_scope.
