(* ===== verification/StdContainers.v ===== *)
(** * std::list and std::map: nodes and iterators

    [std::list] and [std::map] keep each element in a node of its own, and an
    iterator stays valid until its node is erased.  A container is modelled as
    the list of its nodes in iteration order, each an identity (its address)
    and a value; an iterator is a node identity, [None] being [end()].
    Reading through an iterator whose node is gone yields [None] here, which
    the models of the code turn into undefined behaviour.

    Node identities come from a counter of the owning object, so an identity
    is never reused: an iterator to an erased node stays dangling. *)
From S2P Require Import Prelude.
Local Open Scope nat_scope.

(** An iterator: a node, or [end()]. *)
Abbreviation iter := (option nat).

Section nodes.
Context {A : Type}.
Implicit Types (i j : nat) (l : list (nat * A)) (a : A).

(** [*it] *)
Fixpoint deref i l : option A :=
  match l with
  | [] => None
  | (j, a) :: l => if decide (i = j) then Some a else deref i l
  end.

(** [*it = a] *)
Definition write i a l : list (nat * A) :=
  (λ p, if decide (p.1 = i) then (i, a) else p) <$> l.

(** the effect of [l.erase(it)] on the nodes *)
Definition erase i l : list (nat * A) := filter (λ p, p.1 ≠ i) l.

(** [l.begin()] *)
Definition begin_ l : iter := fst <$> head l.

(** [std::next(it)] *)
Fixpoint next_of i l : iter :=
  match l with
  | [] => None
  | (j, _) :: l => if decide (i = j) then begin_ l else next_of i l
  end.

(** The node before an iterator, what a [reverse_iterator] over that base
    points to; [None] when the base is [begin()], i.e. at [rend()]. *)
Fixpoint prev_of_node i (prev : option (nat * A)) l : option (nat * A) :=
  match l with
  | [] => None
  | (j, a) :: l => if decide (i = j) then prev else prev_of_node i (Some (j, a)) l
  end.
Definition before (base : iter) l : option (nat * A) :=
  match base with
  | None => last l
  | Some i => prev_of_node i None l
  end.

(** Whether an iterator may be used as a position of [l]. *)
Definition valid_pos (it : iter) l : bool :=
  match it with None => true | Some i => bool_decide (is_Some (deref i l)) end.

(** [l.splice(l.begin(), l, it)] *)
Definition splice_front i l : list (nat * A) :=
  match deref i l with
  | Some a => (i, a) :: erase i l
  | None => l
  end.

(** ** Lemmas *)
Lemma deref_elem i a l : deref i l = Some a → (i, a) ∈ l.
Proof.
  induction l as [|[j b] l IH]; simpl; [done|].
  case_decide; subst; intros.
  - simplify_eq. left.
  - right. auto.
Qed.

Lemma elem_deref i a l : NoDup l.*1 → (i, a) ∈ l → deref i l = Some a.
Proof.
  induction l as [|[j b] l IH]; simpl; [by intros _ ?%not_elem_of_nil|].
  intros [Hj Hnd]%NoDup_cons. rewrite elem_of_cons. intros [[= -> ->]|Hin].
  - by rewrite decide_True.
  - rewrite decide_False; [by auto|].
    intros ->. apply Hj. change j with (j, a).1. by apply list_elem_of_fmap_2.
Qed.

Lemma deref_None i l : deref i l = None ↔ i ∉ l.*1.
Proof.
  induction l as [|[j b] l IH]; simpl.
  - split; [intros _; apply not_elem_of_nil|done].
  - rewrite not_elem_of_cons. case_decide; subst; naive_solver.
Qed.

Lemma deref_is_Some i l : is_Some (deref i l) ↔ i ∈ l.*1.
Proof.
  rewrite <- not_eq_None_Some, deref_None.
  split; [apply dec_stable | tauto].
Qed.

Lemma elem_of_erase j a i l : (j, a) ∈ erase i l ↔ j ≠ i ∧ (j, a) ∈ l.
Proof. unfold erase. by rewrite list_elem_of_filter. Qed.

Lemma erase_fst i l : (erase i l).*1 = filter (λ j, j ≠ i) l.*1.
Proof. unfold erase. induction l as [|[j b] l IH]; [done|].
  rewrite filter_cons, fmap_cons, filter_cons. simpl.
  case_decide; rewrite ?fmap_cons; by rewrite IH.
Qed.

Lemma deref_erase i l : deref i (erase i l) = None.
Proof. apply deref_None. rewrite erase_fst, list_elem_of_filter. naive_solver. Qed.

Lemma erase_NoDup i l : NoDup l.*1 → NoDup (erase i l).*1.
Proof. rewrite erase_fst. apply NoDup_filter. Qed.

Lemma erase_notin i l : i ∉ l.*1 → erase i l = l.
Proof.
  induction l as [|[j b] l IH]; [done|]. simpl.
  rewrite not_elem_of_cons. intros [? ?]. unfold erase.
  rewrite filter_cons. simpl. rewrite decide_True by done.
  f_equal. by apply IH.
Qed.

Lemma erase_split i a l1 l2 :
  NoDup (l1 ++ (i, a) :: l2).*1 → erase i (l1 ++ (i, a) :: l2) = l1 ++ l2.
Proof.
  rewrite fmap_app, NoDup_app. simpl.
  intros (_ & Hd & [Hi _]%NoDup_cons).
  unfold erase. rewrite filter_app, filter_cons. simpl.
  rewrite decide_False by naive_solver.
  fold (erase i l1) (erase i l2). rewrite !erase_notin; [done|done|].
  intros Hin. apply (Hd i Hin). left.
Qed.

Lemma erase_perm i a l : NoDup l.*1 → (i, a) ∈ l → l ≡ₚ (i, a) :: erase i l.
Proof.
  intros Hnd (l1 & l2 & ->)%list_elem_of_split.
  rewrite erase_split by done. by rewrite Permutation_middle.
Qed.

Lemma elem_of_write j b i a l :
  NoDup l.*1 → i ∈ l.*1 →
  (j, b) ∈ write i a l ↔ (j = i ∧ b = a) ∨ (j ≠ i ∧ (j, b) ∈ l).
Proof.
  intros Hnd Hi. unfold write. rewrite list_elem_of_fmap. split.
  - intros ([k c] & E & Hin). simpl in E. case_decide; simplify_eq; auto.
  - intros [[-> ->]|[Hne Hin]].
    + apply list_elem_of_fmap in Hi as ([k c] & -> & Hin).
      exists (k, c). split; [|done]. simpl. by rewrite decide_True.
    + exists (j, b). split; [|done]. simpl. by rewrite decide_False.
Qed.

Lemma write_fst i a l : (write i a l).*1 = l.*1.
Proof.
  unfold write. induction l as [|[j b] l IH]; [done|].
  simpl. f_equal; [|done]. by case_decide; subst.
Qed.

Lemma write_split i a b l1 l2 :
  NoDup (l1 ++ (i, a) :: l2).*1 →
  write i b (l1 ++ (i, a) :: l2) = l1 ++ (i, b) :: l2.
Proof.
  assert (∀ l, i ∉ l.*1 → write i b l = l) as Hid.
  { induction l as [|[j c] l IH]; [done|]. simpl.
    rewrite not_elem_of_cons. intros [? ?]. unfold write. simpl.
    rewrite decide_False by done. f_equal. by apply IH. }
  rewrite fmap_app, NoDup_app. simpl.
  intros (_ & Hd & [Hi _]%NoDup_cons).
  unfold write. rewrite fmap_app. simpl.
  rewrite decide_True by done. f_equal; [|f_equal]; apply Hid; [|done].
  intros Hin. apply (Hd i Hin). left.
Qed.

Lemma write_head i a b l : i ∉ l.*1 → write i b ((i, a) :: l) = (i, b) :: l.
Proof.
  intros Hi. unfold write. simpl. rewrite decide_True by done. f_equal.
  induction l as [|[j c] l IH]; [done|]. simpl in *.
  rewrite not_elem_of_cons in Hi. destruct Hi as [? ?].
  rewrite decide_False by done. f_equal. by apply IH.
Qed.

Lemma write_write i a b l : write i a (write i b l) = write i a l.
Proof.
  unfold write. induction l as [|[j c] l IH]; [done|]. simpl. f_equal; [|done].
  repeat (case_decide; simpl in * ); congruence.
Qed.

Lemma erase_write i a l : erase i (write i a l) = erase i l.
Proof.
  unfold erase, write. induction l as [|[j c] l IH]; [done|]. simpl.
  rewrite !filter_cons. simpl. destruct (decide (j = i)) as [->|]; simpl.
  - rewrite !decide_False by naive_solver. exact IH.
  - rewrite !decide_True by done. f_equal. exact IH.
Qed.

Lemma erase_head i a l : i ∉ l.*1 → erase i ((i, a) :: l) = l.
Proof.
  intros Hi. unfold erase. rewrite filter_cons, decide_False by (simpl; naive_solver).
  by apply (erase_notin i l).
Qed.

Lemma next_of_head i a l : next_of i ((i, a) :: l) = begin_ l.
Proof. simpl. by rewrite decide_True. Qed.

Lemma fst_elem i a l : (i, a) ∈ l → i ∈ l.*1.
Proof. intros ?. change i with (i, a).1. by apply list_elem_of_fmap_2. Qed.

Lemma node_inj i a b l : NoDup l.*1 → (i, a) ∈ l → (i, b) ∈ l → a = b.
Proof.
  intros Hnd Ha%elem_deref Hb%elem_deref; [congruence|done..].
Qed.

Lemma deref_split i a l1 l2 :
  NoDup (l1 ++ (i, a) :: l2).*1 → deref i (l1 ++ (i, a) :: l2) = Some a.
Proof. intros. apply elem_deref; [done|]. apply elem_of_app. right. left. Qed.

Lemma next_of_split i a l1 l2 :
  NoDup (l1 ++ (i, a) :: l2).*1 → next_of i (l1 ++ (i, a) :: l2) = begin_ l2.
Proof.
  induction l1 as [|[j b] l1 IH]; simpl; intros [Hj Hnd]%NoDup_cons.
  - by rewrite decide_True.
  - rewrite decide_False; [by apply IH|].
    intros ->. apply Hj. rewrite fmap_app, elem_of_app. right. left.
Qed.

Lemma prev_of_node_split i a p l1 l2 :
  NoDup (l1 ++ (i, a) :: l2).*1 →
  prev_of_node i p (l1 ++ (i, a) :: l2) = match last l1 with None => p | q => q end.
Proof.
  revert p. induction l1 as [|[j b] l1 IH]; intros p; simpl; intros [Hj Hnd]%NoDup_cons.
  - by rewrite decide_True.
  - rewrite decide_False.
    + rewrite IH by done. destruct l1 as [|x l1]; [done|].
      simpl. destruct (last (x :: l1)) eqn:E; [done|by apply last_None in E].
    + intros ->. apply Hj. rewrite fmap_app, elem_of_app. right. left.
Qed.

(** The reverse iterator over a position: the last node before it. *)
Lemma before_split l1 l2 :
  NoDup (l1 ++ l2).*1 → before (begin_ l2) (l1 ++ l2) = last l1.
Proof.
  destruct l2 as [|[i a] l2]; simpl.
  - intros _. by rewrite app_nil_r.
  - intros Hnd. unfold before. simpl. rewrite prev_of_node_split by done.
    by destruct (last l1).
Qed.

Lemma splice_front_perm i a l :
  NoDup l.*1 → (i, a) ∈ l → splice_front i l ≡ₚ l.
Proof.
  intros Hnd Hin. unfold splice_front. rewrite (elem_deref i a) by done.
  symmetry. by apply erase_perm.
Qed.

Lemma valid_pos_begin l1 l2 :
  valid_pos (begin_ l2) (l1 ++ l2) = true.
Proof.
  destruct l2 as [|[i a] l2]; [done|]. simpl. apply bool_decide_eq_true_2.
  apply deref_is_Some. rewrite fmap_app, elem_of_app. right. left.
Qed.
End nodes.
