(* ===== verification/Bytes.v ===== *)
(** * Bytes, words in memory, strings as bytes *)
From Stdlib Require Strings.Byte.
From S2P Require Import Prelude.
Local Open Scope Z_scope.

Abbreviation byte := Byte.byte.
#[export] Instance byte_eq_dec : EqDecision byte := Byte.byte_eq_dec.

Definition Z_of_byte (b : byte) : Z := Z.of_N (Byte.to_N b).
Definition byte_of_Z (z : Z) : byte :=
  match Byte.of_N (Z.to_N (z mod 256)) with Some b => b | None => Byte.x00 end.

Lemma Z_of_byte_range b : 0 ≤ Z_of_byte b < 256.
Proof. unfold Z_of_byte. pose proof (Byte.to_N_bounded b). lia. Qed.

Lemma Z_of_byte_of_Z z : Z_of_byte (byte_of_Z z) = z mod 256.
Proof.
  unfold byte_of_Z, Z_of_byte.
  pose proof (Z.mod_pos_bound z 256 ltac:(lia)).
  destruct (Byte.of_N (Z.to_N (z mod 256))) as [b|] eqn:E.
  - apply Byte.to_of_N in E. rewrite E. lia.
  - apply Byte.of_N_None_iff in E. lia.
Qed.

Lemma byte_of_Z_of_byte b : byte_of_Z (Z_of_byte b) = b.
Proof.
  unfold byte_of_Z. pose proof (Z_of_byte_range b).
  rewrite Z.mod_small by done. unfold Z_of_byte.
  by rewrite N2Z.id, Byte.of_to_N.
Qed.

Lemma byte_of_Z_mod z : byte_of_Z (z mod 256) = byte_of_Z z.
Proof. unfold byte_of_Z. by rewrite Zmod_mod. Qed.

Lemma Z_of_byte_inj b c : Z_of_byte b = Z_of_byte c → b = c.
Proof. intros H. by rewrite <- (byte_of_Z_of_byte b), H, byte_of_Z_of_byte. Qed.

(** ** Words in memory

    [word_bytes n z] is the low [n] bytes of [z], least significant first:
    what [memcpy] reads from an [n]-byte integer on the little-endian targets
    the code assumes; [bytes_word] reads them back as an unsigned integer. *)
Fixpoint word_bytes (n : nat) (z : Z) : list byte :=
  match n with
  | O => []
  | S n => byte_of_Z z :: word_bytes n (z / 256)
  end.

Fixpoint bytes_word (l : list byte) : Z :=
  match l with
  | [] => 0
  | b :: l => Z_of_byte b + 256 * bytes_word l
  end.

Lemma length_word_bytes n z : length (word_bytes n z) = n.
Proof. revert z. induction n; intros z; simpl; auto. Qed.

Lemma pow256_succ n : 256 ^ Z.of_nat (S n) = 256 * 256 ^ Z.of_nat n.
Proof. rewrite Nat2Z.inj_succ, Z.pow_succ_r; lia. Qed.

Lemma pow256_pos n : 0 < 256 ^ Z.of_nat n.
Proof. apply Z.pow_pos_nonneg; lia. Qed.

Lemma bytes_word_of_word n z : bytes_word (word_bytes n z) = z mod 256 ^ Z.of_nat n.
Proof.
  revert z. induction n as [|n IH]; intros z.
  - simpl. by rewrite Z.mod_1_r.
  - simpl word_bytes. simpl bytes_word.
    rewrite Z_of_byte_of_Z, IH, pow256_succ.
    pose proof (pow256_pos n). by rewrite Z.rem_mul_r by lia.
Qed.

Lemma bytes_word_range l : 0 ≤ bytes_word l < 256 ^ Z.of_nat (length l).
Proof.
  induction l as [|b l IH]; [simpl; lia|].
  simpl length. rewrite pow256_succ. simpl. pose proof (Z_of_byte_range b). lia.
Qed.

Lemma word_of_bytes_word l : word_bytes (length l) (bytes_word l) = l.
Proof.
  induction l as [|b l IH]; [done|].
  simpl. pose proof (Z_of_byte_range b). f_equal.
  - rewrite <- byte_of_Z_mod, (Z.mul_comm 256), Z.mod_add by lia.
    by rewrite byte_of_Z_mod, byte_of_Z_of_byte.
  - rewrite (Z.mul_comm 256), Z.div_add, (Z.div_small (Z_of_byte b)) by lia. done.
Qed.

Lemma word_bytes_mod n z : word_bytes n (z mod 256 ^ Z.of_nat n) = word_bytes n z.
Proof.
  rewrite <- bytes_word_of_word.
  rewrite <- (length_word_bytes n z) at 1. apply word_of_bytes_word.
Qed.

Lemma word_bytes_app n m z :
  word_bytes (n + m) z = word_bytes n z ++ word_bytes m (z / 256 ^ Z.of_nat n).
Proof.
  revert z. induction n as [|n IH]; intros z; cbn [Nat.add word_bytes app].
  - by rewrite Z.div_1_r.
  - f_equal. rewrite IH, pow256_succ.
    pose proof (pow256_pos n). by rewrite Z.div_div by lia.
Qed.

Lemma bytes_word_app l1 l2 :
  bytes_word (l1 ++ l2) = bytes_word l1 + 256 ^ Z.of_nat (length l1) * bytes_word l2.
Proof.
  induction l1 as [|b l1 IH]; [simpl; lia|].
  simpl length. rewrite pow256_succ. simpl. rewrite IH. ring.
Qed.

(** A 64-bit, a 32-bit and a 16-bit word come back as themselves. *)
Lemma word16_roundtrip z : in_u 16 z → bytes_word (word_bytes 2 z) = z.
Proof. intros H. rewrite bytes_word_of_word. apply Z.mod_small. range. Qed.
Lemma word64_roundtrip z : in_u 64 z → bytes_word (word_bytes 8 z) = z.
Proof. intros H. rewrite bytes_word_of_word. apply Z.mod_small. range. Qed.
Lemma word32_roundtrip z : in_u 32 z → bytes_word (word_bytes 4 z) = z.
Proof. intros H. rewrite bytes_word_of_word. apply Z.mod_small. range. Qed.

Lemma signed64_roundtrip z : in_s 64 z → i64 (bytes_word (word_bytes 8 z)) = z.
Proof.
  intros H. rewrite bytes_word_of_word. change (256 ^ Z.of_nat 8) with (2 ^ 64).
  change (z mod 2 ^ 64) with (u64 z). rewrite wrap_s_wrap_u.
  by apply wrap_s_id.
Qed.
Lemma signed32_roundtrip z : in_s 32 z → i32 (bytes_word (word_bytes 4 z)) = z.
Proof.
  intros H. rewrite bytes_word_of_word. change (256 ^ Z.of_nat 4) with (2 ^ 32).
  change (z mod 2 ^ 32) with (u32 z). rewrite wrap_s_wrap_u.
  by apply wrap_s_id.
Qed.

#[export] Hint Rewrite length_word_bytes word_bytes_mod : cpp.
#[export] Hint Resolve Z_of_byte_range bytes_word_range : cpp.

(** ** Strings *)
Definition bytes_of_string (s : string) : list byte := String.list_byte_of_string s.
Definition string_of_bytes (l : list byte) : string := String.string_of_list_byte l.

Definition string_size (s : string) : Z := Z.of_nat (String.length s).

Lemma string_of_bytes_of_string s : string_of_bytes (bytes_of_string s) = s.
Proof. apply String.string_of_list_byte_of_string. Qed.

Lemma bytes_of_string_of_bytes l : bytes_of_string (string_of_bytes l) = l.
Proof. apply String.list_byte_of_string_of_list_byte. Qed.

Lemma length_bytes_of_string s : length (bytes_of_string s) = String.length s.
Proof.
  unfold bytes_of_string, String.list_byte_of_string.
  rewrite List.length_map. by induction s as [|c s IH]; simpl; [|rewrite IH].
Qed.

Lemma string_size_bytes s : string_size s = Z.of_nat (length (bytes_of_string s)).
Proof. unfold string_size. by rewrite length_bytes_of_string. Qed.

Lemma bytes_of_string_inj s t : bytes_of_string s = bytes_of_string t → s = t.
Proof.
  intros H. by rewrite <- (string_of_bytes_of_string s), H, string_of_bytes_of_string.
Qed.

Lemma string_size_nonneg s : 0 ≤ string_size s.
Proof. unfold string_size. lia. Qed.
#[export] Hint Resolve string_size_nonneg : cpp.
#[export] Hint Rewrite string_of_bytes_of_string bytes_of_string_of_bytes : cpp.
