(* ===== verification/CacheTypes.v ===== *)
(** * The cache's data: configuration, items, pointers into the storage

    [cache_config] is include/lrucache/cache_config.hxx, [cache_item] is
    src/cache/cache_item.hxx.  A [std::string] is a [string] (a sequence of
    bytes), an [item_data] vector a list of bytes.

    Pointers.  A [cache_item] holds a [const std::string*] to the key stored
    in the [item_map_] node of its storage; a snapshot event holds such a
    pointer and a [cache_item*].  A key pointer is the storage and the map
    node it points into, together with the key found there (the key of an
    [unordered_map] node never changes while the node lives).  Reading
    through it is checked against the storage, so that a pointer that
    outlives its node is caught. *)
From S2P Require Import Prelude Bytes.
Local Open Scope Z_scope.

Record cache_config := CacheConfig {
  host : string;
  port : Z;
  discovery_address : string;
  discovery_port : Z;
  fallback_address : string;
  fallback_port : Z;
  cache_size : Z;
  max_item_size : Z;
  max_key_size : Z;
  purge_interval : Z;
  raft_host : string;
  raft_port : Z;
  heart_beat_interval : Z;
  election_timeout_lower_bound : Z;
  election_timeout_upper_bound : Z;
  reserved_log_items : Z;
  snapshot_distance : Z;
  client_req_timeout : Z
}.

(** The two storages of a [cache_state]. *)
Inductive storage_id := MainStorage | SnapshotStorage.
#[export] Instance storage_id_eq_dec : EqDecision storage_id.
Proof. solve_decision. Defined.

(** [const std::string*], into a node of [item_map_]. *)
Record key_ptr := KeyPtr { kp_store : storage_id; kp_node : nat; kp_key : string }.
#[export] Instance key_ptr_eq_dec : EqDecision key_ptr.
Proof. solve_decision. Defined.

(** [cache_item*], into a node of [items_]. *)
Record item_ptr := ItemPtr { ip_store : storage_id; ip_node : nat }.
#[export] Instance item_ptr_eq_dec : EqDecision item_ptr.
Proof. solve_decision. Defined.

Record cache_item := CacheItem {
  key : option key_ptr;
  data : list byte;
  data_size : Z;
  expires_at : Z
}.
#[export] Instance cache_item_eq_dec : EqDecision cache_item.
Proof. solve_decision. Defined.

(** The constructor [cache_item(bytes, len, exp)]: the bytes are copied into
    a vector of [len] bytes; [bytes] is what is readable at the pointer. *)
Definition new_cache_item (bytes : list byte) (len exp : Z) : outcome cache_item :=
  if decide (Z.to_nat len ≤ length bytes)%nat
  then Ok (CacheItem None (take (Z.to_nat len) bytes) len exp)
  else undefined OutOfBounds.

Definition is_expired (it : cache_item) (checked_at : Z) : bool :=
  expires_at it <=? checked_at.

(** [cache_item::size()]; [k] is the key read through the pointer, if any. *)
Definition item_size (k : option string) (it : cache_item) : Z :=
  let result := 0 in
  let result := u64 (result + 8) in
  let result := match k with Some s => u64 (result + string_size s) | None => result end in
  let result := u64 (result + 8) in
  let result := u64 (result + data_size it) in
  u64 (result + 8).

Definition set_key (kp : option key_ptr) (it : cache_item) : cache_item :=
  CacheItem kp (data it) (data_size it) (expires_at it).

