(* ===== verification/CacheStorage.v ===== *)
(** * cache_storage: the LRU storage

    src/cache/cache_storage.{hxx,cc}.  [items_] is the list of items, most
    recently used first; [item_map_] finds the list node of a key;
    [expiry_buckets_] groups the keys by the purge time of their item.  The
    containers refer to each other by iterators and key pointers, all of which
    are modelled as such: an operation that reads through an iterator or a
    pointer whose node is gone is undefined behaviour.

    [std::time(nullptr)] is an argument of the operations that call it.
    Virtual calls go through the class [StorageVtable], so that
    [snapshot_storage] inherits [commit_write], [read] and
    [get_required_memory] with its own overrides. *)
From S2P Require Import Prelude StdContainers Bytes CacheTypes.
Local Open Scope Z_scope.

Inductive commit_result := DONE_OK | NOT_FOUND | KEY_TOO_BIG | DATA_TOO_BIG | WRONG_EXPIRY.
#[export] Instance commit_result_eq_dec : EqDecision commit_result.
Proof. solve_decision. Defined.

Record internal_iterators := InternalIterators {
  item_iter : nat;
  expiry_map_iter : nat;
  expiry_bucket_iter : nat
}.

(** A node of the [unordered_map]: its address and its mapped value. *)
Record map_node := MapNode { mn_id : nat; mn_iters : internal_iterators }.

(** [std::list<const std::string*>] *)
Abbreviation bucket := (list (nat * option key_ptr)).

Record cache_storage := Storage {
  st_id : storage_id;
  st_config : cache_config;
  item_map_ : gmap string map_node;
  items_ : list (nat * cache_item);
  expiry_buckets_ : list (nat * (Z * bucket));
  used_memory_ : Z;
  commit_code_ : option commit_result;
  next_node : nat
}.

Definition new_storage (id : storage_id) (config : cache_config) : cache_storage :=
  Storage id config ∅ [] [] 0 None 0.

Definition with_items (l : list (nat * cache_item)) (s : cache_storage) : cache_storage :=
  Storage (st_id s) (st_config s) (item_map_ s) l (expiry_buckets_ s)
    (used_memory_ s) (commit_code_ s) (next_node s).
Definition with_commit_code (c : commit_result) (s : cache_storage) : cache_storage :=
  Storage (st_id s) (st_config s) (item_map_ s) (items_ s) (expiry_buckets_ s)
    (used_memory_ s) (Some c) (next_node s).

(** [*p] for a key pointer into [s]. *)
Definition deref_key (s : cache_storage) (p : option key_ptr) : outcome string :=
  match p with
  | None => undefined NullPointer
  | Some p =>
      match item_map_ s !! kp_key p with
      | Some mn =>
          if decide (kp_store p = st_id s ∧ kp_node p = mn_id mn)
          then Ok (kp_key p) else undefined DanglingPointer
      | None => undefined DanglingPointer
      end
  end.

(** [*p] for an item pointer into [s]. *)
Definition deref_item (s : cache_storage) (p : item_ptr) : outcome cache_item :=
  or_ub DanglingPointer (deref (ip_node p) (items_ s)).

(** ** Memory and time computations *)

(** [sizeof(cache_item)] and [sizeof(std::list<cache_item>::iterator)] on the
    64-bit targets the tests assume. *)
Definition sizeof_cache_item : Z := 40.
Definition sizeof_list_iterator : Z := 8.

Definition get_item_size (k : string) (data_size : Z) : Z :=
  let result := u64 (0 + sizeof_cache_item) in
  let result := u64 (result + sizeof_list_iterator) in
  let result := u64 (result + data_size) in
  u64 (result + string_size k).

Definition next_purge_time (current interval : Z) : outcome Z :=
  if decide (interval = 0) then undefined DivisionByZero else
  let remainder := i32 (Z.rem current interval) in
  difference ← chk_s 32 (interval - remainder);
  chk_s 64 (current + difference).

(** ** Lookup *)

Definition get_item (s : cache_storage) (k : string) (when : Z) :
    outcome (option (item_ptr * cache_item)) :=
  match item_map_ s !! k with
  | Some mn =>
      it ← or_ub DanglingIterator (deref (item_iter (mn_iters mn)) (items_ s));
      if negb (is_expired it when)
      then Ok (Some (ItemPtr (st_id s) (item_iter (mn_iters mn)), it))
      else Ok None
  | None => Ok None
  end.

Definition mark_as_recently_used (s : cache_storage) (k : string) : outcome cache_storage :=
  match item_map_ s !! k with
  | Some mn =>
      let i := item_iter (mn_iters mn) in
      _ ← or_ub DanglingIterator (deref i (items_ s));
      Ok (with_items (splice_front i (items_ s)) s)
  | None => Ok s
  end.

(** ** Expiry buckets *)

(** [std::map::emplace_hint(end(), t, {})]: the node of [t], created empty at
    its place in the order when absent. *)
Fixpoint bucket_at (t : Z) (l : list (nat * (Z * bucket))) : option nat :=
  match l with
  | [] => None
  | (b, (t', _)) :: l => if decide (t' = t) then Some b else bucket_at t l
  end.

Fixpoint bucket_insert (n : nat) (t : Z) (l : list (nat * (Z * bucket))) :
    list (nat * (Z * bucket)) :=
  match l with
  | [] => [(n, (t, []))]
  | (b, (t', es)) :: l =>
      if decide (t < t') then (n, (t, [])) :: (b, (t', es)) :: l
      else (b, (t', es)) :: bucket_insert n t l
  end.

Definition emplace_bucket (n : nat) (t : Z) (l : list (nat * (Z * bucket))) :
    nat * list (nat * (Z * bucket)) :=
  match bucket_at t l with
  | Some b => (b, l)
  | None => (n, bucket_insert n t l)
  end.

(** [bucket->insert(bucket->end(), p)], [*bucket_iter = p] and
    [bucket.erase(bucket_iter)] followed by the removal of an empty bucket. *)
Definition bucket_push (b e : nat) (p : option key_ptr) (l : list (nat * (Z * bucket))) :
    outcome (list (nat * (Z * bucket))) :=
  '(t, es) ← or_ub DanglingIterator (deref b l);
  Ok (write b (t, es ++ [(e, p)]) l).

Definition bucket_set (b e : nat) (p : option key_ptr) (l : list (nat * (Z * bucket))) :
    outcome (list (nat * (Z * bucket))) :=
  '(t, es) ← or_ub DanglingIterator (deref b l);
  _ ← or_ub DanglingIterator (deref e es);
  Ok (write b (t, write e p es) l).

Definition bucket_erase (b e : nat) (l : list (nat * (Z * bucket))) :
    outcome (list (nat * (Z * bucket))) :=
  '(t, es) ← or_ub DanglingIterator (deref b l);
  _ ← or_ub DanglingIterator (deref e es);
  if decide (length (erase e es) = 0%nat) then Ok (erase b l)
  else Ok (write b (t, erase e es) l).

(** ** Insertion, update, removal *)

Definition insert_item (s : cache_storage) (k : string) (it : cache_item) (written_at : Z) :
    outcome (cache_storage * (item_ptr * cache_item)) :=
  let i := next_node s in
  let b_new := S i in
  let e := S b_new in
  let m := S e in
  (* insert into items_ *)
  let items := (i, it) :: items_ s in
  (* make sure expiry bucket already exist *)
  purge_at ← next_purge_time (expires_at it) (purge_interval (st_config s));
  let '(b, buckets) := emplace_bucket b_new purge_at (expiry_buckets_ s) in
  (* insert temporary key into the bucket *)
  buckets ← bucket_push b e None buckets;
  (* insert into item_map_: no effect when the key is already there *)
  let '(mn, item_map) :=
    match item_map_ s !! k with
    | Some mn => (mn, item_map_ s)
    | None =>
        let mn := MapNode m (InternalIterators i b e) in
        (mn, <[k := mn]> (item_map_ s))
    end in
  (* update keys *)
  let kp := Some (KeyPtr (st_id s) (mn_id mn) k) in
  buckets ← bucket_set b e kp buckets;
  let it' := set_key kp it in
  let items := write i it' items in
  (* update used_memory_ *)
  let size := get_item_size k (data_size it') in
  Ok (Storage (st_id s) (st_config s) item_map items buckets
        (u64 (used_memory_ s + size)) (commit_code_ s) (S m),
      (ItemPtr (st_id s) i, it')).

Definition update_item_expiry_bucket (s : cache_storage) (k : string)
    (old_expiry new_expiry : Z) : outcome cache_storage :=
  expiry1 ← next_purge_time old_expiry (purge_interval (st_config s));
  expiry2 ← next_purge_time new_expiry (purge_interval (st_config s));
  if decide (expiry1 = expiry2) then Ok s else
  mn ← or_ub DanglingIterator (item_map_ s !! k);
  let iters := mn_iters mn in
  let b_new := next_node s in
  let e_new := S b_new in
  (* make sure the destination bucket exists *)
  let '(b, buckets) := emplace_bucket b_new expiry2 (expiry_buckets_ s) in
  (* insert into the new bucket and update the iterators *)
  it ← or_ub DanglingIterator (deref (item_iter iters) (items_ s));
  buckets ← bucket_push b e_new (key it) buckets;
  let iters' := InternalIterators (item_iter iters) b e_new in
  let item_map := <[k := MapNode (mn_id mn) iters']> (item_map_ s) in
  (* delete the previous entry, and its bucket when empty *)
  buckets ← bucket_erase (expiry_map_iter iters) (expiry_bucket_iter iters) buckets;
  Ok (Storage (st_id s) (st_config s) item_map (items_ s) buckets
        (used_memory_ s) (commit_code_ s) (S e_new)).

Definition update_item (s : cache_storage) (k : string) (it : cache_item) (written_at : Z) :
    outcome (cache_storage * (item_ptr * cache_item)) :=
  mn ← or_ub DanglingIterator (item_map_ s !! k);
  let i := item_iter (mn_iters mn) in
  old ← or_ub DanglingIterator (deref i (items_ s));
  let old_key := key old in
  let old_expiry := expires_at old in
  (* update memory used *)
  let new_item_size := get_item_size k (data_size it) in
  let old_item_size := get_item_size k (data_size old) in
  let used := u64 (used_memory_ s + u64 (new_item_size - old_item_size)) in
  (* update item *)
  let it' := set_key old_key it in
  let items := splice_front i (write i it' (items_ s)) in
  s' ← update_item_expiry_bucket
         (Storage (st_id s) (st_config s) (item_map_ s) items (expiry_buckets_ s)
            used (commit_code_ s) (next_node s))
         k old_expiry (expires_at it);
  Ok (s', (ItemPtr (st_id s) i, it')).

(** Returns the iterator after the removed item, [end()] when the key is not
    in the map. *)
Definition remove_item (s : cache_storage) (k : string) : outcome (cache_storage * iter) :=
  match item_map_ s !! k with
  | None => Ok (s, None)
  | Some mn =>
      let iters := mn_iters mn in
      let i := item_iter iters in
      it ← or_ub DanglingIterator (deref i (items_ s));
      k' ← deref_key s (key it);
      let size := get_item_size k' (data_size it) in
      let next := next_of i (items_ s) in
      buckets ← bucket_erase (expiry_map_iter iters) (expiry_bucket_iter iters)
                  (expiry_buckets_ s);
      Ok (Storage (st_id s) (st_config s) (delete k (item_map_ s)) (erase i (items_ s))
            buckets (u64 (used_memory_ s - size)) (commit_code_ s) (next_node s),
          next)
  end.

Definition clear (s : cache_storage) : cache_storage :=
  Storage (st_id s) (st_config s) ∅ [] [] 0 (commit_code_ s) (next_node s).

(** ** Eviction

    The reverse iterator is its base [it]: it points to the node before it.
    One unit of fuel per evaluation of the loop test. *)
Fixpoint evict_loop (fuel : nat) (s : cache_storage) (k : string)
    (memory_required available_memory : Z) (it : iter) : outcome cache_storage :=
  match fuel with
  | O => Fault OutOfFuel
  | S fuel =>
      if negb (valid_pos it (items_ s)) then undefined DanglingIterator else
      match before it (items_ s) with
      | None => Ok s
      | Some (i, item) =>
          k' ← deref_key s (key item);
          if decide (k' = k) then
            evict_loop fuel s k memory_required available_memory (Some i)
          else
            let size := get_item_size k' (data_size item) in
            '(s', it') ← remove_item s k';
            let available_memory := i32 (u64 (available_memory + size)) in
            if memory_required <=? available_memory then Ok s'
            else evict_loop fuel s' k memory_required available_memory it'
      end
  end.

Definition evict_lru_data (s : cache_storage) (k : string) (memory_required : Z) :
    outcome cache_storage :=
  let available_memory := i32 (u64 (cache_size (st_config s) - used_memory_ s)) in
  if memory_required <=? available_memory then Ok s
  else evict_loop (S (length (items_ s))) s k memory_required available_memory None.

(** ** Purge

    [remove_item] erases a bucket with its last key, and the inner loop then
    evaluates [current->second.end()] on the erased bucket.  The standard
    leaves that undefined ([StrictEnd]); in libstdc++ [end()] is an address
    computation that reads no memory, and the comparison is that of the
    address [j] already holds ([AddressEnd]). *)
Inductive end_policy := StrictEnd | AddressEnd.

Definition at_bucket_end (policy : end_policy) (s : cache_storage) (b : nat) (j : iter) :
    outcome bool :=
  match deref b (expiry_buckets_ s), policy with
  | None, StrictEnd => undefined DanglingIterator
  | _, _ => Ok (bool_decide (j = None))
  end.

Fixpoint purge_bucket (policy : end_policy) (fuel : nat) (s : cache_storage) (b : nat)
    (j : iter) : outcome cache_storage :=
  match fuel with
  | O => Fault OutOfFuel
  | S fuel =>
      stop ← at_bucket_end policy s b j;
      if (stop : bool) then Ok s else
      '(_, es) ← or_ub DanglingIterator (deref b (expiry_buckets_ s));
      e ← or_ub DanglingIterator j;
      p ← or_ub DanglingIterator (deref e es);
      let j' := next_of e es in
      k ← deref_key s p;
      '(s', _) ← remove_item s k;
      purge_bucket policy fuel s' b j'
  end.

Fixpoint purge_buckets (policy : end_policy) (fuel : nat) (s : cache_storage) (prev : Z)
    (i : iter) : outcome cache_storage :=
  match fuel with
  | O => Fault OutOfFuel
  | S fuel =>
      match i with
      | None => Ok s
      | Some current =>
          '(t, es) ← or_ub DanglingIterator (deref current (expiry_buckets_ s));
          let i' := next_of current (expiry_buckets_ s) in
          if prev <? t then Ok s else
          s' ← purge_bucket policy (S (length es)) s current (begin_ es);
          purge_buckets policy fuel s' prev i'
      end
  end.

Definition commit_purge_with (policy : end_policy) (s : cache_storage) (purged_at : Z) :
    outcome cache_storage :=
  let interval := purge_interval (st_config s) in
  next ← next_purge_time purged_at interval;
  prev ← chk_s 64 (next - interval);
  purge_buckets policy (S (length (expiry_buckets_ s))) s prev (begin_ (expiry_buckets_ s)).

Definition commit_purge : cache_storage → Z → outcome cache_storage :=
  commit_purge_with AddressEnd.

(** ** The operations that make virtual calls *)

(** What [commit_write], [read] and [get_required_memory] call through
    [this], and the data members they reach in the [cache_storage] base. *)
Class StorageVtable (T : Type) := {
  v_base : T → cache_storage;
  v_with_base : cache_storage → T → T;
  v_get_item : T → string → Z → outcome (option (item_ptr * cache_item));
  v_evict_lru_data : T → string → Z → outcome T;
  v_insert_item : T → string → cache_item → Z → outcome (T * (item_ptr * cache_item));
  v_update_item : T → string → cache_item → Z → outcome (T * (item_ptr * cache_item))
}.

Section virtual_operations.
Context {T : Type} `{StorageVtable T}.
Implicit Types (s : T).

Definition set_commit_code (c : commit_result) (s : T) : T :=
  v_with_base (with_commit_code c (v_base s)) s.

(** [cache_storage::read]: the bytes and their number, [None] for nullptr.
    [now] is [std::time(nullptr)]. *)
Definition read (now : Z) (s : T) (k : string) : outcome (option (list byte * Z)) :=
  item ← v_get_item s k now;
  match item with
  | None => Ok None
  | Some (_, it) => Ok (Some (data it, data_size it))
  end.

Definition get_required_memory (s : T) (k : string) (it : cache_item) (written_at : Z) :
    outcome Z :=
  let item_size := get_item_size k (data_size it) in
  old_item ← v_get_item s k written_at;
  let old_size :=
    match old_item with
    | Some (_, old) => get_item_size k (data_size old)
    | None => 0
    end in
  Ok (i32 (u64 (item_size - old_size))).

Definition commit_write (s : T) (k : string) (it : cache_item) (written_at : Z) :
    outcome (T * bool) :=
  if decide (string_size k > max_key_size (st_config (v_base s))) then
    Ok (set_commit_code KEY_TOO_BIG s, false)
  else if decide (data_size it < 0) then
    Ok (set_commit_code DATA_TOO_BIG s, false)
  else if is_expired it written_at then
    Ok (set_commit_code WRONG_EXPIRY s, false)
  else
    required_memory ← get_required_memory s k it written_at;
    s ← v_evict_lru_data s k required_memory;
    old_item ← v_get_item s k written_at;
    '(s, _) ← match old_item with
              | Some _ => v_update_item s k it written_at
              | None => v_insert_item s k it written_at
              end;
    Ok (set_commit_code DONE_OK s, true).
End virtual_operations.

#[export] Instance cache_storage_vtable : StorageVtable cache_storage := {|
  v_base := id;
  v_with_base := λ b _, b;
  v_get_item := get_item;
  v_evict_lru_data := evict_lru_data;
  v_insert_item := insert_item;
  v_update_item := update_item
|}.

(** [cache_storage::commit_read], which [snapshot_storage] overrides. *)
Definition commit_read (s : cache_storage) (k : string) (read_at : Z) :
    outcome (cache_storage * bool) :=
  item ← get_item s k read_at;
  match item with
  | None => Ok (with_commit_code NOT_FOUND s, false)
  | Some _ =>
      s' ← mark_as_recently_used (with_commit_code DONE_OK s) k;
      Ok (s', true)
  end.

(** ** Snapshot chunks

    The buffer of [chunk_size] bytes, the index of the next item ([-1] when
    all were read) and the number of bytes written. *)
Fixpoint snapshot_loop (s : cache_storage) (l : list (nat * cache_item)) (chunk_size : Z)
    (out : list byte) (item_index read : Z) : outcome (list byte * Z * Z) :=
  match l with
  | [] => Ok (out, -1, read)
  | (_, it) :: l =>
      k_opt ← match key it with
              | None => Ok None
              | Some _ => k ← deref_key s (key it); Ok (Some k)
              end;
      let size := item_size k_opt it in
      if decide (u64 (read + size) > chunk_size) then Ok (out, item_index, read) else
      k ← deref_key s (key it);
      if decide (Z.of_nat (length (data it)) < data_size it) then undefined OutOfBounds else
      let out := out ++ word_bytes 8 (string_size k) ++ bytes_of_string k
                     ++ word_bytes 8 (data_size it)
                     ++ take (Z.to_nat (data_size it)) (data it)
                     ++ word_bytes 8 (expires_at it) in
      if decide (chunk_size < Z.of_nat (length out)) then undefined OutOfBounds else
      item_index ← chk_s 32 (item_index + 1);
      snapshot_loop s l chunk_size out item_index (u64 (read + size))
  end.

Definition read_snapshot_chunk (s : cache_storage) (chunk_size item_index : Z) :
    outcome (list byte * Z * Z) :=
  let n := Z.min (Z.of_nat (length (items_ s))) (u64 item_index) in
  '(out, item_index, read) ←
    snapshot_loop s (drop (Z.to_nat n) (items_ s)) chunk_size [] item_index 0;
  Ok (out ++ replicate (Z.to_nat chunk_size - length out) Byte.x00, item_index, read).
