(* ===== verification/CacheStorageInv.v ===== *)
(** * The linking invariant of cache_storage and its preservation *)
From S2P Require Import Prelude StdContainers Bytes CacheTypes CacheStorage.
Local Open Scope Z_scope.

(** ** The expiry buckets as a relation

    [in_bucket l b t e p]: the bucket node [b], of purge time [t], holds the
    list node [e] with key pointer [p]. *)
Definition in_bucket (l : list (nat * (Z * bucket))) (b : nat) (t : Z) (e : nat)
    (p : option key_ptr) : Prop :=
  ∃ es, (b, (t, es)) ∈ l ∧ (e, p) ∈ es.

Definition bucket_times (l : list (nat * (Z * bucket))) : list Z := (λ x, x.2.1) <$> l.

Record buckets_ok (l : list (nat * (Z * bucket))) : Prop := {
  bo_nodes : NoDup l.*1;
  bo_sorted : StronglySorted Z.lt (bucket_times l);
  bo_entries : ∀ b t es, (b, (t, es)) ∈ l → NoDup es.*1
}.

Lemma bucket_times_erase b l t :
  t ∈ bucket_times (erase b l) → t ∈ bucket_times l.
Proof.
  unfold bucket_times. rewrite !list_elem_of_fmap.
  intros ([b' [t' es]] & -> & [_ Hin]%elem_of_erase). eauto.
Qed.

Lemma StronglySorted_times_erase b l :
  StronglySorted Z.lt (bucket_times l) → StronglySorted Z.lt (bucket_times (erase b l)).
Proof.
  unfold bucket_times, erase. induction l as [|[b' [t' es]] l IH]; [done|].
  simpl. intros [Hs Hall]%StronglySorted_inv.
  rewrite filter_cons. simpl. case_decide; [|auto]. simpl. constructor; [auto|].
  rewrite Forall_forall in Hall |- *. intros x Hx. apply Hall.
  by apply (bucket_times_erase b).
Qed.

Lemma bucket_times_write b t es es0 l :
  NoDup l.*1 → (b, (t, es0)) ∈ l → bucket_times (write b (t, es) l) = bucket_times l.
Proof.
  intros Hnd (l1 & l2 & ->)%list_elem_of_split.
  rewrite write_split by done. unfold bucket_times. by rewrite !fmap_app.
Qed.

Section bucket_operations.
Implicit Types (l : list (nat * (Z * bucket))) (es : bucket).

Lemma in_bucket_write l b t es es0 b' t' e p :
  NoDup l.*1 → (b, (t, es0)) ∈ l →
  in_bucket (write b (t, es) l) b' t' e p ↔
  (b' = b ∧ t' = t ∧ (e, p) ∈ es) ∨ (b' ≠ b ∧ in_bucket l b' t' e p).
Proof.
  intros Hnd Hin. unfold in_bucket.
  assert (b ∈ l.*1) by eauto using fst_elem.
  setoid_rewrite elem_of_write; [|done..]. naive_solver.
Qed.

Lemma buckets_ok_write l b t es es0 :
  buckets_ok l → (b, (t, es0)) ∈ l → NoDup es.*1 → buckets_ok (write b (t, es) l).
Proof.
  intros [Hn Hs He] Hin Hes. split.
  - by rewrite write_fst.
  - by rewrite (bucket_times_write b t es es0).
  - intros b' t' es'. rewrite elem_of_write; [naive_solver|done|].
    eauto using fst_elem.
Qed.

Lemma buckets_ok_erase l b : buckets_ok l → buckets_ok (erase b l).
Proof.
  intros [Hn Hs He]. split.
  - by apply erase_NoDup.
  - by apply StronglySorted_times_erase.
  - intros b' t' es' [_ ?]%elem_of_erase. eauto.
Qed.

Lemma bucket_at_Some l t b : bucket_at t l = Some b → ∃ es, (b, (t, es)) ∈ l.
Proof.
  induction l as [|[b' [t' es']] l IH]; simpl; [done|].
  case_decide; simplify_eq.
  - intros [= ->]. eexists. by left.
  - intros (es & ?)%IH. exists es. by right.
Qed.

Lemma bucket_at_None l t : bucket_at t l = None → t ∉ bucket_times l.
Proof.
  induction l as [|[b' [t' es']] l IH]; simpl; [intros _; apply not_elem_of_nil|].
  case_decide; [done|]. rewrite not_elem_of_cons. naive_solver.
Qed.

Lemma elem_of_bucket_insert n t l x :
  x ∈ bucket_insert n t l ↔ x = (n, (t, [])) ∨ x ∈ l.
Proof.
  induction l as [|[b' [t' es']] l IH]; simpl.
  - by rewrite list_elem_of_singleton, elem_of_nil; naive_solver.
  - case_decide; rewrite ?elem_of_cons, ?IH, ?elem_of_cons; naive_solver.
Qed.

Lemma bucket_insert_perm n t l : bucket_insert n t l ≡ₚ (n, (t, [])) :: l.
Proof.
  induction l as [|[b' [t' es']] l IH]; simpl; [done|].
  case_decide; [done|]. rewrite IH. by rewrite Permutation_swap.
Qed.

Lemma bucket_insert_sorted n t l :
  StronglySorted Z.lt (bucket_times l) → t ∉ bucket_times l →
  StronglySorted Z.lt (bucket_times (bucket_insert n t l)).
Proof.
  induction l as [|[b' [t' es']] l IH]; simpl; intros Hs Ht.
  - repeat constructor.
  - apply StronglySorted_inv in Hs as [Hs Hall].
    rewrite not_elem_of_cons in Ht. destruct Ht as [Hne Ht].
    case_decide as Hlt; simpl.
    + constructor; [by constructor|]. constructor; [done|].
      eapply Forall_impl; [exact Hall|]. simpl. lia.
    + constructor; [by apply IH|].
      rewrite Forall_forall in Hall |- *. intros x.
      unfold bucket_times. rewrite list_elem_of_fmap.
      intros (y & -> & [->|Hy]%elem_of_bucket_insert); simpl; [lia|].
      apply Hall. unfold bucket_times. apply list_elem_of_fmap. eauto.
Qed.

(** [emplace_hint] finds or creates the bucket of [t] and moves no entry. *)
Lemma emplace_bucket_spec n t l b l' :
  buckets_ok l → n ∉ l.*1 → emplace_bucket n t l = (b, l') →
  buckets_ok l' ∧ (∃ es, (b, (t, es)) ∈ l') ∧
  (∀ b' t' e p, in_bucket l' b' t' e p ↔ in_bucket l b' t' e p) ∧
  (∀ b' t' es, (b', (t', es)) ∈ l' → (b', (t', es)) ∈ l ∨ (b' = b ∧ b' = n ∧ es = [])).
Proof.
  intros [Hn Hs He] Hfresh. unfold emplace_bucket.
  destruct (bucket_at t l) as [b0|] eqn:E; intros [= <- <-].
  - apply bucket_at_Some in E as [es Hin]. split; [done|]. split; [eauto|].
    split; [done|]. naive_solver.
  - apply bucket_at_None in E. repeat split.
    + rewrite (bucket_insert_perm n t l). by constructor.
    + by apply bucket_insert_sorted.
    + intros b' t' es [Heq|?]%elem_of_bucket_insert; [|eauto].
      simplify_eq. constructor.
    + exists []. apply elem_of_bucket_insert. auto.
    + intros (es & [?|Hin]%elem_of_bucket_insert & Hes); simplify_eq.
      * by apply not_elem_of_nil in Hes.
      * by exists es.
    + intros (es & Hin & Hes). exists es. split; [|done].
      apply elem_of_bucket_insert. auto.
    + intros b' t' es [Heq|?]%elem_of_bucket_insert; [|auto].
      simplify_eq. auto.
Qed.

Lemma bucket_push_spec l b t es e p :
  buckets_ok l → (b, (t, es)) ∈ l → e ∉ es.*1 →
  ∃ l', bucket_push b e p l = Ok l' ∧ buckets_ok l' ∧ (b, (t, es ++ [(e, p)])) ∈ l' ∧
    l' = write b (t, es ++ [(e, p)]) l ∧
    (∀ b' t' e' p', in_bucket l' b' t' e' p' ↔
       in_bucket l b' t' e' p' ∨ (b' = b ∧ t' = t ∧ e' = e ∧ p' = p)).
Proof.
  intros Hok Hin He. pose proof Hok as [Hn Hs Hes].
  assert (b ∈ l.*1) by eauto using fst_elem.
  unfold bucket_push. rewrite (elem_deref b (t, es)) by done. simpl.
  eexists. split; [done|]. split; [|split; [|split; [done|]]].
  - apply (buckets_ok_write _ _ _ _ es); [done..|].
    rewrite fmap_app, NoDup_app. simpl. repeat split.
    + eauto.
    + intros x Hx. rewrite list_elem_of_singleton. congruence.
    + apply NoDup_singleton.
  - apply elem_of_write; auto.
  - intros b' t' e' p'. rewrite (in_bucket_write _ _ _ _ es) by done.
    rewrite elem_of_app, list_elem_of_singleton. split.
    + intros [(-> & -> & [?|?])|[? ?]]; simplify_eq; [left|right|left]; auto.
      by exists es.
    + intros [(es' & Hin' & Hes')|(-> & -> & -> & ->)]; [|by auto].
      destruct (decide (b' = b)) as [->|]; [|right; split; [done|by exists es']].
      pose proof (node_inj _ _ _ _ Hn Hin Hin'). simplify_eq. auto.
Qed.

(** Pushing a placeholder and then setting it is pushing the pointer. *)
Lemma bucket_push_set l b t es e p :
  buckets_ok l → (b, (t, es)) ∈ l → e ∉ es.*1 →
  (l' ← bucket_push b e None l; bucket_set b e p l') = bucket_push b e p l.
Proof.
  intros Hok Hin He. pose proof Hok as [Hn Hs Hes].
  destruct (bucket_push_spec l b t es e None) as (l1 & E1 & Hok1 & Hin1 & -> & _); [done..|].
  rewrite E1. simpl. unfold bucket_set, bucket_push.
  pose proof (bo_nodes _ Hok1) as Hn1. pose proof (bo_entries _ Hok1 _ _ _ Hin1) as Hes1.
  rewrite (elem_deref _ _ _ Hn1 Hin1), (elem_deref _ _ _ Hn Hin). simpl.
  rewrite (deref_split e None) by done. simpl.
  by rewrite write_split, write_write by done.
Qed.

Lemma bucket_erase_spec l b t es e p :
  buckets_ok l → (b, (t, es)) ∈ l → (e, p) ∈ es →
  ∃ l', bucket_erase b e l = Ok l' ∧ buckets_ok l' ∧
    (∀ b' t' e' p', in_bucket l' b' t' e' p' ↔
       in_bucket l b' t' e' p' ∧ ¬ (b' = b ∧ e' = e)) ∧
    (∀ b' t' es', (b', (t', es')) ∈ l' →
       (b', (t', es')) ∈ l ∧ b' ≠ b ∨ b' = b ∧ t' = t ∧ es' = erase e es ∧ es' ≠ []) ∧
    (l' = erase b l ∧ erase e es = [] ∨
     l' = write b (t, erase e es) l ∧ erase e es ≠ []).
Proof.
  intros Hok Hin He. pose proof Hok as [Hn Hs Hes].
  assert (b ∈ l.*1) by eauto using fst_elem.
  assert (∀ b' t' e' p', in_bucket l b' t' e' p' ∧ ¬ (b' = b ∧ e' = e) ↔
    (b' = b ∧ t' = t ∧ (e', p') ∈ erase e es) ∨ (b' ≠ b ∧ in_bucket l b' t' e' p')) as Hrel.
  { intros b' t' e' p'. rewrite elem_of_erase. split.
    - intros [(es' & Hin' & Hes') Hne]. destruct (decide (b' = b)) as [->|].
      + pose proof (node_inj _ _ _ _ Hn Hin Hin'). simplify_eq. left. naive_solver.
      + right. split; [done|]. by exists es'.
    - intros [(-> & -> & ? & ?)|[? ?]].
      + split; [by exists es|naive_solver].
      + split; [done|naive_solver]. }
  unfold bucket_erase. rewrite (elem_deref _ _ _ Hn Hin). simpl.
  rewrite (elem_deref _ _ _ (Hes _ _ _ Hin) He). simpl.
  setoid_rewrite Hrel. clear Hrel.
  case_decide as Hlen; eexists; (split; [done|]).
  - apply nil_length_inv in Hlen. rewrite Hlen. repeat split.
    + by apply erase_NoDup.
    + by apply StronglySorted_times_erase.
    + intros b' t' es' [_ ?]%elem_of_erase. eauto.
    + intros (es' & [? ?]%elem_of_erase & ?). right. split; [done|by exists es'].
    + intros [(_ & _ & []%not_elem_of_nil)|(? & es' & ? & ?)].
      exists es'. split; [|done]. by apply elem_of_erase.
    + intros b' t' es' [? ?]%elem_of_erase. auto.
    + by left.
  - assert (erase e es ≠ []) by (intros E; by rewrite E in Hlen).
    split; [|split; [|split]].
    + apply (buckets_ok_write _ _ _ _ es); [done..|]. apply erase_NoDup. eauto.
    + intros. by rewrite (in_bucket_write _ _ _ _ es) by done.
    + intros b' t' es'. rewrite elem_of_write by done. naive_solver.
    + by right.
Qed.
End bucket_operations.

(** ** Purge times

    [purge_time interval e] is the first multiple of [interval] after [e]. *)
Definition purge_time (interval e : Z) : Z := e - e mod interval + interval.

Definition time_ok (t : Z) : Prop := 0 ≤ t < 2 ^ 62.
Definition interval_ok (interval : Z) : Prop := 0 < interval < 2 ^ 30.

Lemma next_purge_time_Ok t interval :
  time_ok t → interval_ok interval →
  next_purge_time t interval = Ok (purge_time interval t).
Proof.
  unfold time_ok, interval_ok. intros Ht Hi. unfold next_purge_time, purge_time.
  rewrite decide_False by lia. rewrite Z.rem_mod_nonneg by lia.
  pose proof (Z.mod_pos_bound t interval ltac:(lia)).
  rewrite (wrap_s_id 32) by (first [lia | range]).
  rewrite chk_s_Ok by range. simpl.
  rewrite chk_s_Ok by range. f_equal. lia.
Qed.

Lemma purge_time_bounds interval e :
  0 < interval → e < purge_time interval e ≤ e + interval.
Proof. intros. unfold purge_time. pose proof (Z.mod_pos_bound e interval). lia. Qed.

Lemma purge_time_multiple interval e : 0 < interval → purge_time interval e mod interval = 0.
Proof.
  intros. unfold purge_time.
  replace (e - e mod interval + interval) with ((e / interval + 1) * interval).
  - apply Z_mod_mult.
  - pose proof (Z.div_mod e interval). lia.
Qed.

(** ** The invariant *)
Definition key_of (it : cache_item) : string :=
  match key it with Some p => kp_key p | None => EmptyString end.

(** Memory an item accounts for, as an exact integer. *)
Definition footprint (k : string) (data_size : Z) : Z :=
  sizeof_cache_item + sizeof_list_iterator + data_size + string_size k.
Definition item_footprint (x : nat * cache_item) : Z :=
  footprint (key_of x.2) (data_size x.2).
Definition memory (l : list (nat * cache_item)) : Z := foldr Z.add 0 (item_footprint <$> l).

Definition item_ok (it : cache_item) : Prop :=
  data_size it = Z.of_nat (length (data it)) ∧ time_ok (expires_at it).

(** The map node [mn] of [k] and the item node [i] refer to each other. *)
Definition linked (s : cache_storage) (k : string) (mn : map_node) (it : cache_item) : Prop :=
  (item_iter (mn_iters mn), it) ∈ items_ s ∧
  key it = Some (KeyPtr (st_id s) (mn_id mn) k) ∧
  in_bucket (expiry_buckets_ s) (expiry_map_iter (mn_iters mn))
    (purge_time (purge_interval (st_config s)) (expires_at it))
    (expiry_bucket_iter (mn_iters mn)) (key it).

Record wf (s : cache_storage) : Prop := {
  wf_interval : interval_ok (purge_interval (st_config s));
  wf_items_nodes : NoDup (items_ s).*1;
  wf_buckets : buckets_ok (expiry_buckets_ s);
  wf_nonempty : ∀ b t es, (b, (t, es)) ∈ expiry_buckets_ s → es ≠ [];
  wf_items : ∀ i it, (i, it) ∈ items_ s →
    ∃ k mn, item_map_ s !! k = Some mn ∧ item_iter (mn_iters mn) = i ∧ linked s k mn it;
  wf_map : ∀ k mn, item_map_ s !! k = Some mn → ∃ it, linked s k mn it;
  wf_entries : ∀ b t e p, in_bucket (expiry_buckets_ s) b t e p →
    ∃ k mn, item_map_ s !! k = Some mn ∧ p = Some (KeyPtr (st_id s) (mn_id mn) k) ∧
      expiry_map_iter (mn_iters mn) = b ∧ expiry_bucket_iter (mn_iters mn) = e;
  wf_item_ok : ∀ i it, (i, it) ∈ items_ s → item_ok it;
  wf_used : used_memory_ s = u64 (memory (items_ s));
  wf_fresh_items : ∀ i it, (i, it) ∈ items_ s → (i < next_node s)%nat;
  wf_fresh_buckets : ∀ b x, (b, x) ∈ expiry_buckets_ s → (b < next_node s)%nat;
  wf_fresh_entries : ∀ b t e p, in_bucket (expiry_buckets_ s) b t e p → (e < next_node s)%nat;
  wf_fresh_map : ∀ k mn, item_map_ s !! k = Some mn → (mn_id mn < next_node s)%nat
}.

Lemma wf_new id config : interval_ok (purge_interval config) → wf (new_storage id config).
Proof.
  intros Hi. split; simpl; try done.
  - constructor.
  - split; simpl; [constructor|constructor|]. by intros ? ? ? ?%not_elem_of_nil.
  - by intros ? ? ? ?%not_elem_of_nil.
  - by intros ? ? ?%not_elem_of_nil.
  - by intros ? ? ? ? (? & ?%not_elem_of_nil & ?).
  - by intros ? ? ?%not_elem_of_nil.
  - by intros ? ? ?%not_elem_of_nil.
  - by intros ? ? ?%not_elem_of_nil.
  - by intros ? ? ? ? (? & ?%not_elem_of_nil & ?).
Qed.

Lemma get_item_size_footprint k n : get_item_size k n = u64 (footprint k n).
Proof.
  unfold get_item_size, footprint.
  rewrite !wrap_u_add. by f_equal.
Qed.

Lemma footprint_pos k it : item_ok it → 0 < footprint k (data_size it).
Proof.
  intros [-> _]. unfold footprint, sizeof_cache_item, sizeof_list_iterator.
  pose proof (string_size_nonneg k). lia.
Qed.

Lemma memory_perm l1 l2 : l1 ≡ₚ l2 → memory l1 = memory l2.
Proof.
  intros H. unfold memory. apply (foldr_permutation_proper (=) Z.add 0); [intros; lia|by rewrite H].
Qed.

Lemma memory_cons i it l : memory ((i, it) :: l) = footprint (key_of it) (data_size it) + memory l.
Proof. done. Qed.

Lemma memory_app l1 l2 : memory (l1 ++ l2) = memory l1 + memory l2.
Proof. induction l1 as [|[i it] l1 IH]; [done|]. rewrite <- app_comm_cons, !memory_cons. lia. Qed.

(** ** Consequences of the invariant *)
Section wf_facts.
Context (s : cache_storage) (Hwf : wf s).

Lemma wf_deref_key k mn :
  item_map_ s !! k = Some mn → deref_key s (Some (KeyPtr (st_id s) (mn_id mn) k)) = Ok k.
Proof. intros E. simpl. rewrite E. by rewrite decide_True. Qed.

Lemma wf_item_key i it :
  (i, it) ∈ items_ s → ∃ mn, item_map_ s !! key_of it = Some mn ∧
    item_iter (mn_iters mn) = i ∧ linked s (key_of it) mn it ∧
    deref_key s (key it) = Ok (key_of it).
Proof.
  intros Hin. destruct (wf_items s Hwf i it Hin) as (k & mn & E & Ei & Hl).
  pose proof Hl as (_ & Ek & _).
  assert (key_of it = k) as -> by (unfold key_of; by rewrite Ek).
  exists mn. rewrite Ek. eauto using wf_deref_key.
Qed.

Lemma wf_key_inj i it j it' :
  (i, it) ∈ items_ s → (j, it') ∈ items_ s → key_of it = key_of it' → i = j ∧ it = it'.
Proof.
  intros Hi Hj Hk.
  destruct (wf_item_key i it Hi) as (mn & E & <- & _).
  destruct (wf_item_key j it' Hj) as (mn' & E' & <- & _).
  rewrite Hk, E' in E. injection E as ->. split; [done|].
  eapply node_inj; [apply (wf_items_nodes s Hwf)|done|done].
Qed.

Lemma wf_keys_NoDup : NoDup ((key_of ∘ snd) <$> items_ s).
Proof.
  apply NoDup_fmap_2_strong.
  - intros [i it] [j it'] Hi Hj Hk. simpl in Hk.
    by destruct (wf_key_inj i it j it') as [-> ->].
  - by apply (NoDup_fmap_1 fst), (wf_items_nodes s Hwf).
Qed.

Lemma wf_lookup_map k : 
  match item_map_ s !! k with
  | Some mn => ∃ it, (item_iter (mn_iters mn), it) ∈ items_ s ∧ key_of it = k
  | None => ∀ i it, (i, it) ∈ items_ s → key_of it ≠ k
  end.
Proof.
  destruct (item_map_ s !! k) as [mn|] eqn:E.
  - destruct (wf_map s Hwf k mn E) as (it & Hin & Hk & _).
    exists it. split; [done|]. unfold key_of. by rewrite Hk.
  - intros i it Hin <-. destruct (wf_item_key i it Hin) as (mn & E' & _). congruence.
Qed.

Lemma wf_deref_item k mn it :
  linked s k mn it → deref (item_iter (mn_iters mn)) (items_ s) = Some it.
Proof. intros (Hin & _). by apply elem_deref; [apply (wf_items_nodes s Hwf)|]. Qed.

(** Different keys have different item nodes and different bucket entries. *)
Lemma wf_item_iter_inj k k' mn mn' :
  item_map_ s !! k = Some mn → item_map_ s !! k' = Some mn' →
  item_iter (mn_iters mn) = item_iter (mn_iters mn') → k = k'.
Proof.
  intros E E' Heq.
  destruct (wf_map s Hwf _ _ E) as (it & Hin & Hkey & _).
  destruct (wf_map s Hwf _ _ E') as (it' & Hin' & Hkey' & _).
  rewrite Heq in Hin.
  rewrite (node_inj _ _ _ _ (wf_items_nodes s Hwf) Hin' Hin) in Hkey'. congruence.
Qed.

Lemma wf_bucket_iter_inj k k' mn mn' :
  item_map_ s !! k = Some mn → item_map_ s !! k' = Some mn' →
  expiry_map_iter (mn_iters mn) = expiry_map_iter (mn_iters mn') →
  expiry_bucket_iter (mn_iters mn) = expiry_bucket_iter (mn_iters mn') → k = k'.
Proof.
  intros E E' Eb Ee.
  destruct (wf_map s Hwf _ _ E) as (it & _ & Hkey & es & Hb & He).
  destruct (wf_map s Hwf _ _ E') as (it' & _ & Hkey' & es' & Hb' & He').
  rewrite Eb in Hb. rewrite Ee in He.
  pose proof (node_inj _ _ _ _ (bo_nodes _ (wf_buckets s Hwf)) Hb Hb'). simplify_eq.
  pose proof (node_inj _ _ _ _ (bo_entries _ (wf_buckets s Hwf) _ _ _ Hb) He He').
  congruence.
Qed.
End wf_facts.
