(* ===== verification/LruSpec.v ===== *)
(** * The abstract LRU cache

    What [cache_storage] promises: a sequence of entries, most recently used
    first, with pure operations on it.  No nodes, iterators, buckets, key
    pointers or machine integers. *)
From S2P Require Import Prelude Bytes.
Local Open Scope Z_scope.

Record entry := Entry {
  e_key : string;
  e_data : list byte;
  e_size : Z;
  e_expires : Z
}.

Abbreviation lru := (list entry).

(** Bytes an entry accounts for: 48 of bookkeeping, its data and its key. *)
Definition e_mem (e : entry) : Z := 48 + e_size e + string_size (e_key e).
Definition mem (l : lru) : Z := foldr Z.add 0 (e_mem <$> l).

Definition e_live (t : Z) (e : entry) : Prop := t < e_expires e.
#[export] Instance e_live_dec t e : Decision (e_live t e).
Proof. apply Z_lt_dec. Defined.

Fixpoint find_key (k : string) (l : lru) : option entry :=
  match l with
  | [] => None
  | e :: l => if decide (e_key e = k) then Some e else find_key k l
  end.

Definition lookup_live (k : string) (t : Z) (l : lru) : option entry :=
  e ← find_key k l; if decide (e_live t e) then Some e else None.

Definition remove_key (k : string) (l : lru) : lru := filter (λ e, e_key e ≠ k) l.

Definition touch (k : string) (l : lru) : lru :=
  match find_key k l with Some e => e :: remove_key k l | None => l end.

(** Eviction looks at the least recently used entry first: [r] is the
    sequence in that order.  Entries other than [k]'s go until [req] bytes
    are available. *)
Fixpoint evict_from (k : string) (req avail : Z) (r : lru) : lru :=
  match r with
  | [] => []
  | e :: r =>
      if decide (e_key e = k) then e :: evict_from k req avail r
      else if decide (req ≤ avail + e_mem e) then r
      else evict_from k req (avail + e_mem e) r
  end.

Definition evict (cap : Z) (k : string) (req : Z) (l : lru) : lru :=
  if decide (req ≤ cap - mem l) then l
  else reverse (evict_from k req (cap - mem l) (reverse l)).

(** A write of [e] at time [t] in a cache of capacity [cap]. *)
Definition required (e : entry) (t : Z) (l : lru) : Z :=
  e_mem e - match lookup_live (e_key e) t l with Some old => e_mem old | None => 0 end.

Definition write_entry (cap : Z) (e : entry) (t : Z) (l : lru) : lru :=
  e :: remove_key (e_key e) (evict cap (e_key e) (required e t l) l).

(** A purge keeps the entries whose purge time is after [prev]. *)
Definition purge (interval prev : Z) (l : lru) : lru :=
  filter (λ e, prev < e_expires e - e_expires e mod interval + interval) l.

(** ** Lemmas *)
Lemma find_key_Some k l e : find_key k l = Some e → e ∈ l ∧ e_key e = k.
Proof.
  induction l as [|e' l IH]; simpl; [done|]. case_decide; intros Hf.
  - simplify_eq. split; [left|done].
  - apply IH in Hf as [? ?]. split; [by right|done].
Qed.

Lemma find_key_None k l : find_key k l = None ↔ k ∉ e_key <$> l.
Proof.
  induction l as [|e' l IH]; simpl.
  - split; [intros _; apply not_elem_of_nil|done].
  - rewrite not_elem_of_cons. case_decide; naive_solver.
Qed.

Lemma find_key_elem k l e :
  NoDup (e_key <$> l) → e ∈ l → e_key e = k → find_key k l = Some e.
Proof.
  induction l as [|e' l IH]; simpl; [by intros _ ?%not_elem_of_nil|].
  intros [Hn Hnd]%NoDup_cons [->|Hin]%elem_of_cons Hk.
  - by rewrite decide_True.
  - rewrite decide_False; [by apply IH|].
    intros Hk'. apply Hn. rewrite Hk', <- Hk. by apply list_elem_of_fmap_2.
Qed.

Lemma mem_cons e l : mem (e :: l) = e_mem e + mem l.
Proof. done. Qed.

Lemma mem_app l1 l2 : mem (l1 ++ l2) = mem l1 + mem l2.
Proof. induction l1 as [|e l1 IH]; [done|]. rewrite <- app_comm_cons, !mem_cons. lia. Qed.

Lemma mem_reverse l : mem (reverse l) = mem l.
Proof.
  induction l as [|e l IH]; [done|].
  rewrite reverse_cons, mem_app, IH, !mem_cons. simpl. unfold mem at 2. simpl. lia.
Qed.

Lemma remove_key_notin k l : k ∉ e_key <$> l → remove_key k l = l.
Proof.
  induction l as [|e l IH]; [done|]. simpl. rewrite not_elem_of_cons. intros [? ?].
  unfold remove_key. rewrite filter_cons, decide_True by done. f_equal. by apply IH.
Qed.

Lemma remove_key_app k l1 l2 : remove_key k (l1 ++ l2) = remove_key k l1 ++ remove_key k l2.
Proof. apply filter_app. Qed.

Lemma remove_key_split e l1 l2 :
  NoDup (e_key <$> l1 ++ e :: l2) → remove_key (e_key e) (l1 ++ e :: l2) = l1 ++ l2.
Proof.
  rewrite fmap_app, NoDup_app. simpl. intros (_ & Hd & [He _]%NoDup_cons).
  rewrite remove_key_app. unfold remove_key at 2. rewrite filter_cons, decide_False by naive_solver.
  fold (remove_key (e_key e) l2). rewrite !remove_key_notin; [done|done|].
  intros Hin. apply (Hd _ Hin). left.
Qed.

(** ** Eviction and the key being written *)
Lemma evict_from_subset k req avail r e : e ∈ evict_from k req avail r → e ∈ r.
Proof.
  revert avail. induction r as [|e' r IH]; intros avail; simpl; [done|].
  repeat case_decide; rewrite ?elem_of_cons; naive_solver.
Qed.

Lemma evict_from_keeps k req avail r e :
  e ∈ r → e_key e = k → e ∈ evict_from k req avail r.
Proof.
  revert avail. induction r as [|e' r IH]; intros avail; simpl; [done|].
  rewrite elem_of_cons. repeat case_decide; rewrite ?elem_of_cons; naive_solver.
Qed.

Lemma elem_of_evict_key cap k req l e : e_key e = k → e ∈ evict cap k req l ↔ e ∈ l.
Proof.
  intros Hk. unfold evict. case_decide; [done|]. rewrite elem_of_reverse. split.
  - intros He%evict_from_subset. by apply elem_of_reverse.
  - intros He. apply evict_from_keeps; [by apply elem_of_reverse|done].
Qed.

Lemma elem_of_evict cap k req l e : e ∈ evict cap k req l → e ∈ l.
Proof.
  unfold evict. case_decide; [done|]. rewrite elem_of_reverse.
  intros He%evict_from_subset. by apply elem_of_reverse.
Qed.

Lemma find_key_evict cap k req l :
  NoDup (e_key <$> l) → NoDup (e_key <$> evict cap k req l) →
  find_key k (evict cap k req l) = find_key k l.
Proof.
  intros Hl Hev. destruct (find_key k l) as [e|] eqn:E.
  - apply find_key_Some in E as [Hin Hk]. apply find_key_elem; [done| |done].
    by apply elem_of_evict_key.
  - rewrite find_key_None in E |- *. intros (e & -> & He)%list_elem_of_fmap.
    apply E. apply list_elem_of_fmap. eauto using elem_of_evict.
Qed.

(** Looking a key up in part of a sequence. *)
Lemma find_key_subset k l l' e :
  NoDup (e_key <$> l) → (∀ x, x ∈ l' → x ∈ l) → find_key k l' = Some e → find_key k l = Some e.
Proof.
  intros Hnd Hsub [Hin Hk]%find_key_Some. apply find_key_elem; [done|by apply Hsub|done].
Qed.

Lemma elem_of_touch k l e : e ∈ touch k l → e ∈ l.
Proof.
  unfold touch. destruct (find_key k l) as [e'|] eqn:E; [|done].
  apply find_key_Some in E as [Hin _].
  intros [->|He]%elem_of_cons; [done|]. by apply list_elem_of_filter in He as [_ ?].
Qed.

Lemma find_key_write_ne cap e t l k e' :
  NoDup (e_key <$> l) → k ≠ e_key e → find_key k (write_entry cap e t l) = Some e' →
  find_key k l = Some e'.
Proof.
  intros Hnd Hne. unfold write_entry. simpl. rewrite decide_False by done.
  apply find_key_subset; [done|]. intros x [_ Hx]%list_elem_of_filter. by apply elem_of_evict in Hx.
Qed.
