(* ===== verification/CacheStorageOps.v ===== *)
(** * What each operation of cache_storage does under the invariant *)
From S2P Require Import Prelude StdContainers Bytes CacheTypes CacheStorage CacheStorageInv LruSpec.
Local Open Scope Z_scope.

Definition entry_of (it : cache_item) : entry :=
  Entry (key_of it) (data it) (data_size it) (expires_at it).
Definition entry_at (k : string) (it : cache_item) : entry :=
  Entry k (data it) (data_size it) (expires_at it).

(** The abstract cache a storage stands for. *)
Definition abs (s : cache_storage) : lru := (λ x, entry_of x.2) <$> items_ s.

(** What no operation on the items changes. *)
Definition same_shell (s s' : cache_storage) : Prop :=
  st_id s' = st_id s ∧ st_config s' = st_config s ∧ commit_code_ s' = commit_code_ s.

Lemma memory_abs s : memory (items_ s) = mem (abs s).
Proof.
  unfold abs, memory, mem. f_equal. rewrite <- list_fmap_compose.
  apply list_fmap_ext. intros ? [? ?] ?. done.
Qed.

Lemma abs_keys s : e_key <$> abs s = (key_of ∘ snd) <$> items_ s.
Proof. unfold abs. by rewrite <- list_fmap_compose. Qed.

Lemma wf_next_node s : wf s → next_node s ∉ (items_ s).*1.
Proof.
  intros Hwf ([i it'] & Hi & Hin)%list_elem_of_fmap. simpl in Hi. subst.
  pose proof (wf_fresh_items s Hwf _ _ Hin). lia.
Qed.

(** What [insert_item] does to the buckets: the entry [e] of the bucket of
    [pt], made null and then set to [kp]. *)
Lemma insert_item_buckets s kp pt :
  wf s → let n := next_node s in
  ∃ b l0 l1 l, emplace_bucket (S n) pt (expiry_buckets_ s) = (b, l0) ∧
    bucket_push b (S (S n)) None l0 = Ok l1 ∧ bucket_set b (S (S n)) kp l1 = Ok l ∧
    buckets_ok l ∧
    (∀ b' t' e p, in_bucket l b' t' e p ↔
       in_bucket (expiry_buckets_ s) b' t' e p ∨ b' = b ∧ t' = pt ∧ e = S (S n) ∧ p = kp) ∧
    (∀ b' t' es, (b', (t', es)) ∈ l →
       (b' = b ∧ es ≠ [] ∨ (b', (t', es)) ∈ expiry_buckets_ s) ∧ (b' < S (S n))%nat).
Proof.
  intros Hwf n. destruct (emplace_bucket _ _ _) as [b l0] eqn:Eemp.
  assert (S n ∉ (expiry_buckets_ s).*1) as Hnew.
  { intros ([? ?] & Hb & Hin)%list_elem_of_fmap. simpl in Hb. subst.
    pose proof (wf_fresh_buckets s Hwf _ _ Hin). lia. }
  apply emplace_bucket_spec in Eemp as (Hok0 & (es & Hin) & Hrel0 & Hsub0);
    [|apply (wf_buckets s Hwf)|done].
  assert (S (S n) ∉ es.*1) as Hfresh.
  { intros ([? p] & Hb & Hin')%list_elem_of_fmap. simpl in Hb. subst.
    assert (in_bucket (expiry_buckets_ s) b pt (S (S n)) p) as Hin2.
    { apply Hrel0. by exists es. }
    pose proof (wf_fresh_entries s Hwf _ _ _ _ Hin2). lia. }
  pose proof (bucket_push_set l0 b pt es (S (S n)) kp Hok0 Hin Hfresh) as Epush.
  destruct (bucket_push_spec l0 b pt es (S (S n)) kp) as (l1 & E1 & Hok1 & Hin1 & -> & Hrel1);
    [done..|].
  rewrite E1 in Epush.
  destruct (bucket_push b (S (S n)) None l0) as [l'|] eqn:E0; [|done].
  ok_bind in Epush.
  exists b, l0, l'. eexists. split; [done|]. split; [done|]. split; [exact Epush|].
  split; [done|]. split.
  - intros b' t' e p. by rewrite Hrel1, Hrel0.
  - intros b' t' es'. rewrite elem_of_write by eauto using fst_elem, bo_nodes.
    assert (b < S (S n))%nat.
    { destruct (Hsub0 _ _ _ Hin) as [Hb|(_ & -> & _)]; [|lia].
      pose proof (wf_fresh_buckets s Hwf _ _ Hb). lia. }
    intros [[-> [= -> ->]]|[Hne Hb]].
    + split; [|done]. left. split; [done|]. by destruct es.
    + destruct (Hsub0 _ _ _ Hb) as [Hb'|(-> & _)]; [|done].
      pose proof (wf_fresh_buckets s Hwf _ _ Hb'). split; [by right|lia].
Qed.

(** [insert_item] of a new key: the state it builds. *)
Lemma insert_item_shape s k it t :
  wf s → item_map_ s !! k = None → item_ok it →
  ∃ b l, let n := next_node s in
    let mn := MapNode (S (S (S n))) (InternalIterators n b (S (S n))) in
    let kp := Some (KeyPtr (st_id s) (mn_id mn) k) in
    let pt := purge_time (purge_interval (st_config s)) (expires_at it) in
    insert_item s k it t =
      Ok (Storage (st_id s) (st_config s) (<[k := mn]> (item_map_ s))
            ((n, set_key kp it) :: items_ s) l
            (u64 (used_memory_ s + get_item_size k (data_size it)))
            (commit_code_ s) (S (S (S (S n)))),
          (ItemPtr (st_id s) n, set_key kp it)) ∧
    buckets_ok l ∧
    (∀ b' t' e p, in_bucket l b' t' e p ↔
       in_bucket (expiry_buckets_ s) b' t' e p ∨ b' = b ∧ t' = pt ∧ e = S (S n) ∧ p = kp) ∧
    (∀ b' t' es, (b', (t', es)) ∈ l →
       (b' = b ∧ es ≠ [] ∨ (b', (t', es)) ∈ expiry_buckets_ s) ∧ (b' < S (S n))%nat).
Proof.
  intros Hwf Hk [Hsize Ht]. unfold insert_item.
  rewrite next_purge_time_Ok by (done || apply (wf_interval s Hwf)).
  ok_bind. set (n := next_node s) in *.
  destruct (insert_item_buckets s (Some (KeyPtr (st_id s) (S (S (S n))) k))
    (purge_time (purge_interval (st_config s)) (expires_at it)) Hwf)
    as (b & l0 & l1 & l & E0 & E1 & E2 & H).
  fold n in E0, E1, E2, H. rewrite E0, Hk, E1. cbn [mbind outcome_bind mn_id].
  rewrite E2. ok_bind. rewrite write_head by (by apply wf_next_node).
  by exists b, l.
Qed.

(** [insert_item] of a key that is still in the map: the map is unchanged,
    and still leads to the old item. *)
Lemma insert_item_present s k mn it t :
  wf s → item_map_ s !! k = Some mn → item_ok it →
  ∃ s', let it' := set_key (Some (KeyPtr (st_id s) (mn_id mn) k)) it in
    insert_item s k it t = Ok (s', (ItemPtr (st_id s) (next_node s), it')) ∧
    items_ s' = (next_node s, it') :: items_ s ∧ item_map_ s' = item_map_ s.
Proof.
  intros Hwf Hk [Hsize Ht]. unfold insert_item.
  rewrite next_purge_time_Ok by (done || apply (wf_interval s Hwf)).
  ok_bind. set (n := next_node s) in *.
  destruct (insert_item_buckets s (Some (KeyPtr (st_id s) (mn_id mn) k))
    (purge_time (purge_interval (st_config s)) (expires_at it)) Hwf)
    as (b & l0 & l1 & l & E0 & E1 & E2 & _).
  fold n in E0, E1, E2. rewrite E0, Hk, E1. ok_bind.
  rewrite E2. ok_bind. rewrite write_head by (by apply wf_next_node).
  by eexists.
Qed.

Lemma insert_item_spec s k it t :
  wf s → item_map_ s !! k = None → item_ok it →
  ∃ s' mn, let it' := set_key (Some (KeyPtr (st_id s) (mn_id mn) k)) it in
    insert_item s k it t = Ok (s', (ItemPtr (st_id s) (next_node s), it')) ∧
    wf s' ∧ same_shell s s' ∧ items_ s' = (next_node s, it') :: items_ s ∧
    item_map_ s' = <[k := mn]> (item_map_ s) ∧ item_iter (mn_iters mn) = next_node s.
Proof.
  intros Hwf Hk Hit.
  destruct (insert_item_shape s k it t Hwf Hk Hit) as (b & l & -> & Hok & Hrel & Hsub).
  eexists _, _. split; [done|]. split; [|done].
  set (n := next_node s) in *.
  assert (∀ k' mn', item_map_ s !! k' = Some mn' → k ≠ k') as Hne by congruence.
  split; cbn [st_config st_id items_ expiry_buckets_ item_map_ used_memory_ next_node].
  - apply (wf_interval s Hwf).
  - apply NoDup_cons. split; [by apply wf_next_node|apply (wf_items_nodes s Hwf)].
  - done.
  - intros b' t' es Hb. apply Hsub in Hb as [[[_ ?]|Hb] _]; [done|].
    by apply (wf_nonempty s Hwf _ _ _ Hb).
  - intros i it0 [[= -> ->]|Hin]%elem_of_cons.
    + eexists k, _. rewrite lookup_insert_eq. split; [done|]. split; [done|].
      split; [left|]. split; [done|]. apply Hrel. by right.
    + destruct (wf_items s Hwf _ _ Hin) as (k' & mn' & E & Ei & Hi & Hkey & Hb).
      exists k', mn'. rewrite lookup_insert_ne by eauto. split; [done|]. split; [done|].
      split; [by right|]. split; [done|]. apply Hrel. by left.
  - intros k' mn'. rewrite lookup_insert. case_decide as Hkk.
    + intros [= <-]. subst. eexists. split; [left|]. split; [done|]. apply Hrel. by right.
    + intros E. destruct (wf_map s Hwf _ _ E) as (it0 & Hi & Hkey & Hb).
      exists it0. split; [by right|]. split; [done|]. apply Hrel. by left.
  - intros b' t' e p [Hb|(-> & _ & -> & ->)]%Hrel.
    + destruct (wf_entries s Hwf _ _ _ _ Hb) as (k' & mn' & E & Hp & Hbe).
      exists k', mn'. rewrite lookup_insert_ne by eauto. done.
    + eexists k, _. by rewrite lookup_insert_eq.
  - intros i it0 [[= -> ->]|Hin]%elem_of_cons; [done|]. by apply (wf_item_ok s Hwf i).
  - rewrite (wf_used s Hwf), get_item_size_footprint, memory_cons.
    unfold wrap_u. rewrite <- Zplus_mod. f_equal. cbn. lia.
  - intros i it0 [[= -> ->]|Hin]%elem_of_cons; [lia|].
    pose proof (wf_fresh_items s Hwf _ _ Hin). lia.
  - intros b' [t' es] Hb. apply Hsub in Hb. lia.
  - intros b' t' e p [Hb|(-> & _ & -> & ->)]%Hrel; [|lia].
    pose proof (wf_fresh_entries s Hwf _ _ _ _ Hb). lia.
  - intros k' mn'. rewrite lookup_insert. case_decide.
    + intros [= <-]. simpl. lia.
    + intros E. pose proof (wf_fresh_map s Hwf _ _ E). lia.
Qed.

(** What [remove_item] leaves of the buckets: the entry is gone from its
    bucket, and the bucket with its last entry. *)
Definition bucket_entry_removed (b e : nat) (l l' : list (nat * (Z * bucket))) : Prop :=
  ∃ t es, (b, (t, es)) ∈ l ∧
    (l' = erase b l ∧ erase e es = [] ∨ l' = write b (t, erase e es) l ∧ erase e es ≠ []).

Lemma remove_item_spec s k mn it l1 l2 :
  wf s → item_map_ s !! k = Some mn →
  items_ s = l1 ++ (item_iter (mn_iters mn), it) :: l2 →
  ∃ s', remove_item s k = Ok (s', begin_ l2) ∧ wf s' ∧ same_shell s s' ∧
    items_ s' = l1 ++ l2 ∧ item_map_ s' = delete k (item_map_ s) ∧
    bucket_entry_removed (expiry_map_iter (mn_iters mn)) (expiry_bucket_iter (mn_iters mn))
      (expiry_buckets_ s) (expiry_buckets_ s').
Proof.
  intros Hwf E Hitems.
  pose proof (wf_items_nodes s Hwf) as Hnd.
  destruct (wf_map s Hwf _ _ E) as (it0 & Hl). pose proof Hl as (Hin & Hkey & es & Hb & He).
  assert (it0 = it) as ->.
  { eapply node_inj; [exact Hnd|exact Hin|]. rewrite Hitems. apply elem_of_app. right. left. }
  rewrite Hitems in Hnd.
  unfold remove_item. rewrite E, (wf_deref_item s Hwf k mn it Hl). cbn [or_ub mbind outcome_bind].
  rewrite Hkey, (wf_deref_key s k mn E). ok_bind.
  destruct (bucket_erase_spec (expiry_buckets_ s) _ _ _ _ _ (wf_buckets s Hwf) Hb He)
    as (l' & -> & Hok & Hrel & Hsub & Hform).
  ok_bind. rewrite Hitems, erase_split, next_of_split by done.
  eexists. split; [done|].
  split; [|split; [done|split; [done|split; [done|eexists _, es; eauto]]]].
  assert (∀ i it', (i, it') ∈ l1 ++ l2 ↔ (i, it') ∈ items_ s ∧ i ≠ item_iter (mn_iters mn)) as Hel.
  { intros i it'. rewrite Hitems, <- (erase_split (item_iter (mn_iters mn)) it), elem_of_erase by done.
    tauto. }
  split; cbn [st_config st_id items_ expiry_buckets_ item_map_ used_memory_ next_node].
  - apply (wf_interval s Hwf).
  - rewrite <- (erase_split _ it) by done. by apply erase_NoDup.
  - done.
  - intros b t es' [[Hb' _]|(_ & _ & -> & ?)]%Hsub; [|done]. by apply (wf_nonempty s Hwf _ _ _ Hb').
  - intros i it' [Hin' Hne]%Hel.
    destruct (wf_items s Hwf _ _ Hin') as (k' & mn' & E' & <- & Hi & Hk' & Hb').
    assert (k' ≠ k) by congruence.
    exists k', mn'. rewrite lookup_delete_ne by done. split; [done|]. split; [done|].
    split; [apply Hel; eauto|]. split; [done|]. apply Hrel. split; [done|].
    intros [? ?]. eauto using wf_bucket_iter_inj.
  - intros k' mn' [Hne E']%lookup_delete_Some.
    destruct (wf_map s Hwf _ _ E') as (it' & Hi & Hk' & Hb').
    exists it'. split; [apply Hel; split; [done|]|split; [done|apply Hrel; split; [done|]]].
    + intros ?. apply Hne. by eapply wf_item_iter_inj.
    + intros [? ?]. apply Hne. by eapply wf_bucket_iter_inj.
  - intros b t e p [Hb' Hne]%Hrel.
    destruct (wf_entries s Hwf _ _ _ _ Hb') as (k' & mn' & E' & Hp & <- & <-).
    exists k', mn'. rewrite lookup_delete_ne by naive_solver. done.
  - intros i it' [? _]%Hel. by apply (wf_item_ok s Hwf i).
  - rewrite (wf_used s Hwf), Hitems, get_item_size_footprint, !memory_app, memory_cons.
    replace (key_of it) with k by (unfold key_of; by rewrite Hkey).
    unfold wrap_u. rewrite <- Zminus_mod. f_equal. lia.
  - intros i it' [? _]%Hel. by apply (wf_fresh_items s Hwf i it').
  - intros b [t es'] [[? _]|(-> & _)]%Hsub; by eapply (wf_fresh_buckets s Hwf).
  - intros b t e p [? _]%Hrel. by eapply (wf_fresh_entries s Hwf).
  - intros k' mn' [_ ?]%lookup_delete_Some. by apply (wf_fresh_map s Hwf k').
Qed.

(** The buckets after a key moved from its bucket to that of its new expiry:
    the other entries as before and one entry of the key, at the new time. *)
Record bucket_moved (s : cache_storage) (mn mn' : map_node) (pt : Z) (p0 : option key_ptr)
    (l : list (nat * (Z * bucket))) (nx : nat) : Prop := {
  bm_id : mn_id mn' = mn_id mn;
  bm_item : item_iter (mn_iters mn') = item_iter (mn_iters mn);
  bm_ok : buckets_ok l;
  bm_nonempty : ∀ b t es, (b, (t, es)) ∈ l → es ≠ [];
  bm_rel : ∀ b t e p, in_bucket l b t e p ↔
    in_bucket (expiry_buckets_ s) b t e p ∧
      ¬ (b = expiry_map_iter (mn_iters mn) ∧ e = expiry_bucket_iter (mn_iters mn)) ∨
    b = expiry_map_iter (mn_iters mn') ∧ t = pt ∧
      e = expiry_bucket_iter (mn_iters mn') ∧ p = p0;
  bm_next : (next_node s ≤ nx)%nat;
  bm_fresh : ∀ b x, (b, x) ∈ l → (b < nx)%nat;
  bm_fresh_entry : (expiry_bucket_iter (mn_iters mn') < nx)%nat
}.

(** Same purge time: nothing moves. *)
Lemma bucket_moved_refl s k mn it :
  wf s → item_map_ s !! k = Some mn → linked s k mn it →
  bucket_moved s mn mn (purge_time (purge_interval (st_config s)) (expires_at it)) (key it)
    (expiry_buckets_ s) (next_node s).
Proof.
  intros Hwf E (Hin & Hkey & es & Hb & He). pose proof (wf_buckets s Hwf) as Hok.
  split; try done.
  - apply (wf_nonempty s Hwf).
  - intros b t e p. split.
    + intros Hbe. destruct (decide (b = expiry_map_iter (mn_iters mn) ∧
        e = expiry_bucket_iter (mn_iters mn))) as [[-> ->]|]; [right|by left].
      destruct Hbe as (es' & Hb' & He').
      pose proof (node_inj _ _ _ _ (bo_nodes _ Hok) Hb Hb'). simplify_eq.
      by rewrite (node_inj _ _ _ _ (bo_entries _ Hok _ _ _ Hb) He He').
    + intros [[? _]|(-> & -> & -> & ->)]; [done|by exists es].
  - intros b x Hx. by apply (wf_fresh_buckets s Hwf _ x).
  - eapply (wf_fresh_entries s Hwf); by exists es.
Qed.

(** Another purge time: the new entry is pushed before the old one is erased. *)
Lemma bucket_moved_step s k mn it pt b l0 :
  wf s → item_map_ s !! k = Some mn → linked s k mn it →
  purge_time (purge_interval (st_config s)) (expires_at it) ≠ pt →
  emplace_bucket (next_node s) pt (expiry_buckets_ s) = (b, l0) →
  ∃ l1 l2, bucket_push b (S (next_node s)) (key it) l0 = Ok l1 ∧
    bucket_erase (expiry_map_iter (mn_iters mn)) (expiry_bucket_iter (mn_iters mn)) l1 = Ok l2 ∧
    bucket_moved s mn
      (MapNode (mn_id mn) (InternalIterators (item_iter (mn_iters mn)) b (S (next_node s))))
      pt (key it) l2 (S (S (next_node s))).
Proof.
  intros Hwf E (Hin & Hkey & Hold) Hpt Eemp. pose proof (wf_buckets s Hwf) as Hok.
  assert (next_node s ∉ (expiry_buckets_ s).*1) as Hnew.
  { intros ([? ?] & Hb & Hi)%list_elem_of_fmap. simpl in Hb. subst.
    pose proof (wf_fresh_buckets s Hwf _ _ Hi). lia. }
  apply emplace_bucket_spec in Eemp as (Hok0 & (es & Hb0) & Hrel0 & Hsub0); [|done..].
  assert (S (next_node s) ∉ es.*1) as Hfresh.
  { intros ([? p] & Hb & Hi)%list_elem_of_fmap. simpl in Hb. subst.
    assert (in_bucket (expiry_buckets_ s) b pt (S (next_node s)) p) as Hi2
      by (apply Hrel0; by exists es).
    pose proof (wf_fresh_entries s Hwf _ _ _ _ Hi2). lia. }
  destruct (bucket_push_spec l0 b pt es (S (next_node s)) (key it))
    as (l1 & E1 & Hok1 & Hin1 & Hl1 & Hrel1); [done..|].
  assert (in_bucket l1 (expiry_map_iter (mn_iters mn))
    (purge_time (purge_interval (st_config s)) (expires_at it))
    (expiry_bucket_iter (mn_iters mn)) (key it)) as (es1 & Hb1 & He1).
  { apply Hrel1. left. by apply Hrel0. }
  destruct (bucket_erase_spec l1 _ _ _ _ _ Hok1 Hb1 He1) as (l2 & E2 & Hok2 & Hrel2 & Hsub2 & _).
  exists l1, l2. split; [done|]. split; [done|].
  destruct Hold as (es_old & Hb_old & He_old).
  assert (b ≠ expiry_map_iter (mn_iters mn)) as Hbne.
  { intros ->. pose proof (node_inj _ _ _ _ (bo_nodes _ Hok1) Hin1 Hb1). congruence. }
  split; cbn [mn_id mn_iters item_iter expiry_map_iter expiry_bucket_iter]; try done; [| |lia| |lia].
  - intros b' t' es' [[Hb' Hne]|(_ & _ & _ & ?)]%Hsub2; [|done].
    rewrite Hl1, elem_of_write in Hb' by eauto using fst_elem, bo_nodes.
    destruct Hb' as [[-> [= -> ->]]|[Hne' Hb']]; [by destruct es|].
    destruct (Hsub0 _ _ _ Hb') as [Hb''|(-> & _)]; [|done].
    by apply (wf_nonempty s Hwf _ _ _ Hb'').
  - intros b' t' e p. rewrite Hrel2, Hrel1, Hrel0. naive_solver.
  - intros b' [t' es'] Hb'. apply Hsub2 in Hb' as [[Hb' _]|(-> & _)].
    + rewrite Hl1, elem_of_write in Hb' by eauto using fst_elem, bo_nodes.
      assert (b < S (next_node s))%nat.
      { destruct (Hsub0 _ _ _ Hb0) as [Hb|(_ & -> & _)]; [|lia].
        pose proof (wf_fresh_buckets s Hwf _ _ Hb). lia. }
      destruct Hb' as [[-> _]|[Hne' Hb']]; [lia|].
      destruct (Hsub0 _ _ _ Hb') as [Hb''|(-> & _)]; [|done].
      pose proof (wf_fresh_buckets s Hwf _ _ Hb''). lia.
    + pose proof (wf_fresh_buckets s Hwf _ _ Hb_old). lia.
Qed.

Lemma update_bucket_shape s k mn it it' items used new_expiry :
  wf s → item_map_ s !! k = Some mn → linked s k mn it →
  deref (item_iter (mn_iters mn)) items = Some it' → key it' = key it →
  time_ok new_expiry →
  ∃ mn' l nx,
    update_item_expiry_bucket
      (Storage (st_id s) (st_config s) (item_map_ s) items (expiry_buckets_ s)
         used (commit_code_ s) (next_node s)) k (expires_at it) new_expiry =
    Ok (Storage (st_id s) (st_config s) (<[k := mn']> (item_map_ s)) items l
          used (commit_code_ s) nx) ∧
    bucket_moved s mn mn' (purge_time (purge_interval (st_config s)) new_expiry) (key it) l nx.
Proof.
  intros Hwf E Hl Hd Hk' Ht. pose proof Hl as (Hin & Hkey & Hb).
  pose proof (wf_item_ok s Hwf _ _ Hin) as [_ Hold]. pose proof (wf_interval s Hwf).
  unfold update_item_expiry_bucket.
  cbn [st_config st_id items_ expiry_buckets_ item_map_ used_memory_ next_node commit_code_].
  rewrite !next_purge_time_Ok by done. ok_bind.
  case_decide as Hpt.
  - exists mn, (expiry_buckets_ s), (next_node s). rewrite insert_id by done.
    split; [done|]. rewrite <- Hpt. by eapply bucket_moved_refl.
  - rewrite E. cbn [or_ub mbind outcome_bind].
    destruct (emplace_bucket _ _ _) as [b l0] eqn:Eemp.
    destruct (bucket_moved_step s k mn it _ b l0 Hwf E Hl Hpt Eemp) as (l1 & l2 & E1 & E2 & Hm).
    rewrite Hd. cbn [or_ub mbind outcome_bind]. rewrite Hk', E1. ok_bind.
    rewrite E2. eauto.
Qed.

Lemma splice_write_front i a b (l : list (nat * cache_item)) :
  NoDup l.*1 → (i, a) ∈ l → splice_front i (write i b l) = (i, b) :: erase i l.
Proof.
  intros Hnd (l1 & l2 & ->)%list_elem_of_split.
  rewrite write_split by done. unfold splice_front.
  assert (NoDup (l1 ++ (i, b) :: l2).*1) by (by rewrite fmap_app in Hnd |- * ).
  by rewrite deref_split, !erase_split by done.
Qed.

Lemma update_item_spec s k mn old it t :
  wf s → item_map_ s !! k = Some mn → linked s k mn old → item_ok it →
  ∃ s' mn', let i := item_iter (mn_iters mn) in let it' := set_key (key old) it in
    update_item s k it t = Ok (s', (ItemPtr (st_id s) i, it')) ∧
    wf s' ∧ same_shell s s' ∧ items_ s' = (i, it') :: erase i (items_ s) ∧
    item_map_ s' = <[k := mn']> (item_map_ s) ∧ mn_id mn' = mn_id mn ∧
    item_iter (mn_iters mn') = i.
Proof.
  intros Hwf E Hl Hit. pose proof Hl as (Hin & Hkey & _). pose proof Hit as [Hsize Ht].
  pose proof (wf_items_nodes s Hwf) as Hnd.
  unfold update_item. rewrite E. cbn [or_ub mbind outcome_bind].
  rewrite (wf_deref_item s Hwf k mn old Hl). cbn [or_ub mbind outcome_bind].
  rewrite (splice_write_front _ old) by done.
  set (i := item_iter (mn_iters mn)) in *. set (it' := set_key (key old) it).
  match goal with |- context [Storage _ _ _ ?l _ ?u _ _] =>
    destruct (update_bucket_shape s k mn old it' l u (expires_at it))
      as (mn' & bk & nx & Eq & []); [done..| |done|done|] end.
  { simpl. fold i. by rewrite decide_True. }
  rewrite Eq. ok_bind.
  eexists _, mn'. split; [done|]. split; [|done].
  assert (∀ j x, (j, x) ∈ (i, it') :: erase i (items_ s) ↔
    j = i ∧ x = it' ∨ j ≠ i ∧ (j, x) ∈ items_ s) as Hel.
  { intros j x. rewrite elem_of_cons, elem_of_erase. naive_solver. }
  split; cbn [st_config st_id items_ expiry_buckets_ item_map_ used_memory_ next_node].
  - apply (wf_interval s Hwf).
  - simpl. apply NoDup_cons. rewrite erase_fst. split; [|by apply NoDup_filter].
    rewrite list_elem_of_filter. naive_solver.
  - done.
  - done.
  - intros j x [[-> ->]|[Hne Hj]]%Hel.
    + exists k, mn'. rewrite lookup_insert_eq. split; [done|]. split; [done|].
      split; [|split].
      * rewrite bm_item0. apply Hel. by left.
      * simpl. by rewrite Hkey, bm_id0.
      * apply bm_rel0. by right.
    + destruct (wf_items s Hwf _ _ Hj) as (k' & mn0 & E' & <- & Hi & Hk' & Hb').
      assert (k ≠ k') by (intros ->; unfold i in Hne; congruence).
      exists k', mn0. rewrite lookup_insert_ne by done. split; [done|]. split; [done|].
      split; [apply Hel; by right|]. split; [done|]. apply bm_rel0. left. split; [done|].
      intros [? ?]. eauto using wf_bucket_iter_inj.
  - intros k' mn0. rewrite lookup_insert. case_decide as Hkk.
    + intros [= <-]. subst k'. exists it'. split; [|split].
      * rewrite bm_item0. apply Hel. by left.
      * simpl. by rewrite Hkey, bm_id0.
      * apply bm_rel0. by right.
    + intros E'. destruct (wf_map s Hwf _ _ E') as (x & Hi & Hk' & Hb').
      exists x. split; [apply Hel; right; split; [|done]|split; [done|]].
      * intros Hii. apply Hkk. by eapply wf_item_iter_inj.
      * apply bm_rel0. left. split; [done|]. intros [? ?]. apply Hkk. by eapply wf_bucket_iter_inj.
  - intros b t' e p [[Hb' Hne]|(-> & -> & -> & ->)]%bm_rel0.
    + destruct (wf_entries s Hwf _ _ _ _ Hb') as (k' & mn0 & E' & Hp & <- & <-).
      assert (k ≠ k') by (intros ->; naive_solver congruence).
      exists k', mn0. by rewrite lookup_insert_ne.
    + exists k, mn'. rewrite lookup_insert_eq. by rewrite Hkey, bm_id0.
  - intros j x [[-> ->]|[_ ?]]%Hel; [done|]. by apply (wf_item_ok s Hwf j).
  - rewrite (wf_used s Hwf), (memory_perm _ _ (erase_perm i old _ Hnd Hin)), !memory_cons.
    rewrite !get_item_size_footprint.
    replace (key_of it') with k by (unfold key_of; simpl; by rewrite Hkey).
    replace (key_of old) with k by (unfold key_of; by rewrite Hkey).
    unfold wrap_u. rewrite <- Zminus_mod, Zplus_mod_idemp_r, Zplus_mod_idemp_l.
    f_equal. simpl. lia.
  - intros j x [[-> ->]|[_ Hj]]%Hel.
    + pose proof (wf_fresh_items s Hwf _ _ Hin). lia.
    + pose proof (wf_fresh_items s Hwf _ _ Hj). lia.
  - done.
  - intros b t' e p [[Hb' _]|(-> & -> & -> & ->)]%bm_rel0; [|done].
    pose proof (wf_fresh_entries s Hwf _ _ _ _ Hb'). lia.
  - intros k' mn0. rewrite lookup_insert. case_decide.
    + intros [= <-]. rewrite bm_id0. pose proof (wf_fresh_map s Hwf _ _ E). lia.
    + intros E'. pose proof (wf_fresh_map s Hwf _ _ E'). lia.
Qed.
