(* ===== verification/CacheStorageRefine.v ===== *)
(** * cache_storage refines the abstract LRU cache *)
From S2P Require Import Prelude StdContainers Bytes CacheTypes CacheStorage CacheStorageInv LruSpec CacheStorageOps.
Local Open Scope Z_scope.

Definition abs_items (l : list (nat * cache_item)) : lru := (λ x, entry_of x.2) <$> l.

Lemma abs_items_app l1 l2 : abs_items (l1 ++ l2) = abs_items l1 ++ abs_items l2.
Proof. apply fmap_app. Qed.

Lemma memory_abs_items l : memory l = mem (abs_items l).
Proof.
  unfold abs_items, memory, mem. f_equal. rewrite <- list_fmap_compose.
  apply list_fmap_ext. intros ? [? ?] ?. done.
Qed.

Lemma same_shell_refl s : same_shell s s.
Proof. done. Qed.
Lemma same_shell_trans s1 s2 s3 : same_shell s1 s2 → same_shell s2 s3 → same_shell s1 s3.
Proof. unfold same_shell. intuition congruence. Qed.
#[export] Hint Resolve same_shell_refl same_shell_trans : cpp.

Lemma item_mem_nonneg s i it : wf s → (i, it) ∈ items_ s → 0 < e_mem (entry_of it).
Proof.
  intros Hwf Hin. destruct (wf_item_ok s Hwf _ _ Hin) as [Hsize _].
  unfold e_mem. simpl. pose proof (string_size_nonneg (key_of it)). lia.
Qed.

Lemma memory_nonneg s l : wf s → (∀ x, x ∈ l → x ∈ items_ s) → 0 ≤ memory l.
Proof.
  intros Hwf. induction l as [|[i it] l IH]; intros Hsub; [done|].
  rewrite memory_cons. pose proof (item_mem_nonneg s i it Hwf) as Hp.
  assert (0 ≤ memory l) by (apply IH; intros; apply Hsub; by right).
  assert (0 < e_mem (entry_of it)) by (apply Hp, Hsub; left).
  change (footprint (key_of it) (data_size it)) with (e_mem (entry_of it)). lia.
Qed.

(** ** Lookup *)
Lemma abs_NoDup s : wf s → NoDup (e_key <$> abs s).
Proof. intros Hwf. rewrite abs_keys. by apply wf_keys_NoDup. Qed.

Lemma find_key_abs s k mn it :
  wf s → item_map_ s !! k = Some mn → linked s k mn it → find_key k (abs s) = Some (entry_of it).
Proof.
  intros Hwf E (Hin & Hkey & _). apply find_key_elem.
  - by apply abs_NoDup.
  - apply list_elem_of_fmap. by eexists (_, it).
  - simpl. unfold key_of. by rewrite Hkey.
Qed.

Lemma find_key_abs_None s k : wf s → item_map_ s !! k = None → find_key k (abs s) = None.
Proof.
  intros Hwf E. apply find_key_None. rewrite abs_keys.
  intros ([i it] & -> & Hin)%list_elem_of_fmap.
  destruct (wf_item_key s Hwf i it Hin) as (mn & E' & _). simpl in E. congruence.
Qed.

Lemma get_item_spec s k t :
  wf s → ∃ r, get_item s k t = Ok r ∧
    match r with
    | None => lookup_live k t (abs s) = None
    | Some (p, it) => ∃ mn, item_map_ s !! k = Some mn ∧ linked s k mn it ∧
        p = ItemPtr (st_id s) (item_iter (mn_iters mn)) ∧
        lookup_live k t (abs s) = Some (entry_of it)
    end.
Proof.
  intros Hwf. unfold get_item, lookup_live.
  destruct (item_map_ s !! k) as [mn|] eqn:E.
  - destruct (wf_map s Hwf _ _ E) as (it & Hl).
    rewrite (wf_deref_item s Hwf k mn it Hl), (find_key_abs s k mn it) by done.
    cbn [or_ub mbind outcome_bind option_bind]. unfold is_expired, e_live. simpl.
    destruct (Z.leb_spec (expires_at it) t); simpl; eexists; split; try done.
    + by rewrite decide_False by lia.
    + exists mn. rewrite decide_True by lia. done.
  - eexists. split; [done|]. simpl. by rewrite find_key_abs_None.
Qed.

Lemma mark_spec s k mn it :
  wf s → item_map_ s !! k = Some mn → linked s k mn it →
  ∃ s', mark_as_recently_used s k = Ok s' ∧ wf s' ∧ same_shell s s' ∧
    item_map_ s' = item_map_ s ∧ abs s' = touch k (abs s).
Proof.
  intros Hwf E Hl. pose proof Hl as (Hin & Hkey & _).
  pose proof (wf_items_nodes s Hwf) as Hnd.
  unfold mark_as_recently_used. rewrite E, (wf_deref_item s Hwf k mn it Hl).
  cbn [or_ub mbind outcome_bind].
  pose proof (splice_front_perm _ _ _ Hnd Hin) as Hperm.
  eexists. split; [done|]. split; [|split; [done|split; [done|]]].
  - pose proof Hwf as [W1 W2 W3 W4 W5 W6 W7 W8 W9 W10 W11 W12 W13].
    split; unfold linked;
      cbn [with_items st_config st_id items_ expiry_buckets_ item_map_ used_memory_ next_node];
      try done.
    + by rewrite Hperm.
    + intros i it'. rewrite Hperm. intros (k' & mn' & ? & ? & ? & ? & ?)%W5.
      exists k', mn'. repeat (split; try done). by rewrite Hperm.
    + intros k' mn' (it' & ? & ? & ?)%W6. exists it'.
      repeat (split; try done). by rewrite Hperm.
    + intros i it'. rewrite Hperm. apply W8.
    + by rewrite (memory_perm _ _ Hperm).
    + intros i it'. rewrite Hperm. apply W10.
  - unfold touch. rewrite (find_key_abs s k mn it) by done.
    unfold abs at 1, splice_front. cbn [with_items items_].
    rewrite (elem_deref _ it) by done. simpl. f_equal.
    apply list_elem_of_split in Hin as (l1 & l2 & Hs). 
    assert (k = e_key (entry_of it)) as -> by (simpl; unfold key_of; by rewrite Hkey).
    pose proof (abs_NoDup s Hwf) as Hkd. unfold abs in Hkd |- *. rewrite Hs in Hkd, Hnd |- *.
    rewrite erase_split by done. rewrite fmap_app in Hkd. rewrite !fmap_app.
    symmetry. exact (remove_key_split (entry_of it) _ _ Hkd).
Qed.

(** ** Eviction *)
Lemma evict_loop_spec fuel s k req avail l1 l2 :
  wf s → items_ s = l1 ++ l2 → (length l1 < fuel)%nat →
  - 2 ^ 31 ≤ avail → avail + memory l1 < 2 ^ 31 →
  ∃ s' l1', evict_loop fuel s k req avail (begin_ l2) = Ok s' ∧ wf s' ∧ same_shell s s' ∧
    items_ s' = l1' ++ l2 ∧
    abs_items l1' = reverse (evict_from k req avail (reverse (abs_items l1))) ∧
    item_map_ s' !! k = item_map_ s !! k ∧ item_map_ s' ⊆ item_map_ s.
Proof.
  revert s avail l1 l2. induction fuel as [|fuel IH]; intros s avail l1 l2 Hwf Hl Hfuel Hlo Hhi;
    [lia|].
  pose proof (wf_items_nodes s Hwf) as Hnd. cbn [evict_loop].
  rewrite Hl in Hnd |- *. rewrite valid_pos_begin. cbn [negb].
  rewrite before_split by done.
  destruct l1 as [|[i it] l1 _] using rev_ind.
  { simpl. exists s, []. rewrite Hl. done. }
  rewrite last_snoc.
  assert ((i, it) ∈ items_ s) as Hin.
  { rewrite Hl, <- app_assoc. apply elem_of_app. right. left. }
  destruct (wf_item_key s Hwf i it Hin) as (mn & E & Ei & Hlk & Ed).
  rewrite Ed. ok_bind.
  rewrite <- app_assoc in Hl. rewrite memory_app in Hhi. rewrite length_app in Hfuel.
  simpl in Hfuel.
  change (memory [(i, it)]) with (footprint (key_of it) (data_size it) + 0) in Hhi.
  assert (0 ≤ memory l1) as Hnn.
  { apply (memory_nonneg s); [done|]. intros x Hx. rewrite Hl. apply elem_of_app. by left. }
  pose proof (item_mem_nonneg s i it Hwf Hin) as Hpos.
  change (e_mem (entry_of it)) with (footprint (key_of it) (data_size it)) in Hpos.
  rewrite !abs_items_app, reverse_app. change (reverse (abs_items [(i, it)])) with [entry_of it].
  cbn [app evict_from].
  change (e_key (entry_of it)) with (key_of it).
  case_decide as Hk.
  - destruct (IH s avail l1 ((i, it) :: l2)) as (s' & l1' & Eq & Hwf' & Hsh & Hl' & Habs & Hm);
      [done..|lia|lia|lia|].
    exists s', (l1' ++ [(i, it)]). rewrite <- app_assoc. change (begin_ ((i, it) :: l2)) with (Some i) in Eq. rewrite Eq.
    repeat (split; [done|]). split; [|done].
    rewrite abs_items_app, Habs, reverse_cons. done.
  - rewrite get_item_size_footprint.
    assert (footprint (key_of it) (data_size it) < 2 ^ 32) by lia.
    rewrite (wrap_u_id 64 (footprint _ _)) by range.
    rewrite wrap_s_narrow by lia. rewrite (wrap_s_id 32) by (first [lia | range]).
    destruct (remove_item_spec s (key_of it) mn it l1 l2) as (s1 & E1 & Hwf1 & Hsh1 & Hl1 & Hm1 & _);
      [done|done|by rewrite Ei|].
    rewrite E1. ok_bind.
    change (e_mem (entry_of it)) with (footprint (key_of it) (data_size it)).
    assert (item_map_ s1 !! k = item_map_ s !! k) as Hmk by (rewrite Hm1; by apply lookup_delete_ne).
    destruct (Z.leb_spec req (avail + footprint (key_of it) (data_size it))) as [Hle|Hle].
    + rewrite decide_True by done. exists s1, l1. rewrite reverse_involutive.
      repeat (split; [done|]). rewrite Hm1. apply delete_subseteq.
    + rewrite decide_False by lia.
      destruct (IH s1 (avail + footprint (key_of it) (data_size it)) l1 l2)
        as (s' & l1' & Eq & Hwf' & Hsh & Hl' & Habs & Hmk' & Hsub); [done|done|lia|lia|lia|].
      exists s', l1'. rewrite Eq. split; [done|]. split; [done|].
      split; [eauto with cpp|]. split; [done|]. split; [done|].
      split; [congruence|]. etrans; [done|]. rewrite Hm1. apply delete_subseteq.
Qed.

(** The sizes for which the [int] computations of the code are exact: a cache
    below 2 GiB, holding less than 2 GiB. *)
Definition int_sized (s : cache_storage) : Prop :=
  0 ≤ cache_size (st_config s) < 2 ^ 31 ∧ memory (items_ s) < 2 ^ 31.

Lemma evict_lru_data_spec s k req :
  wf s → int_sized s →
  ∃ s', evict_lru_data s k req = Ok s' ∧ wf s' ∧ same_shell s s' ∧
    abs s' = evict (cache_size (st_config s)) k req (abs s) ∧
    item_map_ s' !! k = item_map_ s !! k ∧ item_map_ s' ⊆ item_map_ s.
Proof.
  intros Hwf [Hcap Hmem]. unfold evict_lru_data, evict.
  assert (0 ≤ memory (items_ s)) as Hnn by by apply (memory_nonneg s).
  rewrite wrap_s_narrow, (wf_used s Hwf) by lia.
  replace (i32 (cache_size (st_config s) - u64 (memory (items_ s))))
    with (cache_size (st_config s) - memory (items_ s)); last first.
  { rewrite wrap_u_id by range. symmetry. apply wrap_s_id; [lia|range]. }
  rewrite (memory_abs s) in *.
  destruct (Z.leb_spec req (cache_size (st_config s) - mem (abs s))).
  - rewrite decide_True by done. eauto 10 with cpp.
  - rewrite decide_False by lia.
    destruct (evict_loop_spec (S (length (items_ s))) s k req
      (cache_size (st_config s) - mem (abs s)) (items_ s) [])
      as (s' & l1' & Eq & Hwf' & Hsh & Hl' & Habs & Hm); [done|by rewrite app_nil_r|lia|lia| |].
    { rewrite (memory_abs s). lia. }
    exists s'. rewrite app_nil_r in Hl'. split; [done|]. split; [done|]. split; [done|].
    split; [|done]. unfold abs. by rewrite Hl'.
Qed.

(** ** Writes *)
Lemma get_required_memory_spec s k it t :
  wf s → int_sized s → item_ok it → footprint k (data_size it) < 2 ^ 31 →
  get_required_memory s k it t = Ok (required (entry_at k it) t (abs s)).
Proof.
  intros Hwf [_ Hmem] Hit Hfp. unfold get_required_memory, required. cbn [v_get_item cache_storage_vtable].
  destruct (get_item_spec s k t Hwf) as (r & -> & Hr). ok_bind.
  rewrite wrap_s_narrow, !get_item_size_footprint by lia.
  pose proof (footprint_pos k it Hit) as Hfp0.
  rewrite (wrap_u_id 64 (footprint k (data_size it))) by range.
  change (e_mem (entry_at k it)) with (footprint k (data_size it)).
  change (e_key (entry_at k it)) with k.
  destruct r as [[p old]|].
  - destruct Hr as (mn & E & (Hin & Hkey & Hb) & _ & ->).
    pose proof (item_mem_nonneg s _ _ Hwf Hin) as Hpos.
    assert (footprint k (data_size old) = e_mem (entry_of old)) as Heq.
    { change (e_mem (entry_of old)) with (footprint (key_of old) (data_size old)).
      unfold key_of. by rewrite Hkey. }
    assert (e_mem (entry_of old) ≤ memory (items_ s)).
    { rewrite (memory_perm _ _ (erase_perm _ _ _ (wf_items_nodes s Hwf) Hin)), memory_cons.
      change (footprint (key_of old) (data_size old)) with (e_mem (entry_of old)).
      assert (0 ≤ memory (erase (item_iter (mn_iters mn)) (items_ s))); [|lia].
      apply (memory_nonneg s); [done|]. intros [j x] [_ ?]%elem_of_erase. done. }
    rewrite get_item_size_footprint, Heq, (wrap_u_id 64 (e_mem _)) by range.
    f_equal. apply wrap_s_id; [lia|range].
  - rewrite Hr. f_equal. rewrite Z.sub_0_r. apply wrap_s_id; [lia|range].
Qed.

(** The key is not held by an entry that has expired but was not purged. *)
Definition not_stale (s : cache_storage) (k : string) (t : Z) : Prop :=
  match find_key k (abs s) with Some e => e_live t e | None => True end.
#[export] Instance not_stale_dec s k t : Decision (not_stale s k t).
Proof. unfold not_stale. destruct (find_key _ _); apply _. Defined.

Lemma abs_replace s s' k mn it old i :
  wf s → linked s k mn old → i = item_iter (mn_iters mn) →
  items_ s' = (i, set_key (key old) it) :: erase i (items_ s) →
  abs s' = entry_at k it :: remove_key k (abs s).
Proof.
  intros Hwf (Hin & Hkey & _) -> Hitems. unfold abs. rewrite Hitems. simpl. f_equal.
  - unfold entry_of, entry_at, key_of, set_key. simpl. by rewrite Hkey.
  - pose proof (abs_NoDup s Hwf) as Hkd. pose proof (wf_items_nodes s Hwf) as Hnd.
    apply list_elem_of_split in Hin as (l1 & l2 & Hs). unfold abs in Hkd.
    rewrite Hs in *. rewrite erase_split by done. rewrite fmap_app in Hkd. rewrite !fmap_app.
    assert (k = e_key (entry_of old)) as -> by (simpl; unfold key_of; by rewrite Hkey).
    symmetry. exact (remove_key_split (entry_of old) _ _ Hkd).
Qed.

Lemma wf_set_commit_code s c : wf s → wf (set_commit_code c s).
Proof. by intros []. Qed.

(** A key whose live lookup fails although it is not stale is not in the map. *)
Lemma not_stale_absent s s1 k t :
  wf s1 → not_stale s k t → find_key k (abs s1) = find_key k (abs s) →
  lookup_live k t (abs s1) = None → item_map_ s1 !! k = None.
Proof.
  intros Hwf1 Hst Hfind Hr. destruct (item_map_ s1 !! k) as [mn|] eqn:E; [|done]. exfalso.
  destruct (wf_map s1 Hwf1 _ _ E) as (old & Hl).
  unfold lookup_live in Hr. unfold not_stale in Hst.
  rewrite <- Hfind in Hst. rewrite (find_key_abs s1 k mn old) in Hst, Hr by done.
  simpl in Hr. by rewrite decide_True in Hr.
Qed.

(** An accepted write makes room, then looks the key up again. *)
Lemma commit_write_steps s k it t :
  wf s → int_sized s → item_ok it → footprint k (data_size it) < 2 ^ 31 →
  string_size k ≤ max_key_size (st_config s) → t < expires_at it →
  ∃ s1, wf s1 ∧ same_shell s s1 ∧
    abs s1 = evict (cache_size (st_config s)) k (required (entry_at k it) t (abs s)) (abs s) ∧
    find_key k (abs s1) = find_key k (abs s) ∧ item_map_ s1 ⊆ item_map_ s ∧
    commit_write s k it t =
      (old_item ← get_item s1 k t;
       '(s2, _) ← match old_item with
                  | Some _ => update_item s1 k it t
                  | None => insert_item s1 k it t
                  end;
       Ok (with_commit_code DONE_OK s2, true)).
Proof.
  intros Hwf Hint Hit Hfp Hk Ht. unfold commit_write.
  cbn [v_base v_evict_lru_data v_get_item v_update_item v_insert_item cache_storage_vtable id].
  rewrite decide_False by lia. rewrite decide_False by (destruct Hit as [-> _]; lia).
  unfold is_expired. destruct (Z.leb_spec (expires_at it) t); [lia|].
  rewrite get_required_memory_spec by done. ok_bind.
  destruct (evict_lru_data_spec s k (required (entry_at k it) t (abs s)) Hwf Hint)
    as (s1 & -> & Hwf1 & Hsh1 & Habs1 & _ & Hsub).
  exists s1. repeat (split; [done|]). split; [|done].
  rewrite Habs1. apply find_key_evict; [by apply abs_NoDup|].
  rewrite <- Habs1. by apply abs_NoDup.
Qed.

(** The write that stores an item: not too long a key, not expired. *)
Lemma commit_write_stores s k it t :
  wf s → int_sized s → item_ok it → footprint k (data_size it) < 2 ^ 31 →
  string_size k ≤ max_key_size (st_config s) → t < expires_at it → not_stale s k t →
  ∃ s', commit_write s k it t = Ok (s', true) ∧ wf s' ∧
    st_id s' = st_id s ∧ st_config s' = st_config s ∧ commit_code_ s' = Some DONE_OK ∧
    abs s' = write_entry (cache_size (st_config s)) (entry_at k it) t (abs s).
Proof.
  intros Hwf Hint Hit Hfp Hk Ht Hst.
  destruct (commit_write_steps s k it t Hwf Hint Hit Hfp Hk Ht)
    as (s1 & Hwf1 & (Hid1 & Hcfg1 & Hcc1) & Habs1 & Hfind & _ & ->).
  unfold write_entry. change (e_key (entry_at k it)) with k. rewrite <- Habs1.
  destruct (get_item_spec s1 k t Hwf1) as (r & -> & Hr). ok_bind.
  destruct r as [[p old]|].
  - destruct Hr as (mn & E & Hl & _ & _).
    destruct (update_item_spec s1 k mn old it t Hwf1 E Hl Hit)
      as (s2 & mn' & -> & Hwf2 & (Hid2 & Hcfg2 & Hcc2) & Hitems & _).
    eexists. split; [done|]. split; [by apply (wf_set_commit_code s2)|].
    repeat (split; [simpl; congruence|]). by eapply (abs_replace s1 s2).
  - pose proof (not_stale_absent s s1 k t Hwf1 Hst Hfind Hr) as E.
    destruct (insert_item_spec s1 k it t Hwf1 E Hit)
      as (s2 & mn & -> & Hwf2 & (Hid2 & Hcfg2 & Hcc2) & Hitems & _).
    eexists. split; [done|]. split; [by apply (wf_set_commit_code s2)|].
    repeat (split; [simpl; congruence|]).
    rewrite remove_key_notin by (apply find_key_None; by apply find_key_abs_None).
    unfold abs. simpl. by rewrite Hitems.
Qed.

(** A write leaves the map nodes of other keys alone, or removes them. *)
Lemma commit_write_frame s k it t s' k' mn :
  wf s → int_sized s → item_ok it → footprint k (data_size it) < 2 ^ 31 → not_stale s k t →
  commit_write s k it t = Ok (s', true) → k' ≠ k →
  item_map_ s' !! k' = Some mn → item_map_ s !! k' = Some mn.
Proof.
  intros Hwf Hint Hit Hfp Hst Heq Hne Hk'.
  assert (string_size k ≤ max_key_size (st_config s) ∧ t < expires_at it) as [Hk Ht].
  { unfold commit_write in Heq. cbn [v_base cache_storage_vtable id] in Heq.
    unfold is_expired in Heq. repeat case_decide; try done; [].
    destruct (Z.leb_spec (expires_at it) t); [done|lia]. }
  destruct (commit_write_steps s k it t Hwf Hint Hit Hfp Hk Ht)
    as (s1 & Hwf1 & _ & _ & Hfind & Hsub & Eq). rewrite Eq in Heq. clear Eq.
  apply (lookup_weaken (item_map_ s1)); [|done].
  destruct (get_item_spec s1 k t Hwf1) as (r & Eg & Hr). rewrite Eg in Heq.
  ok_bind in Heq. destruct r as [[p old]|].
  - destruct Hr as (mn0 & E & Hl & _ & _).
    destruct (update_item_spec s1 k mn0 old it t Hwf1 E Hl Hit)
      as (s2 & mn' & Eu & _ & _ & _ & Hmap & _).
    rewrite Eu in Heq. ok_bind in Heq. injection Heq as <-.
    simpl in Hk'. by rewrite Hmap, lookup_insert_ne in Hk'.
  - pose proof (not_stale_absent s s1 k t Hwf1 Hst Hfind Hr) as E.
    destruct (insert_item_spec s1 k it t Hwf1 E Hit)
      as (s2 & mn0 & Ei & _ & _ & _ & Hmap & _).
    rewrite Ei in Heq. ok_bind in Heq. injection Heq as <-.
    simpl in Hk'. by rewrite Hmap, lookup_insert_ne in Hk'.
Qed.

(** An eviction that finds enough room does nothing. *)
Lemma evict_lru_data_room s k req :
  wf s → int_sized s → req ≤ cache_size (st_config s) - memory (items_ s) →
  evict_lru_data s k req = Ok s.
Proof.
  intros Hwf [Hcap Hmem] Hreq. unfold evict_lru_data.
  assert (0 ≤ memory (items_ s)) as Hnn by (by apply (memory_nonneg s)).
  rewrite wrap_s_narrow, (wf_used s Hwf), wrap_u_id by (lia || range).
  rewrite wrap_s_id by (lia || range).
  by rewrite (proj2 (Z.leb_le _ _)) by lia.
Qed.

(** ** Purge *)
Definition ptr_key (p : option key_ptr) : string :=
  match p with Some q => kp_key q | None => EmptyString end.
Definition bucket_keys (es : bucket) : list string := (λ x, ptr_key x.2) <$> es.

Lemma filter_key_split (l1 l2 : list (nat * cache_item)) i it s :
  wf s → items_ s = l1 ++ (i, it) :: l2 →
  l1 ++ l2 = filter (λ x, key_of x.2 ≠ key_of it) (items_ s).
Proof.
  intros Hwf Hs.
  assert (∀ x, x ∈ l1 ++ l2 → key_of x.2 ≠ key_of it) as Hne.
  { intros [j x] Hx Heq. simpl in Heq.
    assert ((j, x) ∈ items_ s) as Hj.
    { rewrite Hs. apply elem_of_app in Hx as [?|?]; apply elem_of_app;
        [by left|right; by right]. }
    assert ((i, it) ∈ items_ s) as Hi by (rewrite Hs; apply elem_of_app; right; left).
    destruct (wf_key_inj s Hwf j x i it Hj Hi Heq) as [-> ->].
    pose proof (wf_items_nodes s Hwf) as Hnd. rewrite Hs, fmap_app, NoDup_app in Hnd.
    simpl in Hnd. destruct Hnd as (_ & Hd & [Hni _]%NoDup_cons).
    apply elem_of_app in Hx as [Hx%fst_elem|Hx%fst_elem]; [|done].
    apply (Hd _ Hx). left. }
  rewrite Hs, filter_app, filter_cons, decide_False by (simpl; naive_solver).
  rewrite !filter_true; [done|..]; intros x Hx; apply Hne; apply elem_of_app; auto.
Qed.

(** One round of the inner loop of [commit_purge]: the first key of the bucket
    is removed, and the bucket with it when it was the last. *)
Lemma purge_bucket_step policy fuel s b t e p es :
  wf s → (b, (t, (e, p) :: es)) ∈ expiry_buckets_ s →
  ∃ k s1, purge_bucket policy (S fuel) s b (Some e) = purge_bucket policy fuel s1 b (begin_ es) ∧
    bucket_keys ((e, p) :: es) = k :: bucket_keys es ∧
    wf s1 ∧ same_shell s s1 ∧ items_ s1 = filter (λ x, key_of x.2 ≠ k) (items_ s) ∧
    item_map_ s1 = delete k (item_map_ s) ∧
    (es = [] ∧ expiry_buckets_ s1 = erase b (expiry_buckets_ s) ∨
     es ≠ [] ∧ expiry_buckets_ s1 = write b (t, es) (expiry_buckets_ s)).
Proof.
  intros Hwf Hb. pose proof (wf_buckets s Hwf) as [Hnd _ Hes].
  assert (in_bucket (expiry_buckets_ s) b t e p) as Hent by (eexists; split; [done|left]).
  destruct (wf_entries s Hwf _ _ _ _ Hent) as (k & mn & E & -> & Eb & Ee).
  destruct (wf_map s Hwf _ _ E) as (it & Hin & Hkey & _).
  assert (key_of it = k) as Hkit by (unfold key_of; by rewrite Hkey).
  apply list_elem_of_split in Hin as (l1 & l2 & Hs).
  destruct (remove_item_spec s k mn it l1 l2 Hwf E Hs)
    as (s1 & Eq & Hwf1 & Hsh1 & Hl1 & Hm1 & (t' & es' & Hb' & Hform)).
  rewrite (filter_key_split l1 l2 _ _ s Hwf Hs), Hkit in Hl1.
  rewrite Eb in Hb', Hform. rewrite Ee in Hform.
  pose proof (node_inj _ _ _ _ Hnd Hb Hb') as [= <- <-].
  pose proof (Hes _ _ _ Hb) as Hesnd. simpl in Hesnd. apply NoDup_cons in Hesnd as [He _].
  rewrite (erase_head e _ es He) in Hform.
  exists k, s1. split; [|repeat (split; [done|]); naive_solver].
  cbn [purge_bucket]. unfold at_bucket_end. rewrite (elem_deref _ _ _ Hnd Hb).
  cbn [mbind outcome_bind or_ub]. rewrite bool_decide_eq_false_2 by done.
  cbn [deref]. rewrite decide_True by done.
  cbn [or_ub mbind outcome_bind]. rewrite (wf_deref_key s k mn E). ok_bind.
  rewrite next_of_head, Eq. done.
Qed.

Lemma purge_bucket_spec fuel s b t es :
  wf s → (b, (t, es)) ∈ expiry_buckets_ s → (length es < fuel)%nat →
  ∃ s', purge_bucket AddressEnd fuel s b (begin_ es) = Ok s' ∧ wf s' ∧ same_shell s s' ∧
    expiry_buckets_ s' = erase b (expiry_buckets_ s) ∧
    items_ s' = filter (λ x, key_of x.2 ∉ bucket_keys es) (items_ s) ∧
    item_map_ s' ⊆ item_map_ s.
Proof.
  revert s es. induction fuel as [|fuel IH]; intros s es Hwf Hb Hfuel; [lia|].
  pose proof (bo_nodes _ (wf_buckets s Hwf)) as Hnd.
  destruct es as [|[e p] es]; [by destruct (wf_nonempty s Hwf _ _ _ Hb)|].
  destruct (purge_bucket_step AddressEnd fuel s b t e p es Hwf Hb)
    as (k & s1 & Eq & Hk & Hwf1 & Hsh1 & Hl1 & Hm1 & Hform).
  change (begin_ ((e, p) :: es)) with (Some e). rewrite Eq, Hk.
  assert (item_map_ s1 ⊆ item_map_ s) as Hsub1 by (rewrite Hm1; apply delete_subseteq).
  destruct Hform as [[-> Hbk]|[Hne Hbk]].
  - exists s1. destruct fuel as [|fuel]; [simpl in Hfuel; lia|].
    split; [|split; [done|split; [done|split; [done|split; [|done]]]]].
    + cbn [purge_bucket]. unfold at_bucket_end.
      destruct (deref b (expiry_buckets_ s1)); done.
    + rewrite Hl1. apply list_filter_iff. intros [j x]. simpl.
      rewrite list_elem_of_singleton. done.
  - assert ((b, (t, es)) ∈ expiry_buckets_ s1) as Hb1.
    { rewrite Hbk. apply elem_of_write; [done|by eapply fst_elem|by left]. }
    destruct (IH s1 es Hwf1 Hb1) as (s2 & -> & Hwf2 & Hsh2 & Hbk2 & Hl2 & Hsub2);
      [simpl in Hfuel; lia|].
    exists s2. split; [done|]. split; [done|]. split; [eauto with cpp|].
    split; [by rewrite Hbk2, Hbk, erase_write|]. split; [|by etrans].
    rewrite Hl2, Hl1. apply filter_and. intros [j x] _. simpl.
    rewrite not_elem_of_cons. tauto.
Qed.

(** Read by the letter of the standard, the inner loop never ends well. *)
Lemma purge_bucket_strict fuel s b t es :
  wf s → (b, (t, es)) ∈ expiry_buckets_ s → (length es < fuel)%nat →
  purge_bucket StrictEnd fuel s b (begin_ es) = undefined DanglingIterator.
Proof.
  revert s es. induction fuel as [|fuel IH]; intros s es Hwf Hb Hfuel; [lia|].
  pose proof (bo_nodes _ (wf_buckets s Hwf)) as Hnd.
  destruct es as [|[e p] es]; [by destruct (wf_nonempty s Hwf _ _ _ Hb)|].
  destruct (purge_bucket_step StrictEnd fuel s b t e p es Hwf Hb)
    as (k & s1 & Eq & _ & Hwf1 & _ & _ & _ & Hform).
  change (begin_ ((e, p) :: es)) with (Some e). rewrite Eq. simpl in Hfuel.
  destruct Hform as [[-> Hbk]|[Hne Hbk]].
  - destruct fuel as [|fuel]; [simpl in Hfuel; lia|]. cbn [purge_bucket].
    unfold at_bucket_end. by rewrite Hbk, deref_erase.
  - apply IH; [done| |lia]. rewrite Hbk.
    apply elem_of_write; [done|by eapply fst_elem|by left].
Qed.

(** The bucket of purge time [t] holds the keys of the items with that time. *)
Lemma bucket_holds s b t es i it :
  wf s → (b, (t, es)) ∈ expiry_buckets_ s → (i, it) ∈ items_ s →
  key_of it ∈ bucket_keys es ↔
  purge_time (purge_interval (st_config s)) (expires_at it) = t.
Proof.
  intros Hwf Hb Hin. pose proof (wf_buckets s Hwf) as [Hnd Hsort _].
  destruct (wf_item_key s Hwf i it Hin) as (mn & E & Ei & (_ & Hkey & es' & Hb' & He') & _).
  split.
  - intros ([e p] & Hk & He)%list_elem_of_fmap. simpl in Hk.
    assert (in_bucket (expiry_buckets_ s) b t e p) as Hent by by exists es.
    destruct (wf_entries s Hwf _ _ _ _ Hent) as (k & mn' & E' & -> & Eb & _).
    simpl in Hk. rewrite Hk, E' in E. injection E as ->. rewrite Eb in Hb'.
    by pose proof (node_inj _ _ _ _ Hnd Hb Hb') as [= -> _].
  - intros <-. apply list_elem_of_fmap. eexists (_, key it).
    split; [by rewrite Hkey; unfold key_of; rewrite Hkey|].
    assert (NoDup (bucket_times (expiry_buckets_ s))) as Htnd.
    { revert Hsort. generalize (bucket_times (expiry_buckets_ s)). clear.
      induction 1 as [|x l _ IH Hall]; constructor; [|done].
      intros Hx. rewrite Forall_forall in Hall. pose proof (Hall x Hx). lia. }
    assert ((b, (purge_time (purge_interval (st_config s)) (expires_at it), es)) =
      (expiry_map_iter (mn_iters mn), (purge_time (purge_interval (st_config s)) (expires_at it), es')))
      as [= -> ->]; [|done].
    apply list_elem_of_lookup in Hb as [j1 Hj1]. apply list_elem_of_lookup in Hb' as [j2 Hj2].
    assert (j1 = j2) as <-.
    { eapply (NoDup_lookup _ j1 j2); [exact Htnd|..]; unfold bucket_times;
        rewrite list_lookup_fmap; [rewrite Hj1|rewrite Hj2]; done. }
    congruence.
Qed.

Definition purge_time_of (s : cache_storage) (x : nat * cache_item) : Z :=
  purge_time (purge_interval (st_config s)) (expires_at x.2).

Lemma purge_time_in_buckets s x :
  wf s → x ∈ items_ s → purge_time_of s x ∈ bucket_times (expiry_buckets_ s).
Proof.
  destruct x as [i it]. intros Hwf Hin.
  destruct (wf_item_key s Hwf i it Hin) as (mn & _ & _ & (_ & _ & es & Hb & _) & _).
  unfold bucket_times. apply list_elem_of_fmap. eexists; split; [|exact Hb]. done.
Qed.

Lemma purge_buckets_spec fuel s prev :
  wf s → (length (expiry_buckets_ s) < fuel)%nat →
  ∃ s', purge_buckets AddressEnd fuel s prev (begin_ (expiry_buckets_ s)) = Ok s' ∧
    wf s' ∧ same_shell s s' ∧
    items_ s' = filter (λ x, prev < purge_time_of s x) (items_ s) ∧
    item_map_ s' ⊆ item_map_ s.
Proof.
  revert s. induction fuel as [|fuel IH]; intros s Hwf Hfuel; [lia|].
  pose proof (wf_buckets s Hwf) as [Hnd Hsort Hes].
  pose proof (λ x, purge_time_in_buckets s x Hwf) as Htimes.
  destruct (expiry_buckets_ s) as [|[b [t es]] bks] eqn:Ebk.
  - exists s. split; [done|]. split; [done|]. split; [done|]. split; [|done].
    destruct (items_ s) as [|x l]; [done|].
    assert (purge_time_of s x ∈ bucket_times []) as []%not_elem_of_nil.
    apply Htimes. left.
  - cbn [purge_buckets begin_ head fmap option_fmap option_map fst].
    rewrite Ebk. cbn [deref]. rewrite decide_True by done. cbn [or_ub mbind outcome_bind].
    rewrite next_of_head. simpl in Hsort. apply StronglySorted_inv in Hsort as [_ Hall].
    rewrite Forall_forall in Hall. simpl in Hnd. apply NoDup_cons in Hnd as [Hbn _].
    assert ((b, (t, es)) ∈ expiry_buckets_ s) as Hb by (rewrite Ebk; left).
    destruct (Z.ltb_spec prev t) as [Hlt|Hle].
    + exists s. split; [done|]. split; [done|]. split; [done|]. split; [|done].
      symmetry. apply filter_true. intros x Hx.
      apply Htimes in Hx. simpl in Hx.
      apply elem_of_cons in Hx as [->|Hx]; [done|]. pose proof (Hall _ Hx). lia.
    + destruct (purge_bucket_spec (S (length es)) s b t es Hwf Hb ltac:(lia))
        as (s1 & -> & Hwf1 & Hsh1 & Hbk1 & Hl1 & Hsub1).
      ok_bind. rewrite Ebk, erase_head in Hbk1 by done.
      destruct (IH s1 Hwf1) as (s2 & Eq & Hwf2 & Hsh2 & Hl2 & Hsub2).
      { rewrite Hbk1. simpl in Hfuel. lia. }
      rewrite Hbk1 in Eq. exists s2. split; [done|]. split; [done|].
      split; [eauto with cpp|]. split; [|by etrans].
      rewrite Hl2, Hl1. apply filter_and. intros [i it] Hin.
      rewrite (bucket_holds s b t es i it) by done. unfold purge_time_of. simpl.
      destruct Hsh1 as (_ & -> & _). lia.
Qed.

(** [commit_purge] keeps, in order, the items whose purge time is after the
    last purge time at or before [purged_at]. *)
Lemma commit_purge_spec s t :
  wf s → time_ok t →
  ∃ s', commit_purge s t = Ok s' ∧ wf s' ∧ same_shell s s' ∧
    abs s' = purge (purge_interval (st_config s)) (t - t mod purge_interval (st_config s)) (abs s) ∧
    item_map_ s' ⊆ item_map_ s.
Proof.
  intros Hwf Ht. pose proof (wf_interval s Hwf) as Hi.
  unfold commit_purge, commit_purge_with.
  rewrite next_purge_time_Ok by done. ok_bind.
  assert (purge_time (purge_interval (st_config s)) t - purge_interval (st_config s) =
    t - t mod purge_interval (st_config s)) as -> by (unfold purge_time; lia).
  rewrite chk_s_Ok; last first.
  { unfold time_ok, interval_ok in *.
    pose proof (Z.mod_pos_bound t (purge_interval (st_config s)) ltac:(lia)). range. }
  ok_bind.
  destruct (purge_buckets_spec (S (length (expiry_buckets_ s))) s
    (t - t mod purge_interval (st_config s)) Hwf ltac:(lia)) as (s' & Eq & Hwf' & Hsh & Hl & Hsub).
  exists s'. split; [done|]. split; [done|]. split; [done|]. split; [|done].
  unfold abs, purge. rewrite Hl. rewrite filter_fmap. f_equal.
Qed.
