(* ===== verification/SnapshotChunk.v ===== *)
(** * The chunked snapshot of a storage

    [read_snapshot_chunk] writes the items of a frozen storage, in the format
    cache_state.hxx documents, as many as fit a chunk.  The format as an
    encoder and a parser of abstract entries, and what one call writes. *)
From S2P Require Import Prelude StdContainers Bytes CacheTypes CacheStorage CacheStorageInv LruSpec CacheStorageOps CacheStorageRefine.
Local Open Scope Z_scope.

(** ** The format

    <key size> <key> <data size> <data> <expiry>, sizes and expiry on 8 bytes. *)
Definition encode_entry (e : entry) : list byte :=
  word_bytes 8 (string_size (e_key e)) ++ bytes_of_string (e_key e)
    ++ word_bytes 8 (e_size e) ++ take (Z.to_nat (e_size e)) (e_data e)
    ++ word_bytes 8 (e_expires e).

Fixpoint encode_entries (l : lru) : list byte :=
  match l with [] => [] | e :: l => encode_entry e ++ encode_entries l end.

Definition encoded_size (e : entry) : Z := 24 + string_size (e_key e) + e_size e.

(** Cutting [n] bytes off the front. *)
Definition cut (n : Z) (bs : list byte) : option (list byte * list byte) :=
  if decide (n ≤ Z.of_nat (length bs))
  then Some (take (Z.to_nat n) bs, drop (Z.to_nat n) bs) else None.

Definition parse_entry (bs : list byte) : option (entry * list byte) :=
  '(ksz, bs) ← cut 8 bs;
  '(k, bs) ← cut (bytes_word ksz) bs;
  '(dsz, bs) ← cut 8 bs;
  '(d, bs) ← cut (bytes_word dsz) bs;
  '(x, bs) ← cut 8 bs;
  Some (Entry (string_of_bytes k) d (bytes_word dsz) (i64 (bytes_word x)), bs).

Fixpoint parse_entries (fuel : nat) (bs : list byte) : option lru :=
  match bs, fuel with
  | [], _ => Some []
  | _, O => None
  | _, S fuel =>
      '(e, bs) ← parse_entry bs;
      l ← parse_entries fuel bs;
      Some (e :: l)
  end.

(** How many leading entries fit in [room] bytes. *)
Fixpoint fit (room : Z) (l : lru) : nat :=
  match l with
  | [] => 0
  | e :: l => if decide (room < encoded_size e) then 0 else S (fit (room - encoded_size e) l)
  end.

(** The entries the format represents exactly. *)
Definition entry_ok (e : entry) : Prop :=
  e_size e = Z.of_nat (length (e_data e)) ∧ in_s 64 (e_expires e) ∧
  encoded_size e < 2 ^ 63.

Lemma length_encode_entry e :
  e_size e = Z.of_nat (length (e_data e)) → Z.of_nat (length (encode_entry e)) = encoded_size e.
Proof.
  intros Hs. unfold encode_entry, encoded_size.
  rewrite !length_app, !length_word_bytes, length_take, string_size_bytes. lia.
Qed.

Lemma encode_entries_app l1 l2 :
  encode_entries (l1 ++ l2) = encode_entries l1 ++ encode_entries l2.
Proof. induction l1 as [|e l1 IH]; [done|]. simpl. by rewrite IH, app_assoc. Qed.

Lemma cut_app n l bs : n = Z.of_nat (length l) → cut n (l ++ bs) = Some (l, bs).
Proof.
  intros ->. unfold cut. rewrite decide_True by (rewrite length_app; lia).
  by rewrite Nat2Z.id, take_app_length, drop_app_length.
Qed.

Lemma parse_encode_entry e bs :
  entry_ok e → parse_entry (encode_entry e ++ bs) = Some (e, bs).
Proof.
  intros (Hs & Hx & Hn). pose proof (string_size_nonneg (e_key e)) as Hk.
  unfold encoded_size in Hn. unfold parse_entry, encode_entry. rewrite <- !app_assoc.
  rewrite cut_app by by rewrite length_word_bytes. cbn [mbind option_bind].
  rewrite word64_roundtrip by range.
  rewrite cut_app by apply string_size_bytes. cbn [mbind option_bind].
  rewrite cut_app by by rewrite length_word_bytes. cbn [mbind option_bind].
  rewrite word64_roundtrip by range.
  rewrite take_ge by lia. rewrite cut_app by done. cbn [mbind option_bind].
  rewrite cut_app by by rewrite length_word_bytes. cbn [mbind option_bind].
  rewrite signed64_roundtrip by done. rewrite string_of_bytes_of_string. by destruct e.
Qed.

Lemma encode_entry_cons e : ∃ b bs, encode_entry e = b :: bs.
Proof. unfold encode_entry. simpl. eauto. Qed.

Lemma parse_encode_entries l fuel :
  Forall entry_ok l → (length l ≤ fuel)%nat → parse_entries fuel (encode_entries l) = Some l.
Proof.
  revert fuel. induction l as [|e l IH]; intros fuel Hl Hf; [by destruct fuel|].
  apply Forall_cons in Hl as [He Hl]. destruct fuel as [|fuel]; simpl in Hf; [lia|].
  destruct (encode_entry_cons e) as (b & bs & Eb).
  pose proof (parse_encode_entry e (encode_entries l) He) as Hp.
  cbn [encode_entries parse_entries]. rewrite Eb in Hp |- *.
  rewrite <- app_comm_cons in Hp |- *. rewrite Hp.
  cbn [mbind option_bind]. by rewrite IH by (done || lia).
Qed.

(** ** What a call writes *)
Section chunk.
Context (s : cache_storage) (Hwf : wf s) (Hmem : memory (items_ s) < 2 ^ 31).
Context (chunk_size : Z) (Hchunk : 0 ≤ chunk_size < 2 ^ 63).

Lemma wf_entry_ok e : e ∈ abs s → entry_ok e ∧ encoded_size e < 2 ^ 31.
Proof.
  intros ([i it] & -> & Hin)%list_elem_of_fmap.
  destruct (wf_item_ok s Hwf _ _ Hin) as [Hs Hx].
  assert (e_mem (entry_of it) ≤ memory (items_ s)) as Hle.
  { rewrite (memory_perm _ _ (erase_perm _ _ _ (wf_items_nodes s Hwf) Hin)), memory_cons.
    change (footprint (key_of it) (data_size it)) with (e_mem (entry_of it)).
    assert (0 ≤ memory (erase i (items_ s))); [|lia].
    apply (memory_nonneg s); [done|]. intros [j x] [_ ?]%elem_of_erase. done. }
  unfold e_mem in Hle. unfold entry_ok, encoded_size, time_ok in *. simpl in *.
  repeat split; [done|range|range|lia|lia].
Qed.

Lemma item_size_encoded i it :
  (i, it) ∈ items_ s → item_size (Some (key_of it)) it = encoded_size (entry_of it).
Proof.
  intros Hin. assert (entry_of it ∈ abs s) as He by by apply list_elem_of_fmap; exists (i, it).
  apply wf_entry_ok in He as [(Hs & _ & _) Hn]. unfold encoded_size in *. simpl in *.
  pose proof (string_size_nonneg (key_of it)). unfold item_size.
  rewrite (wrap_u_id 64 (0 + 8)), (wrap_u_id 64 (0 + 8 + _)) by range.
  rewrite (wrap_u_id 64 (_ + string_size _ + 8)), (wrap_u_id 64 (_ + data_size it)) by range.
  rewrite wrap_u_id by range. lia.
Qed.

Lemma snapshot_loop_spec l out idx rd :
  (∀ x, x ∈ l → x ∈ items_ s) → rd = Z.of_nat (length out) → rd ≤ chunk_size →
  0 ≤ idx → idx + Z.of_nat (length l) < 2 ^ 31 →
  let n := fit (chunk_size - rd) (abs_items l) in
  let enc := encode_entries (take n (abs_items l)) in
  snapshot_loop s l chunk_size out idx rd =
    Ok (out ++ enc, (if decide (n = length l) then -1 else idx + Z.of_nat n),
        rd + Z.of_nat (length enc)) ∧ rd + Z.of_nat (length enc) ≤ chunk_size.
Proof.
  revert out idx rd. induction l as [|[i it] l IH]; intros out idx rd Hsub Hrd Hle Hi Hlen n enc.
  { unfold enc, n. simpl. rewrite app_nil_r, Z.add_0_r. done. }
  assert ((i, it) ∈ items_ s) as Hin by (apply Hsub; left).
  destruct (wf_item_key s Hwf i it Hin) as (mn & _ & _ & (_ & Hkey & _) & Hder).
  assert (entry_of it ∈ abs s) as He by by apply list_elem_of_fmap; exists (i, it).
  pose proof (wf_entry_ok _ He) as [(Hs & _ & _) Hn].
  pose proof (length_encode_entry (entry_of it) Hs) as Henc. cbn [snapshot_loop].
  rewrite Hkey in Hder |- *. rewrite Hder. ok_bind.
  rewrite (item_size_encoded i it Hin).
  rewrite (wrap_u_id 64 (rd + encoded_size (entry_of it))) by range.
  subst enc n. cbn [abs_items fmap list_fmap fit snd length].
  destruct (decide (rd + encoded_size (entry_of it) > chunk_size)) as [Hgt|Hfit].
  { rewrite decide_True by lia. simpl. rewrite app_nil_r, !Z.add_0_r. done. }
  rewrite (decide_False (P := chunk_size - rd < _)) by lia.
  rewrite decide_False by (simpl in Hs; lia).
  change (word_bytes 8 (string_size (key_of it)) ++ _) with (encode_entry (entry_of it)).
  rewrite decide_False by (rewrite length_app; lia).
  simpl length in Hlen. rewrite chk_s_Ok by range. ok_bind.
  replace (chunk_size - rd - encoded_size (entry_of it))
    with (chunk_size - (rd + encoded_size (entry_of it))) by lia.
  destruct (IH (out ++ encode_entry (entry_of it)) (idx + 1)
    (rd + encoded_size (entry_of it))) as [-> Hfin].
  - intros x Hx. apply Hsub. by right.
  - rewrite length_app. lia.
  - lia.
  - lia.
  - lia.
  - cbn [take encode_entries]. rewrite <- app_assoc. rewrite length_app, Nat2Z.inj_add, Henc.
    split; [|unfold abs_items in *; lia]. f_equal. f_equal; [f_equal|unfold abs_items; lia].
    unfold abs_items. repeat case_decide; lia.
Qed.

Lemma read_snapshot_chunk_spec n :
  (n ≤ length (items_ s))%nat → Z.of_nat (length (items_ s)) < 2 ^ 31 →
  let rest := drop n (abs s) in
  let m := fit chunk_size rest in
  let enc := encode_entries (take m rest) in
  read_snapshot_chunk s chunk_size (Z.of_nat n) =
    Ok (enc ++ replicate (Z.to_nat chunk_size - length enc) Byte.x00,
        (if decide (m = length rest) then -1 else Z.of_nat (n + m)),
        Z.of_nat (length enc)) ∧ Z.of_nat (length enc) ≤ chunk_size.
Proof.
  intros Hn Hlen rest m enc. unfold read_snapshot_chunk.
  rewrite wrap_u_id by range. rewrite Z.min_r, Nat2Z.id by lia.
  destruct (snapshot_loop_spec (drop n (items_ s)) [] (Z.of_nat n) 0) as [-> Hle];
    [|done|lia|lia|rewrite length_drop; lia|].
  { intros x Hx. rewrite <- (take_drop n (items_ s)). apply elem_of_app. by right. }
  cbn [mbind outcome_bind app]. rewrite Z.sub_0_r in Hle |- *.
  assert (abs_items (drop n (items_ s)) = rest) as Hrest by apply fmap_drop.
  rewrite Hrest in Hle |- *. fold m in Hle |- *. fold enc in Hle |- *. split; [|lia].
  assert (length rest = length (drop n (items_ s))) as ->.
  { unfold rest, abs. by rewrite !length_drop, length_fmap. }
  rewrite Nat2Z.inj_add, Z.add_0_l. done.
Qed.
End chunk.

(** ** Reading all of it

    A reader that asks for chunks from index 0 until [-1] comes back, and
    keeps the bytes each call says it wrote. *)
Fixpoint read_all (fuel : nat) (s : cache_storage) (chunk_size item_index : Z) :
    outcome (list byte) :=
  match fuel with
  | O => Fault OutOfFuel
  | S fuel =>
      '(buf, item_index, n) ← read_snapshot_chunk s chunk_size item_index;
      if decide (item_index = -1) then Ok (take (Z.to_nat n) buf) else
      rest ← read_all fuel s chunk_size item_index;
      Ok (take (Z.to_nat n) buf ++ rest)
  end.

Lemma fit_le room l : (fit room l ≤ length l)%nat.
Proof. revert room. induction l; intros; simpl; [done|]. case_decide; [lia|]. by apply le_n_S. Qed.

Lemma fit_pos room e l : encoded_size e ≤ room → (0 < fit room (e :: l))%nat.
Proof. intros. simpl. rewrite decide_False; lia. Qed.

Lemma elem_of_drop_le n (l : lru) e : e ∈ drop n l → e ∈ l.
Proof. intros. rewrite <- (take_drop n l). apply elem_of_app. by right. Qed.

Lemma read_all_spec s chunk_size n fuel :
  wf s → memory (items_ s) < 2 ^ 31 → 0 ≤ chunk_size < 2 ^ 63 →
  (∀ e, e ∈ abs s → encoded_size e ≤ chunk_size) →
  (n ≤ length (items_ s))%nat → Z.of_nat (length (items_ s)) < 2 ^ 31 →
  (length (items_ s) - n < fuel)%nat →
  read_all fuel s chunk_size (Z.of_nat n) = Ok (encode_entries (drop n (abs s))).
Proof.
  intros Hwf Hmem Hch Hbig Hn Hlen. revert n Hn. induction fuel as [|fuel IH]; intros n Hn Hf; [lia|].
  destruct (read_snapshot_chunk_spec s Hwf Hmem chunk_size Hch n Hn Hlen) as [Heq _].
  cbn [read_all]. rewrite Heq. clear Heq. ok_bind.
  set (rest := drop n (abs s)) in *. set (m := fit chunk_size rest).
  rewrite Nat2Z.id, take_app_length.
  assert (length rest = length (items_ s) - n)%nat as Hrl.
  { unfold rest, abs. by rewrite length_drop, length_fmap. }
  destruct (decide (m = length rest)) as [Hm|Hm].
  - rewrite decide_True by done. by rewrite Hm, firstn_all.
  - rewrite decide_False by lia.
    assert (0 < m)%nat as Hm0.
    { destruct rest as [|e l] eqn:E; [by destruct Hm|].
      apply fit_pos, Hbig. apply (elem_of_drop_le n). fold rest. rewrite E. left. }
    pose proof (fit_le chunk_size rest) as Hle. fold m in Hle.
    rewrite IH by lia. ok_bind.
    by rewrite <- encode_entries_app, <- drop_drop, take_drop.
Qed.
