(* ===== verification/CacheStorageReach.v ===== *)
(** * Requests to a storage, abstract and concrete

    The public operations as one transition system, its abstract counterpart
    on [lru], and the lemmas the theorems of [CacheStorageThms] share. *)
From S2P Require Import Prelude StdContainers Bytes CacheTypes CacheStorage CacheStorageInv LruSpec CacheStorageOps CacheStorageRefine.
Local Open Scope Z_scope.

(** ** The transition system of a storage

    A request is a call of a public operation; [Get] is [read], at the time
    [std::time] returns. *)
Inductive request :=
  | Write (k : string) (it : cache_item) (at_ : Z)
  | Read (k : string) (at_ : Z)
  | Get (k : string) (now : Z)
  | Purge (at_ : Z)
  | Clear.

Inductive reply :=
  | RBool (b : bool)
  | RData (d : option (list byte * Z))
  | RVoid.

Definition apply_request (s : cache_storage) (r : request) : outcome (cache_storage * reply) :=
  match r with
  | Write k it t => '(s', b) ← commit_write s k it t; Ok (s', RBool b)
  | Read k t => '(s', b) ← commit_read s k t; Ok (s', RBool b)
  | Get k now => d ← read now s k; Ok (s, RData d)
  | Purge t => s' ← commit_purge s t; Ok (s', RVoid)
  | Clear => Ok (clear s, RVoid)
  end.

Fixpoint run_requests (s : cache_storage) (rs : list request) :
    outcome (cache_storage * list reply) :=
  match rs with
  | [] => Ok (s, [])
  | r :: rs =>
      '(s, a) ← apply_request s r;
      '(s, l) ← run_requests s rs;
      Ok (s, a :: l)
  end.

(** The same requests on the abstract cache. *)
Definition accepted (cfg : cache_config) (k : string) (it : cache_item) (t : Z) : Prop :=
  string_size k ≤ max_key_size cfg ∧ t < expires_at it.
#[export] Instance accepted_dec cfg k it t : Decision (accepted cfg k it t).
Proof. unfold accepted. apply _. Defined.

Definition spec_get (k : string) (now : Z) (l : lru) : option (list byte * Z) :=
  (λ e, (e_data e, e_size e)) <$> lookup_live k now l.

Definition spec_request (cfg : cache_config) (l : lru) (r : request) : lru * reply :=
  match r with
  | Write k it t =>
      if decide (accepted cfg k it t)
      then (write_entry (cache_size cfg) (entry_at k it) t l, RBool true) else (l, RBool false)
  | Read k t =>
      match lookup_live k t l with
      | Some _ => (touch k l, RBool true)
      | None => (l, RBool false)
      end
  | Get k now => (l, RData (spec_get k now l))
  | Purge t => (purge (purge_interval cfg) (t - t mod purge_interval cfg) l, RVoid)
  | Clear => ([], RVoid)
  end.

Fixpoint spec_run (cfg : cache_config) (l : lru) (rs : list request) : lru * list reply :=
  match rs with
  | [] => (l, [])
  | r :: rs =>
      let '(l1, a) := spec_request cfg l r in
      let '(l2, al) := spec_run cfg l1 rs in
      (l2, a :: al)
  end.

(** The requests the theorems cover: items that fit the cache, times in range,
    and no write over an expired entry that was not purged. *)
Definition request_ok (cfg : cache_config) (l : lru) (r : request) : Prop :=
  match r with
  | Write k it t =>
      item_ok it ∧ footprint k (data_size it) ≤ cache_size cfg ∧
      match find_key k l with Some e => e_live t e | None => True end
  | Purge t => time_ok t
  | _ => True
  end.

#[export] Instance request_ok_dec cfg l r : Decision (request_ok cfg l r).
Proof.
  destruct r; simpl; unfold item_ok, time_ok; try apply _.
  destruct (find_key k l); apply _.
Defined.

Fixpoint requests_ok (cfg : cache_config) (l : lru) (rs : list request) : Prop :=
  match rs with
  | [] => True
  | r :: rs => request_ok cfg l r ∧ requests_ok cfg (spec_request cfg l r).1 rs
  end.

Definition config_ok (cfg : cache_config) : Prop :=
  interval_ok (purge_interval cfg) ∧ 0 ≤ cache_size cfg < 2 ^ 31.

Definition within_capacity (s : cache_storage) : Prop :=
  mem (abs s) ≤ cache_size (st_config s).

(** ** Capacity of the abstract cache *)
Lemma mem_pos l : (∀ e, e ∈ l → 0 < e_mem e) → 0 ≤ mem l.
Proof.
  induction l as [|e l IH]; intros H; [done|]. rewrite mem_cons.
  assert (0 < e_mem e) by (apply H; left).
  assert (0 ≤ mem l) by (apply IH; intros; apply H; by right). lia.
Qed.

Lemma mem_find k l e :
  NoDup (e_key <$> l) → find_key k l = Some e → mem l = e_mem e + mem (remove_key k l).
Proof.
  intros Hnd [Hin Hk]%find_key_Some.
  apply list_elem_of_split in Hin as (l1 & l2 & ->). rewrite <- Hk, remove_key_split by done.
  rewrite !mem_app, mem_cons. lia.
Qed.

Lemma evict_from_room k req avail r :
  NoDup (e_key <$> r) →
  req ≤ avail + mem r - mem (evict_from k req avail r) ∨ evict_from k req avail r = filter (λ e, e_key e = k) r.
Proof.
  revert avail. induction r as [|e r IH]; intros avail; simpl; [by right|].
  intros [He Hnd]%NoDup_cons. rewrite mem_cons, filter_cons.
  case_decide as Hk; [|case_decide as Hr].
  - rewrite mem_cons. destruct (IH avail Hnd) as [?|Heq]; [left; lia|right; by f_equal].
  - left. lia.
  - destruct (IH (avail + e_mem e) Hnd) as [?|Heq]; [left; lia|by right].
Qed.

Lemma mem_filter_key k l :
  NoDup (e_key <$> l) →
  mem (filter (λ e, e_key e = k) l) = match find_key k l with Some e => e_mem e | None => 0 end.
Proof.
  induction l as [|e l IH]; simpl; [done|]. intros [He Hnd]%NoDup_cons.
  rewrite filter_cons. case_decide as Hk; [|by apply IH].
  rewrite mem_cons, IH by done. assert (find_key k l = None) as ->; [|lia].
  apply find_key_None. by rewrite <- Hk.
Qed.

Lemma find_key_reverse k l :
  NoDup (e_key <$> l) → find_key k (reverse l) = find_key k l.
Proof.
  intros Hnd. destruct (find_key k l) as [e|] eqn:E.
  - apply find_key_Some in E as [Hin Hk]. apply find_key_elem; [|by apply elem_of_reverse|done].
    by rewrite fmap_reverse, reverse_Permutation.
  - rewrite find_key_None in E |- *. by rewrite fmap_reverse, elem_of_reverse.
Qed.

(** A write that fits leaves the cache within its capacity. *)
Lemma write_entry_capacity cap e t l :
  NoDup (e_key <$> l) → NoDup (e_key <$> evict cap (e_key e) (required e t l) l) →
  mem l ≤ cap → e_mem e ≤ cap →
  match find_key (e_key e) l with Some old => e_live t old | None => True end →
  mem (write_entry cap e t l) ≤ cap.
Proof.
  intros Hnd Hnd' Hl He Hlive. unfold write_entry. rewrite mem_cons.
  set (req := required e t l) in *.
  set (old := match find_key (e_key e) l with Some o => e_mem o | None => 0 end).
  assert (req = e_mem e - old) as Hreq.
  { unfold req, required, lookup_live, old. destruct (find_key (e_key e) l) as [o|]; [|done].
    simpl. by rewrite decide_True. }
  assert (mem (evict cap (e_key e) req l) = old + mem (remove_key (e_key e) (evict cap (e_key e) req l)))
    as Hrm.
  { pose proof (find_key_evict cap (e_key e) req l Hnd Hnd') as Hf. unfold old.
    destruct (find_key (e_key e) l) as [o|].
    - by apply mem_find.
    - rewrite remove_key_notin; [lia|]. by apply find_key_None. }
  assert (req ≤ cap - mem (evict cap (e_key e) req l) ∨
    mem (evict cap (e_key e) req l) = old) as [?|?]; [|lia|lia].
  unfold evict. case_decide; [by left|].
  assert (NoDup (e_key <$> reverse l)) as Hndr by (by rewrite fmap_reverse, reverse_Permutation).
  rewrite mem_reverse. destruct (evict_from_room (e_key e) req (cap - mem l) (reverse l) Hndr) as [Hr| ->].
  - left. rewrite mem_reverse in Hr. lia.
  - right. unfold old. by rewrite mem_filter_key, find_key_reverse.
Qed.

(** ** Refinement and invariant *)
Lemma commit_read_spec s k t :
  wf s →
  ∃ s', commit_read s k t = Ok (s', bool_decide (is_Some (lookup_live k t (abs s)))) ∧
    wf s' ∧ st_id s' = st_id s ∧ st_config s' = st_config s ∧
    commit_code_ s' = Some (if decide (is_Some (lookup_live k t (abs s))) then DONE_OK else NOT_FOUND) ∧
    item_map_ s' = item_map_ s ∧
    abs s' = match lookup_live k t (abs s) with Some _ => touch k (abs s) | None => abs s end.
Proof.
  intros Hwf. unfold commit_read.
  destruct (get_item_spec s k t Hwf) as (r & -> & Hr). ok_bind.
  destruct r as [[p it]|].
  - destruct Hr as (mn & E & Hl & _ & ->).
    destruct (mark_spec (with_commit_code DONE_OK s) k mn it) as (s' & -> & Hwf' & (Hid & Hc & Hcc) & Hm & Ha);
      [by apply (wf_set_commit_code s)|done|done|].
    ok_bind. exists s'. rewrite bool_decide_eq_true_2 by done.
    rewrite decide_True by done. done.
  - rewrite Hr. eexists. rewrite bool_decide_eq_false_2 by (by intros [? ?]).
    rewrite decide_False by (by intros [? ?]).
    split; [done|]. split; [by apply (wf_set_commit_code s)|done].
Qed.

Lemma commit_write_rejects s k it t :
  ¬ (string_size k ≤ max_key_size (st_config s) ∧ t < expires_at it) → item_ok it →
  ∃ c, commit_write s k it t = Ok (with_commit_code c s, false) ∧
    (c = KEY_TOO_BIG ∧ string_size k > max_key_size (st_config s) ∨
     c = WRONG_EXPIRY ∧ string_size k ≤ max_key_size (st_config s) ∧ expires_at it ≤ t).
Proof.
  intros Hno [Hs _]. unfold commit_write. cbn [v_base cache_storage_vtable id].
  case_decide; [eexists; split; [done|]; by left|].
  rewrite decide_False by lia. unfold is_expired.
  destruct (Z.leb_spec (expires_at it) t); [eexists; split; [done|]; right; split; [done|lia]|].
  destruct Hno. lia.
Qed.

Lemma wf_clear s : wf s → wf (clear s).
Proof.
  intros Hwf. destruct (wf_new (st_id s) (st_config s) (wf_interval s Hwf)).
  split; simpl; try done.
  - by intros ? ? ?%not_elem_of_nil.
  - by intros ? ? ?%not_elem_of_nil.
  - by intros ? ? ? ? (? & ?%not_elem_of_nil & ?).
Qed.

Lemma read_spec s k now :
  wf s → read now s k = Ok (spec_get k now (abs s)).
Proof.
  intros Hwf. unfold read, spec_get. cbn [v_get_item cache_storage_vtable].
  destruct (get_item_spec s k now Hwf) as (r & -> & Hr). ok_bind.
  destruct r as [[p it]|]; [|by rewrite Hr].
  by destruct Hr as (mn & _ & _ & _ & ->).
Qed.

Lemma mem_filter (P : entry → Prop) `{∀ e, Decision (P e)} l :
  (∀ e, e ∈ l → 0 < e_mem e) → mem (filter P l) ≤ mem l.
Proof.
  induction l as [|e l IH]; intros Hpos; [done|].
  rewrite filter_cons, mem_cons. assert (0 < e_mem e) by (apply Hpos; left).
  assert (∀ e, e ∈ l → 0 < e_mem e) as Hl by (intros; apply Hpos; by right).
  specialize (IH Hl). case_decide; rewrite ?mem_cons; lia.
Qed.

Lemma abs_mem_pos s e : wf s → e ∈ abs s → 0 < e_mem e.
Proof.
  intros Hwf ([i it] & -> & Hin)%list_elem_of_fmap. exact (item_mem_nonneg s i it Hwf Hin).
Qed.

(** An item that fits, in a storage within its capacity: the sizes the code
    computes are exact. *)
Lemma capacity_int_sized s :
  config_ok (st_config s) → within_capacity s → int_sized s.
Proof. unfold within_capacity. intros [_ ?] ?. split; [done|]. rewrite memory_abs. lia. Qed.

(** Every accepted request runs, preserves the invariant and the capacity,
    and acts as its abstract counterpart. *)
Lemma apply_request_spec s r :
  wf s → config_ok (st_config s) → within_capacity s → request_ok (st_config s) (abs s) r →
  ∃ s' a, apply_request s r = Ok (s', a) ∧ wf s' ∧ st_id s' = st_id s ∧
    st_config s' = st_config s ∧ within_capacity s' ∧
    spec_request (st_config s) (abs s) r = (abs s', a).
Proof.
  intros Hwf Hcfg Hmem Hr. pose proof (capacity_int_sized s Hcfg Hmem) as Hisz.
  pose proof (abs_NoDup s Hwf) as Hnd. destruct Hcfg as [Hint Hcap].
  unfold within_capacity in *. destruct r as [k it t|k t|k t|t|]; simpl in Hr |- *.
  - destruct Hr as (Hit & Hfp & Hst). case_decide as Hacc.
    + destruct Hacc as [Hk Ht].
      destruct (commit_write_stores s k it t) as (s' & -> & Hwf' & Hid & Hc & _ & Ha);
        try done; [lia|].
      ok_bind. exists s', (RBool true). rewrite Ha, Hc.
      repeat (split; [done|]). split; [|done]. apply write_entry_capacity; try done.
      destruct (evict_lru_data_spec s k (required (entry_at k it) t (abs s)) Hwf Hisz)
        as (s1 & _ & Hwf1 & _ & Ha1 & _). simpl. rewrite <- Ha1. by apply abs_NoDup.
    + destruct (commit_write_rejects s k it t Hacc Hit) as (c & -> & _).
      eexists _, _. split; [done|]. split; [by apply (wf_set_commit_code s)|done].
  - destruct (commit_read_spec s k t Hwf) as (s' & -> & Hwf' & Hid & Hc & _ & _ & Ha).
    ok_bind. eexists s', _. split; [done|]. rewrite Ha, Hc.
    destruct (lookup_live k t (abs s)) as [e|] eqn:E; [|done].
    repeat (split; [done|]). split; [|done].
    unfold touch. destruct (find_key k (abs s)) as [e'|] eqn:Ef; [|done].
    by rewrite mem_cons, <- (mem_find k (abs s)).
  - rewrite read_spec by done. ok_bind. by eexists _, _.
  - destruct (commit_purge_spec s t Hwf Hr) as (s' & -> & Hwf' & (Hid & Hc & _) & Ha & _).
    ok_bind. eexists s', _. rewrite Ha, Hc.
    repeat (split; [done|]). split; [|done]. etrans; [|exact Hmem].
    apply mem_filter. intros e. by apply abs_mem_pos.
  - eexists (clear s), _. split; [done|]. split; [by apply wf_clear|].
    repeat (split; [done|]). split; [|done]. exact (proj1 Hcap).
Qed.

Lemma run_requests_spec rs s :
  wf s → config_ok (st_config s) → within_capacity s → requests_ok (st_config s) (abs s) rs →
  ∃ s' al, run_requests s rs = Ok (s', al) ∧ wf s' ∧ st_id s' = st_id s ∧
    st_config s' = st_config s ∧ within_capacity s' ∧
    spec_run (st_config s) (abs s) rs = (abs s', al).
Proof.
  revert s. induction rs as [|r rs IH]; intros s Hwf Hcfg Hmem Hr; simpl.
  { by exists s, []. }
  destruct Hr as [Hr Hrs].
  destruct (apply_request_spec s r Hwf Hcfg Hmem Hr) as (s1 & a & -> & Hwf1 & Hid1 & Hc1 & Hm1 & Hs).
  rewrite Hs in Hrs |- *. simpl in Hrs. rewrite <- Hc1 in Hrs. ok_bind.
  destruct (IH s1 Hwf1) as (s2 & al & -> & Hwf2 & Hid2 & Hc2 & Hm2 & Hs2); [by rewrite Hc1|done..|].
  ok_bind. rewrite Hc1 in Hs2. rewrite Hs2. eexists _, _. split; [done|].
  split; [done|]. split; [congruence|]. split; [congruence|]. done.
Qed.

(** ** What eviction removes *)
Lemma remove_key_snoc k r e :
  e_key e ≠ k → mem (remove_key k (r ++ [e])) = mem (remove_key k r) + e_mem e.
Proof.
  intros. rewrite remove_key_app, mem_app. unfold remove_key at 2.
  rewrite filter_cons, decide_True by done. rewrite mem_cons. simpl. unfold mem at 2. simpl. lia.
Qed.

Lemma evict_from_cut k req avail r :
  avail < req →
  ∃ gone kept, r = gone ++ kept ∧
    evict_from k req avail r = filter (λ e, e_key e = k) gone ++ kept ∧
    ((kept = [] ∧ avail + mem (remove_key k gone) < req) ∨
     ∃ gone' e, gone = gone' ++ [e] ∧ e_key e ≠ k ∧
       avail + mem (remove_key k gone') < req ≤ avail + mem (remove_key k gone)).
Proof.
  revert avail. induction r as [|e r IH]; intros avail Hav.
  { exists [], []. repeat split. left. unfold mem; simpl. split; [done|lia]. }
  simpl. case_decide as Hk; [|case_decide as Hr].
  - destruct (IH avail Hav) as (gone & kept & -> & -> & Hcut). exists (e :: gone), kept.
    split; [done|]. split; [by rewrite filter_cons, decide_True|].
    assert (∀ g, remove_key k (e :: g) = remove_key k g) as Hrm.
    { intros g. unfold remove_key. by rewrite filter_cons, decide_False by (intros ?; done). }
    destruct Hcut as [[-> Hlt]|(gone' & e' & -> & Hne & Hlt)].
    + left. by rewrite Hrm.
    + right. exists (e :: gone'), e'. rewrite !Hrm. by split.
  - exists [e], r. split; [done|]. split; [by rewrite filter_cons, decide_False|].
    right. exists [], e. split; [done|]. split; [done|].
    unfold remove_key. rewrite filter_cons, decide_True by done. unfold mem. simpl. lia.
  - destruct (IH (avail + e_mem e)) as (gone & kept & -> & -> & Hcut); [lia|].
    exists (e :: gone), kept. split; [done|]. split; [by rewrite filter_cons, decide_False|].
    assert (∀ g, mem (remove_key k (e :: g)) = e_mem e + mem (remove_key k g)) as Hrm.
    { intros g. unfold remove_key. rewrite filter_cons, decide_True by done. done. }
    destruct Hcut as [[-> Hlt]|(gone' & e' & -> & Hne & Hlt)].
    + left. rewrite Hrm. split; [done|lia].
    + right. exists (e :: gone'), e'. rewrite !Hrm. repeat split; [done|lia|lia].
Qed.

Lemma evict_from_all k req avail r :
  avail + mem r < req → (∀ e, e ∈ r → 0 < e_mem e) →
  evict_from k req avail r = filter (λ e, e_key e = k) r.
Proof.
  revert avail. induction r as [|e r IH]; intros avail Hm Hpos; [done|]. simpl.
  rewrite mem_cons in Hm. rewrite filter_cons.
  assert (0 < e_mem e) by (apply Hpos; left).
  assert (∀ e, e ∈ r → 0 < e_mem e) as Hr by (intros; apply Hpos; by right).
  pose proof (mem_pos r Hr).
  repeat case_decide; [f_equal; apply IH; [lia|done]|lia|apply IH; [lia|done]].
Qed.
