(* ===== verification/CacheStorageThms.v ===== *)
(** * Theorems about cache_storage

    The operations refine the abstract cache and keep the invariant; what a
    write, an eviction, a purge and a snapshot do; and where the code departs
    from what it documents. *)
From S2P Require Import Prelude StdContainers Bytes CacheTypes CacheStorage CacheStorageInv LruSpec CacheStorageOps CacheStorageRefine SnapshotChunk CacheStorageReach.
Local Open Scope Z_scope.

(** ** A concrete storage: the configuration of the tests, three items *)
Definition test_config (size : Z) : cache_config :=
  CacheConfig "" 0 "" 0 "" 0 size 90 20 30 "" 0 0 0 0 0 0 0.

Definition test_item (c : byte) (n : nat) (exp : Z) : cache_item :=
  CacheItem None (replicate n c) (Z.of_nat n) exp.

Definition demo_requests : list request :=
  [Write "key1" (test_item Byte.x61 20 999) 10; Write "key2" (test_item Byte.x62 10 45) 11;
   Write "key3" (test_item Byte.x63 10 999) 12; Read "key1" 13].

Definition demo : cache_storage :=
  match run_requests (new_storage MainStorage (test_config 350)) demo_requests with
  | Ok (s, _) => s
  | Fault _ => new_storage MainStorage (test_config 350)
  end.

Lemma demo_config_ok : config_ok (test_config 350).
Proof. by vm_compute. Qed.

Lemma demo_requests_ok : requests_ok (test_config 350) [] demo_requests.
Proof. repeat split; by vm_compute. Qed.

Lemma demo_ok :
  wf demo ∧ st_id demo = MainStorage ∧ st_config demo = test_config 350 ∧ within_capacity demo.
Proof.
  destruct (run_requests_spec demo_requests (new_storage MainStorage (test_config 350)))
    as (s & al & Eq & Hwf & Hid & Hc & Hm & _).
  - apply wf_new. by vm_compute.
  - apply demo_config_ok.
  - by vm_compute.
  - apply demo_requests_ok.
  - unfold demo. rewrite Eq. exact (conj Hwf (conj Hid (conj Hc Hm))).
Qed.

Lemma demo_wf : wf demo.
Proof. apply demo_ok. Qed.

Lemma demo_int_sized : int_sized demo.
Proof. apply capacity_int_sized; [apply demo_config_ok|apply demo_ok]. Qed.

(** ** Refinement *)

(** C3: run from an empty storage, any sequence of covered requests is free of
    undefined behaviour and gives the replies of the abstract LRU cache; the
    storage ends in a state that stands for the abstract one, satisfies the
    linking invariant and is within its capacity. *)
Theorem storage_refines_lru id cfg rs :
  config_ok cfg → requests_ok cfg [] rs →
  ∃ s replies, run_requests (new_storage id cfg) rs = Ok (s, replies) ∧
    spec_run cfg [] rs = (abs s, replies) ∧ wf s ∧ mem (abs s) ≤ cache_size cfg.
Proof.
  intros Hcfg Hrs.
  destruct (run_requests_spec rs (new_storage id cfg)) as (s & al & Eq & Hwf & _ & Hc & Hm & Hs);
    [by apply wf_new, Hcfg|done|apply Hcfg|done|].
  exists s, al. simpl in Hc. unfold within_capacity in Hm. rewrite Hc in Hm. done.
Qed.

Example storage_refines_lru_witness :
  ∃ s replies, run_requests (new_storage MainStorage (test_config 350)) demo_requests
      = Ok (s, replies) ∧
    spec_run (test_config 350) [] demo_requests = (abs s, replies) ∧ wf s ∧
    mem (abs s) ≤ 350.
Proof.
  apply (storage_refines_lru MainStorage (test_config 350) demo_requests).
  - by vm_compute.
  - repeat split; by vm_compute.
Defined.




(** ** Writes *)



Definition rejection (cfg : cache_config) (k : string) (it : cache_item) (t : Z) :
    option commit_result :=
  if decide (string_size k > max_key_size cfg) then Some KEY_TOO_BIG
  else if decide (expires_at it ≤ t) then Some WRONG_EXPIRY else None.

(** C20: a write is refused when the key is longer than [max_key_size] or the
    item has expired, in that order, and then changes nothing but the commit
    code; any other write that returns has succeeded with DONE_OK.  The code
    DATA_TOO_BIG is never given: [max_item_size] is not consulted. *)
Theorem write_rejected s k it t :
  item_ok it →
  match rejection (st_config s) k it t with
  | Some c => commit_write s k it t = Ok (with_commit_code c s, false)
  | None => ∀ s' b, commit_write s k it t = Ok (s', b) →
              b = true ∧ commit_code_ s' = Some DONE_OK
  end.
Proof.
  intros Hit. unfold rejection. destruct (decide (accepted (st_config s) k it t)) as [[Hk Ht]|Hno].
  - rewrite !decide_False by lia. intros s' b. destruct Hit as [Hs _]. unfold commit_write.
    cbn [v_base cache_storage_vtable id].
    rewrite decide_False, decide_False by lia. unfold is_expired.
    destruct (Z.leb_spec (expires_at it) t); [lia|]. intros Heq. by run_ok.
  - destruct (commit_write_rejects s k it t Hno Hit) as (c & -> & [(-> & Hk)|(-> & Hk & Ht)]).
    + by rewrite decide_True.
    + by rewrite decide_False, decide_True by lia.
Qed.

Example write_rejected_witness :
  commit_write demo "a key of more than twenty bytes" (test_item Byte.x61 3 99) 5 =
    Ok (with_commit_code KEY_TOO_BIG demo, false).
Proof.
  apply (write_rejected demo "a key of more than twenty bytes" (test_item Byte.x61 3 99) 5).
  by vm_compute.
Defined.

(** When the key is still held by an item that expired but was not purged,
    [commit_write] reports success and DONE_OK, yet the item it stores can
    never be read, and two items now carry the key. *)
Theorem stale_write_lost s k it t e :
  wf s → int_sized s → item_ok it → footprint k (data_size it) < 2 ^ 31 →
  string_size k ≤ max_key_size (st_config s) → t < expires_at it →
  find_key k (abs s) = Some e → e_expires e ≤ t →
  ∃ s', commit_write s k it t = Ok (s', true) ∧ commit_code_ s' = Some DONE_OK ∧
    (∀ now, t ≤ now → read now s' k = Ok None) ∧
    entry_at k it ∈ abs s' ∧ e ∈ abs s' ∧ ¬ wf s'.
Proof.
  intros Hwf Hisz Hit Hfp Hk Ht He Hexp.
  destruct (commit_write_steps s k it t Hwf Hisz Hit Hfp Hk Ht)
    as (s1 & Hwf1 & _ & Habs1 & Hfind & _ & ->).
  rewrite He in Hfind. destruct (get_item_spec s1 k t Hwf1) as (r & -> & Hr).
  ok_bind. destruct r as [[p old]|].
  { destruct Hr as (mn & _ & _ & _ & Hr). unfold lookup_live in Hr. rewrite Hfind in Hr.
    simpl in Hr. unfold e_live in Hr. case_decide; [lia|done]. }
  destruct (item_map_ s1 !! k) as [mn|] eqn:E;
    [|by rewrite (find_key_abs_None s1 k Hwf1 E) in Hfind].
  destruct (wf_map s1 Hwf1 _ _ E) as (old & Hl).
  pose proof Hl as (Hin & _). rewrite (find_key_abs s1 k mn old) in Hfind by done.
  destruct (insert_item_present s1 k mn it t Hwf1 E Hit) as (s2 & -> & Hitems & Hmap).
  ok_bind. eexists. split; [done|]. split; [done|]. injection Hfind as Hfind.
  assert (abs (with_commit_code DONE_OK s2) = entry_at k it :: abs s1) as Habs2.
  { unfold abs. simpl. by rewrite Hitems. }
  assert (e ∈ abs s1) as Hein.
  { subst e. apply list_elem_of_fmap. by eexists (_, old). }
  split; [|split; [|split]].
  - intros now Hnow. unfold read. cbn [v_get_item cache_storage_vtable]. unfold get_item.
    cbn [with_commit_code item_map_ items_]. rewrite Hmap, E, Hitems. cbn [deref].
    rewrite decide_False.
    + rewrite (wf_deref_item s1 Hwf1 k mn old Hl). cbn [or_ub mbind outcome_bind].
      unfold is_expired. subst e. simpl in Hexp. by rewrite (proj2 (Z.leb_le _ _)) by lia.
    + intros Heq. apply (wf_next_node s1 Hwf1). rewrite <- Heq. by eapply fst_elem.
  - rewrite Habs2. left.
  - rewrite Habs2. by right.
  - intros Hwf2. pose proof (abs_NoDup _ Hwf2) as Hnd. rewrite Habs2 in Hnd. simpl in Hnd.
    apply NoDup_cons in Hnd as [Hni _]. apply Hni. apply find_key_Some in He as [_ <-].
    by apply list_elem_of_fmap_2.
Qed.

Example stale_write_lost_witness :
  ∃ s', commit_write demo "key2" (test_item Byte.x64 30 99) 50 = Ok (s', true) ∧
    commit_code_ s' = Some DONE_OK ∧ (∀ now, 50 ≤ now → read now s' "key2" = Ok None) ∧
    entry_at "key2" (test_item Byte.x64 30 99) ∈ abs s' ∧
    Entry "key2" (replicate 10 Byte.x62) 10 45 ∈ abs s' ∧ ¬ wf s'.
Proof.
  apply (stale_write_lost demo "key2" (test_item Byte.x64 30 99) 50);
    [apply demo_wf|apply demo_int_sized|by vm_compute..].
Defined.

(** ** Eviction *)



(** The [int] that holds the available memory wraps when the free memory
    is 2 GiB or more: on a cache of [2^31] to [2^32] bytes with that much room,
    a write evicts every other item. *)
Theorem large_cache_evicts_everything s k req :
  wf s → 0 ≤ req → cache_size (st_config s) < 2 ^ 32 →
  2 ^ 31 ≤ cache_size (st_config s) - memory (items_ s) →
  ∃ s', evict_lru_data s k req = Ok s' ∧ wf s' ∧
    abs s' = filter (λ e, e_key e = k) (abs s).
Proof.
  intros Hwf Hreq Hcap Hroom.
  assert (0 ≤ memory (items_ s)) as Hnn by (by apply (memory_nonneg s)).
  unfold evict_lru_data. rewrite wrap_s_narrow, (wf_used s Hwf) by lia.
  rewrite wrap_u_id by range.
  assert (i32 (cache_size (st_config s) - memory (items_ s)) =
    cache_size (st_config s) - memory (items_ s) - 2 ^ 32) as ->.
  { rewrite <- (wrap_s_id 32 (_ - 2 ^ 32)) by (first [lia | range]). apply wrap_s_mod.
    by rewrite <- (Z_mod_plus_full (_ - _) (-1) (2 ^ 32)). }
  destruct (Z.leb_spec req (cache_size (st_config s) - memory (items_ s) - 2 ^ 32)); [lia|].
  destruct (evict_loop_spec (S (length (items_ s))) s k req
      (cache_size (st_config s) - memory (items_ s) - 2 ^ 32) (items_ s) [])
    as (s' & l1 & Eq & Hwf' & _ & Hl & Ha & _);
    [done|by rewrite app_nil_r|lia|lia|lia|].
  exists s'. split; [done|]. split; [done|]. rewrite app_nil_r in Hl.
  change (abs s') with (abs_items (items_ s')). rewrite Hl, Ha.
  change (abs_items (items_ s)) with (abs s).
  rewrite evict_from_all.
  - by rewrite filter_reverse, reverse_involutive.
  - rewrite mem_reverse, <- memory_abs. lia.
  - intros e He. rewrite elem_of_reverse in He. exact (abs_mem_pos s e Hwf He).
Qed.

Definition with_config (cfg : cache_config) (s : cache_storage) : cache_storage :=
  Storage (st_id s) cfg (item_map_ s) (items_ s) (expiry_buckets_ s) (used_memory_ s)
    (commit_code_ s) (next_node s).

Lemma wf_with_config cfg s :
  purge_interval cfg = purge_interval (st_config s) → wf s → wf (with_config cfg s).
Proof.
  intros Hi []. split; unfold linked; simpl; rewrite ?Hi; done.
Qed.

Example large_cache_evicts_everything_witness :
  let s := with_config (test_config 3000000000) demo in
  ∃ s', evict_lru_data s "key4" 60 = Ok s' ∧ wf s' ∧ abs s' = [] ∧ length (abs s) = 3%nat.
Proof.
  intros s. assert (wf s) as Hwf.
  { apply wf_with_config; [by vm_compute|apply demo_wf]. }
  destruct (large_cache_evicts_everything s "key4" 60 Hwf) as (s' & Eq & Hwf' & Ha).
  - lia.
  - by vm_compute.
  - by vm_compute.
  - exists s'. split; [done|]. split; [done|]. split; [rewrite Ha|]; by vm_compute.
Defined.

(** ** Purge *)
Lemma purge_keeps interval e p :
  0 < interval → p mod interval = 0 → p < e - e mod interval + interval ↔ p ≤ e.
Proof.
  intros Hi Hp. pose proof (Z.div_mod e interval). pose proof (Z.div_mod p interval).
  pose proof (Z.mod_pos_bound e interval). split; [|lia].
  intros. assert (p / interval ≤ e / interval); [|nia].
  apply Z.lt_succ_r. nia.
Qed.

(** C13: a purge removes exactly the items that expired before the last purge
    time, the multiple of [purge_interval] at or before [purged_at], keeps the
    others in order, and no read at or after [purged_at] notices.  Items that
    expired between the two times stay until a later purge, where the header
    says that all expired items are purged. *)
Theorem purge_exact_and_invisible s t :
  wf s → time_ok t →
  let last := t - t mod purge_interval (st_config s) in
  ∃ s', commit_purge s t = Ok s' ∧ wf s' ∧ commit_code_ s' = commit_code_ s ∧
    abs s' = filter (λ e, last ≤ e_expires e) (abs s) ∧
    ∀ now k, t ≤ now → read now s' k = read now s k.
Proof.
  intros Hwf Ht last. pose proof (wf_interval s Hwf) as Hi. unfold interval_ok in Hi.
  destruct (commit_purge_spec s t Hwf Ht) as (s' & -> & Hwf' & (_ & _ & Hcc) & Ha & _).
  assert (abs s' = filter (λ e, last ≤ e_expires e) (abs s)) as Ha'.
  { rewrite Ha. unfold purge. apply list_filter_iff. intros e. apply purge_keeps; [lia|].
    unfold last. rewrite Zminus_mod, Zmod_mod, Z.sub_diag. by apply Zmod_0_l. }
  exists s'. repeat (split; [done|]). intros now k Hnow. rewrite !read_spec by done. f_equal.
  unfold spec_get. f_equal. unfold lookup_live.
  pose proof (abs_NoDup s Hwf) as Hnd. pose proof (abs_NoDup s' Hwf') as Hnd'.
  assert (last ≤ t) by (unfold last; pose proof (Z.mod_pos_bound t (purge_interval (st_config s))); lia).
  destruct (find_key k (abs s)) as [e|] eqn:E.
  - apply find_key_Some in E as [Hin Hk]. simpl. destruct (decide (last ≤ e_expires e)) as [Hl|Hl].
    + rewrite (find_key_elem k (abs s') e); [done|done| |done].
      rewrite Ha'. by apply list_elem_of_filter.
    + rewrite decide_False by (unfold e_live; lia).
      destruct (find_key k (abs s')) as [e'|] eqn:E'; [|done].
      apply find_key_Some in E' as [Hin' Hk']. rewrite Ha' in Hin'.
      apply list_elem_of_filter in Hin' as [? Hin'].
      pose proof (find_key_elem k (abs s) e Hnd Hin Hk).
      pose proof (find_key_elem k (abs s) e' Hnd Hin' Hk'). by simplify_eq.
  - apply find_key_None in E. assert (find_key k (abs s') = None) as ->; [|done].
    apply find_key_None. rewrite Ha'. intros (e & -> & [_ He]%list_elem_of_filter)%list_elem_of_fmap.
    by apply E, list_elem_of_fmap_2.
Qed.

Example purge_exact_and_invisible_witness :
  ∃ s', commit_purge demo 61 = Ok s' ∧ wf s' ∧ commit_code_ s' = commit_code_ demo ∧
    abs s' = filter (λ e, 61 - 61 mod 30 ≤ e_expires e) (abs demo) ∧
    ∀ now k, 61 ≤ now → read now s' k = read now demo k.
Proof. apply (purge_exact_and_invisible demo 61); [apply demo_wf|by vm_compute]. Defined.

(** By the letter of the standard, any purge that has an item to remove
    compares an iterator with the [end()] of a bucket it has just erased. *)
Theorem purge_uses_erased_bucket s t e :
  wf s → time_ok t → e ∈ abs s → e_expires e < t - t mod purge_interval (st_config s) →
  commit_purge_with StrictEnd s t = undefined DanglingIterator.
Proof.
  intros Hwf Ht ([i it] & -> & Hin)%list_elem_of_fmap Hexp.
  pose proof (wf_interval s Hwf) as Hi. unfold commit_purge_with.
  rewrite next_purge_time_Ok by done. ok_bind.
  pose proof (purge_time_bounds (purge_interval (st_config s)) t (proj1 Hi)).
  rewrite chk_s_Ok by (unfold time_ok, interval_ok in *; range). ok_bind.
  pose proof (wf_buckets s Hwf) as [Hnd Hsort Hes].
  pose proof (purge_time_in_buckets s (i, it) Hwf Hin) as Hpt.
  destruct (expiry_buckets_ s) as [|[b [t0 es]] l] eqn:Ebk;
    [by apply not_elem_of_nil in Hpt|].
  assert ((b, (t0, es)) ∈ expiry_buckets_ s) as Hb by (rewrite Ebk; left).
  cbn [length purge_buckets begin_ head fmap option_fmap option_map fst].
  rewrite Ebk. cbn [deref]. rewrite decide_True by done. cbn [or_ub mbind outcome_bind].
  destruct (Z.ltb_spec (purge_time (purge_interval (st_config s)) t - purge_interval (st_config s)) t0).
  - exfalso. simpl in Hsort. apply StronglySorted_inv in Hsort as [_ Hall].
    rewrite Forall_forall in Hall. simpl in Hpt.
    assert (t0 ≤ purge_time_of s (i, it)).
    { apply elem_of_cons in Hpt as [->|Hpt]; [done|]. pose proof (Hall _ Hpt). lia. }
    unfold purge_time_of, purge_time, interval_ok in *. simpl in *.
    set (m := purge_interval (st_config s)) in *.
    assert (t - t mod m < expires_at it - expires_at it mod m + m) as Hlt by lia.
    apply purge_keeps in Hlt; [lia|lia|].
    rewrite Zminus_mod, Zmod_mod, Z.sub_diag. by apply Zmod_0_l.
  - rewrite (purge_bucket_strict (S (length es)) s b t0 es Hwf Hb) by lia. done.
Qed.

Example purge_uses_erased_bucket_witness :
  commit_purge_with StrictEnd demo 61 = undefined DanglingIterator.
Proof.
  apply (purge_uses_erased_bucket demo 61 (Entry "key2" (replicate 10 Byte.x62) 10 45));
    [apply demo_wf|by vm_compute| |by vm_compute].
  apply list_elem_of_lookup_2 with 2%nat. by vm_compute.
Defined.

(** ** Snapshots *)

(** C19: one call of [read_snapshot_chunk] from a valid index writes at most
    [chunk_size] bytes, namely the encodings of as many of the next items as
    fit, in most-recently-used order, zero-filled; it reports their length and
    the index to continue from, or -1 when the last item was written. *)
Theorem snapshot_chunk_exact s chunk_size n :
  wf s → memory (items_ s) < 2 ^ 31 → 0 ≤ chunk_size < 2 ^ 63 →
  (n ≤ length (items_ s))%nat → Z.of_nat (length (items_ s)) < 2 ^ 31 →
  let rest := drop n (abs s) in
  let m := fit chunk_size rest in
  let enc := encode_entries (take m rest) in
  read_snapshot_chunk s chunk_size (Z.of_nat n) =
    Ok (enc ++ replicate (Z.to_nat chunk_size - length enc) Byte.x00,
        (if decide (m = length rest) then -1 else Z.of_nat (n + m)),
        Z.of_nat (length enc)) ∧
  Z.of_nat (length enc) ≤ chunk_size ∧
  (∀ e, rest !! m = Some e → chunk_size < Z.of_nat (length (enc ++ encode_entry e))).
Proof.
  intros Hwf Hmem Hch Hn Hlen rest m enc.
  destruct (read_snapshot_chunk_spec s Hwf Hmem chunk_size Hch n Hn Hlen) as [-> Hle].
  split; [done|]. split; [done|]. intros e He.
  assert (∀ e, e ∈ rest → e_size e = Z.of_nat (length (e_data e))) as Hok.
  { intros e' He'. apply elem_of_drop_le in He'. by apply (wf_entry_ok s Hwf Hmem). }
  revert He. unfold enc, m. clear -Hok. clearbody rest. revert chunk_size.
  induction rest as [|e0 l IH]; intros room; cbn [fit]; [done|].
  assert (e_size e0 = Z.of_nat (length (e_data e0))) as H0 by (apply Hok; left).
  case_decide as Hr; cbn [lookup list_lookup take encode_entries app].
  - intros [= ->]. by rewrite length_encode_entry.
  - intros He. apply IH in He; [|intros; apply Hok; by right].
    rewrite !length_app in *. pose proof (length_encode_entry e0 H0). lia.
Qed.

Example snapshot_chunk_exact_witness :
  read_snapshot_chunk demo 80 0 =
    Ok (encode_entries (take 1 (abs demo)) ++ replicate 32 Byte.x00, 1, 48).
Proof.
  change 0 with (Z.of_nat 0).
  destruct (snapshot_chunk_exact demo 80 0) as [-> _];
    [apply demo_wf|by vm_compute|by vm_compute|vm_compute; lia|by vm_compute..].
Defined.

(** C14: when every item fits a chunk, reading chunk after chunk from index 0
    ends, within one call per item and one more, and the bytes read parse to
    exactly the items of the storage, most recently used first. *)
Theorem snapshot_roundtrip s chunk_size :
  wf s → memory (items_ s) < 2 ^ 31 → 0 ≤ chunk_size < 2 ^ 63 →
  Z.of_nat (length (items_ s)) < 2 ^ 31 →
  (∀ e, e ∈ abs s → encoded_size e ≤ chunk_size) →
  ∃ bytes, read_all (S (length (items_ s))) s chunk_size 0 = Ok bytes ∧
    parse_entries (length bytes) bytes = Some (abs s).
Proof.
  intros Hwf Hmem Hch Hlen Hbig.
  change (read_all (S (length (items_ s))) s chunk_size 0)
    with (read_all (S (length (items_ s))) s chunk_size (Z.of_nat 0)).
  rewrite read_all_spec; [|done..|lia|done|lia].
  eexists. split; [done|]. rewrite drop_0. apply parse_encode_entries.
  - apply Forall_forall. intros e He. by apply (wf_entry_ok s Hwf Hmem).
  - generalize (abs s). intros l. induction l as [|e l IH]; [simpl; lia|].
    destruct (encode_entry_cons e) as (b & bs & Eb).
    cbn [encode_entries length]. rewrite Eb, length_app. simpl. lia.
Qed.

Example snapshot_roundtrip_witness :
  ∃ bytes, read_all 4 demo 80 0 = Ok bytes ∧ parse_entries (length bytes) bytes = Some (abs demo).
Proof.
  apply (snapshot_roundtrip demo 80); [apply demo_wf|by vm_compute..|].
  apply Forall_forall. vm_compute. by repeat constructor.
Defined.
