(* ===== verification/SnapshotStorage.v ===== *)
(** * snapshot_storage: the storage used while a snapshot is taken

    src/cache/snapshot_storage.{hxx,cc} and src/cache/snapshot_event.hxx.  A
    [snapshot_storage] is a [cache_storage] with a log of events, and a
    pointer [storage_] to the frozen main storage, an argument of the
    operations that read it.

    The method meant to disable evictions, [evict_lru_data(int)], has not the
    signature of the one [commit_write] calls, [evict_lru_data(const
    std::string&, int)], and overrides nothing: the table below has the
    inherited one. *)
From S2P Require Import Prelude StdContainers Bytes CacheTypes CacheStorage.
Local Open Scope Z_scope.

Inductive event_type := READ | WRITE | PURGE.

Record snapshot_event := SnapshotEvent {
  ev_type : event_type;
  ev_key : option key_ptr;
  ev_item : option item_ptr;
  ev_expires_at : Z;
  ev_created_at : Z
}.

Record snapshot_storage := Snapshot {
  ss_base : cache_storage;
  events_ : list snapshot_event
}.

Definition new_snapshot_storage (config : cache_config) : snapshot_storage :=
  Snapshot (new_storage SnapshotStorage config) [].

Definition push_event (e : snapshot_event) (s : snapshot_storage) : snapshot_storage :=
  Snapshot (ss_base s) (events_ s ++ [e]).

Definition with_base (b : cache_storage) (s : snapshot_storage) : snapshot_storage :=
  Snapshot b (events_ s).

(** [evict_lru_data(int)], which nothing calls. *)
Definition snap_evict_lru_data_int (s : snapshot_storage) (memory_required : Z) :
    snapshot_storage := s.

Definition snap_clear (s : snapshot_storage) : snapshot_storage :=
  Snapshot (clear (ss_base s)) [].

Definition snap_commit_purge (s : snapshot_storage) (purged_at : Z) : snapshot_storage :=
  let event := SnapshotEvent PURGE None None 0 purged_at in
  let s := push_event event s in
  with_base (with_commit_code DONE_OK (ss_base s)) s.

Section with_frozen_storage.
Context (storage_ : cache_storage).

Definition snap_get_item (s : snapshot_storage) (k : string) (at_ : Z) :
    outcome (option (item_ptr * cache_item)) :=
  item ← get_item (ss_base s) k at_;
  match item with
  | None => get_item storage_ k at_
  | Some _ => Ok item
  end.

Definition snap_commit_read (s : snapshot_storage) (k : string) (read_at : Z) :
    outcome (snapshot_storage * bool) :=
  item ← snap_get_item s k read_at;
  match item with
  | None => Ok (with_base (with_commit_code NOT_FOUND (ss_base s)) s, false)
  | Some (p, it) =>
      let event := SnapshotEvent READ (key it) (Some p) 0 read_at in
      let s := push_event event s in
      Ok (with_base (with_commit_code DONE_OK (ss_base s)) s, true)
  end.

Definition snap_insert_item (s : snapshot_storage) (k : string) (inserted_item : cache_item)
    (written_at : Z) : outcome (snapshot_storage * (item_ptr * cache_item)) :=
  '(b, (p, it)) ← insert_item (ss_base s) k inserted_item written_at;
  let event := SnapshotEvent WRITE (key it) (Some p) (expires_at it) written_at in
  Ok (push_event event (with_base b s), (p, it)).

Definition snap_update_item (s : snapshot_storage) (k : string) (updated_item : cache_item)
    (written_at : Z) : outcome (snapshot_storage * (item_ptr * cache_item)) :=
  old ← get_item (ss_base s) k written_at;
  '(b, (p, it)) ← match old with
                 | Some _ => update_item (ss_base s) k updated_item written_at
                 | None => insert_item (ss_base s) k updated_item written_at
                 end;
  let event := SnapshotEvent WRITE (key it) (Some p) (expires_at it) written_at in
  Ok (push_event event (with_base b s), (p, it)).

Definition snap_evict_lru_data (s : snapshot_storage) (k : string) (memory_required : Z) :
    outcome snapshot_storage :=
  b ← evict_lru_data (ss_base s) k memory_required;
  Ok (with_base b s).

#[local] Instance snapshot_vtable : StorageVtable snapshot_storage := {|
  v_base := ss_base;
  v_with_base := with_base;
  v_get_item := snap_get_item;
  v_evict_lru_data := snap_evict_lru_data;
  v_insert_item := snap_insert_item;
  v_update_item := snap_update_item
|}.

(** The inherited [read] and [commit_write]. *)
Definition snap_read (now : Z) (s : snapshot_storage) (k : string) :
    outcome (option (list byte * Z)) := read now s k.

Definition snap_commit_write (s : snapshot_storage) (k : string) (it : cache_item)
    (written_at : Z) : outcome (snapshot_storage * bool) := commit_write s k it written_at.
End with_frozen_storage.
