(* ===== verification/CacheState.v ===== *)
(** * cache_state: the cache, with its snapshots

    src/cache/cache_state.{hxx,cc}.  While a snapshot is in progress the main
    storage is left as it is, the operations go to the snapshot storage, and
    [end_snapshot] applies the logged events to the main storage.

    Each operation holds [cache_lock_] for its whole duration and is one step
    of the model; [commit_purge_expired] and [read_snapshot_chunk] take no
    lock, and are one step only where no other thread runs.  The objects a
    logged event points to are looked up in the storage they live in. *)
From S2P Require Import Prelude StdContainers Bytes CacheTypes CacheStorage SnapshotStorage.
Local Open Scope Z_scope.

Record cache_state := State {
  snapshot_in_progress_ : bool;
  storage_ : cache_storage;
  snapshot_storage_ : snapshot_storage;
  config_ : cache_config;
  state_commit_code_ : option commit_result
}.

Definition new_cache_state (config : cache_config) : cache_state :=
  State false (new_storage MainStorage config) (new_snapshot_storage config) config None.

Definition with_main (m : cache_storage) (s : cache_state) : cache_state :=
  State (snapshot_in_progress_ s) m (snapshot_storage_ s) (config_ s) (state_commit_code_ s).
Definition with_snapshot (ss : snapshot_storage) (s : cache_state) : cache_state :=
  State (snapshot_in_progress_ s) (storage_ s) ss (config_ s) (state_commit_code_ s).

(** [commit_code_ = storage()->get_commit_code()] *)
Definition copy_commit_code (s : cache_state) : cache_state :=
  let b := if snapshot_in_progress_ s then ss_base (snapshot_storage_ s) else storage_ s in
  State (snapshot_in_progress_ s) (storage_ s) (snapshot_storage_ s) (config_ s) (commit_code_ b).

Definition get_commit_code (s : cache_state) : outcome commit_result :=
  or_ub UninitialisedRead (state_commit_code_ s).

(** [read_then] hands [then] the bytes and their number, [None] for nullptr. *)
Definition read_then {A} (now : Z) (s : cache_state) (k : string)
    (then_ : option (list byte * Z) → A) : outcome A :=
  d ← (if snapshot_in_progress_ s
       then snap_read (storage_ s) now (snapshot_storage_ s) k
       else read now (storage_ s) k);
  Ok (then_ d).

Definition state_read (now : Z) (s : cache_state) (k : string) :
    outcome (option (list byte * Z)) :=
  r ← read_then now s k
        (λ d, match d with
              | None => Ok None
              | Some (bytes, n) =>
                  if decide (Z.of_nat (length bytes) < n) then undefined OutOfBounds
                  else Ok (Some (take (Z.to_nat n) bytes, n))
              end);
  r.

Definition state_commit_read (s : cache_state) (k : string) (read_at : Z) :
    outcome (cache_state * bool) :=
  '(s, result) ←
    (if snapshot_in_progress_ s
     then '(ss, r) ← snap_commit_read (storage_ s) (snapshot_storage_ s) k read_at;
          Ok (with_snapshot ss s, r)
     else '(m, r) ← commit_read (storage_ s) k read_at; Ok (with_main m s, r));
  Ok (copy_commit_code s, result).

Definition state_commit_write (s : cache_state) (k : string) (it : cache_item)
    (written_at : Z) : outcome (cache_state * bool) :=
  '(s, result) ←
    (if snapshot_in_progress_ s
     then '(ss, r) ← snap_commit_write (storage_ s) (snapshot_storage_ s) k it written_at;
          Ok (with_snapshot ss s, r)
     else '(m, r) ← commit_write (storage_ s) k it written_at; Ok (with_main m s, r));
  Ok (copy_commit_code s, result).

Definition commit_purge_expired (s : cache_state) (purge_at : Z) : outcome cache_state :=
  if snapshot_in_progress_ s
  then Ok (with_snapshot (snap_commit_purge (snapshot_storage_ s) purge_at) s)
  else m ← commit_purge (storage_ s) purge_at; Ok (with_main m s).

Definition begin_snapshot (s : cache_state) : cache_state :=
  State true (storage_ s) (snapshot_storage_ s) (config_ s) (state_commit_code_ s).

Definition state_read_snapshot_chunk (s : cache_state) (chunk_size item_index : Z) :
    outcome (list byte * Z * Z) := read_snapshot_chunk (storage_ s) chunk_size item_index.

(** [*event.key] and [*event.item], while [main] is being updated. *)
Definition event_key (main : cache_storage) (ss : snapshot_storage) (e : snapshot_event) :
    outcome string :=
  match ev_key e with
  | None => undefined NullPointer
  | Some p => deref_key (match kp_store p with
                         | MainStorage => main
                         | SnapshotStorage => ss_base ss
                         end) (Some p)
  end.

Definition event_item (main : cache_storage) (ss : snapshot_storage) (e : snapshot_event) :
    outcome cache_item :=
  match ev_item e with
  | None => undefined NullPointer
  | Some p => deref_item (match ip_store p with
                          | MainStorage => main
                          | SnapshotStorage => ss_base ss
                          end) p
  end.

Definition replay_event (ss : snapshot_storage) (main : cache_storage) (e : snapshot_event) :
    outcome cache_storage :=
  match ev_type e with
  | READ =>
      k ← event_key main ss e;
      '(main, _) ← commit_read main k (ev_created_at e);
      Ok main
  | WRITE =>
      k ← event_key main ss e;
      it ← event_item main ss e;
      '(main, _) ← commit_write main k it (ev_created_at e);
      Ok main
  | PURGE => commit_purge main (ev_created_at e)
  end.

Fixpoint replay_events (ss : snapshot_storage) (main : cache_storage)
    (es : list snapshot_event) : outcome cache_storage :=
  match es with
  | [] => Ok main
  | e :: es => main ← replay_event ss main e; replay_events ss main es
  end.

Definition end_snapshot (s : cache_state) : outcome cache_state :=
  main ← replay_events (snapshot_storage_ s) (storage_ s) (events_ (snapshot_storage_ s));
  Ok (State false main (snap_clear (snapshot_storage_ s)) (config_ s) (state_commit_code_ s)).
