(* ===== verification/CacheStateReplay.v ===== *)
(** * Replaying a snapshot's events

    Commands to a [cache_state]; what they do to the snapshot storage while a
    snapshot is in progress; and why replaying the events they log leaves the
    main storage as the same commands applied to it directly would. *)
From S2P Require Import Prelude StdContainers Bytes CacheTypes CacheStorage CacheStorageInv.
From S2P Require Import LruSpec CacheStorageOps CacheStorageRefine CacheStorageReach.
From S2P Require Import SnapshotStorage CacheState.
Local Open Scope Z_scope.

(** ** Commands *)
Inductive cmd :=
  | CWrite (k : string) (it : cache_item) (at_ : Z)
  | CRead (k : string) (at_ : Z)
  | CGet (k : string) (now : Z)
  | CPurge (at_ : Z).

Definition apply_cmd (s : cache_state) (c : cmd) : outcome (cache_state * reply) :=
  match c with
  | CWrite k it t => '(s, b) ← state_commit_write s k it t; Ok (s, RBool b)
  | CRead k t => '(s, b) ← state_commit_read s k t; Ok (s, RBool b)
  | CGet k now => d ← state_read now s k; Ok (s, RData d)
  | CPurge t => s ← commit_purge_expired s t; Ok (s, RVoid)
  end.

Fixpoint run_cmds (s : cache_state) (cs : list cmd) : outcome (cache_state * list reply) :=
  match cs with
  | [] => Ok (s, [])
  | c :: cs =>
      '(s, a) ← apply_cmd s c;
      '(s, l) ← run_cmds s cs;
      Ok (s, a :: l)
  end.

(** The request a command is to a storage. *)
Definition cmd_request (c : cmd) : request :=
  match c with
  | CWrite k it t => Write k it t
  | CRead k t => Read k t
  | CGet k now => Get k now
  | CPurge t => Purge t
  end.

(** ** The snapshot storage over a frozen storage *)
Section over_frozen.
Context (f : cache_storage) (Hf : wf f) (Hfi : int_sized f).

Lemma snap_get_item_spec s k t :
  wf (ss_base s) →
  ∃ r, snap_get_item f s k t = Ok r ∧
    match r with
    | None => lookup_live k t (abs (ss_base s)) = None ∧ lookup_live k t (abs f) = None
    | Some (p, it) =>
        (lookup_live k t (abs (ss_base s)) = Some (entry_of it) ∧
         ∃ mn, item_map_ (ss_base s) !! k = Some mn ∧
           key it = Some (KeyPtr (st_id (ss_base s)) (mn_id mn) k)) ∨
        (lookup_live k t (abs (ss_base s)) = None ∧ lookup_live k t (abs f) = Some (entry_of it) ∧
         ∃ mn, item_map_ f !! k = Some mn ∧ key it = Some (KeyPtr (st_id f) (mn_id mn) k))
    end.
Proof.
  intros Hwf. unfold snap_get_item.
  destruct (get_item_spec (ss_base s) k t Hwf) as (r & -> & Hr). ok_bind.
  destruct r as [[p it]|].
  - destruct Hr as (mn & E & (_ & Hkey & _) & _ & Hl). eexists. split; [done|]. left. eauto.
  - destruct (get_item_spec f k t Hf) as (r & -> & Hr'). exists r. split; [done|].
    destruct r as [[p it]|]; [|done].
    destruct Hr' as (mn & E & (_ & Hkey & _) & _ & Hl). right. eauto 6.
Qed.

(** Reads see the snapshot's own items first. *)
Lemma snap_read_spec now s k :
  wf (ss_base s) →
  snap_read f now s k =
    Ok (match lookup_live k now (abs (ss_base s)) with
        | Some e => Some (e_data e, e_size e)
        | None => spec_get k now (abs f)
        end).
Proof.
  intros Hwf. unfold snap_read, read. cbn [v_get_item snapshot_vtable].
  destruct (snap_get_item_spec s k now Hwf) as (r & -> & Hr). ok_bind.
  unfold spec_get. destruct r as [[p it]|].
  - destruct Hr as [(-> & _)|(-> & -> & _)]; done.
  - by destruct Hr as (-> & ->).
Qed.

(** A write of a key new to the snapshot storage, with room for it: the item
    is inserted, and a WRITE event with pointers to it is logged. *)
Lemma snap_write_spec s k it t :
  wf (ss_base s) → st_config (ss_base s) = st_config f → item_ok it →
  accepted (st_config f) k it t → item_map_ (ss_base s) !! k = None →
  mem (abs (ss_base s)) + footprint k (data_size it) ≤ cache_size (st_config f) →
  ∃ b mn i it', let kp := Some (KeyPtr (st_id (ss_base s)) (mn_id mn) k) in
    snap_commit_write f s k it t =
      Ok (Snapshot b (events_ s ++
            [SnapshotEvent WRITE kp (Some (ItemPtr (st_id (ss_base s)) i)) (expires_at it) t]), true) ∧
    wf b ∧ st_id b = st_id (ss_base s) ∧ st_config b = st_config f ∧
    it' = set_key kp it ∧ items_ b = (i, it') :: items_ (ss_base s) ∧
    item_map_ b = <[k := mn]> (item_map_ (ss_base s)).
Proof.
  intros Hwf Hcfg Hit [Hk Ht] E Hroom. destruct Hfi as [Hcap Hmem].
  assert (0 ≤ mem (abs (ss_base s))) as Hnn by (apply mem_pos; intros e; by apply abs_mem_pos).
  pose proof (footprint_pos k it Hit) as Hfp.
  assert (∃ req, @get_required_memory _ (snapshot_vtable f) s k it t = Ok req ∧
    req ≤ footprint k (data_size it)) as (req & Hreq & Hle).
  { unfold get_required_memory. cbn [v_get_item snapshot_vtable].
    destruct (snap_get_item_spec s k t Hwf) as (r & -> & Hr). ok_bind.
    eexists. split; [done|]. rewrite wrap_s_narrow, !get_item_size_footprint by lia.
    rewrite (wrap_u_id 64 (footprint k (data_size it))) by range.
    destruct r as [[p old]|]; [|rewrite wrap_s_id by (lia || range); lia].
    assert (0 < footprint k (data_size old) < 2 ^ 31) as Hold.
    { destruct Hr as [(Hr & _)|(_ & Hr & _)].
      - unfold lookup_live in Hr. by rewrite (find_key_abs_None _ k Hwf E) in Hr.
      - unfold lookup_live in Hr. destruct (find_key k (abs f)) as [e|] eqn:Ef; [|done].
        simpl in Hr. case_decide; [|done]. injection Hr as ->.
        pose proof (mem_find k (abs f) _ (abs_NoDup f Hf) Ef) as Hm.
        apply find_key_Some in Ef as [Hin Hkey]. pose proof (abs_mem_pos f _ Hf Hin) as Hp.
        assert (footprint k (data_size old) = e_mem (entry_of old)) as ->.
        { rewrite <- Hkey. done. }
        rewrite memory_abs in Hmem. assert (0 ≤ mem (remove_key k (abs f))); [|lia].
        apply mem_pos. intros e [_ He]%list_elem_of_filter. by apply (abs_mem_pos f). }
    rewrite get_item_size_footprint, (wrap_u_id 64 (footprint k (data_size old))) by range.
    rewrite wrap_s_id by (lia || range). lia. }
  destruct (insert_item_spec (ss_base s) k it t Hwf E Hit)
    as (b & mn & Hins & Hwfb & (Hid & Hcb & _) & Hitems & Hmap & _).
  exists (with_commit_code DONE_OK b), mn, (next_node (ss_base s)). eexists.
  split; [|split; [by apply (wf_set_commit_code b)|]; split; [done|]; split;
    [simpl; congruence|]; done].
  unfold snap_commit_write, commit_write. rewrite Hreq.
  cbn [v_base v_evict_lru_data v_get_item v_update_item v_insert_item snapshot_vtable].
  rewrite Hcfg, decide_False, decide_False by (try lia; destruct Hit as [-> _]; lia).
  unfold is_expired. rewrite (proj2 (Z.leb_gt _ _)) by done.
  ok_bind. unfold snap_evict_lru_data.
  rewrite evict_lru_data_room; [|done| |]; [|split; rewrite ?Hcfg, ?memory_abs; lia|
    rewrite Hcfg, memory_abs; lia].
  ok_bind.
  destruct (snap_get_item_spec s k t Hwf) as (r & Eg & _).
  assert (with_base (ss_base s) s = s) as -> by (by destruct s).
  rewrite Eg. ok_bind.
  unfold snap_update_item, snap_insert_item, get_item. rewrite E. ok_bind.
  rewrite Hins. ok_bind. destruct r as [[p old]|]; done.
Qed.

Lemma snap_write_reject s k it t :
  st_config (ss_base s) = st_config f → item_ok it → ¬ accepted (st_config f) k it t →
  ∃ c, snap_commit_write f s k it t = Ok (with_base (with_commit_code c (ss_base s)) s, false).
Proof.
  intros Hcfg [Hs _] Hno. unfold snap_commit_write, commit_write.
  cbn [v_base snapshot_vtable]. rewrite Hcfg.
  destruct (decide (string_size k > max_key_size (st_config f))); [by eexists|].
  rewrite decide_False by lia. unfold is_expired.
  destruct (Z.leb_spec (expires_at it) t); [by eexists|]. destruct Hno. unfold accepted. lia.
Qed.

(** ** The log

    [logged ov l cs es]: started with the abstract snapshot storage [ov], the
    commands [cs] log the events [es], whose pointers lead where they should
    in the snapshot storage [b] at the end; [l] is where the same commands
    take the main storage directly. *)
Context (b : cache_storage).

Inductive logged : lru → lru → list cmd → list snapshot_event → Prop :=
  | logged_nil ov l : logged ov l [] []
  | logged_reject ov l k it t cs es :
      ¬ accepted (st_config f) k it t → logged ov l cs es → logged ov l (CWrite k it t :: cs) es
  | logged_write ov l k it t mn i kp cs es x :
      accepted (st_config f) k it t → k ∉ e_key <$> ov →
      item_map_ b !! k = Some mn → (i, set_key kp it) ∈ items_ b →
      logged (entry_at k it :: ov) (spec_request (st_config f) l (Write k it t)).1 cs es →
      logged ov l (CWrite k it t :: cs)
        (SnapshotEvent WRITE (Some (KeyPtr SnapshotStorage (mn_id mn) k))
           (Some (ItemPtr SnapshotStorage i)) x t :: es)
  | logged_read_new ov l k t mn p x cs es :
      is_Some (lookup_live k t ov) → item_map_ b !! k = Some mn →
      logged ov (spec_request (st_config f) l (Read k t)).1 cs es →
      logged ov l (CRead k t :: cs)
        (SnapshotEvent READ (Some (KeyPtr SnapshotStorage (mn_id mn) k)) p x t :: es)
  | logged_read_frozen ov l k t mn p x cs es :
      k ∉ e_key <$> ov → k ∈ e_key <$> l → item_map_ f !! k = Some mn →
      logged ov (spec_request (st_config f) l (Read k t)).1 cs es →
      logged ov l (CRead k t :: cs)
        (SnapshotEvent READ (Some (KeyPtr (st_id f) (mn_id mn) k)) p x t :: es)
  | logged_read_none ov l k t cs es :
      lookup_live k t ov = None → lookup_live k t (abs f) = None →
      logged ov (spec_request (st_config f) l (Read k t)).1 cs es →
      logged ov l (CRead k t :: cs) es
  | logged_get ov l k now cs es : logged ov l cs es → logged ov l (CGet k now :: cs) es
  | logged_purge ov l t x cs es :
      logged ov (spec_request (st_config f) l (Purge t)).1 cs es →
      logged ov l (CPurge t :: cs) (SnapshotEvent PURGE None None x t :: es).
End over_frozen.

(** What a snapshot needs to be transparent, command by command: a key is
    written at most once; the snapshot storage has room for what is written;
    the commands applied directly are ones the storage theorems cover; and a
    key read from the frozen items is one those commands have not removed. *)
Fixpoint snapshot_ok (cfg : cache_config) (frozen ov l : lru) (cs : list cmd) : Prop :=
  match cs with
  | [] => True
  | c :: cs =>
      request_ok cfg l (cmd_request c) ∧
      match c with
      | CWrite k it t =>
          k ∉ e_key <$> ov ∧ mem ov + footprint k (data_size it) ≤ cache_size cfg
      | CRead k t =>
          lookup_live k t ov = None → is_Some (lookup_live k t frozen) →
          k ∉ e_key <$> ov ∧ k ∈ e_key <$> l
      | _ => True
      end ∧
      snapshot_ok cfg frozen
        (match c with
         | CWrite k it t => if decide (accepted cfg k it t) then entry_at k it :: ov else ov
         | _ => ov
         end)
        (spec_request cfg l (cmd_request c)).1 cs
  end.

#[export] Instance snapshot_ok_dec cfg frozen ov l cs :
  Decision (snapshot_ok cfg frozen ov l cs).
Proof.
  revert ov l. induction cs as [|c cs IH]; intros ov l; simpl; [apply _|].
  destruct c; apply _.
Defined.

(** ** Logging *)
Definition grows (b b' : cache_storage) : Prop :=
  item_map_ b ⊆ item_map_ b' ∧ ∀ x, x ∈ items_ b → x ∈ items_ b'.

Lemma abs_key_map b k : wf b → k ∈ e_key <$> abs b ↔ is_Some (item_map_ b !! k).
Proof.
  intros Hwf. destruct (item_map_ b !! k) as [mn|] eqn:E.
  - destruct (wf_map b Hwf _ _ E) as (it & Hl).
    pose proof (find_key_abs b k mn it Hwf E Hl) as Hf.
    apply find_key_Some in Hf as [Hin <-]. split; [eauto|]. intros _. by apply list_elem_of_fmap_2.
  - pose proof (find_key_abs_None b k Hwf E) as Hf. apply find_key_None in Hf.
    split; [done|by intros [? ?]].
Qed.

(** Reading a key while a snapshot is in progress, and what is logged. *)
Lemma snap_commit_read_spec f s k t :
  wf f → wf (ss_base s) →
  ∃ b es r, snap_commit_read f s k t = Ok (Snapshot b (events_ s ++ es), r) ∧
    wf b ∧ st_id b = st_id (ss_base s) ∧ st_config b = st_config (ss_base s) ∧
    items_ b = items_ (ss_base s) ∧ item_map_ b = item_map_ (ss_base s) ∧
    ((is_Some (lookup_live k t (abs (ss_base s))) ∧
      ∃ mn p, item_map_ b !! k = Some mn ∧
        es = [SnapshotEvent READ (Some (KeyPtr (st_id b) (mn_id mn) k)) p 0 t]) ∨
     (lookup_live k t (abs (ss_base s)) = None ∧ is_Some (lookup_live k t (abs f)) ∧
      ∃ mn p, item_map_ f !! k = Some mn ∧
        es = [SnapshotEvent READ (Some (KeyPtr (st_id f) (mn_id mn) k)) p 0 t]) ∨
     (lookup_live k t (abs (ss_base s)) = None ∧ lookup_live k t (abs f) = None ∧ es = [])).
Proof.
  intros Hf Hwf. unfold snap_commit_read.
  destruct (snap_get_item_spec f Hf s k t Hwf) as (r & -> & Hr). ok_bind.
  destruct r as [[p it]|].
  - exists (with_commit_code DONE_OK (ss_base s)). eexists [_], true.
    split; [done|]. split; [by apply (wf_set_commit_code (ss_base s))|]. repeat (split; [done|]).
    destruct Hr as [(Hl & mn & E & ->)|(Hn & Hl & mn & E & ->)]; [left|right; left].
    + split; [by rewrite Hl|]. by eexists mn, _.
    + split; [done|]. split; [by rewrite Hl|]. by eexists mn, _.
  - exists (with_commit_code NOT_FOUND (ss_base s)), [], false. rewrite app_nil_r.
    split; [done|]. split; [by apply (wf_set_commit_code (ss_base s))|]. repeat (split; [done|]).
    right. right. by destruct Hr.
Qed.

Section logging.
Context (f : cache_storage) (Hf : wf f) (Hfi : int_sized f).

Definition snapshotting (s : cache_state) : Prop :=
  let b := ss_base (snapshot_storage_ s) in
  snapshot_in_progress_ s = true ∧ storage_ s = f ∧ wf b ∧ st_id b = SnapshotStorage ∧
  st_config b = st_config f.

(** The snapshot storage the specification of a command leads to. *)
Definition overlay_after (ov : lru) (c : cmd) : lru :=
  match c with
  | CWrite k it t => if decide (accepted (st_config f) k it t) then entry_at k it :: ov else ov
  | _ => ov
  end.

(** The command [c] takes [s] to [s1] and logs [es1]. *)
Definition step_logs (s : cache_state) (c : cmd) (s1 : cache_state)
    (es1 : list snapshot_event) : Prop :=
  let b := ss_base (snapshot_storage_ s) in
  let b1 := ss_base (snapshot_storage_ s1) in
  snapshotting s1 ∧ grows b b1 ∧
  events_ (snapshot_storage_ s1) = events_ (snapshot_storage_ s) ++ es1 ∧
  abs b1 = overlay_after (abs b) c ∧
  ∀ b' l cs es, grows b1 b' →
    logged f b' (abs b1) (spec_request (st_config f) l (cmd_request c)).1 cs es →
    logged f b' (abs b) l (c :: cs) (es1 ++ es).

Lemma write_logs s k it t :
  snapshotting s → item_ok it →
  let ov := abs (ss_base (snapshot_storage_ s)) in
  k ∉ e_key <$> ov → mem ov + footprint k (data_size it) ≤ cache_size (st_config f) →
  ∃ s1 a es1, apply_cmd s (CWrite k it t) = Ok (s1, a) ∧ step_logs s (CWrite k it t) s1 es1.
Proof.
  destruct s as [sp sm ss scfg scc]. intros (Hp & Hm & Hwf & Hid & Hcfg) Hit ov Hnew Hroom.
  simpl in *. subst sp sm ov. unfold state_commit_write, step_logs. simpl.
  destruct (decide (accepted (st_config f) k it t)) as [Hacc|Hrej].
  - assert (item_map_ (ss_base ss) !! k = None) as E.
    { apply eq_None_not_Some. by rewrite <- abs_key_map. }
    destruct (snap_write_spec f Hf Hfi ss k it t Hwf Hcfg Hit Hacc E Hroom)
      as (b & mn & i & it' & -> & Hwfb & Hidb & Hcb & -> & Hitems & Hmap).
    ok_bind. eexists _, _, _. split; [done|].
    unfold snapshotting, with_snapshot, copy_commit_code. simpl.
    split; [repeat (split; [done|]); split; [congruence|done]|].
    split; [split; [rewrite Hmap; by apply insert_subseteq|intros x Hx; rewrite Hitems; by right]|].
    split; [done|]. rewrite Hid. assert (abs b = entry_at k it :: abs (ss_base ss)) as Ha.
    { unfold abs. rewrite Hitems. done. }
    split; [done|]. intros b' l cs es [Hgm Hgi] Hl. simpl. rewrite Ha in Hl.
    eapply logged_write; [done|done| | |simpl; rewrite decide_True by done; exact Hl].
    + eapply lookup_weaken; [|exact Hgm]. by rewrite Hmap, lookup_insert_eq.
    + apply Hgi. rewrite Hitems. left.
  - destruct (snap_write_reject f ss k it t Hcfg Hit Hrej) as (c & ->).
    ok_bind. eexists _, _, []. split; [done|].
    unfold snapshotting, with_snapshot, copy_commit_code. simpl.
    split; [repeat (split; [done|]); split; [by apply (wf_set_commit_code (ss_base ss))|done]|].
    split; [done|]. split; [by rewrite app_nil_r|]. split; [done|].
    intros b' l cs es _ Hl. by apply logged_reject.
Qed.

(** The pointers of a READ event to a frozen item need the key to be kept. *)
Lemma read_logs s k t :
  snapshotting s →
  ∃ s1 a es1, apply_cmd s (CRead k t) = Ok (s1, a) ∧ snapshotting s1 ∧
    grows (ss_base (snapshot_storage_ s)) (ss_base (snapshot_storage_ s1)) ∧
    events_ (snapshot_storage_ s1) = events_ (snapshot_storage_ s) ++ es1 ∧
    abs (ss_base (snapshot_storage_ s1)) = abs (ss_base (snapshot_storage_ s)) ∧
    ∀ b' l cs es, grows (ss_base (snapshot_storage_ s1)) b' →
      (lookup_live k t (abs (ss_base (snapshot_storage_ s))) = None →
       is_Some (lookup_live k t (abs f)) →
       k ∉ e_key <$> abs (ss_base (snapshot_storage_ s)) ∧ k ∈ e_key <$> l) →
      logged f b' (abs (ss_base (snapshot_storage_ s1)))
        (spec_request (st_config f) l (Read k t)).1 cs es →
      logged f b' (abs (ss_base (snapshot_storage_ s))) l (CRead k t :: cs) (es1 ++ es).
Proof.
  destruct s as [sp sm ss scfg scc]. intros (Hp & Hm & Hwf & Hid & Hcfg).
  simpl in *. subst sp sm. unfold state_commit_read. simpl.
  destruct (snap_commit_read_spec f ss k t Hf Hwf)
    as (b & es1 & r & -> & Hwfb & Hidb & Hcb & Hitems & Hmap & Hes).
  ok_bind. eexists _, _, es1. split; [done|].
  unfold snapshotting, with_snapshot, copy_commit_code. simpl.
  split; [repeat (split; [done|]); split; congruence|].
  unfold grows. rewrite Hitems, Hmap. split; [done|]. split; [done|].
  assert (abs b = abs (ss_base ss)) as Ha by (unfold abs; by rewrite Hitems).
  split; [done|]. intros b' l cs es [Hgm _] Hc Hl. rewrite Ha in Hl. simpl.
  destruct Hes as [(Hlive & mn & p & E & ->)|[(Hn & Hlive & mn & p & E & ->)|(Hn & Hnf & ->)]].
  - rewrite Hidb, Hid. apply logged_read_new; [done| |done].
    rewrite Hmap in E. by eapply lookup_weaken.
  - destruct (Hc Hn Hlive). by apply logged_read_frozen.
  - by apply logged_read_none.
Qed.

Lemma wf_live_size m k now e :
  wf m → lookup_live k now (abs m) = Some e → e_size e = Z.of_nat (length (e_data e)).
Proof.
  intros Hwfm He. unfold lookup_live in He.
  destruct (find_key k (abs m)) as [e'|] eqn:E; [|done]. simpl in He.
  case_decide; [|done]. injection He as ->.
  apply find_key_Some in E as [([i it] & -> & Hin)%list_elem_of_fmap _].
  by destruct (wf_item_ok m Hwfm _ _ Hin).
Qed.

(** [cache_state::read] during a snapshot: the snapshot storage first. *)
Lemma state_read_overlay s k now :
  snapshotting s →
  state_read now s k =
    Ok (match lookup_live k now (abs (ss_base (snapshot_storage_ s))) with
        | Some e => Some (e_data e, e_size e)
        | None => spec_get k now (abs f)
        end).
Proof.
  destruct s as [sp sm ss scfg scc]. intros (Hp & Hm & Hwf & _). simpl in *. subst sp sm.
  unfold state_read, read_then. simpl. rewrite snap_read_spec by done. ok_bind.
  unfold spec_get. destruct (lookup_live k now (abs (ss_base ss))) as [e|] eqn:E.
  - pose proof (wf_live_size _ _ _ _ Hwf E) as Hsz. rewrite decide_False by lia.
    by rewrite take_ge by lia.
  - destruct (lookup_live k now (abs f)) as [e|] eqn:E'; [|done]. simpl.
    pose proof (wf_live_size _ _ _ _ Hf E') as Hsz. rewrite decide_False by lia.
    by rewrite take_ge by lia.
Qed.

Lemma get_logs s k now :
  snapshotting s →
  ∃ a, apply_cmd s (CGet k now) = Ok (s, a) ∧ step_logs s (CGet k now) s [].
Proof.
  intros Hs. simpl. rewrite state_read_overlay by done. ok_bind.
  eexists. split; [done|]. split; [done|]. split; [done|]. split; [by rewrite app_nil_r|].
  split; [done|]. intros. by apply logged_get.
Qed.

Lemma purge_logs s t :
  snapshotting s →
  ∃ s1 a es1, apply_cmd s (CPurge t) = Ok (s1, a) ∧ step_logs s (CPurge t) s1 es1.
Proof.
  destruct s as [sp sm ss scfg scc]. intros (Hp & Hm & Hwf & Hid & Hcfg).
  simpl in *. subst sp sm. unfold commit_purge_expired, step_logs. simpl.
  eexists _, _, _. split; [done|]. unfold snapshotting. simpl. split.
  { repeat (split; [done|]); split; [by apply (wf_set_commit_code (ss_base ss))|done]. }
  repeat (split; [done|]). intros b' l cs es _ Hl. by apply logged_purge.
Qed.

Lemma run_cmds_logs cs s l :
  snapshotting s → snapshot_ok (st_config f) (abs f) (abs (ss_base (snapshot_storage_ s))) l cs →
  ∃ s' al es, run_cmds s cs = Ok (s', al) ∧ snapshotting s' ∧
    grows (ss_base (snapshot_storage_ s)) (ss_base (snapshot_storage_ s')) ∧
    events_ (snapshot_storage_ s') = events_ (snapshot_storage_ s) ++ es ∧
    logged f (ss_base (snapshot_storage_ s')) (abs (ss_base (snapshot_storage_ s))) l cs es.
Proof.
  revert s l. induction cs as [|c cs IH]; intros s l Hs Hok.
  { exists s, [], []. rewrite app_nil_r. repeat (split; [done|]). constructor. }
  destruct Hok as (Hreq & Hc & Hok). cbn [run_cmds].
  change (match c with CWrite _ _ _ => _ | _ => _ end) with
    (overlay_after (abs (ss_base (snapshot_storage_ s))) c) in Hok.
  assert (∃ s1 a es1, apply_cmd s c = Ok (s1, a) ∧ snapshotting s1 ∧
    grows (ss_base (snapshot_storage_ s)) (ss_base (snapshot_storage_ s1)) ∧
    events_ (snapshot_storage_ s1) = events_ (snapshot_storage_ s) ++ es1 ∧
    abs (ss_base (snapshot_storage_ s1)) = overlay_after (abs (ss_base (snapshot_storage_ s))) c ∧
    ∀ b' es, grows (ss_base (snapshot_storage_ s1)) b' →
      logged f b' (abs (ss_base (snapshot_storage_ s1)))
        (spec_request (st_config f) l (cmd_request c)).1 cs es →
      logged f b' (abs (ss_base (snapshot_storage_ s))) l (c :: cs) (es1 ++ es))
    as (s1 & a & es1 & -> & Hs1 & Hg1 & Hev1 & Ha1 & Hlog1).
  { destruct c as [k it t|k t|k now|t]; simpl in Hreq.
    - destruct (write_logs s k it t Hs) as (s1 & a & es1 & ? & ? & ? & ? & ? & ?);
        [apply Hreq|apply Hc|apply Hc|]. naive_solver.
    - destruct (read_logs s k t Hs) as (s1 & a & es1 & ? & ? & ? & ? & ? & Hl).
      exists s1, a, es1. repeat (split; [done|]). intros b' es Hg Hlog. by apply Hl.
    - destruct (get_logs s k now Hs) as (a & ? & ? & ? & ? & ? & ?). naive_solver.
    - destruct (purge_logs s t Hs) as (s1 & a & es1 & ? & ? & ? & ? & ? & ?). naive_solver. }
  ok_bind. rewrite <- Ha1 in Hok.
  destruct (IH s1 _ Hs1 Hok) as (s2 & al & es2 & -> & Hs2 & Hg2 & Hev2 & Hlog2).
  ok_bind. eexists s2, _, (es1 ++ es2). split; [done|]. split; [done|].
  split; [destruct Hg1, Hg2; split; [by etrans|auto]|].
  rewrite Hev2, Hev1, app_assoc. split; [done|]. by apply Hlog1.
Qed.
End logging.

(** ** Replaying *)
Section replaying.
Context (f : cache_storage) (Hf : wf f) (Hfid : st_id f = MainStorage).
Context (ss : snapshot_storage) (Hb : wf (ss_base ss)).
Context (Hbid : st_id (ss_base ss) = SnapshotStorage).

(** How the main storage [m] under replay stands to the frozen one: a key was
    written by the commands replayed so far, or has the map node it had. *)
Definition follows (m : cache_storage) (ov : lru) : Prop :=
  ∀ k mn e, item_map_ m !! k = Some mn → find_key k (abs m) = Some e →
    find_key k ov = Some e ∨
    (k ∉ e_key <$> ov ∧ find_key k (abs f) = Some e ∧
     ∃ mn0, item_map_ f !! k = Some mn0 ∧ mn_id mn0 = mn_id mn).

Lemma follows_frozen ov : ov = [] → follows f ov.
Proof.
  intros -> k mn e E He. right. split; [apply not_elem_of_nil|]. eauto.
Qed.

(** Steps that only lose keys, or reorder them. *)
Lemma follows_subset m m' ov :
  wf m → follows m ov → item_map_ m' ⊆ item_map_ m → (∀ e, e ∈ abs m' → e ∈ abs m) →
  follows m' ov.
Proof.
  intros Hm Hfol Hmap Hsub k mn e E He. apply Hfol.
  - by eapply lookup_weaken.
  - by apply (find_key_subset k (abs m) (abs m')); [apply abs_NoDup|..].
Qed.

Lemma follows_write m m' ov k it t :
  wf m → follows m ov → k ∉ e_key <$> ov →
  (∀ k' mn, k' ≠ k → item_map_ m' !! k' = Some mn → item_map_ m !! k' = Some mn) →
  abs m' = write_entry (cache_size (st_config m)) (entry_at k it) t (abs m) →
  follows m' (entry_at k it :: ov).
Proof.
  intros Hm Hfol Hov Hmap Ha k' mn e E He. rewrite Ha in He.
  destruct (decide (k' = k)) as [->|Hne].
  - left. unfold write_entry in He. simpl in He |- *. by rewrite decide_True in He |- *.
  - apply find_key_write_ne in He; [|by apply abs_NoDup|done].
    destruct (Hfol k' mn e (Hmap _ _ Hne E) He) as [?|(? & ? & ?)].
    + left. simpl. by rewrite decide_False.
    + right. split; [|done]. simpl. by rewrite not_elem_of_cons.
Qed.

Definition replayed (m m' : cache_storage) (l : lru) : Prop :=
  wf m' ∧ st_id m' = st_id m ∧ st_config m' = st_config m ∧ within_capacity m' ∧ abs m' = l.

(** One command applied through its event. *)
Lemma replay_write m ov k it kp t mn i x :
  wf m → st_id m = MainStorage → config_ok (st_config m) → within_capacity m → follows m ov →
  request_ok (st_config m) (abs m) (Write k it t) → accepted (st_config m) k it t →
  k ∉ e_key <$> ov → item_map_ (ss_base ss) !! k = Some mn →
  (i, set_key kp it) ∈ items_ (ss_base ss) →
  ∃ m', replay_event ss m (SnapshotEvent WRITE (Some (KeyPtr SnapshotStorage (mn_id mn) k))
          (Some (ItemPtr SnapshotStorage i)) x t) = Ok m' ∧
    replayed m m' (spec_request (st_config m) (abs m) (Write k it t)).1 ∧
    follows m' (entry_at k it :: ov).
Proof.
  intros Hm Hid Hcfg Hcap Hfol Hreq [Hk Ht] Hov E Hin.
  pose proof Hreq as (Hit & Hfp & Hst). pose proof (capacity_int_sized m Hcfg Hcap) as Hisz.
  assert (footprint k (data_size it) < 2 ^ 31) as Hfp31 by (destruct Hcfg; lia).
  unfold replay_event, event_key, event_item. simpl ev_type. simpl ev_key. simpl ev_item.
  cbv iota. simpl kp_store. simpl ip_store. cbv iota.
  rewrite <- Hbid, (wf_deref_key (ss_base ss) k mn E). ok_bind.
  unfold deref_item. simpl ip_node.
  rewrite (elem_deref _ _ _ (wf_items_nodes _ Hb) Hin). cbn [or_ub mbind outcome_bind].
  destruct (commit_write_stores m k (set_key kp it) t) as (m' & Eq & Hm' & Hid' & Hc' & _ & Ha);
    try done.
  destruct (apply_request_spec m (Write k it t) Hm Hcfg Hcap Hreq)
    as (m2 & a2 & _ & _ & _ & Hc2 & Hcap2 & Hsp).
  simpl ev_created_at. rewrite Eq. ok_bind. exists m'. split; [done|].
  assert (abs m' = (spec_request (st_config m) (abs m) (Write k it t)).1) as Ha'.
  { rewrite Ha. simpl. rewrite decide_True by done. done. }
  split.
  - repeat (split; [done|]). split; [|done]. unfold within_capacity in *.
    rewrite Hc', Ha', Hsp. by rewrite Hc2 in Hcap2.
  - apply (follows_write m m' ov k it t); [done|done|done| |exact Ha].
    intros k' mn' Hne E'. by apply (commit_write_frame m k (set_key kp it) t m').
Qed.

Lemma replay_read m ov k t kp p x :
  wf m → config_ok (st_config m) → within_capacity m → follows m ov →
  event_key m ss (SnapshotEvent READ kp p x t) = Ok k →
  ∃ m', replay_event ss m (SnapshotEvent READ kp p x t) = Ok m' ∧
    replayed m m' (spec_request (st_config m) (abs m) (Read k t)).1 ∧ follows m' ov.
Proof.
  intros Hm Hcfg Hcap Hfol Hkey. unfold replay_event. simpl ev_type. cbv iota. rewrite Hkey.
  ok_bind. simpl ev_created_at.
  destruct (commit_read_spec m k t Hm) as (m' & Eq & Hm' & Hid' & Hc' & _ & Hmap & Ha).
  rewrite Eq. ok_bind. exists m'. split; [done|].
  destruct (apply_request_spec m (Read k t) Hm Hcfg Hcap I)
    as (m2 & a2 & _ & _ & _ & Hc2 & Hcap2 & Hsp).
  assert (abs m' = (spec_request (st_config m) (abs m) (Read k t)).1) as Ha'.
  { rewrite Ha. simpl. by destruct (lookup_live k t (abs m)). }
  split.
  - repeat (split; [done|]). split; [|done]. unfold within_capacity in *.
    rewrite Hc', Ha', Hsp. by rewrite Hc2 in Hcap2.
  - apply (follows_subset m); [done|done|by rewrite Hmap|]. intros e. rewrite Ha.
    destruct (lookup_live k t (abs m)); [apply elem_of_touch|done].
Qed.

Lemma replay_purge m ov t x :
  wf m → config_ok (st_config m) → within_capacity m → follows m ov → time_ok t →
  ∃ m', replay_event ss m (SnapshotEvent PURGE None None x t) = Ok m' ∧
    replayed m m' (spec_request (st_config m) (abs m) (Purge t)).1 ∧ follows m' ov.
Proof.
  intros Hm Hcfg Hcap Hfol Ht. unfold replay_event. simpl ev_type. simpl ev_created_at. cbv iota.
  destruct (commit_purge_spec m t Hm Ht) as (m' & -> & Hm' & (Hid' & Hc' & _) & Ha & Hmap).
  exists m'. split; [done|].
  destruct (apply_request_spec m (Purge t) Hm Hcfg Hcap Ht)
    as (m2 & a2 & _ & _ & _ & Hc2 & Hcap2 & Hsp).
  split.
  - repeat (split; [done|]). split; [|done]. unfold within_capacity in *.
    rewrite Hc', Ha. simpl in Hsp. injection Hsp as -> _. by rewrite Hc2 in Hcap2.
  - apply (follows_subset m); [done|done|done|]. intros e. rewrite Ha.
    by intros [_ He]%list_elem_of_filter.
Qed.

(** A read that found nothing during the snapshot finds nothing directly. *)
Lemma follows_not_found m ov k t :
  wf m → follows m ov → lookup_live k t ov = None → lookup_live k t (abs f) = None →
  lookup_live k t (abs m) = None.
Proof.
  intros Hm Hfol Hov Hfr. unfold lookup_live in *.
  destruct (find_key k (abs m)) as [e|] eqn:E; [|done].
  assert (is_Some (item_map_ m !! k)) as [mn Emn].
  { apply abs_key_map; [done|]. apply find_key_Some in E as [Hin <-]. by apply list_elem_of_fmap_2. }
  destruct (Hfol k mn e Emn E) as [Ho|(_ & Ho & _)]; [by rewrite Ho in Hov|by rewrite Ho in Hfr].
Qed.

Lemma spec_run_cons cfg l r rs :
  (spec_run cfg l (r :: rs)).1 = (spec_run cfg (spec_request cfg l r).1 rs).1.
Proof. simpl. destruct (spec_request cfg l r) as [l1 a]. simpl. by destruct (spec_run cfg l1 rs). Qed.

(** The frozen item of a key not written since is where it was. *)
Lemma frozen_key_valid m ov k mn p x t :
  wf m → st_id m = MainStorage → follows m ov → k ∉ e_key <$> ov → k ∈ e_key <$> abs m →
  item_map_ f !! k = Some mn →
  event_key m ss (SnapshotEvent READ (Some (KeyPtr (st_id f) (mn_id mn) k)) p x t) = Ok k.
Proof.
  intros Hm Hid Hfol Hov Hk E. apply (abs_key_map m k Hm) in Hk as [mn' E'].
  destruct (wf_map m Hm k mn' E') as (it & Hl).
  destruct (Hfol k mn' _ E' (find_key_abs m k mn' it Hm E' Hl)) as [Ho|(_ & _ & mn0 & E0 & Hn)].
  - exfalso. apply Hov. apply find_key_Some in Ho as [Hin <-]. by apply list_elem_of_fmap_2.
  - rewrite E in E0. injection E0 as <-. unfold event_key. simpl ev_key. cbv iota.
    simpl kp_store. rewrite Hfid, Hn. rewrite <- Hid. rewrite Hid. cbv iota. rewrite <- Hid.
    by apply wf_deref_key.
Qed.

Lemma replay_logged cs m ov es :
  logged f (ss_base ss) ov (abs m) cs es →
  wf m → st_id m = MainStorage → st_config m = st_config f → config_ok (st_config f) →
  within_capacity m → follows m ov →
  requests_ok (st_config f) (abs m) (cmd_request <$> cs) →
  ∃ m', replay_events ss m es = Ok m' ∧
    replayed m m' (spec_run (st_config f) (abs m) (cmd_request <$> cs)).1.
Proof.
  assert (∀ m m1 l es r rs, replayed m m1 (spec_request (st_config f) (abs m) r).1 →
    (∃ m', replay_events ss m1 es = Ok m' ∧ replayed m1 m' l) →
    l = (spec_run (st_config f) (spec_request (st_config f) (abs m) r).1 rs).1 →
    ∃ m', replay_events ss m1 es = Ok m' ∧
      replayed m m' (spec_run (st_config f) (abs m) (r :: rs)).1) as Hstep.
  { intros m0 m1 l es0 r rs (_ & Hid & Hc & _) (m' & Eq & Hw & Hid' & Hc' & Hcap & Ha) ->.
    exists m'. rewrite spec_run_cons. split; [done|]. repeat (split; [congruence|]). done. }
  intros Hlog. remember (abs m) as l eqn:El. revert m El.
  induction Hlog as [ov l|ov l k it t cs es Hno _ IH|ov l k it t mn i kp cs es x Hacc Hov E Hin _ IH
    |ov l k t mn p x cs es Hlive E _ IH|ov l k t mn p x cs es Hov Hkl E _ IH
    |ov l k t cs es Hov Hfr _ IH|ov l k now cs es _ IH|ov l t x cs es _ IH];
    intros m -> Hm Hid Hc Hcfg Hcap Hfol Hreq; [by exists m|..];
    destruct Hreq as [Hreq Hreqs]; fold (cmd_request <$> cs) in Hreqs;
    rewrite ?fmap_cons; cbn [cmd_request]; pose proof Hcfg as Hcfg'; rewrite <- Hc in Hcfg'.
  - rewrite spec_run_cons. cbn [spec_request cmd_request] in Hreqs |- *.
    rewrite decide_False in Hreqs |- * by done. by apply IH.
  - rewrite <- Hc in Hreq, Hacc.
    destruct (replay_write m ov k it kp t mn i x) as (m1 & E1 & Hr & Hfol1); try done.
    cbn [replay_events]. rewrite E1. ok_bind. rewrite Hc in Hr.
    pose proof Hr as (Hm1 & Hid1 & Hc1 & Hcap1 & Ha1).
    eapply Hstep; [exact Hr|apply IH; congruence || done|done].
  - assert (event_key m ss (SnapshotEvent READ (Some (KeyPtr SnapshotStorage (mn_id mn) k)) p x t)
      = Ok k) as Hkey by (unfold event_key; simpl; rewrite E, Hbid; by rewrite decide_True).
    destruct (replay_read m ov k t _ p x Hm Hcfg' Hcap Hfol Hkey) as (m1 & E1 & Hr & Hfol1).
    cbn [replay_events]. rewrite E1. ok_bind. rewrite Hc in Hr.
    pose proof Hr as (Hm1 & Hid1 & Hc1 & Hcap1 & Ha1).
    eapply Hstep; [exact Hr|apply IH; congruence || done|done].
  - pose proof (frozen_key_valid m ov k mn p x t Hm Hid Hfol Hov Hkl E) as Hkey.
    destruct (replay_read m ov k t _ p x Hm Hcfg' Hcap Hfol Hkey) as (m1 & E1 & Hr & Hfol1).
    cbn [replay_events]. rewrite E1. ok_bind. rewrite Hc in Hr.
    pose proof Hr as (Hm1 & Hid1 & Hc1 & Hcap1 & Ha1).
    eapply Hstep; [exact Hr|apply IH; congruence || done|done].
  - rewrite spec_run_cons. cbn [spec_request cmd_request] in Hreqs, IH |- *.
    pose proof (follows_not_found m ov k t Hm Hfol Hov Hfr) as Hn. rewrite Hn in Hreqs, IH |- *.
    by apply IH.
  - rewrite spec_run_cons. by apply IH.
  - destruct (replay_purge m ov t x Hm Hcfg' Hcap Hfol Hreq) as (m1 & E1 & Hr & Hfol1).
    cbn [replay_events]. rewrite E1. ok_bind. rewrite Hc in Hr.
    pose proof Hr as (Hm1 & Hid1 & Hc1 & Hcap1 & Ha1).
    eapply Hstep; [exact Hr|apply IH; congruence || done|done].
Qed.
End replaying.
