(* ===== verification/CacheStateThms.v ===== *)
(** * Theorems about cache_state

    A snapshot leaves the frozen data alone, reads see the writes made
    meanwhile, and ending it takes the main storage where the same commands
    applied directly would have taken it, under the conditions that make it
    so; and two ways in which it goes wrong without them. *)
From S2P Require Import Prelude StdContainers Bytes CacheTypes CacheStorage CacheStorageInv.
From S2P Require Import LruSpec CacheStorageOps CacheStorageRefine CacheStorageReach.
From S2P Require Import SnapshotStorage CacheState CacheStateReplay CacheStorageThms.
Local Open Scope Z_scope.

(** No snapshot in progress, and an empty snapshot storage. *)
Definition idle (s : cache_state) : Prop :=
  let b := ss_base (snapshot_storage_ s) in
  snapshot_in_progress_ s = false ∧ wf (storage_ s) ∧ st_id (storage_ s) = MainStorage ∧
  wf b ∧ st_id b = SnapshotStorage ∧ st_config b = st_config (storage_ s) ∧
  items_ b = [] ∧ events_ (snapshot_storage_ s) = [].

Lemma new_cache_state_idle cfg : config_ok cfg → idle (new_cache_state cfg).
Proof.
  intros [Hi _]. split; [done|]. split; [by apply wf_new|]. split; [done|].
  split; [by apply wf_new|done].
Qed.

Lemma snapshot_ok_requests cfg f ov l cs :
  snapshot_ok cfg f ov l cs → requests_ok cfg l (cmd_request <$> cs).
Proof.
  revert ov l. induction cs as [|c cs IH]; intros ov l; [done|].
  intros (Hr & _ & Hcs). split; [done|]. by eapply IH.
Qed.

(** C22: a snapshot is transparent.  Commands run while it is in progress and
    applied by [end_snapshot] leave the main storage with the items, in the
    recency order, that the same commands applied directly to it produce, and
    the cache ready for the next snapshot; provided a key is written at most
    once meanwhile, the snapshot storage has room for the writes, and a key
    read from the frozen data has not been removed by the commands before. *)
Theorem snapshot_transparent s cs :
  idle s → config_ok (st_config (storage_ s)) → within_capacity (storage_ s) →
  snapshot_ok (st_config (storage_ s)) (abs (storage_ s)) [] (abs (storage_ s)) cs →
  ∃ s1 replies s2 direct replies',
    run_cmds (begin_snapshot s) cs = Ok (s1, replies) ∧ end_snapshot s1 = Ok s2 ∧
    run_requests (storage_ s) (cmd_request <$> cs) = Ok (direct, replies') ∧
    abs (storage_ s2) = abs direct ∧ idle s2 ∧ within_capacity (storage_ s2).
Proof.
  intros (Hp & Hwf & Hid & Hwfb & Hidb & Hcb & Hitems & Hev) Hcfg Hcap Hok.
  pose proof (capacity_int_sized _ Hcfg Hcap) as Hisz.
  assert (snapshotting (storage_ s) (begin_snapshot s)) as Hs by done.
  assert (abs (ss_base (snapshot_storage_ (begin_snapshot s))) = []) as Hov.
  { unfold abs. simpl. by rewrite Hitems. }
  pose proof (snapshot_ok_requests _ _ _ _ _ Hok) as Hreqs.
  rewrite <- Hov in Hok.
  destruct (run_cmds_logs (storage_ s) Hwf Hisz cs (begin_snapshot s) (abs (storage_ s)) Hs Hok)
    as (s1 & al & es & Hrun & (Hp1 & Hm1 & Hwf1 & Hid1 & Hc1) & _ & Hev1 & Hlog).
  rewrite Hov in Hlog. simpl in Hev1. rewrite Hev in Hev1. simpl in Hev1.
  destruct (replay_logged (storage_ s) Hid (snapshot_storage_ s1) Hwf1 Hid1
    cs (storage_ s) [] es Hlog) as (m & Hrep & Hwfm & Hidm & Hcm & Hcapm & Ha);
    try done; [by apply follows_frozen|].
  destruct (run_requests_spec (cmd_request <$> cs) (storage_ s) Hwf Hcfg Hcap Hreqs)
    as (d & al' & Hd & _ & _ & _ & _ & Hspec).
  eexists s1, al, _, d, al'. split; [done|]. split.
  { unfold end_snapshot. rewrite Hm1, Hev1, Hrep. done. }
  split; [done|]. rewrite Hspec in Ha. split; [done|]. split; [|done].
  unfold idle. simpl. split; [done|]. split; [done|]. split; [congruence|].
  split; [by apply wf_clear|]. split; [done|]. split; [congruence|done].
Qed.

(** A cache with two items, snapshot and all. *)
Definition demo_state : cache_state :=
  match run_cmds (new_cache_state (test_config 350))
          [CWrite "a" (test_item Byte.x61 20 999) 10; CWrite "b" (test_item Byte.x62 20 45) 11] with
  | Ok (s, _) => s
  | Fault _ => new_cache_state (test_config 350)
  end.

Lemma demo_state_idle :
  idle demo_state ∧ st_config (storage_ demo_state) = test_config 350 ∧
  within_capacity (storage_ demo_state).
Proof.
  destruct (run_requests_spec
    [Write "a" (test_item Byte.x61 20 999) 10; Write "b" (test_item Byte.x62 20 45) 11]
    (new_storage MainStorage (test_config 350)))
    as (m & al & Eq & Hwf & Hid & Hc & Hm & _);
    [apply wf_new; by vm_compute|by vm_compute|by vm_compute|repeat split; by vm_compute|].
  assert (storage_ demo_state = m) as Hmain.
  { assert ((fst <$> run_requests (new_storage MainStorage (test_config 350))
      [Write "a" (test_item Byte.x61 20 999) 10; Write "b" (test_item Byte.x62 20 45) 11])
      = Ok (storage_ demo_state)) as E by (vm_compute; reflexivity).
    rewrite Eq in E. by injection E. }
  unfold idle. rewrite Hmain. split; [|done]. split; [by vm_compute|].
  split; [done|]. split; [done|].
  change (ss_base (snapshot_storage_ demo_state)) with
    (ss_base (snapshot_storage_ (new_cache_state (test_config 350)))).
  split; [apply wf_new; by vm_compute|]. split; [done|]. split; [by rewrite Hc|]. done.
Qed.

Example snapshot_transparent_witness :
  let cs := [CWrite "c" (test_item Byte.x63 30 999) 50; CRead "a" 51; CPurge 61; CRead "c" 62] in
  ∃ s1 replies s2 direct replies',
    run_cmds (begin_snapshot demo_state) cs = Ok (s1, replies) ∧ end_snapshot s1 = Ok s2 ∧
    run_requests (storage_ demo_state) (cmd_request <$> cs) = Ok (direct, replies') ∧
    abs (storage_ s2) = abs direct ∧ idle s2 ∧ within_capacity (storage_ s2).
Proof.
  intros cs. apply (snapshot_transparent demo_state cs).
  - apply demo_state_idle.
  - by vm_compute.
  - apply demo_state_idle.
  - apply (bool_decide_unpack _). by vm_compute.
Defined.

(** C23: whatever is done to the cache while a snapshot is in progress, the
    frozen storage does not change, and so neither do the chunks read from it. *)
Theorem snapshot_data_frozen s cs s' replies :
  snapshot_in_progress_ s = true → run_cmds s cs = Ok (s', replies) →
  snapshot_in_progress_ s' = true ∧ storage_ s' = storage_ s ∧
  ∀ chunk_size item_index,
    state_read_snapshot_chunk s' chunk_size item_index =
    state_read_snapshot_chunk s chunk_size item_index.
Proof.
  intros Hp Hrun.
  assert (snapshot_in_progress_ s' = true ∧ storage_ s' = storage_ s) as [Hp' Heq].
  { revert s replies Hp Hrun. induction cs as [|c cs IH]; intros s replies Hp Hrun; simpl in Hrun.
    { by simplify_eq. }
    destruct (apply_cmd s c) as [[s1 a]|] eqn:E1; [|done]. ok_bind in Hrun.
    destruct (run_cmds s1 cs) as [[s2 al]|] eqn:E2; [|done]. ok_bind in Hrun.
    injection Hrun as -> _.
    assert (snapshot_in_progress_ s1 = true ∧ storage_ s1 = storage_ s) as [Hp1 <-];
      [|by eapply IH].
    clear IH E2. destruct c; simpl in E1;
      unfold state_commit_write, state_commit_read, commit_purge_expired in E1; rewrite ?Hp in E1;
      run_ok; done. }
  split; [done|]. split; [done|]. intros. unfold state_read_snapshot_chunk. by rewrite Heq.
Qed.

Example snapshot_data_frozen_witness :
  match run_cmds (begin_snapshot demo_state)
          [CWrite "a" (test_item Byte.x7a 5 99) 20; CPurge 90] with
  | Ok (s', _) => storage_ s' = storage_ demo_state
  | Fault _ => False
  end.
Proof.
  destruct (run_cmds _ _) as [[s' al]|] eqn:E; [|by vm_compute in E].
  by apply (snapshot_data_frozen (begin_snapshot demo_state) _ s' al eq_refl) in E as (_ & -> & _).
Defined.

(** C24: during a snapshot a key reads as the live item of the snapshot
    storage, or else as the live item of the frozen storage.  So when the item
    written last has expired, the older frozen one is read again. *)
Theorem snapshot_reads_overlay f s k now :
  wf f → snapshotting f s →
  let overlay := abs (ss_base (snapshot_storage_ s)) in
  state_read now s k =
    Ok (match lookup_live k now overlay with
        | Some e => Some (e_data e, e_size e)
        | None => (λ e, (e_data e, e_size e)) <$> lookup_live k now (abs f)
        end).
Proof. intros Hf Hs overlay. by rewrite (state_read_overlay f Hf). Qed.

(** Key "a", rewritten during the snapshot with an item that expires at 30. *)
Definition resurrected_state : cache_state :=
  match run_cmds (begin_snapshot demo_state) [CWrite "a" (test_item Byte.x7a 5 30) 20] with
  | Ok (s, _) => s
  | Fault _ => demo_state
  end.

(** From any idle state of that configuration. *)
Lemma rewritten_snapshotting s :
  idle s → st_config (storage_ s) = test_config 350 → within_capacity (storage_ s) →
  snapshotting (storage_ s)
    match run_cmds (begin_snapshot s) [CWrite "a" (test_item Byte.x7a 5 30) 20] with
    | Ok (s', _) => s'
    | Fault _ => s
    end.
Proof.
  intros (_ & Hwf & Hid & Hwfb & Hidb & Hcb & Hitems & _) Hc Hcap.
  assert (abs (ss_base (snapshot_storage_ (begin_snapshot s))) = []) as Hov.
  { unfold abs. simpl. by rewrite Hitems. }
  assert (int_sized (storage_ s)) as Hint.
  { apply capacity_int_sized; [rewrite Hc; by vm_compute|done]. }
  destruct (write_logs (storage_ s) Hwf Hint (begin_snapshot s) "a" (test_item Byte.x7a 5 30) 20)
    as (s1 & a & es & Eq & Hlog); [done|by vm_compute|..].
  - rewrite Hov. apply not_elem_of_nil.
  - rewrite Hov, Hc. by vm_compute.
  - cbn [run_cmds]. rewrite Eq. ok_bind. apply Hlog.
Qed.

Lemma resurrected_snapshotting : snapshotting (storage_ demo_state) resurrected_state.
Proof. destruct demo_state_idle as (? & ? & ?). by apply rewritten_snapshotting. Qed.

Example snapshot_reads_overlay_witness :
  state_read 25 resurrected_state "a" = Ok (Some (replicate 5 Byte.x7a, 5)) ∧
  state_read 35 resurrected_state "a" = Ok (Some (replicate 20 Byte.x61, 20)).
Proof.
  pose proof resurrected_snapshotting as Hs.
  destruct demo_state_idle as ((_ & Hwf & _) & _).
  split; rewrite (snapshot_reads_overlay (storage_ demo_state)) by done; by vm_compute.
Defined.

(** Evictions are not disabled during a snapshot.  In a cache of 150
    bytes three writes evict the first written, a read no longer finds it, and
    [end_snapshot] follows the pointers its event still holds. *)
Theorem snapshot_eviction_dangles :
  match run_cmds (begin_snapshot (new_cache_state (test_config 150)))
          [CWrite "a" (test_item Byte.x61 20 999) 10; CWrite "b" (test_item Byte.x62 20 999) 11;
           CGet "a" 12; CWrite "c" (test_item Byte.x63 20 999) 13; CGet "a" 14] with
  | Ok (s, replies) =>
      replies = [RBool true; RBool true; RData (Some (replicate 20 Byte.x61, 20));
                 RBool true; RData None] ∧
      end_snapshot s = undefined DanglingPointer
  | Fault _ => False
  end.
Proof. vm_compute. split; reflexivity. Qed.

(** A key read from the frozen data and evicted by the replay of an
    earlier write: [end_snapshot] reads the key through the pointer into the
    node the eviction destroyed. *)
Theorem snapshot_read_replay_dangles :
  match run_cmds (new_cache_state (test_config 150))
          [CWrite "a" (test_item Byte.x61 20 999) 10; CWrite "b" (test_item Byte.x62 20 999) 11] with
  | Ok (s, _) =>
      match run_cmds (begin_snapshot s)
              [CWrite "c" (test_item Byte.x63 20 999) 12; CRead "a" 13] with
      | Ok (s, replies) =>
          replies = [RBool true; RBool true] ∧ end_snapshot s = undefined DanglingPointer
      | Fault _ => False
      end
  | Fault _ => False
  end.
Proof. vm_compute. split; reflexivity. Qed.
