(* ===== verification/Buffer.v ===== *)
(** * nuraft::buffer: a byte buffer with its header in front

    libs/nuraft/src/buffer.cxx.  A buffer is a raw memory block: a header with
    the size and the position of the cursor, in two [ushort]s for a block of
    less than 0x8000 bytes and two [uint]s for a bigger one (bit 31 of the
    first [uint] says which), and then the data.  [buffer] is that memory, the
    macros are reads and writes in it, and an access outside it is undefined
    behaviour.  Integers are stored as the little-endian targets do. *)
From S2P Require Import Prelude Bytes.
Local Open Scope Z_scope.

Abbreviation buffer := (list byte).

(** ** Memory accesses *)
Definition load (off n : Z) (m : buffer) : outcome (list byte) :=
  if decide (0 ≤ off ∧ 0 ≤ n ∧ off + n ≤ Z.of_nat (length m))
  then Ok (take (Z.to_nat n) (drop (Z.to_nat off) m)) else undefined OutOfBounds.

Definition store (off : Z) (bs : list byte) (m : buffer) : outcome buffer :=
  if decide (0 ≤ off ∧ off + Z.of_nat (length bs) ≤ Z.of_nat (length m))
  then Ok (take (Z.to_nat off) m ++ bs ++ drop (Z.to_nat off + length bs) m)
  else undefined OutOfBounds.

Definition load_word (off : Z) (n : nat) (m : buffer) : outcome Z :=
  bs ← load off (Z.of_nat n) m; Ok (bytes_word bs).

(** ** The macros on the header *)
Definition is_big_block (m : buffer) : outcome bool :=
  w ← load_word 0 4 m; Ok (negb (Z.land 0x80000000 w =? 0)).

Definition pos_of_block (m : buffer) : outcome Z :=
  big ← is_big_block m; if (big : bool) then load_word 4 4 m else load_word 2 2 m.

Definition size_of_block (m : buffer) : outcome Z :=
  big ← is_big_block m;
  if (big : bool) then w ← load_word 0 4 m; Ok (Z.lxor w 0x80000000) else load_word 0 2 m.

Definition mv_fw_block (delta : Z) (m : buffer) : outcome buffer :=
  big ← is_big_block m;
  if (big : bool)
  then p ← load_word 4 4 m; store 4 (word_bytes 4 (u32 (p + delta))) m
  else p ← load_word 2 2 m; store 2 (word_bytes 2 (u16 (p + u16 delta))) m.

Definition set_block_pos (p : Z) (m : buffer) : outcome buffer :=
  big ← is_big_block m;
  if (big : bool) then store 4 (word_bytes 4 p) m else store 2 (word_bytes 2 (u16 p)) m.

(** Offsets of the data, from the start of the block. *)
Definition entire_data_of_block (m : buffer) : outcome Z :=
  big ← is_big_block m; Ok (if big : bool then 8 else 4).

Definition data_of_block (m : buffer) : outcome Z :=
  start ← entire_data_of_block m; p ← pos_of_block m; Ok (start + p).

(** ** Allocation and copies

    [junk] is what the fresh memory happens to hold. *)
Definition alloc (junk : nat → byte) (size : Z) : outcome buffer :=
  let data : list byte := junk <$> seq 0 (Z.to_nat size) in
  if decide (0x80000000 ≤ size) then
    throw (out_of_range "size exceed the max size that nuraft::buffer could support")
  else if decide (0x8000 ≤ size) then
    Ok (word_bytes 4 (Z.lor (u32 size) 0x80000000) ++ word_bytes 4 0 ++ data)
  else Ok (word_bytes 2 (u16 size) ++ word_bytes 2 0 ++ data).

Definition container_size (m : buffer) : outcome Z :=
  s ← size_of_block m; big ← is_big_block m; Ok (s + if big : bool then 8 else 4).

Definition size (m : buffer) : outcome Z := size_of_block m.
Definition pos (m : buffer) : outcome Z := pos_of_block m.

(** [void pos(size_t)] *)
Definition set_pos (p : Z) (m : buffer) : outcome buffer :=
  s ← size m; set_block_pos (if decide (p > s) then s else p) m.

(** [size() - pos()], a [size_t]. *)
Definition avail (m : buffer) : outcome Z :=
  s ← size m; p ← pos m; Ok (u64 (s - p)).

(** [n] bytes at the cursor, and bytes written there. *)
Definition load_data (n : Z) (m : buffer) : outcome (list byte) :=
  d ← data_of_block m; load d n m.
Definition store_data (bs : list byte) (m : buffer) : outcome buffer :=
  d ← data_of_block m; store d bs m.

(** ** Reading *)

(** [val += (byte_val << (i * 8))] over the bytes, in [int32] and in [ulong]. *)
Fixpoint sum_int (i : Z) (val : Z) (bs : list byte) : Z :=
  match bs with
  | [] => val
  | b :: bs => sum_int (i + 1) (i32 (val + i32 (Z.shiftl (Z_of_byte b) (i * 8)))) bs
  end.
Fixpoint sum_ulong (i : Z) (val : Z) (bs : list byte) : Z :=
  match bs with
  | [] => val
  | b :: bs => sum_ulong (i + 1) (u64 (val + u64 (Z.shiftl (Z_of_byte b) (i * 8)))) bs
  end.

Definition get_int (m : buffer) : outcome (Z * buffer) :=
  av ← avail m;
  if decide (av < 4) then
    throw (overflow_error "insufficient buffer available for an int32 value")
  else
    bs ← load_data 4 m;
    m ← mv_fw_block 4 m;
    Ok (sum_int 0 0 bs, m).

Definition get_ulong (m : buffer) : outcome (Z * buffer) :=
  av ← avail m;
  if decide (av < 8) then
    throw (overflow_error "insufficient buffer available for an ulong value")
  else
    bs ← load_data 8 m;
    m ← mv_fw_block 8 m;
    Ok (sum_ulong 0 0 bs, m).

Definition get_byte (m : buffer) : outcome (byte * buffer) :=
  av ← avail m;
  if decide (av < 1) then
    throw (overflow_error "insufficient buffer available for a byte")
  else
    bs ← load_data 1 m;
    m ← mv_fw_block 1 m;
    Ok (hd Byte.x00 bs, m).

(** The length read is an [int32] turned into a [size_t]. *)
Definition get_bytes (m : buffer) : outcome (list byte * buffer) :=
  av ← avail m;
  if decide (av < 4) then
    throw (overflow_error "insufficient buffer available for a bytes length (int32)")
  else
    bs ← load_data 4 m;
    m ← mv_fw_block 4 m;
    let len := u64 (sum_int 0 0 bs) in
    av ← avail m;
    if decide (av < len) then
      throw (overflow_error "insufficient buffer available for a byte array")
    else
      d ← load_data len m;
      m ← mv_fw_block len m;
      Ok (d, m).

(** [while ((p + i) < s && *(d + i)) ++i;] *)
Fixpoint str_length (n : nat) (bs : list byte) : nat :=
  match n, bs with
  | S n, b :: bs => if decide (b = Byte.x00) then 0 else S (str_length n bs)
  | _, _ => 0
  end.

(** [None] is nilptr. *)
Definition get_str (m : buffer) : outcome (option (list byte) * buffer) :=
  p ← pos m;
  s ← size m;
  bs ← (if decide (p < s) then load_data (s - p) m else Ok []);
  let i := Z.of_nat (str_length (Z.to_nat (s - p)) bs) in
  m ← (if decide (i = 0) then mv_fw_block (i + 1) m else Ok m);
  if decide (s ≤ p + i ∨ i = 0) then Ok (None, m)
  else
    m ← mv_fw_block (i + 1) m;
    Ok (Some (take (Z.to_nat i) bs), m).

Definition get_raw (len : Z) (m : buffer) : outcome (list byte * buffer) :=
  av ← avail m;
  if decide (av < len) then
    throw (overflow_error "insufficient buffer available for a raw byte array")
  else
    d ← load_data len m;
    m ← mv_fw_block len m;
    Ok (d, m).

(** [get(ptr<buffer>&)]: no check against the source. *)
Definition get_buffer (dst : buffer) (m : buffer) : outcome (buffer * buffer) :=
  s ← size dst;
  p ← pos dst;
  let sz := u64 (s - p) in
  bs ← load_data sz m;
  dst ← store_data bs dst;
  m ← mv_fw_block sz m;
  Ok (dst, m).

(** ** Writing *)

(** [(byte)(val >> (i * 8))] for [i] below [n]. *)
Definition shift_bytes (n : nat) (val : Z) : list byte :=
  (λ i, byte_of_Z (Z.shiftr val (Z.of_nat i * 8))) <$> seq 0 n.

Definition put_checked (what : string) (bs : list byte) (m : buffer) : outcome buffer :=
  av ← avail m;
  if decide (av < Z.of_nat (length bs)) then throw (overflow_error what)
  else m ← store_data bs m; mv_fw_block (Z.of_nat (length bs)) m.

Definition put_byte (b : byte) : buffer → outcome buffer :=
  put_checked "insufficient buffer to store byte" [b].
Definition put_int32 (val : Z) : buffer → outcome buffer :=
  put_checked "insufficient buffer to store int32" (shift_bytes 4 val).
Definition put_ulong (val : Z) : buffer → outcome buffer :=
  put_checked "insufficient buffer to store unsigned long" (shift_bytes 8 val).
Definition put_string (str : string) : buffer → outcome buffer :=
  put_checked "insufficient buffer to store a string" (bytes_of_string str ++ [Byte.x00]).
Definition put_raw (ba : list byte) : buffer → outcome buffer :=
  put_checked "insufficient buffer to store a raw byte array" ba.

(** [put(const byte*, size_t)]: the length first, then the bytes. *)
Definition put_bytes (ba : list byte) (m : buffer) : outcome buffer :=
  m ← put_checked "insufficient buffer to store int32 length"
        (shift_bytes 4 (Z.of_nat (length ba))) m;
  put_raw ba m.

(** [put(const buffer&)]: what is left of the other buffer. *)
Definition put_buffer (buf : buffer) (m : buffer) : outcome buffer :=
  av ← avail m;
  src_av ← avail buf;
  if decide (av < src_av) then
    throw (overflow_error "insufficient buffer to hold the other buffer")
  else
    src ← load_data src_av buf;
    m ← store_data src m;
    mv_fw_block src_av m.

Definition copy (junk : nat → byte) (buf : buffer) : outcome buffer :=
  av ← avail buf;
  other ← alloc junk av;
  other ← put_buffer buf other;
  set_pos 0 other.

Definition clone (junk : nat → byte) (buf : buffer) : outcome buffer :=
  s ← size buf;
  other ← alloc junk s;
  dst ← entire_data_of_block other;
  src ← entire_data_of_block buf;
  bs ← load src s buf;
  other ← store dst bs other;
  set_pos 0 other.

Definition expand (junk : nat → byte) (buf : buffer) (new_size : Z) : outcome buffer :=
  if decide (0x80000000 ≤ new_size) then
    throw (out_of_range "size exceed the max size that nuraft::buffer could support")
  else
    s ← size buf;
    if decide (new_size < s) then
      throw (out_of_range "realloc() new_size is less than old size")
    else
      other ← alloc junk new_size;
      dst ← entire_data_of_block other;
      src ← entire_data_of_block buf;
      bs ← load src s buf;
      other ← store dst bs other;
      p ← pos buf;
      set_pos p other.
