(* ===== verification/BufferSpec.v ===== *)
(** * What the operations of a buffer do

    [cursor b a] is the memory of a well-formed buffer whose data is [b ++ a]
    with the cursor between the two.  Each operation on the raw memory is an
    equation on cursors. *)
From S2P Require Import Prelude Bytes Buffer.
Local Open Scope Z_scope.

Definition header (sz p : Z) : list byte :=
  if decide (sz < 0x8000) then word_bytes 2 sz ++ word_bytes 2 p
  else word_bytes 4 (sz + 0x80000000) ++ word_bytes 4 p.

Definition cursor (b a : list byte) : buffer :=
  header (Z.of_nat (length (b ++ a))) (Z.of_nat (length b)) ++ b ++ a.

(** The sizes a buffer can have. *)
Definition fits (l : list byte) : Prop := Z.of_nat (length l) < 0x80000000.

(** ** Memory *)
Lemma load_app (a b c : list byte) :
  load (Z.of_nat (length a)) (Z.of_nat (length b)) (a ++ b ++ c) = Ok b.
Proof.
  unfold load. rewrite decide_True by (rewrite !length_app; lia).
  by rewrite !Nat2Z.id, drop_app_length, take_app_length.
Qed.

Lemma load_at off n (a b c : list byte) :
  off = Z.of_nat (length a) → n = Z.of_nat (length b) → load off n (a ++ b ++ c) = Ok b.
Proof. intros -> ->. apply load_app. Qed.

Lemma load_front n (b c : list byte) : n = Z.of_nat (length b) → load 0 n (b ++ c) = Ok b.
Proof. intros ->. apply (load_app []). Qed.

Lemma load_all (b : list byte) : load 0 (Z.of_nat (length b)) b = Ok b.
Proof. pose proof (load_app [] b []) as Hl. simpl in Hl. by rewrite app_nil_r in Hl. Qed.

Lemma store_at off (a b b' c : list byte) :
  off = Z.of_nat (length a) → length b' = length b → store off b' (a ++ b ++ c) = Ok (a ++ b' ++ c).
Proof.
  intros -> Hlen. unfold store. rewrite decide_True by (rewrite !length_app; lia).
  rewrite Nat2Z.id, take_app_length. f_equal. f_equal. f_equal.
  rewrite <- drop_drop, drop_app_length, Hlen. by rewrite drop_app_length.
Qed.

(** ** The header *)
Lemma header_small sz p : sz < 0x8000 → header sz p = word_bytes 2 sz ++ word_bytes 2 p.
Proof. intros. unfold header. by rewrite decide_True. Qed.
Lemma header_big sz p :
  0x8000 ≤ sz → header sz p = word_bytes 4 (sz + 0x80000000) ++ word_bytes 4 p.
Proof. intros. unfold header. rewrite decide_False; [done|lia]. Qed.

Lemma length_header sz p : length (header sz p) = if decide (sz < 0x8000) then 4%nat else 8%nat.
Proof. unfold header. case_decide; by rewrite length_app, !length_word_bytes. Qed.

Lemma land_bit31 w : 0 ≤ w < 2 ^ 32 → negb (Z.land 0x80000000 w =? 0) = (0x80000000 <=? w).
Proof.
  intros Hw. rewrite Z.land_comm. change 0x80000000 with (2 ^ 31) at 1.
  assert (Z.land w (2 ^ 31) = if Z.testbit w 31 then 2 ^ 31 else 0) as ->.
  { apply Z.bits_inj'. intros n Hn. rewrite Z.land_spec, Z.pow2_bits_eqb by lia.
    destruct (Z.eqb_spec 31 n) as [<-|Hne].
    - destruct (Z.testbit w 31); cbn [andb]; [by rewrite Z.pow2_bits_true|by rewrite Z.bits_0].
    - rewrite andb_false_r. destruct (Z.testbit w 31); [|by rewrite Z.bits_0].
      by rewrite Z.pow2_bits_false by lia. }
  assert (Z.testbit w 31 = (0x80000000 <=? w)) as ->.
  { apply eq_true_iff_eq. rewrite Z.testbit_true by lia. change 0x80000000 with (2 ^ 31).
    rewrite Z.leb_le. pose proof (Z.div_mod w (2 ^ 31)). pose proof (Z.mod_pos_bound w (2 ^ 31)).
    assert (0 ≤ w / 2 ^ 31 < 2) as Hd.
    { split; [apply Z.div_pos; lia|apply Z.div_lt_upper_bound; lia]. }
    rewrite Z.mod_small by lia. split; intros; nia. }
  by destruct (0x80000000 <=? w).
Qed.

Lemma lxor_bit31 s : 0 ≤ s < 0x80000000 → Z.lxor (s + 0x80000000) 0x80000000 = s.
Proof.
  intros Hs. assert (s + 0x80000000 = Z.lxor s 0x80000000) as ->.
  { rewrite <- Z.add_nocarry_lxor; [done|]. apply Z.bits_inj'. intros n Hn.
    rewrite Z.land_spec, Z.bits_0. change 0x80000000 with (2 ^ 31).
    rewrite Z.pow2_bits_eqb by lia. destruct (Z.eqb_spec 31 n) as [<-|]; [|by rewrite andb_false_r].
    rewrite Z.bits_above_log2; [done|lia|].
    destruct (decide (s = 0)) as [->|]; [simpl; lia|]. apply Z.log2_lt_pow2; lia. }
  by rewrite Z.lxor_assoc, Z.lxor_nilpotent, Z.lxor_0_r.
Qed.

Lemma lor_bit31 s : 0 ≤ s < 0x80000000 → Z.lor s 0x80000000 = s + 0x80000000.
Proof.
  intros Hs. symmetry. rewrite Z.add_nocarry_lxor, Z.lxor_lor; [done|..];
    (apply Z.bits_inj'; intros n Hn;
    rewrite Z.land_spec, Z.bits_0; change 0x80000000 with (2 ^ 31);
    rewrite Z.pow2_bits_eqb by lia; destruct (Z.eqb_spec 31 n) as [<-|]; [|by rewrite andb_false_r];
    rewrite Z.bits_above_log2; [done|lia|];
    destruct (decide (s = 0)) as [->|]; [simpl; lia|]; apply Z.log2_lt_pow2; lia).
Qed.

Section cursors.
Implicit Types (b w a : list byte).

(** The positions a header can hold: more than the size, but for [ushort]s not
    so much that the position looks like the size flag. *)
Definition pos_fits (sz p : Z) : Prop :=
  0 ≤ p < 0x100000000 ∧ (sz < 0x8000 → p < 0x8000).

(** A block of header [header sz p], whatever follows. *)
Lemma is_big_header sz p l :
  0 ≤ sz < 0x80000000 → pos_fits sz p →
  is_big_block (header sz p ++ l) = Ok (bool_decide (0x8000 ≤ sz)).
Proof.
  unfold pos_fits. intros Hsz Hp. unfold is_big_block, load_word. destruct (decide (sz < 0x8000)).
  - rewrite header_small by done. rewrite bool_decide_eq_false_2 by lia.
    rewrite (load_front _ (word_bytes 2 sz ++ word_bytes 2 p)).
    + ok_bind. rewrite bytes_word_app, length_word_bytes.
      rewrite !word16_roundtrip by range. change (256 ^ Z.of_nat 2) with 65536.
      rewrite land_bit31 by lia. f_equal. apply Z.leb_gt. lia.
    + by rewrite length_app, !length_word_bytes.
  - rewrite header_big by lia. rewrite bool_decide_eq_true_2 by lia. rewrite <- app_assoc.
    rewrite (load_front _ (word_bytes 4 (sz + 0x80000000))) by (by rewrite length_word_bytes).
    ok_bind. rewrite word32_roundtrip by range.
    rewrite land_bit31 by lia. f_equal. apply Z.leb_le. lia.
Qed.

Lemma pos_of_header sz p l :
  0 ≤ sz < 0x80000000 → pos_fits sz p → pos_of_block (header sz p ++ l) = Ok p.
Proof.
  unfold pos_fits. intros Hsz Hp. unfold pos_of_block. rewrite is_big_header by (unfold pos_fits; lia). ok_bind.
  unfold load_word. case_bool_decide.
  - rewrite header_big by lia. rewrite <- app_assoc.
    rewrite (load_at 4 _ (word_bytes 4 _) (word_bytes 4 p)); [|by rewrite length_word_bytes..].
    ok_bind. rewrite word32_roundtrip; [done|range].
  - rewrite header_small by lia. rewrite <- app_assoc.
    rewrite (load_at 2 _ (word_bytes 2 _) (word_bytes 2 p)); [|by rewrite length_word_bytes..].
    ok_bind. rewrite word16_roundtrip; [done|range].
Qed.

Lemma size_of_header sz p l :
  0 ≤ sz < 0x80000000 → pos_fits sz p → size_of_block (header sz p ++ l) = Ok sz.
Proof.
  unfold pos_fits. intros Hsz Hp. unfold size_of_block. rewrite is_big_header by (unfold pos_fits; lia). ok_bind.
  unfold load_word. case_bool_decide.
  - rewrite header_big by lia. rewrite <- app_assoc.
    rewrite (load_front _ (word_bytes 4 (sz + 0x80000000))) by (by rewrite length_word_bytes).
    ok_bind. rewrite word32_roundtrip by range. by rewrite lxor_bit31 by lia.
  - rewrite header_small by lia. rewrite <- app_assoc.
    rewrite (load_front _ (word_bytes 2 sz)) by (by rewrite length_word_bytes).
    ok_bind. rewrite word16_roundtrip; [done|range].
Qed.

Lemma set_pos_header sz p p' l :
  0 ≤ sz < 0x80000000 → 0 ≤ p ≤ sz → 0 ≤ p' ≤ sz →
  set_block_pos p' (header sz p ++ l) = Ok (header sz p' ++ l).
Proof.
  intros Hsz Hp Hp'. unfold set_block_pos. rewrite is_big_header by (unfold pos_fits; lia).
  ok_bind. case_bool_decide.
  - rewrite !header_big, <- !app_assoc by lia.
    apply store_at; by rewrite ?length_word_bytes.
  - rewrite wrap_u_id by range. rewrite !header_small, <- !app_assoc by lia.
    apply store_at; by rewrite ?length_word_bytes.
Qed.

Lemma mv_fw_header sz p d l :
  0 ≤ sz < 0x80000000 → pos_fits sz p → 0 ≤ d → pos_fits sz (p + d) →
  mv_fw_block d (header sz p ++ l) = Ok (header sz (p + d) ++ l).
Proof.
  unfold pos_fits. intros Hsz Hp Hd Hle. unfold mv_fw_block. rewrite is_big_header by (unfold pos_fits; lia).
  ok_bind. unfold load_word. case_bool_decide.
  - rewrite !header_big, <- !app_assoc by lia.
    rewrite (load_at 4 _ (word_bytes 4 _) (word_bytes 4 p)); [|by rewrite length_word_bytes..].
    ok_bind. rewrite word32_roundtrip by range.
    rewrite wrap_u_id by range. apply store_at; by rewrite ?length_word_bytes.
  - rewrite !header_small, <- !app_assoc by lia.
    rewrite (load_at 2 _ (word_bytes 2 _) (word_bytes 2 p)); [|by rewrite length_word_bytes..].
    ok_bind. rewrite word16_roundtrip by range.
    rewrite (wrap_u_id 16 d), wrap_u_id by range. apply store_at; by rewrite ?length_word_bytes.
Qed.

(** ** Cursors *)
Lemma cursor_size b a : fits (b ++ a) → size (cursor b a) = Ok (Z.of_nat (length (b ++ a))).
Proof.
  unfold fits. intros. apply size_of_header; [lia|]. unfold pos_fits. rewrite length_app in *. lia.
Qed.

Lemma cursor_pos b a : fits (b ++ a) → pos (cursor b a) = Ok (Z.of_nat (length b)).
Proof.
  unfold fits. intros. apply pos_of_header; [lia|]. unfold pos_fits. rewrite length_app in *. lia.
Qed.

Lemma cursor_avail b a : fits (b ++ a) → avail (cursor b a) = Ok (Z.of_nat (length a)).
Proof.
  intros Hf. unfold avail. rewrite cursor_size, cursor_pos by done. ok_bind.
  f_equal. unfold fits in Hf. rewrite length_app in *. rewrite wrap_u_id by range. lia.
Qed.

Lemma cursor_entire b a :
  fits (b ++ a) →
  entire_data_of_block (cursor b a) =
    Ok (Z.of_nat (length (header (Z.of_nat (length (b ++ a))) (Z.of_nat (length b))))).
Proof.
  unfold fits. intros. unfold entire_data_of_block, cursor. rewrite length_header.
  rewrite is_big_header by (unfold pos_fits; rewrite length_app in *; lia). ok_bind.
  case_bool_decide; case_decide; (lia || done).
Qed.

Lemma cursor_data b a :
  fits (b ++ a) →
  data_of_block (cursor b a) =
    Ok (Z.of_nat (length (header (Z.of_nat (length (b ++ a))) (Z.of_nat (length b)) ++ b))).
Proof.
  intros Hf. unfold data_of_block. rewrite cursor_entire by done.
  change (pos_of_block (cursor b a)) with (pos (cursor b a)). rewrite cursor_pos by done.
  ok_bind. by rewrite (length_app (header _ _) b), Nat2Z.inj_add.
Qed.

Lemma cursor_load n b w a :
  fits (b ++ w ++ a) → n = Z.of_nat (length w) → load_data n (cursor b (w ++ a)) = Ok w.
Proof.
  intros Hf ->. unfold load_data. rewrite cursor_data by done. ok_bind.
  unfold cursor. rewrite (app_assoc (header _ _) b). by rewrite load_app.
Qed.

(** Bytes written at the cursor, before and after it moves. *)
Lemma cursor_store b w w' a :
  fits (b ++ w ++ a) → length w' = length w →
  store_data w' (cursor b (w ++ a)) = Ok (cursor b (w' ++ a)).
Proof.
  intros Hf Hlen. unfold store_data. rewrite cursor_data by done. ok_bind.
  unfold cursor. rewrite !(app_assoc (header _ _) b).
  rewrite (store_at _ _ w w') by done.
  by rewrite !length_app, Hlen.
Qed.

Lemma cursor_forward n b w a :
  fits (b ++ w ++ a) → n = Z.of_nat (length w) →
  mv_fw_block n (cursor b (w ++ a)) = Ok (cursor (b ++ w) a).
Proof.
  unfold fits. intros Hf ->. unfold cursor.
  rewrite mv_fw_header; [|unfold pos_fits; rewrite ?length_app in *; lia..].
  rewrite <- (app_assoc b w a). by rewrite (length_app b w), Nat2Z.inj_add.
Qed.

Lemma cursor_set_pos b a b' a' p :
  fits (b ++ a) → b ++ a = b' ++ a' → p = Z.of_nat (length b') →
  set_pos p (cursor b a) = Ok (cursor b' a').
Proof.
  intros Hf Heq ->. unfold set_pos. rewrite cursor_size by done. ok_bind.
  assert (length (b ++ a) = length b' + length a')%nat as Hlen by (by rewrite Heq, length_app).
  rewrite decide_False by lia. unfold fits in Hf. unfold cursor.
  rewrite set_pos_header by (rewrite ?length_app in *; lia). by rewrite Heq.
Qed.

(** ** The arithmetic of the integer reads and writes *)
Lemma shift_bytes_word n val : shift_bytes n val = word_bytes n val.
Proof.
  unfold shift_bytes. revert val. induction n as [|n IH]; intros val; [done|].
  cbn [seq word_bytes]. rewrite fmap_cons. simpl Z.of_nat. rewrite Z.mul_0_l, Z.shiftr_0_r.
  f_equal. rewrite <- IH, <- fmap_S_seq, <- list_fmap_compose. apply list_fmap_ext.
  intros _ i _. unfold compose. f_equal.
  change 256 with (2 ^ 8). rewrite <- (Z.shiftr_div_pow2 val 8), Z.shiftr_shiftr by lia.
  f_equal. lia.
Qed.

Lemma sum_int_word i val bs :
  0 ≤ i → in_s 32 val →
  sum_int i val bs = i32 (val + 256 ^ i * bytes_word bs).
Proof.
  intros Hi. revert i Hi val. induction bs as [|b bs IH]; intros i Hi val Hval.
  - simpl. rewrite Z.mul_0_r, Z.add_0_r. symmetry. apply wrap_s_id; [lia|done].
  - cbn [sum_int bytes_word]. rewrite IH by (lia || (apply wrap_s_range; lia)).
    rewrite Z.shiftl_mul_pow2 by lia. replace (2 ^ (i * 8)) with (256 ^ i).
    2:{ rewrite (Z.mul_comm i), Z.pow_mul_r by lia. done. }
    apply wrap_s_mod. rewrite <- (Z.add_mod_idemp_l (i32 _)) by done.
    change (i32 ?x mod 2 ^ 32) with (u32 (i32 x)). rewrite wrap_u_wrap_s.
    unfold wrap_u at 1. rewrite Z.add_mod_idemp_l by done.
    replace (val + i32 (Z_of_byte b * 256 ^ i) + 256 ^ (i + 1) * bytes_word bs)
      with (i32 (Z_of_byte b * 256 ^ i) + (val + 256 ^ (i + 1) * bytes_word bs)) by ring.
    rewrite <- (Z.add_mod_idemp_l (i32 _)) by done.
    change (i32 ?x mod 2 ^ 32) with (u32 (i32 x)). rewrite wrap_u_wrap_s.
    unfold wrap_u at 1. rewrite Z.add_mod_idemp_l by done. f_equal.
    rewrite Z.pow_add_r by lia. ring.
Qed.

Lemma sum_ulong_word i val bs :
  0 ≤ i → in_u 64 val →
  sum_ulong i val bs = u64 (val + 256 ^ i * bytes_word bs).
Proof.
  intros Hi. revert i Hi val. induction bs as [|b bs IH]; intros i Hi val Hval.
  - simpl. rewrite Z.mul_0_r, Z.add_0_r. symmetry. by apply wrap_u_id.
  - cbn [sum_ulong bytes_word]. rewrite IH by (lia || (apply wrap_u_range; lia)).
    rewrite Z.shiftl_mul_pow2 by lia. replace (2 ^ (i * 8)) with (256 ^ i).
    2:{ rewrite (Z.mul_comm i), Z.pow_mul_r by lia. done. }
    rewrite wrap_u_add. unfold wrap_u.
    replace (val + (Z_of_byte b * 256 ^ i) mod 2 ^ 64 + 256 ^ (i + 1) * bytes_word bs)
      with ((Z_of_byte b * 256 ^ i) mod 2 ^ 64 + (val + 256 ^ (i + 1) * bytes_word bs)) by ring.
    rewrite Z.add_mod_idemp_l by done. f_equal. rewrite Z.pow_add_r by lia. ring.
Qed.
End cursors.

(** ** The operations, as equations on cursors *)
Section operations.
Implicit Types (b w a : list byte).

Lemma alloc_spec junk n :
  0 ≤ n < 0x80000000 →
  alloc junk n = Ok (cursor [] (junk <$> seq 0 (Z.to_nat n))).
Proof.
  intros Hn. unfold alloc. rewrite decide_False by lia. unfold cursor, header. rewrite app_nil_l.
  rewrite length_fmap, length_seq, Z2Nat.id by lia. rewrite wrap_u_id by range.
  repeat case_decide; try lia.
  - by rewrite lor_bit31, <- app_assoc by lia.
  - rewrite wrap_u_id by range. by rewrite <- app_assoc.
Qed.

Lemma put_checked_spec what bs b a :
  fits (b ++ a) → (length bs ≤ length a)%nat →
  put_checked what bs (cursor b a) = Ok (cursor (b ++ bs) (drop (length bs) a)).
Proof.
  intros Hf Hlen. unfold put_checked. rewrite cursor_avail by done. ok_bind.
  rewrite decide_False by lia.
  rewrite <- (take_drop (length bs) a) in Hf |- * at 1.
  rewrite cursor_store; [|done|by rewrite length_take, Nat.min_l].
  ok_bind. rewrite cursor_forward; [done| |done].
  unfold fits in *. rewrite !length_app, length_take, length_drop in *. lia.
Qed.

Lemma put_checked_throws what bs b a :
  fits (b ++ a) → (length a < length bs)%nat →
  put_checked what bs (cursor b a) = throw (overflow_error what).
Proof.
  intros Hf Hlen. unfold put_checked. rewrite cursor_avail by done. ok_bind.
  by rewrite decide_True by lia.
Qed.

Lemma put_bytes_spec ba b a :
  fits (b ++ a) → (4 + length ba ≤ length a)%nat →
  put_bytes ba (cursor b a) =
    Ok (cursor (b ++ word_bytes 4 (Z.of_nat (length ba)) ++ ba) (drop (4 + length ba) a)).
Proof.
  intros Hf Hlen. unfold put_bytes, put_raw. rewrite shift_bytes_word.
  rewrite put_checked_spec by (rewrite ?length_word_bytes; done || lia).
  ok_bind. rewrite length_word_bytes.
  rewrite put_checked_spec; [|unfold fits in *; rewrite !length_app, length_word_bytes,
    length_drop in *; lia|rewrite length_drop; lia].
  by rewrite <- app_assoc, drop_drop.
Qed.

Lemma put_buffer_spec b' a' b a :
  fits (b' ++ a') → fits (b ++ a) → (length a' ≤ length a)%nat →
  put_buffer (cursor b' a') (cursor b a) = Ok (cursor (b ++ a') (drop (length a') a)).
Proof.
  intros Hf' Hf Hlen. unfold put_buffer. rewrite !cursor_avail by done. ok_bind.
  rewrite decide_False by lia.
  pose proof (cursor_load (Z.of_nat (length a')) b' a' []) as Hl. rewrite app_nil_r in Hl.
  rewrite Hl by done. ok_bind.
  rewrite <- (take_drop (length a') a) in Hf |- * at 1.
  rewrite cursor_store; [|done|by rewrite length_take, Nat.min_l].
  ok_bind. rewrite cursor_forward; [done| |done].
  unfold fits in *. rewrite !length_app, length_take, length_drop in *. lia.
Qed.

Lemma get_int_spec b w a :
  fits (b ++ w ++ a) → length w = 4%nat →
  get_int (cursor b (w ++ a)) = Ok (i32 (bytes_word w), cursor (b ++ w) a).
Proof.
  intros Hf Hw. unfold get_int. rewrite cursor_avail by done. ok_bind.
  rewrite decide_False by (rewrite length_app; lia).
  rewrite cursor_load, cursor_forward by (done || lia). ok_bind.
  rewrite sum_int_word by (lia || range). do 3 f_equal. lia.
Qed.

Lemma get_ulong_spec b w a :
  fits (b ++ w ++ a) → length w = 8%nat →
  get_ulong (cursor b (w ++ a)) = Ok (bytes_word w, cursor (b ++ w) a).
Proof.
  intros Hf Hw. unfold get_ulong. rewrite cursor_avail by done. ok_bind.
  rewrite decide_False by (rewrite length_app; lia).
  rewrite cursor_load, cursor_forward by (done || lia). ok_bind.
  rewrite sum_ulong_word by (lia || range). do 2 f_equal. simpl Z.pow.
  pose proof (bytes_word_range w) as Hr. rewrite Hw in Hr. rewrite wrap_u_id by range. lia.
Qed.

Lemma get_byte_spec b x a :
  fits (b ++ x :: a) → get_byte (cursor b (x :: a)) = Ok (x, cursor (b ++ [x]) a).
Proof.
  intros Hf. unfold get_byte. rewrite cursor_avail by done. ok_bind.
  rewrite decide_False by (simpl; lia). change (x :: a) with ([x] ++ a) in *.
  by rewrite cursor_load, cursor_forward by done.
Qed.

Lemma get_raw_spec n b w a :
  fits (b ++ w ++ a) → n = Z.of_nat (length w) →
  get_raw n (cursor b (w ++ a)) = Ok (w, cursor (b ++ w) a).
Proof.
  intros Hf ->. unfold get_raw. rewrite cursor_avail by done. ok_bind.
  rewrite decide_False by (rewrite length_app; lia).
  by rewrite cursor_load, cursor_forward by done.
Qed.

Lemma get_bytes_spec b n w a :
  fits (b ++ n ++ w ++ a) → n = word_bytes 4 (Z.of_nat (length w)) →
  get_bytes (cursor b (n ++ w ++ a)) = Ok (w, cursor (b ++ n ++ w) a).
Proof.
  intros Hf Hn. assert (length n = 4%nat) as Hn4 by (by rewrite Hn, length_word_bytes).
  assert (fits ((b ++ n) ++ w ++ a)) as Hf' by by rewrite <- app_assoc.
  unfold get_bytes. rewrite cursor_avail by done. ok_bind.
  rewrite decide_False by (rewrite !length_app; lia).
  rewrite cursor_load, cursor_forward by (done || lia). ok_bind.
  assert (Z.of_nat (length w) < 2 ^ 31) as Hw31.
  { unfold fits in Hf. rewrite !length_app in Hf. lia. }
  assert (u64 (sum_int 0 0 n) = Z.of_nat (length w)) as ->.
  { rewrite sum_int_word by (lia || range). simpl Z.pow. rewrite Z.mul_1_l, Z.add_0_l, Hn.
    rewrite word32_roundtrip by range. rewrite wrap_s_id by (lia || range).
    by rewrite wrap_u_id by range. }
  rewrite cursor_avail by done. ok_bind.
  rewrite decide_False by (rewrite !length_app; lia).
  rewrite cursor_load, cursor_forward by done. ok_bind. by rewrite <- app_assoc.
Qed.

(** A string without a NUL, put and read back. *)
Lemma str_length_app w a n :
  Byte.x00 ∉ w → (length w < n)%nat → str_length n (w ++ Byte.x00 :: a) = length w.
Proof.
  revert n. induction w as [|x w IH]; intros n Hw Hn; (destruct n as [|n]; [lia|]); simpl.
  - done.
  - apply not_elem_of_cons in Hw as [Hx Hw]. rewrite decide_False by done.
    f_equal. apply IH; [done|simpl in Hn; lia].
Qed.

Lemma get_str_spec b w a :
  fits (b ++ w ++ Byte.x00 :: a) → Byte.x00 ∉ w →
  get_str (cursor b (w ++ Byte.x00 :: a)) =
    Ok (if decide (w = []) then None else Some w, cursor (b ++ w ++ [Byte.x00]) a).
Proof.
  intros Hf Hw. unfold get_str. rewrite cursor_pos, cursor_size by done. ok_bind.
  rewrite decide_True by (rewrite !length_app; simpl; lia).
  pose proof (cursor_load (Z.of_nat (length (w ++ Byte.x00 :: a))) b (w ++ Byte.x00 :: a) []) as Hl.
  rewrite app_nil_r in Hl.
  replace (Z.of_nat (length (b ++ w ++ Byte.x00 :: a)) - Z.of_nat (length b))
    with (Z.of_nat (length (w ++ Byte.x00 :: a))) by (rewrite (length_app b); lia).
  rewrite Hl by done. ok_bind. rewrite Nat2Z.id.
  rewrite str_length_app by (done || (rewrite length_app; simpl; lia)).
  assert (mv_fw_block (Z.of_nat (length w) + 1) (cursor b (w ++ Byte.x00 :: a)) =
    Ok (cursor (b ++ w ++ [Byte.x00]) a)) as Hmv.
  { assert (w ++ Byte.x00 :: a = (w ++ [Byte.x00]) ++ a) as Hs by by rewrite <- app_assoc.
    rewrite Hs in Hf |- *. apply cursor_forward; [done|]. rewrite length_app. simpl. lia. }
  destruct w as [|x w].
  - rewrite decide_True by done. rewrite Hmv. ok_bind.
    rewrite decide_True by (by right). by rewrite decide_True.
  - rewrite decide_False by (simpl; lia). ok_bind.
    rewrite decide_False.
    + rewrite Hmv. ok_bind. rewrite decide_False by done.
      by rewrite Nat2Z.id, take_app_length.
    + rewrite !length_app. simpl. lia.
Qed.

Lemma copy_spec junk b a :
  fits (b ++ a) → copy junk (cursor b a) = Ok (cursor [] a).
Proof.
  intros Hf. unfold copy. rewrite cursor_avail by done. ok_bind.
  assert (fits a) as Hfa by (unfold fits in *; rewrite length_app in Hf; lia).
  rewrite alloc_spec by (unfold fits in Hfa; lia). ok_bind. rewrite Nat2Z.id.
  rewrite put_buffer_spec; [|done| |].
  - ok_bind. rewrite drop_ge by (rewrite length_fmap, length_seq; done).
    apply cursor_set_pos; [by rewrite app_nil_r|by rewrite app_nil_r|done].
  - unfold fits in *. simpl. rewrite length_fmap, length_seq. done.
  - by rewrite length_fmap, length_seq.
Qed.

Lemma clone_spec junk b a :
  fits (b ++ a) → clone junk (cursor b a) = Ok (cursor [] (b ++ a)).
Proof.
  intros Hf. unfold clone. rewrite cursor_size by done. ok_bind.
  rewrite alloc_spec by (unfold fits in Hf; lia). ok_bind. rewrite Nat2Z.id.
  set (jk := junk <$> seq 0 (length (b ++ a))).
  assert (length jk = length (b ++ a)) as Hjk by (unfold jk; by rewrite length_fmap, length_seq).
  assert (fits ([] ++ jk)) as Hfj by (unfold fits in *; simpl; by rewrite Hjk).
  rewrite !cursor_entire by done. ok_bind.
  assert (load (Z.of_nat (length (header (Z.of_nat (length (b ++ a))) (Z.of_nat (length b)))))
    (Z.of_nat (length (b ++ a))) (cursor b a) = Ok (b ++ a)) as ->.
  { unfold cursor. rewrite <- (app_nil_r (b ++ a)) at 4. by apply load_at. }
  ok_bind.
  assert (store (Z.of_nat (length (header (Z.of_nat (length ([] ++ jk))) (Z.of_nat (length (@nil byte))))))
    (b ++ a) (cursor [] jk) = Ok (cursor [] (b ++ a))) as ->.
  { unfold cursor. simpl app. rewrite <- (app_nil_r jk) at 3.
    rewrite (store_at _ _ jk (b ++ a) []) by done. by rewrite app_nil_r, Hjk. }
  ok_bind. by apply (cursor_set_pos [] (b ++ a) [] (b ++ a)).
Qed.
End operations.
