(* ===== verification/BufferThms.v ===== *)
(** * Theorems about nuraft::buffer

    A message put into a buffer is read back; the checked operations stay in
    the block; [get_str] at the end of the data does not. *)
From S2P Require Import Prelude Bytes Buffer BufferSpec.
Local Open Scope Z_scope.

(** ** Messages *)
Inductive field :=
  | FByte (b : byte)
  | FInt (z : Z)
  | FULong (z : Z)
  | FStr (s : string)
  | FBytes (l : list byte).

(** What a field must be to be read back as itself: in particular a string is
    not empty, as [get_str] returns nilptr for the empty string, and holds no
    NUL. *)
Definition field_ok (f : field) : Prop :=
  match f with
  | FInt z => in_s 32 z
  | FULong z => in_u 64 z
  | FStr s => bytes_of_string s ≠ [] ∧ Byte.x00 ∉ bytes_of_string s
  | _ => True
  end.

Definition field_bytes (f : field) : list byte :=
  match f with
  | FByte b => [b]
  | FInt z => word_bytes 4 z
  | FULong z => word_bytes 8 z
  | FStr s => bytes_of_string s ++ [Byte.x00]
  | FBytes l => word_bytes 4 (Z.of_nat (length l)) ++ l
  end.

Fixpoint message_bytes (fs : list field) : list byte :=
  match fs with [] => [] | f :: fs => field_bytes f ++ message_bytes fs end.

Definition put_field (f : field) (m : buffer) : outcome buffer :=
  match f with
  | FByte b => put_byte b m
  | FInt z => put_int32 z m
  | FULong z => put_ulong z m
  | FStr s => put_string s m
  | FBytes l => put_bytes l m
  end.

Fixpoint put_fields (fs : list field) (m : buffer) : outcome buffer :=
  match fs with [] => Ok m | f :: fs => m ← put_field f m; put_fields fs m end.

(** Reading a field of the kind of [f]. *)
Definition get_field (f : field) (m : buffer) : outcome (option field * buffer) :=
  match f with
  | FByte _ => '(b, m) ← get_byte m; Ok (Some (FByte b), m)
  | FInt _ => '(z, m) ← get_int m; Ok (Some (FInt z), m)
  | FULong _ => '(z, m) ← get_ulong m; Ok (Some (FULong z), m)
  | FStr _ => '(s, m) ← get_str m; Ok (option_map (FStr ∘ string_of_bytes) s, m)
  | FBytes _ => '(l, m) ← get_bytes m; Ok (Some (FBytes l), m)
  end.

Fixpoint get_fields (fs : list field) (m : buffer) : outcome (list (option field) * buffer) :=
  match fs with
  | [] => Ok ([], m)
  | f :: fs =>
      '(g, m) ← get_field f m;
      '(l, m) ← get_fields fs m;
      Ok (g :: l, m)
  end.

Lemma put_field_spec f b a :
  fits (b ++ a) → (length (field_bytes f) ≤ length a)%nat →
  put_field f (cursor b a) = Ok (cursor (b ++ field_bytes f) (drop (length (field_bytes f)) a)).
Proof.
  intros Hf Hlen. destruct f as [x|z|z|s|l]; simpl in Hlen |- *;
    unfold put_byte, put_int32, put_ulong, put_string; rewrite ?shift_bytes_word.
  - by apply put_checked_spec.
  - by apply put_checked_spec.
  - by apply put_checked_spec.
  - by apply put_checked_spec.
  - by apply put_bytes_spec.
Qed.

Lemma get_field_spec f b a :
  fits (b ++ field_bytes f ++ a) → field_ok f →
  get_field f (cursor b (field_bytes f ++ a)) = Ok (Some f, cursor (b ++ field_bytes f) a).
Proof.
  intros Hf Hok. destruct f as [x|z|z|s|l]; cbn [field_bytes get_field field_ok] in *.
  - simpl app. by rewrite get_byte_spec.
  - rewrite get_int_spec by (done || apply length_word_bytes). ok_bind.
    by rewrite signed32_roundtrip.
  - rewrite get_ulong_spec by (done || apply length_word_bytes). ok_bind.
    by rewrite word64_roundtrip.
  - rewrite <- app_assoc in Hf |- *. simpl app in Hf |- *. destruct Hok as [Hne Hnul].
    rewrite get_str_spec by done. ok_bind. rewrite decide_False by done.
    simpl. by rewrite string_of_bytes_of_string.
  - rewrite <- app_assoc in Hf |- *. by rewrite get_bytes_spec.
Qed.

Lemma put_fields_spec fs b a :
  fits (b ++ a) → length a = length (message_bytes fs) →
  put_fields fs (cursor b a) = Ok (cursor (b ++ message_bytes fs) []).
Proof.
  revert b a. induction fs as [|f fs IH]; intros b a Hf Ha; cbn [put_fields message_bytes] in *.
  - apply nil_length_inv in Ha as ->. by rewrite app_nil_r.
  - rewrite length_app in Ha. rewrite put_field_spec by (done || lia). ok_bind.
    rewrite IH, <- app_assoc; [done| |rewrite length_drop; lia].
    unfold fits in *. rewrite !length_app, length_drop in *. lia.
Qed.

Lemma get_fields_spec fs b a :
  fits (b ++ message_bytes fs ++ a) → Forall field_ok fs →
  get_fields fs (cursor b (message_bytes fs ++ a)) =
    Ok (Some <$> fs, cursor (b ++ message_bytes fs) a).
Proof.
  revert b. induction fs as [|f fs IH]; intros b Hf Hok; cbn [get_fields message_bytes] in *.
  - by rewrite app_nil_r.
  - apply Forall_cons in Hok as [Hf1 Hok]. rewrite <- app_assoc in Hf |- *.
    rewrite get_field_spec by done. ok_bind. rewrite IH; [|by rewrite <- app_assoc|done].
    ok_bind. by rewrite fmap_cons, <- app_assoc.
Qed.

(** C25: a message of bytes, [int32]s, [ulong]s, strings and byte arrays put
    into a buffer allocated for its size fills it exactly, and once the cursor
    is moved back to the start the same reads give the same fields, whatever
    the memory held before and on both sides of the header's size limit. *)
Theorem buffer_message_roundtrip junk fs :
  Forall field_ok fs → fits (message_bytes fs) →
  ∃ m m', (m ← alloc junk (Z.of_nat (length (message_bytes fs))); put_fields fs m) = Ok m ∧
    m = cursor (message_bytes fs) [] ∧
    (m ← set_pos 0 m; get_fields fs m) = Ok (Some <$> fs, m').
Proof.
  intros Hok Hf. rewrite alloc_spec by (unfold fits in Hf; lia). ok_bind.
  rewrite Nat2Z.id. rewrite put_fields_spec; last first.
  { by rewrite length_fmap, length_seq. }
  { unfold fits in *. simpl. by rewrite length_fmap, length_seq. }
  eexists _, (cursor (message_bytes fs) []). split; [done|]. split; [done|].
  rewrite (cursor_set_pos _ _ [] (message_bytes fs)) by (rewrite ?app_nil_r; done).
  ok_bind. pose proof (get_fields_spec fs [] []) as Hg.
  rewrite app_nil_r in Hg. by apply Hg.
Qed.

Example buffer_message_roundtrip_witness :
  let fs := [FULong 42; FInt (-7); FStr "localhost:5000"; FByte Byte.x01; FBytes [Byte.x00; Byte.xff]] in
  ∃ m m', (m ← alloc (λ _, Byte.xaa) (Z.of_nat (length (message_bytes fs))); put_fields fs m) = Ok m ∧
    m = cursor (message_bytes fs) [] ∧
    (m ← set_pos 0 m; get_fields fs m) = Ok (Some <$> fs, m').
Proof.
  intros fs. apply (buffer_message_roundtrip (λ _, Byte.xaa) fs).
  - repeat constructor; try by vm_compute. apply (bool_decide_unpack _). by vm_compute.
  - by vm_compute.
Defined.

(** ** Bounds *)
Inductive buf_op :=
  | OpPut (f : field)
  | OpPutRaw (l : list byte)
  | OpPutBuffer (consumed rest : list byte)
  | OpGetByte | OpGetInt | OpGetULong | OpGetBytes
  | OpGetRaw (n : Z)
  | OpSetPos (p : Z).

Definition run_op (op : buf_op) (m : buffer) : outcome buffer :=
  match op with
  | OpPut f => put_field f m
  | OpPutRaw l => put_raw l m
  | OpPutBuffer consumed rest => put_buffer (cursor consumed rest) m
  | OpGetByte => '(_, m) ← get_byte m; Ok m
  | OpGetInt => '(_, m) ← get_int m; Ok m
  | OpGetULong => '(_, m) ← get_ulong m; Ok m
  | OpGetBytes => '(_, m) ← get_bytes m; Ok m
  | OpGetRaw n => '(_, m) ← get_raw n m; Ok m
  | OpSetPos p => set_pos p m
  end.

Fixpoint run_ops (ops : list buf_op) (m : buffer) : outcome buffer :=
  match ops with [] => Ok m | op :: ops => m ← run_op op m; run_ops ops m end.

(** Either a well-formed buffer of the same size, or an overflow error. *)
Definition stays (n : nat) (r : outcome buffer) : Prop :=
  (∃ b a, r = Ok (cursor b a) ∧ length (b ++ a) = n) ∨ ∃ what, r = throw (overflow_error what).

(** Reading [n] bytes at the cursor: there, or an error. *)
Lemma get_raw_stays n b a :
  fits (b ++ a) → 0 ≤ n →
  stays (length (b ++ a)) ('(_, m) ← get_raw n (cursor b a); Ok m).
Proof.
  intros Hf Hn. destruct (decide (n ≤ Z.of_nat (length a))) as [Hle|Hgt].
  - left. rewrite <- (take_drop (Z.to_nat n) a) in Hf |- *.
    rewrite get_raw_spec; [|done|rewrite length_take; lia]. ok_bind.
    eexists _, _. split; [done|]. by rewrite <- app_assoc.
  - right. unfold get_raw. rewrite cursor_avail by done. ok_bind.
    rewrite decide_True by lia. by eexists.
Qed.

Lemma put_checked_stays what bs b a :
  fits (b ++ a) → stays (length (b ++ a)) (put_checked what bs (cursor b a)).
Proof.
  intros Hf. destruct (decide (length bs ≤ length a)%nat) as [Hle|Hgt].
  - left. rewrite put_checked_spec by done. eexists _, _. split; [done|].
    rewrite !length_app, length_drop. lia.
  - right. rewrite put_checked_throws by (done || lia). by eexists.
Qed.

(** Another buffer: what is after its cursor, or an error. *)
Lemma put_buffer_stays b' a' b a :
  fits (b' ++ a') → fits (b ++ a) → stays (length (b ++ a)) (put_buffer (cursor b' a') (cursor b a)).
Proof.
  intros Hf' Hf. destruct (decide (length a' ≤ length a)%nat) as [Hle|Hgt].
  - left. rewrite put_buffer_spec by done. eexists _, _. split; [done|].
    rewrite !length_app, length_drop. lia.
  - right. unfold put_buffer. rewrite !cursor_avail by done. ok_bind. rewrite decide_True by lia. by eexists.
Qed.

Lemma put_bytes_stays l b a :
  fits (b ++ a) → stays (length (b ++ a)) (put_bytes l (cursor b a)).
Proof.
  intros Hf. unfold put_bytes.
  destruct (put_checked_stays "insufficient buffer to store int32 length"
    (shift_bytes 4 (Z.of_nat (length l))) b a Hf) as [(b1 & a1 & -> & Hl)|[what ->]]; [|by right; eexists].
  ok_bind. rewrite <- Hl. apply put_checked_stays. unfold fits in *. by rewrite Hl.
Qed.

Lemma get_fixed_stays {A} (n : nat) what (val : list byte → A) b a :
  fits (b ++ a) →
  stays (length (b ++ a))
    ('(_, m) ← (av ← avail (cursor b a);
      if decide (av < Z.of_nat n) then throw (overflow_error what)
      else bs ← load_data (Z.of_nat n) (cursor b a);
           m ← mv_fw_block (Z.of_nat n) (cursor b a);
           Ok (val bs, m)); Ok m).
Proof.
  intros Hf. rewrite cursor_avail by done. ok_bind. case_decide as Hlt.
  - right. by eexists.
  - left. rewrite <- (take_drop n a) in Hf |- *.
    assert (Z.of_nat n = Z.of_nat (length (take n a))) as Hn by (rewrite length_take; lia).
    rewrite cursor_load, cursor_forward by done. ok_bind.
    eexists _, _. split; [done|]. by rewrite <- app_assoc.
Qed.

Lemma get_bytes_stays b a :
  fits (b ++ a) → stays (length (b ++ a)) ('(_, m) ← get_bytes (cursor b a); Ok m).
Proof.
  intros Hf. unfold get_bytes. rewrite cursor_avail by done. ok_bind.
  case_decide as Hlt; [right; by eexists|].
  rewrite <- (take_drop 4 a) in Hf |- *.
  assert (4 = Z.of_nat (length (take 4 a))) as H4 by (rewrite length_take; lia).
  rewrite cursor_load, cursor_forward by done. ok_bind.
  assert (length ((b ++ take 4 a) ++ drop 4 a) = length (b ++ take 4 a ++ drop 4 a)) as Hlen
    by (by rewrite <- app_assoc).
  assert (fits ((b ++ take 4 a) ++ drop 4 a)) as Hf' by (unfold fits in *; by rewrite Hlen).
  pose proof (get_raw_stays (u64 (sum_int 0 0 (take 4 a))) (b ++ take 4 a) (drop 4 a) Hf') as Hraw.
  rewrite Hlen in Hraw. unfold get_raw in Hraw.
  rewrite cursor_avail in Hraw |- * by done. ok_bind in Hraw. ok_bind.
  case_decide; [right; by eexists|]. apply Hraw. apply Z.mod_pos_bound. lia.
Qed.

(** The arguments a caller can give: 64-bit numbers, and well-formed buffers. *)
Definition op_ok (op : buf_op) : Prop :=
  match op with
  | OpGetRaw n | OpSetPos n => in_u 64 n
  | OpPutBuffer consumed rest => fits (consumed ++ rest)
  | _ => True
  end.

Lemma run_op_stays op b a :
  fits (b ++ a) → op_ok op →
  stays (length (b ++ a)) (run_op op (cursor b a)).
Proof.
  intros Hf Hop. destruct op as [f|l|b' a'| | | | |n|p]; simpl.
  - destruct f; simpl; try by apply put_checked_stays. by apply put_bytes_stays.
  - by apply put_checked_stays.
  - by apply put_buffer_stays.
  - exact (get_fixed_stays 1 _ (hd Byte.x00) b a Hf).
  - exact (get_fixed_stays 4 _ (sum_int 0 0) b a Hf).
  - exact (get_fixed_stays 8 _ (sum_ulong 0 0) b a Hf).
  - by apply get_bytes_stays.
  - apply get_raw_stays; [done|apply Hop].
  - left. unfold set_pos. rewrite cursor_size by done. ok_bind.
    set (p' := if decide (p > Z.of_nat (length (b ++ a))) then Z.of_nat (length (b ++ a)) else p).
    assert (0 ≤ p' ≤ Z.of_nat (length (b ++ a))) as Hp'.
    { unfold p'. destruct Hop. case_decide; lia. }
    exists (take (Z.to_nat p') (b ++ a)), (drop (Z.to_nat p') (b ++ a)).
    rewrite take_drop. split; [|done]. unfold cursor. rewrite take_drop, length_take.
    unfold fits in Hf. rewrite set_pos_header; [|lia|rewrite length_app in *; lia|lia].
    do 3 f_equal. lia.
Qed.

(** C26: any sequence of puts, of values, raw bytes and other buffers, of checked
    gets and of cursor moves on a well-formed buffer stays inside the block: it
    ends in a well-formed buffer of the same size or throws [overflow_error], and
    never touches memory outside.  [get_str] is not among the gets: with nothing
    left it steps past the end. *)
Theorem buffer_ops_in_bounds ops b a :
  fits (b ++ a) →
  Forall op_ok ops →
  (∃ b' a', run_ops ops (cursor b a) = Ok (cursor b' a') ∧
     length (b' ++ a') = length (b ++ a)) ∨
  ∃ what, run_ops ops (cursor b a) = throw (overflow_error what).
Proof.
  intros Hf Hops. change (stays (length (b ++ a)) (run_ops ops (cursor b a))). revert b a Hf.
  induction Hops as [|op ops Hop _ IH]; intros b a Hf; simpl.
  - left. by eexists _, _.
  - destruct (run_op_stays op b a Hf Hop) as [(b1 & a1 & -> & Hl)|[what ->]]; [|by right; eexists].
    ok_bind. rewrite <- Hl. apply IH. unfold fits in *. by rewrite Hl.
Qed.

Example buffer_ops_in_bounds_witness :
  let m := cursor [] [Byte.x05; Byte.x00; Byte.x00; Byte.x00; Byte.x61] in
  let ops := [OpPutBuffer [Byte.x01] [Byte.x02; Byte.x03]; OpSetPos 0; OpGetInt; OpGetByte; OpPutBuffer [] [Byte.x09]] in
  run_ops (take 4 ops) m = Ok (cursor [Byte.x02; Byte.x03; Byte.x00; Byte.x00; Byte.x61] []) ∧
  ((∃ b' a', run_ops ops m = Ok (cursor b' a') ∧ length (b' ++ a') = 5%nat) ∨
   ∃ what, run_ops ops m = throw (overflow_error what)).
Proof.
  intros m ops. split; [by vm_compute|].
  apply (buffer_ops_in_bounds ops [] [Byte.x05; Byte.x00; Byte.x00; Byte.x00; Byte.x61]);
    [by vm_compute|by repeat constructor].
Defined.

(** [get_str] with the cursor at the end of the data moves it one past the
    end; [size() - pos()] then wraps around, and the next [get_byte], whose
    check it passes, reads outside the block. *)
Theorem get_str_at_end_breaks_bounds b :
  fits b → Z.of_nat (length b) ≠ 0x7fff →
  ∃ m, get_str (cursor b []) = Ok (None, m) ∧ get_byte m = undefined OutOfBounds.
Proof.
  intros Hf Hne. assert (fits (b ++ [])) as Hf' by (by rewrite app_nil_r).
  unfold get_str. rewrite cursor_pos, cursor_size by done. ok_bind.
  rewrite app_nil_r, decide_False by lia. ok_bind.
  rewrite Z.sub_diag. simpl str_length. cbv zeta. change (Z.of_nat 0) with 0.
  rewrite decide_True by done. change (0 + 1) with 1.
  unfold cursor. rewrite app_nil_r. set (sz := Z.of_nat (length b)) in *.
  assert (pos_fits sz (sz + 1)) as Hp by (unfold pos_fits, fits in *; lia).
  assert (0 ≤ sz < 0x80000000) as Hsz by (unfold fits in *; lia).
  rewrite mv_fw_header by (done || lia || (unfold pos_fits in *; lia)). ok_bind.
  rewrite decide_True by lia. eexists. split; [done|].
  unfold get_byte, avail, size, pos. rewrite size_of_header, pos_of_header by done.
  ok_bind. replace (sz - (sz + 1)) with (-1) by lia.
  rewrite decide_False by done. unfold load_data, data_of_block, entire_data_of_block.
  rewrite is_big_header, pos_of_header by done. ok_bind.
  unfold load. rewrite decide_False; [done|]. rewrite length_app, length_header.
  case_bool_decide; case_decide; lia.
Qed.

Example get_str_at_end_breaks_bounds_witness :
  ∃ m, get_str (cursor [Byte.x61; Byte.x62] []) = Ok (None, m) ∧
    get_byte m = undefined OutOfBounds.
Proof. apply (get_str_at_end_breaks_bounds [Byte.x61; Byte.x62]); by vm_compute. Defined.
