(* ===== verification/BufferSerializer.v ===== *)
(** * nuraft::buffer_serializer: typed reads and writes with a position

    libs/nuraft/src/buffer_serializer.cxx.  A serializer has a position of its
    own, apart from the buffer's, and an endianness; it refers to a buffer,
    whose memory its writes change.  The [put] and [get] macros are modelled
    with their shifts.  What the serializer does in terms of the bytes before
    and after its position follows the model. *)
From S2P Require Import Prelude Bytes Buffer BufferSpec.
Local Open Scope Z_scope.

Inductive endianness := LITTLE | BIG.
#[export] Instance endianness_eq_dec : EqDecision endianness.
Proof. solve_decision. Defined.

Record serializer := Serializer {
  endian_ : endianness;
  buf_ : buffer;
  pos_ : Z
}.

Definition new_serializer (m : buffer) (e : endianness) : serializer := Serializer e m 0.

Definition with_buf (m : buffer) (s : serializer) : serializer := Serializer (endian_ s) m (pos_ s).

Definition ser_size (s : serializer) : outcome Z := size (buf_ s).

Definition ser_set_pos (new_pos : Z) (s : serializer) : outcome serializer :=
  sz ← size (buf_ s);
  if decide (new_pos > sz) then throw (overflow_error "invalid position")
  else Ok (Serializer (endian_ s) (buf_ s) new_pos).

(** [is_valid]: [pos() + len] is a [size_t]. *)
Definition is_valid (len : Z) (s : serializer) : outcome bool :=
  sz ← size (buf_ s);
  if decide (u64 (pos_ s + len) > sz) then Ok false else Ok true.

Definition chk_length (n : Z) (s : serializer) : outcome unit :=
  v ← is_valid n s;
  if (v : bool) then Ok tt else throw (overflow_error "not enough space").

(** [buf_.data_begin() + pos_], as an offset in the block. *)
Definition ser_data (s : serializer) : outcome Z :=
  start ← entire_data_of_block (buf_ s); Ok (start + pos_ s).

Definition load_here (n : Z) (s : serializer) : outcome (list byte) :=
  d ← ser_data s; load d n (buf_ s).
Definition store_here (bs : list byte) (s : serializer) : outcome serializer :=
  d ← ser_data s; m ← store d bs (buf_ s); Ok (with_buf m s).

(** ** The macros *)

(** [ptr[i] = (val >> (8 * i)) & 0xff] *)
Definition put_l (n : nat) (val : Z) : list byte :=
  (λ i, byte_of_Z (Z.land (Z.shiftr val (8 * Z.of_nat i)) 0xff)) <$> seq 0 n.
Definition put_b (n : nat) (val : Z) : list byte := reverse (put_l n val).

(** [tmp = first; tmp <<= 8; tmp |= next; ...] in a [w]-bit integer. *)
Fixpoint shift_in (w : Z) (tmp : Z) (rest : list byte) : Z :=
  match rest with
  | [] => tmp
  | b :: rest => shift_in w (Z.lor (wrap_u w (Z.shiftl tmp 8)) (Z_of_byte b)) rest
  end.
Definition get_b (w : Z) (bs : list byte) : Z :=
  match bs with [] => 0 | b :: bs => shift_in w (Z_of_byte b) bs end.
Definition get_l (w : Z) (bs : list byte) : Z := get_b w (reverse bs).

Definition put_word (n : nat) (val : Z) (s : serializer) : outcome serializer :=
  _ ← chk_length (Z.of_nat n) s;
  s ← store_here (if decide (endian_ s = LITTLE) then put_l n val else put_b n val) s;
  ser_set_pos (pos_ s + Z.of_nat n) s.

Definition get_word (n : nat) (s : serializer) : outcome (Z * serializer) :=
  _ ← chk_length (Z.of_nat n) s;
  bs ← load_here (Z.of_nat n) s;
  let w := 8 * Z.of_nat n in
  let ret := if decide (endian_ s = LITTLE) then get_l w bs else get_b w bs in
  s ← ser_set_pos (pos_ s + Z.of_nat n) s;
  Ok (ret, s).

Definition put_u8 : Z → serializer → outcome serializer := put_word 1.
Definition put_u16 : Z → serializer → outcome serializer := put_word 2.
Definition put_u32 : Z → serializer → outcome serializer := put_word 4.
Definition put_u64 : Z → serializer → outcome serializer := put_word 8.
Definition put_i8 : Z → serializer → outcome serializer := put_word 1.
Definition put_i16 : Z → serializer → outcome serializer := put_word 2.
Definition put_i32 : Z → serializer → outcome serializer := put_word 4.
Definition put_i64 : Z → serializer → outcome serializer := put_word 8.

Definition get_u8 : serializer → outcome (Z * serializer) := get_word 1.
Definition get_u16 : serializer → outcome (Z * serializer) := get_word 2.
Definition get_u32 : serializer → outcome (Z * serializer) := get_word 4.
Definition get_u64 : serializer → outcome (Z * serializer) := get_word 8.

Definition get_signed (n : nat) (s : serializer) : outcome (Z * serializer) :=
  '(v, s) ← get_word n s; Ok (wrap_s (8 * Z.of_nat n) v, s).
Definition get_i8 : serializer → outcome (Z * serializer) := get_signed 1.
Definition get_i16 : serializer → outcome (Z * serializer) := get_signed 2.
Definition get_i32 : serializer → outcome (Z * serializer) := get_signed 4.
Definition get_i64 : serializer → outcome (Z * serializer) := get_signed 8.

(** ** Byte arrays and strings *)
Definition bs_put_raw (raw : list byte) (s : serializer) : outcome serializer :=
  _ ← chk_length (Z.of_nat (length raw)) s;
  s ← store_here raw s;
  ser_set_pos (pos_ s + Z.of_nat (length raw)) s.

Definition bs_put_buffer (buf : buffer) (s : serializer) : outcome serializer :=
  len ← avail buf;
  bs ← load_data len buf;
  bs_put_raw bs s.

Definition bs_put_bytes (raw : list byte) (s : serializer) : outcome serializer :=
  let len := Z.of_nat (length raw) in
  _ ← chk_length (u64 (len + 4)) s;
  s ← put_u32 (u32 len) s;
  bs_put_raw raw s.

Definition bs_put_str (str : string) : serializer → outcome serializer :=
  bs_put_bytes (bytes_of_string str).

(** [str] is what comes before the NUL of the C string. *)
Definition put_cstr (str : list byte) (s : serializer) : outcome serializer :=
  buf_size ← size (buf_ s);
  if decide (pos_ s + Z.of_nat (length str) < buf_size) then
    s ← store_here (str ++ [Byte.x00]) s;
    ser_set_pos (pos_ s + Z.of_nat (length str) + 1) s
  else throw (overflow_error "not enough space").

(** The pointer [bs_get_raw] returns is read by its callers: the bytes. *)
Definition bs_get_raw (len : Z) (s : serializer) : outcome (list byte * serializer) :=
  s' ← ser_set_pos (u64 (pos_ s + len)) s;
  bs ← load_here len s;
  Ok (bs, s').

Definition bs_get_buffer (dst : buffer) (s : serializer) : outcome (buffer * serializer) :=
  len ← avail dst;
  '(bs, s) ← bs_get_raw len s;
  dst ← store_data bs dst;
  Ok (dst, s).

Definition bs_get_bytes (s : serializer) : outcome (list byte * serializer) :=
  '(len, s) ← get_u32 s;
  _ ← chk_length len s;
  bs_get_raw len s.

Definition bs_get_str (s : serializer) : outcome (string * serializer) :=
  '(bs, s) ← bs_get_bytes s; Ok (string_of_bytes bs, s).

(** [strlen]: reads up to the NUL, outside the block if there is none. *)
Fixpoint strlen (bs : list byte) : outcome (list byte) :=
  match bs with
  | [] => undefined OutOfBounds
  | b :: bs => if decide (b = Byte.x00) then Ok [] else l ← strlen bs; Ok (b :: l)
  end.

Definition get_cstr (s : serializer) : outcome (list byte * serializer) :=
  d ← ser_data s;
  str ← strlen (drop (Z.to_nat d) (buf_ s));
  s ← ser_set_pos (u64 (pos_ s + Z.of_nat (length str) + 1)) s;
  Ok (str, s).

(** ** In terms of the bytes before and after the position

    [at_pos e x y]: over a buffer whose data is [x ++ y], its own cursor at
    the start, the serializer between [x] and [y]. *)
Definition at_pos (e : endianness) (x y : list byte) : serializer :=
  Serializer e (cursor [] (x ++ y)) (Z.of_nat (length x)).

Lemma new_serializer_at e l : new_serializer (cursor [] l) e = at_pos e [] l.
Proof. done. Qed.

Section positions.
Context (e : endianness).
Implicit Types (x w y : list byte).

Lemma at_pos_size x y :
  fits (x ++ y) → size (buf_ (at_pos e x y)) = Ok (Z.of_nat (length (x ++ y))).
Proof. intros Hf. exact (cursor_size [] (x ++ y) Hf). Qed.

Lemma at_pos_entire x y :
  fits (x ++ y) →
  entire_data_of_block (cursor [] (x ++ y)) =
    Ok (Z.of_nat (length (header (Z.of_nat (length (x ++ y))) 0))).
Proof. intros Hf. exact (cursor_entire [] (x ++ y) Hf). Qed.

Lemma at_pos_load x w y n :
  fits (x ++ w ++ y) → n = Z.of_nat (length w) → load_here n (at_pos e x (w ++ y)) = Ok w.
Proof.
  intros Hf ->. unfold load_here, ser_data. simpl buf_. simpl pos_. rewrite at_pos_entire by done.
  ok_bind. unfold cursor. simpl app at 2. simpl length at 3.
  rewrite <- Nat2Z.inj_add, <- length_app. rewrite app_nil_l, (app_assoc (header _ _) x).
  apply load_app.
Qed.

Lemma at_pos_store x w w' y :
  fits (x ++ w ++ y) → length w' = length w →
  store_here w' (at_pos e x (w ++ y)) = Ok (at_pos e x (w' ++ y)).
Proof.
  intros Hf Hlen. unfold store_here, ser_data. simpl buf_. simpl pos_. rewrite at_pos_entire by done.
  ok_bind. rewrite <- Nat2Z.inj_add, <- length_app.
  assert (store (Z.of_nat (length (header (Z.of_nat (length (x ++ w ++ y))) 0 ++ x))) w'
    (cursor [] (x ++ w ++ y)) = Ok (cursor [] (x ++ w' ++ y))) as ->; [|done].
  unfold cursor. rewrite !app_nil_l, !(app_assoc (header _ _) x). simpl Z.of_nat at 4.
  rewrite (store_at _ _ w w') by done. by rewrite !length_app, Hlen.
Qed.

Lemma at_pos_forward x w y p :
  fits (x ++ w ++ y) → p = Z.of_nat (length x + length w) →
  ser_set_pos p (at_pos e x (w ++ y)) = Ok (at_pos e (x ++ w) y).
Proof.
  intros Hf ->. unfold ser_set_pos. rewrite at_pos_size by done. ok_bind.
  rewrite decide_False by (rewrite !length_app; lia). unfold at_pos. simpl.
  by rewrite <- app_assoc, length_app.
Qed.

Lemma at_pos_valid x y n :
  fits (x ++ y) → 0 ≤ n < 2 ^ 63 →
  is_valid n (at_pos e x y) = Ok (bool_decide (n ≤ Z.of_nat (length y))).
Proof.
  intros Hf Hn. unfold is_valid. rewrite at_pos_size by done. ok_bind.
  unfold fits in Hf. rewrite length_app in *. simpl pos_. rewrite wrap_u_id by range.
  case_decide; case_bool_decide; (done || lia).
Qed.

Lemma at_pos_chk x y n :
  fits (x ++ y) → 0 ≤ n < 2 ^ 63 →
  chk_length n (at_pos e x y) =
    if decide (n ≤ Z.of_nat (length y)) then Ok tt
    else throw (overflow_error "not enough space").
Proof.
  intros Hf Hn. unfold chk_length. rewrite at_pos_valid by done. ok_bind.
  case_decide; case_bool_decide; done.
Qed.

(** ** The macros compute little- and big-endian words *)
Lemma put_l_word n val : put_l n val = word_bytes n val.
Proof.
  rewrite <- shift_bytes_word. unfold put_l, shift_bytes. apply list_fmap_ext. intros _ i _.
  change 0xff with (Z.ones 8). rewrite Z.land_ones by lia. change (2 ^ 8) with 256.
  by rewrite byte_of_Z_mod, Z.mul_comm.
Qed.

Lemma shift_in_word n tmp rest :
  0 ≤ tmp < 256 ^ (n - Z.of_nat (length rest)) → Z.of_nat (length rest) ≤ n →
  shift_in (8 * n) tmp rest = tmp * 256 ^ Z.of_nat (length rest) + bytes_word (reverse rest).
Proof.
  revert tmp. induction rest as [|b rest IH]; intros tmp Htmp Hn; cbn [shift_in length] in *.
  - simpl. lia.
  - pose proof (Z_of_byte_range b) as Hb.
    assert (256 ^ (n - Z.of_nat (length rest)) =
      256 * 256 ^ (n - Z.of_nat (S (length rest)))) as Hpow.
    { rewrite <- Z.pow_succ_r by lia. f_equal. lia. }
    assert (wrap_u (8 * n) (Z.shiftl tmp 8) = tmp * 256) as ->.
    { rewrite Z.shiftl_mul_pow2 by lia. apply wrap_u_id. unfold in_u.
      rewrite Z.pow_mul_r by lia. change (2 ^ 8) with 256.
      assert (256 ^ (n - Z.of_nat (length rest)) ≤ 256 ^ n) by (apply Z.pow_le_mono_r; lia). lia. }
    assert (Z.lor (tmp * 256) (Z_of_byte b) = tmp * 256 + Z_of_byte b) as ->.
    { symmetry. rewrite Z.add_nocarry_lxor, Z.lxor_lor; [done|..];
        (change 256 with (2 ^ 8); rewrite <- Z.shiftl_mul_pow2 by lia;
        apply Z.bits_inj'; intros i Hi; rewrite Z.land_spec, Z.bits_0;
        destruct (decide (i < 8)); [by rewrite Z.shiftl_spec_low by lia|];
        assert (Z.testbit (Z_of_byte b) i = false) as ->; [|by rewrite andb_false_r];
        destruct (decide (Z_of_byte b = 0)) as [->|]; [by rewrite Z.bits_0|];
        apply Z.bits_above_log2; [lia|];
        apply Z.log2_lt_pow2; [lia|]; apply (Z.lt_le_trans _ (2 ^ 8)); [lia|];
        apply Z.pow_le_mono_r; lia). }
    rewrite IH by lia. rewrite reverse_cons, bytes_word_app, length_reverse, pow256_succ.
    simpl bytes_word. ring.
Qed.

Lemma get_b_word n bs : length bs = n → get_b (8 * Z.of_nat n) bs = bytes_word (reverse bs).
Proof.
  destruct bs as [|b bs]; [done|]. intros <-. unfold get_b.
  pose proof (Z_of_byte_range b) as Hb.
  rewrite shift_in_word; [| |simpl; lia].
  - rewrite reverse_cons, bytes_word_app, length_reverse. simpl bytes_word. ring.
  - replace (Z.of_nat (length (b :: bs)) - Z.of_nat (length bs)) with 1 by (simpl; lia). lia.
Qed.

Lemma get_l_word n bs : length bs = n → get_l (8 * Z.of_nat n) bs = bytes_word bs.
Proof.
  intros Hn. unfold get_l. rewrite get_b_word by (by rewrite length_reverse).
  by rewrite reverse_involutive.
Qed.

(** ** The operations *)
Definition ordered (w : list byte) : list byte := if decide (e = LITTLE) then w else reverse w.

Lemma length_ordered w : length (ordered w) = length w.
Proof. unfold ordered. case_decide; [done|apply length_reverse]. Qed.

Lemma put_word_spec n val x y :
  fits (x ++ y) → (n ≤ length y)%nat →
  put_word n val (at_pos e x y) = Ok (at_pos e (x ++ ordered (word_bytes n val)) (drop n y)).
Proof.
  intros Hf Hn. unfold put_word. rewrite at_pos_chk; [|done|unfold fits in Hf;
    rewrite length_app in Hf; lia]. rewrite (decide_True (P := Z.of_nat n ≤ _)) by lia. ok_bind.
  simpl endian_. unfold put_b. rewrite put_l_word. fold (ordered (word_bytes n val)).
  pose proof (length_ordered (word_bytes n val)) as Hlen. rewrite length_word_bytes in Hlen.
  rewrite <- (take_drop n y) in Hf |- * at 1.
  rewrite at_pos_store; [|done|rewrite length_take; lia]. ok_bind.
  simpl pos_. rewrite at_pos_forward; [done| |lia].
  unfold fits in *. rewrite !length_app, length_take, length_drop in *. lia.
Qed.

Lemma get_word_spec n x w y :
  fits (x ++ w ++ y) → length w = n →
  get_word n (at_pos e x (w ++ y)) = Ok (bytes_word (ordered w), at_pos e (x ++ w) y).
Proof.
  intros Hf Hn. unfold get_word. rewrite at_pos_chk; [|done|unfold fits in Hf;
    rewrite !length_app in Hf; lia].
  rewrite (decide_True (P := Z.of_nat n ≤ _)) by (rewrite length_app; lia). ok_bind.
  rewrite at_pos_load by (done || lia). ok_bind. simpl endian_. simpl pos_.
  rewrite at_pos_forward by (done || lia). ok_bind.
  rewrite get_l_word, get_b_word by done. unfold ordered. by case_decide.
Qed.

Lemma bs_put_raw_spec raw x y :
  fits (x ++ y) → (length raw ≤ length y)%nat →
  bs_put_raw raw (at_pos e x y) = Ok (at_pos e (x ++ raw) (drop (length raw) y)).
Proof.
  intros Hf Hn. unfold bs_put_raw. rewrite at_pos_chk; [|done|unfold fits in Hf;
    rewrite length_app in Hf; lia]. rewrite decide_True by lia. ok_bind.
  rewrite <- (take_drop (length raw) y) in Hf |- * at 1.
  rewrite at_pos_store; [|done|rewrite length_take; lia]. ok_bind.
  simpl pos_. rewrite at_pos_forward; [done| |lia].
  unfold fits in *. rewrite !length_app, length_take, length_drop in *. lia.
Qed.

Lemma bs_get_raw_spec n x w y :
  fits (x ++ w ++ y) → n = Z.of_nat (length w) →
  bs_get_raw n (at_pos e x (w ++ y)) = Ok (w, at_pos e (x ++ w) y).
Proof.
  intros Hf ->. unfold bs_get_raw. simpl pos_.
  rewrite wrap_u_id by (unfold fits in Hf; rewrite !length_app in Hf; range).
  rewrite at_pos_forward by (done || lia). ok_bind. by rewrite at_pos_load.
Qed.

Lemma bs_put_bytes_spec raw x y :
  fits (x ++ y) → (4 + length raw ≤ length y)%nat →
  bs_put_bytes raw (at_pos e x y) =
    Ok (at_pos e (x ++ ordered (word_bytes 4 (Z.of_nat (length raw))) ++ raw)
          (drop (4 + length raw) y)).
Proof.
  intros Hf Hn. unfold bs_put_bytes.
  assert (Z.of_nat (length raw) < 2 ^ 31) by (unfold fits in Hf; rewrite length_app in Hf; lia).
  rewrite !wrap_u_id by range. rewrite at_pos_chk by (done || lia).
  rewrite decide_True by lia. ok_bind. unfold put_u32.
  rewrite put_word_spec by (done || lia). ok_bind.
  rewrite bs_put_raw_spec; [by rewrite <- app_assoc, drop_drop| |rewrite length_drop; lia].
  unfold fits in *. rewrite !length_app, length_ordered, length_word_bytes, length_drop in *. lia.
Qed.

Lemma bs_get_bytes_spec x n w y :
  fits (x ++ n ++ w ++ y) → n = ordered (word_bytes 4 (Z.of_nat (length w))) →
  bs_get_bytes (at_pos e x (n ++ w ++ y)) = Ok (w, at_pos e (x ++ n ++ w) y).
Proof.
  intros Hf Hn. assert (length n = 4%nat) as Hn4 by (by rewrite Hn, length_ordered).
  assert (fits ((x ++ n) ++ w ++ y)) as Hf' by by rewrite <- app_assoc.
  unfold bs_get_bytes, get_u32. rewrite get_word_spec by done. ok_bind.
  assert (Z.of_nat (length w) < 2 ^ 31) as Hw31.
  { unfold fits in Hf. rewrite !length_app in Hf. lia. }
  assert (ordered n = word_bytes 4 (Z.of_nat (length w))) as ->.
  { rewrite Hn. unfold ordered. case_decide; [done|apply reverse_involutive]. }
  rewrite word32_roundtrip by range. rewrite at_pos_chk by (done || lia).
  rewrite decide_True by (rewrite length_app; lia). ok_bind.
  rewrite bs_get_raw_spec by done. by rewrite <- app_assoc.
Qed.

Lemma strlen_app w y : Byte.x00 ∉ w → strlen (w ++ Byte.x00 :: y) = Ok w.
Proof.
  induction w as [|b w IH]; [done|]. intros [Hb Hw]%not_elem_of_cons. simpl.
  rewrite decide_False by done. by rewrite IH.
Qed.

Lemma get_cstr_spec x w y :
  fits (x ++ w ++ Byte.x00 :: y) → Byte.x00 ∉ w →
  get_cstr (at_pos e x (w ++ Byte.x00 :: y)) = Ok (w, at_pos e (x ++ w ++ [Byte.x00]) y).
Proof.
  intros Hf Hw. unfold get_cstr, ser_data. simpl buf_. simpl pos_. rewrite at_pos_entire by done.
  ok_bind.
  assert (drop (Z.to_nat (Z.of_nat (length (header (Z.of_nat (length (x ++ w ++ Byte.x00 :: y))) 0))
    + Z.of_nat (length x))) (cursor [] (x ++ w ++ Byte.x00 :: y)) = w ++ Byte.x00 :: y) as ->.
  { rewrite <- Nat2Z.inj_add, Nat2Z.id, <- length_app. unfold cursor.
    rewrite !app_nil_l, (app_assoc (header _ _) x). simpl length at 3. apply drop_app_length. }
  rewrite strlen_app by done. ok_bind.
  assert (w ++ Byte.x00 :: y = (w ++ [Byte.x00]) ++ y) as Hs by by rewrite <- app_assoc.
  rewrite Hs in Hf |- *. unfold fits in Hf. rewrite !length_app in Hf. simpl in Hf.
  rewrite wrap_u_id by range. rewrite at_pos_forward; [done| |rewrite length_app; simpl; lia].
  unfold fits. rewrite !length_app. simpl. lia.
Qed.
End positions.
