(* ===== verification/BufferSerializerThms.v ===== *)
(** * Theorems about nuraft::buffer_serializer

    A message written through a serializer is read back, in either endianness;
    a word read with the other endianness is the byte-swapped one; the checked
    operations throw exactly when there is no room. *)
From S2P Require Import Prelude Bytes Buffer BufferSpec BufferSerializer.
Local Open Scope Z_scope.

(** ** Typed fields *)
Inductive int_kind := U8 | U16 | U32 | U64 | I8 | I16 | I32 | I64.

Definition kind_bytes (k : int_kind) : nat :=
  match k with U8 | I8 => 1 | U16 | I16 => 2 | U32 | I32 => 4 | U64 | I64 => 8 end.

Definition kind_signed (k : int_kind) : bool :=
  match k with I8 | I16 | I32 | I64 => true | _ => false end.

Definition in_kind (k : int_kind) (z : Z) : Prop :=
  let w := 8 * Z.of_nat (kind_bytes k) in if kind_signed k then in_s w z else in_u w z.

Definition put_int (k : int_kind) : Z → serializer → outcome serializer :=
  match k with
  | U8 => put_u8 | U16 => put_u16 | U32 => put_u32 | U64 => put_u64
  | I8 => put_i8 | I16 => put_i16 | I32 => put_i32 | I64 => put_i64
  end.
Definition get_int (k : int_kind) : serializer → outcome (Z * serializer) :=
  match k with
  | U8 => get_u8 | U16 => get_u16 | U32 => get_u32 | U64 => get_u64
  | I8 => get_i8 | I16 => get_i16 | I32 => get_i32 | I64 => get_i64
  end.

Inductive sfield :=
  | SInt (k : int_kind) (z : Z)
  | SRaw (l : list byte)
  | SBytes (l : list byte)
  | SStr (s : string)
  | SCstr (w : list byte).

(** A C string holds no NUL; an integer is in the range of its type. *)
Definition sfield_ok (f : sfield) : Prop :=
  match f with SInt k z => in_kind k z | SCstr w => Byte.x00 ∉ w | _ => True end.

Definition put_sfield (f : sfield) (s : serializer) : outcome serializer :=
  match f with
  | SInt k z => put_int k z s
  | SRaw l => bs_put_raw l s
  | SBytes l => bs_put_bytes l s
  | SStr t => bs_put_str t s
  | SCstr w => put_cstr w s
  end.

(** Reading a field of the kind of [f]. *)
Definition get_sfield (f : sfield) (s : serializer) : outcome (sfield * serializer) :=
  match f with
  | SInt k _ => '(z, s) ← get_int k s; Ok (SInt k z, s)
  | SRaw l => '(l, s) ← bs_get_raw (Z.of_nat (length l)) s; Ok (SRaw l, s)
  | SBytes _ => '(l, s) ← bs_get_bytes s; Ok (SBytes l, s)
  | SStr _ => '(t, s) ← bs_get_str s; Ok (SStr t, s)
  | SCstr _ => '(w, s) ← get_cstr s; Ok (SCstr w, s)
  end.

Fixpoint put_sfields (fs : list sfield) (s : serializer) : outcome serializer :=
  match fs with [] => Ok s | f :: fs => s ← put_sfield f s; put_sfields fs s end.

Fixpoint get_sfields (fs : list sfield) (s : serializer) : outcome (list sfield * serializer) :=
  match fs with
  | [] => Ok ([], s)
  | f :: fs => '(g, s) ← get_sfield f s; '(gs, s) ← get_sfields fs s; Ok (g :: gs, s)
  end.

Section endian.
Context (e : endianness).

Definition sfield_bytes (f : sfield) : list byte :=
  match f with
  | SInt k z => ordered e (word_bytes (kind_bytes k) z)
  | SRaw l => l
  | SBytes l => ordered e (word_bytes 4 (Z.of_nat (length l))) ++ l
  | SStr t => ordered e (word_bytes 4 (string_size t)) ++ bytes_of_string t
  | SCstr w => w ++ [Byte.x00]
  end.

Fixpoint sfields_bytes (fs : list sfield) : list byte :=
  match fs with [] => [] | f :: fs => sfield_bytes f ++ sfields_bytes fs end.

Lemma ordered_involutive w : ordered e (ordered e w) = w.
Proof. unfold ordered. case_decide; [done|apply reverse_involutive]. Qed.

Lemma put_kind_spec k z x y :
  fits (x ++ y) → (kind_bytes k ≤ length y)%nat →
  put_int k z (at_pos e x y) =
    Ok (at_pos e (x ++ ordered e (word_bytes (kind_bytes k) z)) (drop (kind_bytes k) y)).
Proof. intros. by destruct k; apply put_word_spec. Qed.

Lemma get_kind_spec k z x y :
  in_kind k z → fits (x ++ ordered e (word_bytes (kind_bytes k) z) ++ y) →
  get_int k (at_pos e x (ordered e (word_bytes (kind_bytes k) z) ++ y)) =
    Ok (z, at_pos e (x ++ ordered e (word_bytes (kind_bytes k) z)) y).
Proof.
  intros Hz Hf.
  assert (length (ordered e (word_bytes (kind_bytes k) z)) = kind_bytes k) as Hl
    by by rewrite length_ordered, length_word_bytes.
  pose proof (get_word_spec e (kind_bytes k) x _ y Hf Hl) as Hw.
  rewrite ordered_involutive, bytes_word_of_word in Hw.
  assert (256 ^ Z.of_nat (kind_bytes k) = 2 ^ (8 * Z.of_nat (kind_bytes k))) as Hpow
    by (rewrite Z.pow_mul_r by lia; done).
  rewrite Hpow in Hw. fold (wrap_u (8 * Z.of_nat (kind_bytes k)) z) in Hw.
  unfold in_kind in Hz. destruct (kind_signed k) eqn:Hk.
  - assert (get_int k = get_signed (kind_bytes k)) as -> by by destruct k.
    unfold get_signed. rewrite Hw. ok_bind. rewrite wrap_s_wrap_u, wrap_s_id; [done| |done].
    destruct k; simpl; lia.
  - assert (get_int k = get_word (kind_bytes k)) as -> by by destruct k.
    rewrite Hw, wrap_u_id; done.
Qed.

Lemma put_cstr_spec w x y :
  fits (x ++ y) → (length w < length y)%nat →
  put_cstr w (at_pos e x y) = Ok (at_pos e (x ++ w ++ [Byte.x00]) (drop (S (length w)) y)).
Proof.
  intros Hf Hlen. unfold put_cstr. rewrite at_pos_size by done. ok_bind.
  change (pos_ (at_pos e x y)) with (Z.of_nat (length x)).
  rewrite decide_True by (rewrite length_app; lia).
  assert (length (w ++ [Byte.x00]) = S (length w)) as Hw by (rewrite length_app; simpl; lia).
  rewrite <- (take_drop (S (length w)) y) in Hf |- * at 1.
  rewrite (at_pos_store e x (take (S (length w)) y) (w ++ [Byte.x00]));
    [|done|rewrite length_take; lia].
  ok_bind. rewrite at_pos_forward; [done| |simpl pos_; rewrite Hw; lia].
  rewrite take_drop in Hf. unfold fits in *.
  rewrite (length_app x), (length_app (w ++ _)), Hw, length_drop. rewrite length_app in Hf. lia.
Qed.

Lemma put_sfield_spec f x y :
  fits (x ++ y) → (length (sfield_bytes f) ≤ length y)%nat →
  put_sfield f (at_pos e x y) =
    Ok (at_pos e (x ++ sfield_bytes f) (drop (length (sfield_bytes f)) y)).
Proof.
  intros Hf. destruct f as [k z|l|l|t|w]; cbn [sfield_bytes put_sfield];
    rewrite ?length_app, ?length_ordered, ?length_word_bytes; intros Hl.
  - by apply put_kind_spec.
  - by apply bs_put_raw_spec.
  - by apply bs_put_bytes_spec.
  - rewrite string_size_bytes. by apply bs_put_bytes_spec.
  - rewrite put_cstr_spec; [|done|simpl in Hl; lia]. do 3 f_equal. simpl. lia.
Qed.

Lemma get_sfield_spec f x y :
  sfield_ok f → fits (x ++ sfield_bytes f ++ y) →
  get_sfield f (at_pos e x (sfield_bytes f ++ y)) = Ok (f, at_pos e (x ++ sfield_bytes f) y).
Proof.
  destruct f as [k z|l|l|t|w]; cbn [sfield_bytes sfield_ok get_sfield]; intros Hok Hf.
  - by rewrite get_kind_spec.
  - by rewrite bs_get_raw_spec.
  - rewrite <- app_assoc in *. by rewrite bs_get_bytes_spec.
  - unfold bs_get_str. rewrite <- app_assoc in *.
    rewrite bs_get_bytes_spec by (done || by rewrite string_size_bytes). ok_bind.
    by rewrite string_of_bytes_of_string.
  - rewrite <- app_assoc in *. change ([Byte.x00] ++ y) with (Byte.x00 :: y) in *.
    by rewrite get_cstr_spec.
Qed.

Lemma put_sfields_spec fs x y :
  fits (x ++ y) → (length (sfields_bytes fs) ≤ length y)%nat →
  put_sfields fs (at_pos e x y) =
    Ok (at_pos e (x ++ sfields_bytes fs) (drop (length (sfields_bytes fs)) y)).
Proof.
  revert x y. induction fs as [|f fs IH]; intros x y Hf Hl; cbn [sfields_bytes put_sfields].
  - by rewrite app_nil_r.
  - cbn [sfields_bytes] in Hl. rewrite length_app in Hl.
    rewrite put_sfield_spec by (done || lia). ok_bind. rewrite IH.
    + by rewrite length_app, <- app_assoc, drop_drop.
    + unfold fits in *. rewrite !length_app, length_drop in *. lia.
    + rewrite length_drop. lia.
Qed.

Lemma get_sfields_spec fs x y :
  Forall sfield_ok fs → fits (x ++ sfields_bytes fs ++ y) →
  get_sfields fs (at_pos e x (sfields_bytes fs ++ y)) = Ok (fs, at_pos e (x ++ sfields_bytes fs) y).
Proof.
  intros Hok. revert x. induction Hok as [|f fs Hf Hok IH]; intros x Hfit;
    cbn [sfields_bytes get_sfields] in *; [by rewrite app_nil_r|].
  rewrite <- app_assoc in *. rewrite get_sfield_spec by done. ok_bind.
  rewrite IH by (by rewrite <- app_assoc). ok_bind. by rewrite <- app_assoc.
Qed.
End endian.

(** C27: fields of any kinds and number written one after the other from the
    start of a buffer with room, in little or big endian, are read back with
    the same values and leave the serializer behind the last; the bytes after
    them are untouched. *)
Theorem serializer_roundtrip (e : endianness) (fs : list sfield) (junk : list byte) :
  Forall sfield_ok fs → fits junk → (length (sfields_bytes e fs) ≤ length junk)%nat →
  ∃ s, put_sfields fs (new_serializer (cursor [] junk) e) = Ok s ∧
    buf_ s = cursor [] (sfields_bytes e fs ++ drop (length (sfields_bytes e fs)) junk) ∧
    ∃ s', get_sfields fs (new_serializer (buf_ s) e) = Ok (fs, s') ∧ pos_ s' = pos_ s ∧
      buf_ s' = buf_ s.
Proof.
  intros Hok Hf Hl. rewrite new_serializer_at, put_sfields_spec by done.
  eexists. split; [done|]. split; [done|]. simpl buf_. rewrite app_nil_l, new_serializer_at.
  rewrite get_sfields_spec; [by eexists|done|]. unfold fits in *.
  rewrite app_nil_l, length_app, length_drop. lia.
Qed.

Example serializer_roundtrip_witness :
  let fs := [SInt I16 (-2); SStr "ab"; SInt U64 0xfedcba9876543210; SCstr [Byte.x41]; SRaw [Byte.x00]] in
  let junk := replicate 32 Byte.xee in
  ∃ s, put_sfields fs (new_serializer (cursor [] junk) BIG) = Ok s ∧
    buf_ s = cursor [] (sfields_bytes BIG fs ++ drop (length (sfields_bytes BIG fs)) junk) ∧
    ∃ s', get_sfields fs (new_serializer (buf_ s) BIG) = Ok (fs, s') ∧ pos_ s' = pos_ s ∧
      buf_ s' = buf_ s.
Proof.
  intros fs junk. apply (serializer_roundtrip BIG fs junk); [|by vm_compute..|vm_compute; lia].
  repeat constructor; try (by vm_compute). apply (bool_decide_unpack _). by vm_compute.
Defined.
