(* ===== verification/Crc32Thms.v ===== *)
(** * Theorems about CRC-32

    The tables hold the bitwise CRC of their index; both checksums are the
    bitwise CRC-32 of their input, and so equal; a changed byte is detected. *)
From S2P Require Import Prelude Bytes Crc32.
Local Open Scope Z_scope.

(** ** The bitwise CRC *)
Definition polynomial : Z := 0xEDB88320.

(** [crc = (crc >> 1) ^ ((crc & 1) * Polynomial)], once and [n] times. *)
Definition crc_bit (c : Z) : Z := Z.lxor (Z.shiftr c 1) (Z.land c 1 * polynomial).
Definition crc_bits (n : nat) (c : Z) : Z := Nat.iter n crc_bit c.

Definition crc_byte (c : Z) (b : byte) : Z := crc_bits 8 (Z.lxor c (Z_of_byte b)).

(** The reference: one byte after the other, bit by bit. *)
Definition crc32_bitwise (data : list byte) (prev_value : Z) : Z :=
  not32 (foldl crc_byte (not32 prev_value) data).

Lemma land_1_cases c : Z.land c 1 = Z.b2z (Z.testbit c 0).
Proof.
  change 1 with (Z.ones 1). rewrite Z.land_ones by lia. rewrite Z.bit0_mod. done.
Qed.

Lemma crc_bit_lxor x y : crc_bit (Z.lxor x y) = Z.lxor (crc_bit x) (crc_bit y).
Proof.
  unfold crc_bit. rewrite !land_1_cases, Z.shiftr_lxor, Z.lxor_spec.
  destruct (Z.testbit x 0), (Z.testbit y 0); simpl Z.b2z; simpl xorb; rewrite ?Z.mul_1_l, ?Z.mul_0_l;
    rewrite ?Z.lxor_0_r; apply Z.bits_inj'; intros n _; rewrite ?Z.lxor_spec;
    destruct (Z.testbit (Z.shiftr x 1) n), (Z.testbit (Z.shiftr y 1) n), (Z.testbit polynomial n); done.
Qed.

Lemma crc_bits_lxor n x y : crc_bits n (Z.lxor x y) = Z.lxor (crc_bits n x) (crc_bits n y).
Proof.
  induction n as [|n IH]; [done|]. unfold crc_bits in *. simpl. by rewrite IH, crc_bit_lxor.
Qed.

Lemma crc_bits_add n m c : crc_bits (n + m) c = crc_bits n (crc_bits m c).
Proof. unfold crc_bits. apply Nat.iter_add. Qed.

Lemma crc_bit_shiftl c : crc_bit (Z.shiftl c 1) = c.
Proof.
  unfold crc_bit. rewrite land_1_cases, Z.shiftl_spec_low, Z.mul_0_l, Z.lxor_0_r by lia.
  by rewrite Z.shiftr_shiftl_l, Z.shiftl_0_r by lia.
Qed.

Lemma crc_bits_shiftl n c : crc_bits n (Z.shiftl c (Z.of_nat n)) = c.
Proof.
  induction n as [|n IH]; [apply Z.shiftl_0_r|].
  replace (S n) with (n + 1)%nat by lia. rewrite crc_bits_add.
  replace (Z.of_nat (n + 1)) with (Z.of_nat n + 1) by lia.
  rewrite <- Z.shiftl_shiftl by lia. unfold crc_bits at 2. simpl Nat.iter.
  by rewrite crc_bit_shiftl.
Qed.

Lemma crc_bit_range c : in_u 32 c → in_u 32 (crc_bit c).
Proof.
  unfold in_u. intros Hc. unfold crc_bit.
  assert (0 ≤ Z.shiftr c 1 < 2 ^ 31) as Hs.
  { rewrite Z.shiftr_div_pow2 by lia. split; [apply Z.div_pos; lia|apply Z.div_lt_upper_bound; lia]. }
  rewrite land_1_cases. destruct (Z.testbit c 0); simpl Z.b2z;
    rewrite ?Z.mul_1_l, ?Z.mul_0_l, ?Z.lxor_0_r; [|lia].
  split; [apply Z.lxor_nonneg; unfold polynomial; lia|].
  destruct (decide (Z.lxor (Z.shiftr c 1) polynomial = 0)) as [->|Hne]; [lia|].
  assert (0 ≤ Z.lxor (Z.shiftr c 1) polynomial) by (apply Z.lxor_nonneg; unfold polynomial; lia).
  apply Z.log2_lt_pow2; [lia|]. eapply Z.le_lt_trans; [apply Z.log2_lxor; unfold polynomial; lia|].
  apply Z.max_lub_lt; [|by vm_compute].
  destruct (decide (Z.shiftr c 1 = 0)) as [->|]; [by vm_compute|].
  apply Z.log2_lt_pow2; lia.
Qed.

Lemma crc_bits_range n c : in_u 32 c → in_u 32 (crc_bits n c).
Proof.
  intros Hc. induction n as [|n IH]; [done|]. unfold crc_bits in *. simpl. by apply crc_bit_range.
Qed.

(** A bit step loses nothing: bit 31 of the polynomial is set. *)
Lemma crc_bit_zero c : in_u 32 c → crc_bit c = 0 → c = 0.
Proof.
  unfold in_u, crc_bit. intros Hc H. rewrite land_1_cases in H.
  apply Z.lxor_eq in H. rewrite Z.shiftr_div_pow2 in H by lia. change (2 ^ 1) with 2 in H.
  pose proof (Z.div_mod c 2 ltac:(lia)) as Hdm. rewrite <- Z.bit0_mod in Hdm.
  destruct (Z.testbit c 0); simpl Z.b2z in *; unfold polynomial in H; lia.
Qed.

Lemma crc_bits_inj n c d : in_u 32 c → in_u 32 d → crc_bits n c = crc_bits n d → c = d.
Proof.
  intros Hc Hd Heq. apply Z.lxor_eq.
  assert (in_u 32 (Z.lxor c d)) as Hx.
  { unfold in_u in *. split; [apply Z.lxor_nonneg; lia|].
    destruct (decide (Z.lxor c d = 0)) as [->|]; [lia|].
    assert (0 ≤ Z.lxor c d) by (apply Z.lxor_nonneg; lia).
    apply Z.log2_lt_pow2; [lia|]. eapply Z.le_lt_trans; [apply Z.log2_lxor; lia|].
    apply Z.max_lub_lt; (destruct (decide (c = 0)) as [->|], (decide (d = 0)) as [->|];
      first [by vm_compute | apply Z.log2_lt_pow2; lia]). }
  assert (crc_bits n (Z.lxor c d) = 0) as H0 by (by rewrite crc_bits_lxor, Heq, Z.lxor_nilpotent).
  revert Hx H0. generalize (Z.lxor c d). clear. induction n as [|n IH]; intros x Hx H0; [done|].
  apply IH; [done|]. apply crc_bit_zero; [by apply crc_bits_range|]. exact H0.
Qed.

(** ** The tables *)
Lemma crc_tables_check :
  forallb (λ j, forallb (λ i, lookup_crc j (Z.of_nat i) =? crc_bits (8 * S j) (Z.of_nat i))
    (seq 0 256)) (seq 0 8) = true.
Proof. vm_compute. reflexivity. Qed.

Lemma lookup_crc_bits j i : (j < 8)%nat → 0 ≤ i < 256 → lookup_crc j i = crc_bits (8 * S j) i.
Proof.
  intros Hj Hi. pose proof crc_tables_check as H. rewrite forallb_forall in H.
  specialize (H j). rewrite in_seq in H. specialize (H ltac:(lia)).
  rewrite forallb_forall in H. specialize (H (Z.to_nat i)). rewrite in_seq in H.
  specialize (H ltac:(lia)). rewrite Z2Nat.id in H by lia. by apply Z.eqb_eq.
Qed.

(** ** Bytes of a word *)
Lemma land_ff c : Z.land c 0xFF = c mod 256.
Proof. change 0xFF with (Z.ones 8). by rewrite Z.land_ones by lia. Qed.

(** [c] is its low byte and the rest, eight bits up. *)
Lemma split_low c : c = Z.lxor (Z.land c 0xFF) (Z.shiftl (Z.shiftr c 8) 8).
Proof.
  apply Z.bits_inj'. intros n Hn. rewrite Z.lxor_spec, Z.land_spec.
  change 0xFF with (Z.ones 8). rewrite Z.testbit_ones_nonneg by lia.
  destruct (Z.ltb_spec n 8).
  - rewrite Z.shiftl_spec_low by lia. by rewrite andb_true_r, xorb_false_r.
  - rewrite Z.shiftl_spec_high, Z.shiftr_spec by lia. rewrite andb_false_r, xorb_false_l. f_equal. lia.
Qed.

(** Eight bit steps are one table lookup. *)
Lemma crc_bits8 c : crc_bits 8 c = Z.lxor (Z.shiftr c 8) (lookup_crc 0 (Z.land c 0xFF)).
Proof.
  rewrite (split_low c) at 1. rewrite crc_bits_lxor, (crc_bits_shiftl 8), Z.lxor_comm.
  f_equal. symmetry. apply (lookup_crc_bits 0); [lia|]. rewrite land_ff. by apply Z.mod_pos_bound.
Qed.

Lemma shiftr_byte b : Z.shiftr (Z_of_byte b) 8 = 0.
Proof.
  pose proof (Z_of_byte_range b). rewrite Z.shiftr_div_pow2 by lia. by apply Z.div_small.
Qed.

Lemma crc_step_bitwise c b : crc_step c b = crc_byte c b.
Proof.
  unfold crc_step, crc_byte. rewrite crc_bits8, Z.shiftr_lxor, shiftr_byte, Z.lxor_0_r.
  do 2 f_equal. pose proof (Z_of_byte_range b) as Hb.
  apply Z.bits_inj'. intros n Hn. rewrite Z.lxor_spec, !Z.land_spec, Z.lxor_spec.
  change 0xFF with (Z.ones 8). rewrite Z.testbit_ones_nonneg by lia.
  destruct (Z.ltb_spec n 8); [by rewrite !andb_true_r|].
  rewrite !andb_false_r, xorb_false_l.
  replace (Z_of_byte b) with (Z.land (Z_of_byte b) 0xFF)
    by (rewrite land_ff; by apply Z.mod_small).
  change 0xFF with (Z.ones 8). rewrite Z.land_spec, Z.testbit_ones_nonneg by lia.
  rewrite (proj2 (Z.ltb_ge n 8)) by lia. apply andb_false_r.
Qed.

(** Feeding bytes is feeding their little-endian word. *)
Lemma byte_lxor_shift b w : Z_of_byte b + 256 * w = Z.lxor (Z_of_byte b) (Z.shiftl w 8).
Proof.
  pose proof (Z_of_byte_range b) as Hb. rewrite (split_low (Z_of_byte b + 256 * w)).
  rewrite land_ff, Z.shiftr_div_pow2 by lia. change (2 ^ 8) with 256.
  rewrite (Z.mul_comm 256 w), Z.mod_add, Z.div_add, Z.mod_small, Z.div_small by lia. done.
Qed.

Lemma foldl_crc_byte c bs :
  foldl crc_byte c bs = crc_bits (8 * length bs) (Z.lxor c (bytes_word bs)).
Proof.
  revert c. induction bs as [|b bs IH]; intros c; [symmetry; apply Z.lxor_0_r|].
  cbn [foldl length bytes_word]. rewrite IH.
  replace (8 * S (length bs))%nat with (8 * length bs + 8)%nat by lia.
  rewrite crc_bits_add, byte_lxor_shift, <- Z.lxor_assoc, (crc_bits_lxor 8 (Z.lxor c _)).
  rewrite (crc_bits_shiftl 8). done.
Qed.

Lemma crc_bits_byte_up n m b :
  crc_bits (n + m) (Z.shiftl b (Z.of_nat m)) = crc_bits n b.
Proof. by rewrite crc_bits_add, crc_bits_shiftl. Qed.

(** A 32-bit word by its bytes. *)
Lemma word_by_bytes w :
  in_u 32 w →
  w = Z.lxor (Z.lxor (Z.lxor (Z.land w 0xFF) (Z.shiftl (Z.land (Z.shiftr w 8) 0xFF) 8))
        (Z.shiftl (Z.land (Z.shiftr w 16) 0xFF) 16)) (Z.shiftl (Z.land (Z.shiftr w 24) 0xFF) 24).
Proof.
  intros Hw. rewrite (split_low w) at 1. rewrite (split_low (Z.shiftr w 8)) at 1.
  rewrite Z.shiftr_shiftr by lia. rewrite (split_low (Z.shiftr w (8 + 8))) at 1.
  rewrite Z.shiftr_shiftr by lia.
  assert (Z.land (Z.shiftr w 24) 0xFF = Z.shiftr w 24) as ->.
  { rewrite land_ff, Z.shiftr_div_pow2 by lia. apply Z.mod_small. unfold in_u in Hw.
    split; [apply Z.div_pos; lia|apply Z.div_lt_upper_bound; lia]. }
  rewrite !Z.shiftl_lxor, !Z.shiftl_shiftl by lia. by rewrite !Z.lxor_assoc.
Qed.

Lemma land_ff_range c : 0 ≤ Z.land c 0xFF < 256.
Proof. rewrite land_ff. by apply Z.mod_pos_bound. Qed.

(** Four lookups are [8 * (j + 4)] bit steps of a word. *)
Lemma four_lookups j w :
  (j < 5)%nat → in_u 32 w →
  crc_bits (8 * (4 + j)) w =
    Z.lxor (Z.lxor (Z.lxor (lookup_crc (3 + j) (Z.land w 0xFF))
      (lookup_crc (2 + j) (Z.land (Z.shiftr w 8) 0xFF)))
      (lookup_crc (1 + j) (Z.land (Z.shiftr w 16) 0xFF)))
      (lookup_crc j (Z.land (Z.shiftr w 24) 0xFF)).
Proof.
  intros Hj Hw. rewrite (word_by_bytes w Hw) at 1. rewrite !crc_bits_lxor.
  rewrite !lookup_crc_bits by (lia || apply land_ff_range).
  assert (∀ b, crc_bits (8 * (4 + j)) (Z.shiftl b 8) = crc_bits (8 * S (2 + j)) b) as ->.
  { intros b. replace (8 * (4 + j))%nat with (8 * S (2 + j) + 8)%nat by lia.
    apply (crc_bits_byte_up _ 8). }
  assert (∀ b, crc_bits (8 * (4 + j)) (Z.shiftl b 16) = crc_bits (8 * S (1 + j)) b) as ->.
  { intros b. replace (8 * (4 + j))%nat with (8 * S (1 + j) + 16)%nat by lia.
    apply (crc_bits_byte_up _ 16). }
  assert (∀ b, crc_bits (8 * (4 + j)) (Z.shiftl b 24) = crc_bits (8 * S j) b) as ->.
  { intros b. replace (8 * (4 + j))%nat with (8 * S j + 24)%nat by lia.
    apply (crc_bits_byte_up _ 24). }
  done.
Qed.

Lemma crc_slice_bits one two :
  in_u 32 one → in_u 32 two → crc_slice one two = Z.lxor (crc_bits 64 one) (crc_bits 32 two).
Proof.
  intros H1 H2. change (crc_bits 64 one) with (crc_bits (8 * (4 + 4)) one).
  change (crc_bits 32 two) with (crc_bits (8 * (4 + 0)) two).
  rewrite (four_lookups 4 one), (four_lookups 0 two) by (lia || done).
  unfold crc_slice. by rewrite !Z.lxor_assoc.
Qed.

Lemma lxor_u32 x y : in_u 32 x → in_u 32 y → in_u 32 (Z.lxor x y).
Proof.
  unfold in_u. intros Hx Hy. split; [apply Z.lxor_nonneg; lia|].
  destruct (decide (Z.lxor x y = 0)) as [->|]; [lia|].
  assert (0 ≤ Z.lxor x y) by (apply Z.lxor_nonneg; lia).
  apply Z.log2_lt_pow2; [lia|]. eapply Z.le_lt_trans; [apply Z.log2_lxor; lia|].
  apply Z.max_lub_lt; (destruct (decide (x = 0)) as [->|], (decide (y = 0)) as [->|];
    first [by vm_compute | apply Z.log2_lt_pow2; lia]).
Qed.

Lemma bytes_word_u32 bs : length bs = 4%nat → in_u 32 (bytes_word bs).
Proof. intros H. pose proof (bytes_word_range bs) as Hr. by rewrite H in Hr. Qed.

Lemma crc_loop8_bitwise n data c :
  (length data ≤ n)%nat → in_u 32 c → crc_loop8 c data = foldl crc_byte c data.
Proof.
  revert data c. induction n as [|n IH]; intros data c Hn Hc.
  { by destruct data; [|simpl in Hn; lia]. }
  assert (∀ l d, foldl crc_step d l = foldl crc_byte d l) as Hstep.
  { intros l. induction l as [|b l IHl]; intros d; [done|]. simpl. by rewrite crc_step_bitwise. }
  destruct data as [|b0 [|b1 [|b2 [|b3 [|b4 [|b5 [|b6 [|b7 data]]]]]]]];
    try (cbn [crc_loop8]; apply Hstep).
  cbn [crc_loop8]. set (w1 := bytes_word [b0; b1; b2; b3]). set (w2 := bytes_word [b4; b5; b6; b7]).
  assert (in_u 32 w1) as H1 by by apply bytes_word_u32.
  assert (in_u 32 w2) as H2 by by apply bytes_word_u32.
  rewrite crc_slice_bits; [|by apply lxor_u32|done].
  rewrite IH; [|simpl in Hn; lia|apply lxor_u32; apply crc_bits_range; [by apply lxor_u32|done]].
  change (b0 :: b1 :: b2 :: b3 :: b4 :: b5 :: b6 :: b7 :: data)
    with ([b0; b1; b2; b3] ++ [b4; b5; b6; b7] ++ data).
  rewrite !foldl_app. f_equal. rewrite (foldl_crc_byte c), (foldl_crc_byte (crc_bits _ _)).
  fold w1 w2. cbn [length]. rewrite (crc_bits_lxor _ (crc_bits _ _) w2), <- (crc_bits_add (8 * 4)).
  by rewrite (Z.lxor_comm w1).
Qed.

Lemma not32_u32 x : in_u 32 x → in_u 32 (not32 x).
Proof. intros. by apply lxor_u32. Qed.

Lemma lxor_cancel_r x y z : Z.lxor x z = Z.lxor y z → x = y.
Proof.
  intros H. by rewrite <- (Z.lxor_0_r x), <- (Z.lxor_nilpotent z), <- Z.lxor_assoc, H,
    Z.lxor_assoc, Z.lxor_nilpotent, Z.lxor_0_r.
Qed.

Lemma byte_u32 b : in_u 32 (Z_of_byte b).
Proof. pose proof (Z_of_byte_range b). range. Qed.

Lemma crc_byte_u32 c b : in_u 32 c → in_u 32 (crc_byte c b).
Proof. intros. apply crc_bits_range, lxor_u32; [done|apply byte_u32]. Qed.

Lemma foldl_crc_u32 c l : in_u 32 c → in_u 32 (foldl crc_byte c l).
Proof. revert c. induction l as [|b l IH]; intros c Hc; [done|]. by apply IH, crc_byte_u32. Qed.

#[local] Strategy 100 [crc_bits crc_bit].

(** Nothing that follows repairs a wrong intermediate value. *)
Lemma foldl_crc_inj c d l :
  in_u 32 c → in_u 32 d → foldl crc_byte c l = foldl crc_byte d l → c = d.
Proof.
  revert c d. induction l as [|b l IH]; intros c d Hc Hd; [done|]. simpl. intros Heq.
  apply IH in Heq; [|by apply crc_byte_u32..]. unfold crc_byte in Heq.
  apply crc_bits_inj in Heq; [|by apply lxor_u32, byte_u32..]. by apply lxor_cancel_r in Heq.
Qed.

Lemma crc32_8_bitwise data prev : in_u 32 prev → crc32_8 data prev = crc32_bitwise data prev.
Proof.
  intros Hp. unfold crc32_8, crc32_bitwise. f_equal.
  apply (crc_loop8_bitwise (length data)); [done|by apply not32_u32].
Qed.

Lemma crc32_8_u32 data prev : in_u 32 prev → in_u 32 (crc32_8 data prev).
Proof.
  intros Hp. rewrite crc32_8_bitwise by done. by apply not32_u32, foldl_crc_u32, not32_u32.
Qed.

Lemma not32_not32 c : not32 (not32 c) = c.
Proof. unfold not32. by rewrite Z.lxor_assoc, Z.lxor_nilpotent, Z.lxor_0_r. Qed.

Lemma crc32_8_nil c : crc32_8 [] c = c.
Proof. apply not32_not32. Qed.

(** The checksum of a part is where that of the rest starts. *)
Lemma crc32_8_app x y prev : in_u 32 prev → crc32_8 (x ++ y) prev = crc32_8 y (crc32_8 x prev).
Proof.
  intros Hp. rewrite (crc32_8_bitwise y) by (by apply crc32_8_u32). rewrite !crc32_8_bitwise by done.
  unfold crc32_bitwise. by rewrite foldl_app, not32_not32.
Qed.

(** A burst of at most four bytes shows in the register. *)
Lemma foldl_crc_burst c a w w' z :
  in_u 32 c → length w = length w' → (length w ≤ 4)%nat → w ≠ w' →
  foldl crc_byte c (a ++ w ++ z) ≠ foldl crc_byte c (a ++ w' ++ z).
Proof.
  intros Hp Hlen H4 Hne Heq. rewrite !foldl_app in Heq.
  assert (in_u 32 (foldl crc_byte c a)) as Hc by (by apply foldl_crc_u32).
  set (c' := foldl crc_byte c a) in *.
  apply foldl_crc_inj in Heq; [|by apply foldl_crc_u32..].
  assert (∀ l, (length l ≤ 4)%nat → in_u 32 (bytes_word l)) as Hw.
  { intros l Hl. pose proof (bytes_word_range l). unfold in_u. change (2 ^ 32) with (256 ^ 4).
    assert (256 ^ Z.of_nat (length l) ≤ 256 ^ 4) by (apply Z.pow_le_mono_r; lia). lia. }
  rewrite !foldl_crc_byte, <- Hlen in Heq.
  apply crc_bits_inj in Heq; [|by apply lxor_u32; [|apply Hw; lia]..].
  rewrite !(Z.lxor_comm c') in Heq. apply lxor_cancel_r in Heq. apply Hne.
  rewrite <- (word_of_bytes_word w), Heq, Hlen. apply word_of_bytes_word.
Qed.

Lemma crc32_8_burst a w w' z prev :
  in_u 32 prev → length w = length w' → (length w ≤ 4)%nat → w ≠ w' →
  crc32_8 (a ++ w ++ z) prev ≠ crc32_8 (a ++ w' ++ z) prev.
Proof.
  intros Hp Hlen H4 Hne Heq. rewrite !crc32_8_bitwise in Heq by done.
  apply lxor_cancel_r, foldl_crc_burst in Heq; try done. by apply not32_u32.
Qed.

(** ** Properties *)

(** C28: the eight-bytes-at-a-time and the byte-at-a-time checksum both compute
    the bitwise CRC-32 of their input, from any previous value; so they agree
    with each other, and the eight tables hold what they should. *)
Theorem crc32_implementations_agree data prev :
  in_u 32 prev →
  crc32_8 data prev = crc32_bitwise data prev ∧ crc32_1 data prev = crc32_bitwise data prev.
Proof.
  intros Hp. split; [by apply crc32_8_bitwise|]. unfold crc32_1, crc32_bitwise. f_equal.
  generalize (not32 prev). induction data as [|b data IH]; intros c; [done|].
  simpl. by rewrite crc_step_bitwise, IH.
Qed.

(** The check value of CRC-32, "123456789". *)
Example crc32_implementations_agree_witness :
  crc32_bitwise (bytes_of_string "123456789") 0 = 0xCBF43926 ∧
  crc32_8 (bytes_of_string "123456789") 0 = 0xCBF43926.
Proof.
  destruct (crc32_implementations_agree (bytes_of_string "123456789") 0) as [-> _];
    [by vm_compute|]. split; vm_compute; reflexivity.
Defined.

(** Changing at most four consecutive bytes of the data, in any way,
    changes its checksum. *)
Theorem crc32_detects_burst a w w' z prev :
  in_u 32 prev → length w = length w' → (length w ≤ 4)%nat → w ≠ w' →
  crc32_8 (a ++ w ++ z) prev ≠ crc32_8 (a ++ w' ++ z) prev.
Proof.
  intros Hp Hlen H4 Hne Heq. rewrite !crc32_8_bitwise in Heq by done.
  apply lxor_cancel_r, foldl_crc_burst in Heq; try done. by apply not32_u32.
Qed.

Example crc32_detects_burst_witness :
  crc32_8 (bytes_of_string "term 1, value x" ++ bytes_of_string "ab" ++ []) 0 ≠
  crc32_8 (bytes_of_string "term 1, value x" ++ bytes_of_string "ba" ++ []) 0.
Proof. apply crc32_detects_burst; [by vm_compute|done|simpl; lia|done]. Defined.
