(* ===== verification/Wire.v ===== *)
(** * Serializable types

    What the serializable classes of the Raft library promise each other:
    [serialize] allocates a buffer and fills it with the bytes of the value,
    and [deserialize], given a serializer in front of those bytes, whatever
    surrounds them, returns the value and moves past them.  [cluster_config] is
    proved against this interface of [srv_config], [snapshot] against that of
    [cluster_config], and so on. *)
From S2P Require Import Prelude Bytes Buffer BufferSpec BufferSerializer.
Local Open Scope Z_scope.

Class Wire (A : Type) := {
  wire : A → list byte;
  wire_ok : A → Prop;
  serialize : (nat → byte) → A → outcome buffer;
  deserialize : serializer → outcome (A * serializer);
  serialize_wire junk a :
    wire_ok a → fits (wire a) → serialize junk a = Ok (cursor [] (wire a));
  deserialize_wire a x y :
    wire_ok a → fits (x ++ wire a ++ y) →
    deserialize (at_pos LITTLE x (wire a ++ y)) = Ok (a, at_pos LITTLE (x ++ wire a) y)
}.

Lemma fits_middle (x w y : list byte) : fits (x ++ w ++ y) → fits w.
Proof. unfold fits. rewrite !length_app. lia. Qed.

(** What a client of the interface gets: the round trip. *)
Lemma wire_roundtrip {A} `{Wire A} junk a :
  wire_ok a → fits (wire a) →
  (m ← serialize junk a; '(b, _) ← deserialize (new_serializer m LITTLE); Ok b) = Ok a.
Proof.
  intros Hok Hf. rewrite serialize_wire by done. ok_bind.
  rewrite new_serializer_at. pose proof (deserialize_wire a [] []) as Hd.
  rewrite app_nil_r in Hd. by rewrite Hd.
Qed.

(** ** Steps of a [serialize]: writes that fill a buffer from the left

    [writes w f]: on a buffer with room, [f] writes [w] at the cursor. *)
Definition writes (w : list byte) (f : buffer → outcome buffer) : Prop :=
  ∀ b a, fits (b ++ a) → (length w ≤ length a)%nat →
    f (cursor b a) = Ok (cursor (b ++ w) (drop (length w) a)).

Lemma writes_byte b : writes [b] (put_byte b).
Proof. intros ? ? ? ?. by apply put_checked_spec. Qed.
Lemma writes_byte_word z : writes (word_bytes 1 z) (put_byte (byte_of_Z z)).
Proof. apply writes_byte. Qed.
Lemma writes_int32 z : writes (word_bytes 4 z) (put_int32 z).
Proof. intros b a ? ?. unfold put_int32. rewrite shift_bytes_word. by apply put_checked_spec. Qed.
Lemma writes_ulong z : writes (word_bytes 8 z) (put_ulong z).
Proof. intros b a ? ?. unfold put_ulong. rewrite shift_bytes_word. by apply put_checked_spec. Qed.
Lemma writes_string s : writes (bytes_of_string s ++ [Byte.x00]) (put_string s).
Proof. intros ? ? ? ?. by apply put_checked_spec. Qed.
Lemma writes_bytes l : writes (word_bytes 4 (Z.of_nat (length l)) ++ l) (put_bytes l).
Proof. intros ? ? ? Hlen. rewrite length_app, length_word_bytes in Hlen. by apply put_bytes_spec. Qed.
Lemma writes_buffer b' a' : fits (b' ++ a') → writes a' (put_buffer (cursor b' a')).
Proof. intros ? ? ? ? ?. by apply put_buffer_spec. Qed.
Lemma writes_nothing : writes [] Ok.
Proof. intros b a _ _. by rewrite app_nil_r. Qed.

Lemma writes_then w1 w2 f g :
  writes w1 f → writes w2 g → writes (w1 ++ w2) (λ m, m ← f m; g m).
Proof.
  intros Hf Hg b a Hfit Hlen. rewrite length_app in Hlen. rewrite Hf by (done || lia).
  ok_bind. rewrite Hg.
  - by rewrite length_app, <- app_assoc, drop_drop.
  - unfold fits in *. rewrite !length_app, length_drop in *. lia.
  - rewrite length_drop. lia.
Qed.

(** Allocating for [w] and writing it, then moving back to the start. *)
Lemma fill_buffer junk w n f :
  writes w f → fits w → n = Z.of_nat (length w) →
  (m ← alloc junk n; m ← f m; set_pos 0 m) = Ok (cursor [] w).
Proof.
  intros Hw Hf ->. rewrite alloc_spec by (unfold fits in Hf; lia). ok_bind.
  rewrite Nat2Z.id.
  assert (length (junk <$> seq 0 (length w)) = length w) as Hl by by rewrite length_fmap, length_seq.
  rewrite Hw; [|unfold fits in *; simpl; by rewrite Hl|by rewrite Hl].
  ok_bind. rewrite drop_ge by (by rewrite Hl).
  by rewrite (cursor_set_pos _ _ [] w) by (rewrite ?app_nil_r; done).
Qed.

(** ** Writes through a serializer

    [puts w f]: with room behind the position, [f] writes [w] there. *)
Definition puts (w : list byte) (f : serializer → outcome serializer) : Prop :=
  ∀ x y, fits (x ++ y) → (length w ≤ length y)%nat →
    f (at_pos LITTLE x y) = Ok (at_pos LITTLE (x ++ w) (drop (length w) y)).

Lemma puts_word n z : puts (word_bytes n z) (put_word n z).
Proof. intros x y Hf. rewrite length_word_bytes. by apply put_word_spec. Qed.
Lemma puts_u8 z : puts (word_bytes 1 z) (put_u8 z).
Proof. apply puts_word. Qed.
Lemma puts_u64 z : puts (word_bytes 8 z) (put_u64 z).
Proof. apply puts_word. Qed.
Lemma puts_i32 z : puts (word_bytes 4 z) (put_i32 z).
Proof. apply puts_word. Qed.
Lemma puts_raw w : puts w (bs_put_raw w).
Proof. intros x y. apply bs_put_raw_spec. Qed.
Lemma puts_bytes l : puts (word_bytes 4 (Z.of_nat (length l)) ++ l) (bs_put_bytes l).
Proof. intros x y Hf Hl. rewrite length_app, length_word_bytes in *. by apply bs_put_bytes_spec. Qed.
Lemma puts_u16 z : puts (word_bytes 2 z) (put_u16 z).
Proof. apply puts_word. Qed.
Lemma puts_u32 z : puts (word_bytes 4 z) (put_u32 z).
Proof. apply puts_word. Qed.
Lemma puts_i64 z : puts (word_bytes 8 z) (put_i64 z).
Proof. apply puts_word. Qed.
Lemma puts_str t : puts (word_bytes 4 (string_size t) ++ bytes_of_string t) (bs_put_str t).
Proof. rewrite string_size_bytes. apply puts_bytes. Qed.
Lemma puts_buffer b a : fits (b ++ a) → puts a (bs_put_buffer (cursor b a)).
Proof.
  intros Hb x y Hf Hl. unfold bs_put_buffer. rewrite cursor_avail by done. ok_bind.
  pose proof (cursor_load (Z.of_nat (length a)) b a []) as Hload. rewrite app_nil_r in Hload.
  rewrite Hload by done. ok_bind. by apply bs_put_raw_spec.
Qed.
Lemma puts_nothing : puts [] Ok.
Proof. intros x y _ _. by rewrite app_nil_r. Qed.

Lemma puts_then w1 w2 f g :
  puts w1 f → puts w2 g → puts (w1 ++ w2) (λ s, s ← f s; g s).
Proof.
  intros Hf Hg x y Hfit Hlen. rewrite length_app in Hlen. rewrite Hf by (done || lia).
  ok_bind. rewrite Hg.
  - by rewrite length_app, <- app_assoc, drop_drop.
  - unfold fits in *. rewrite !length_app, length_drop in *. lia.
  - rewrite length_drop. lia.
Qed.

Lemma puts_if (b : bool) w f : puts w f → puts (if b then w else []) (λ s, if b then f s else Ok s).
Proof. destruct b; [done|]. intros _. apply puts_nothing. Qed.

(** Allocating room for [w] and maybe more, and writing it; the rest of the
    buffer is fresh memory. *)
Lemma fill_serializer junk w n f :
  puts w f → 0 ≤ n < 0x80000000 → (length w ≤ Z.to_nat n)%nat →
  (m ← alloc junk n; s ← f (new_serializer m LITTLE); Ok (buf_ s)) =
    Ok (cursor [] (w ++ drop (length w) (junk <$> seq 0 (Z.to_nat n)))).
Proof.
  intros Hw Hn Hlen. rewrite alloc_spec by done. ok_bind.
  rewrite new_serializer_at, Hw; [done| |by rewrite length_fmap, length_seq].
  unfold fits. rewrite app_nil_l, length_fmap, length_seq. lia.
Qed.

(** ** Steps of a [deserialize]

    [reads w v f]: in front of the bytes [w], [f] returns [v] and moves past. *)
Definition reads {A} (w : list byte) (v : A) (f : serializer → outcome (A * serializer)) : Prop :=
  ∀ x y, fits (x ++ w ++ y) → f (at_pos LITTLE x (w ++ y)) = Ok (v, at_pos LITTLE (x ++ w) y).

Lemma reads_word n z : reads (word_bytes n z) (z mod 256 ^ Z.of_nat n) (get_word n).
Proof.
  intros x y Hf. rewrite get_word_spec by (done || apply length_word_bytes).
  unfold ordered. by rewrite decide_True, bytes_word_of_word.
Qed.
Lemma reads_u8 z : in_u 8 z → reads (word_bytes 1 z) z get_u8.
Proof. intros Hz x y Hf. unfold get_u8. rewrite reads_word by done. by rewrite Z.mod_small. Qed.
Lemma reads_u64 z : in_u 64 z → reads (word_bytes 8 z) z get_u64.
Proof. intros Hz x y Hf. unfold get_u64. rewrite reads_word by done. by rewrite Z.mod_small. Qed.
Lemma reads_i32 z : in_s 32 z → reads (word_bytes 4 z) z get_i32.
Proof.
  intros Hz x y Hf. unfold get_i32, get_signed. rewrite reads_word by done.
  ok_bind. change (z mod 256 ^ Z.of_nat 4) with (u32 z).
  change (wrap_s (8 * Z.of_nat 4)) with i32. by rewrite wrap_s_wrap_u, wrap_s_id.
Qed.
Lemma reads_i64 z : in_s 64 z → reads (word_bytes 8 z) z get_i64.
Proof.
  intros Hz x y Hf. unfold get_i64, get_signed. rewrite reads_word by done.
  ok_bind. change (z mod 256 ^ Z.of_nat 8) with (u64 z).
  change (wrap_s (8 * Z.of_nat 8)) with i64. by rewrite wrap_s_wrap_u, wrap_s_id.
Qed.
Lemma reads_bytes l : reads (word_bytes 4 (Z.of_nat (length l)) ++ l) l bs_get_bytes.
Proof.
  intros x y Hf. rewrite <- app_assoc in Hf |- *. rewrite bs_get_bytes_spec; [done|done|].
  unfold ordered. by rewrite decide_True.
Qed.
Lemma reads_cstr w : Byte.x00 ∉ w → reads (w ++ [Byte.x00]) w get_cstr.
Proof.
  intros Hw x y Hf. rewrite <- app_assoc in Hf |- *. simpl app in Hf |- *. by apply get_cstr_spec.
Qed.
Lemma reads_wire {A} `{Wire A} a : wire_ok a → reads (wire a) a deserialize.
Proof. intros Ha x y. by apply deserialize_wire. Qed.

Lemma reads_u16 z : in_u 16 z → reads (word_bytes 2 z) z get_u16.
Proof. intros Hz x y Hf. unfold get_u16. rewrite reads_word by done. by rewrite Z.mod_small. Qed.
Lemma reads_u32 z : in_u 32 z → reads (word_bytes 4 z) z get_u32.
Proof. intros Hz x y Hf. unfold get_u32. rewrite reads_word by done. by rewrite Z.mod_small. Qed.
(** Into a buffer of the size of what is read. *)
Lemma reads_buffer w d : length d = length w → reads w (cursor [] w) (bs_get_buffer (cursor [] d)).
Proof.
  intros Hd x y Hf. unfold bs_get_buffer.
  assert (fits d) as Hfd by (unfold fits in *; rewrite !length_app in Hf; lia).
  rewrite (cursor_avail [] d) by done. ok_bind. rewrite Hd.
  rewrite bs_get_raw_spec by done. ok_bind.
  pose proof (cursor_store [] d w []) as Hs. rewrite !app_nil_r in Hs. by rewrite Hs.
Qed.
Lemma reads_if {A} (b : bool) w (v u : A) f :
  reads w v f → reads (if b then w else []) (if b then v else u) (λ s, if b then f s else Ok (u, s)).
Proof. destruct b; [done|]. intros _ x y _. by rewrite app_nil_r. Qed.

Lemma reads_ret {A} (v : A) : reads [] v (λ s, Ok (v, s)).
Proof. intros x y _. by rewrite app_nil_r. Qed.

Lemma reads_then {A B} w1 w2 (v : A) (u : B) f g :
  reads w1 v f → reads w2 u (g v) → reads (w1 ++ w2) u (λ s, '(v, s) ← f s; g v s).
Proof.
  intros Hf Hg x y Hfit. rewrite <- app_assoc in Hfit |- *. rewrite Hf by done.
  ok_bind. rewrite Hg by (by rewrite <- app_assoc). by rewrite <- app_assoc.
Qed.

(** The last step: what was read, put together. *)
Lemma reads_map {A B} w (v : A) f (h : A → B) :
  reads w v f → reads w (h v) (λ s, '(v, s) ← f s; Ok (h v, s)).
Proof. intros Hf x y Hfit. by rewrite Hf. Qed.

#[export] Hint Resolve writes_byte writes_byte_word writes_int32 writes_ulong writes_string writes_bytes
  writes_nothing puts_u8 puts_u16 puts_u32 puts_u64
  puts_i32 puts_i64 puts_raw puts_bytes puts_str puts_buffer puts_nothing reads_u8 reads_u16 reads_u32 reads_u64 reads_i32 reads_i64 reads_bytes reads_cstr reads_ret : wire.

(** One step after the other, the primitive ones by the hints. *)
Ltac wire_steps :=
  repeat first
    [ eapply writes_then; [solve [eauto with wire]|]
    | eapply puts_then; [solve [eauto with wire]|]
    | eapply reads_then; [solve [eauto with wire]|] ];
  try solve [eauto with wire].
