(* ===== verification/RaftTypes.v ===== *)
(** * The serializable types of the Raft library

    libs/nuraft: [srv_config], [cluster_config], [snapshot],
    [snapshot_sync_req], [srv_state] and their serializations.  The first
    three are instances of [Wire]; a [snapshot_sync_req] takes what is left of
    its buffer as data, and a [srv_state] has two formats told apart by their
    size. *)
From S2P Require Import Prelude Bytes Buffer BufferSpec BufferSerializer Wire.
Local Open Scope Z_scope.

Definition sz_int : Z := 4.
Definition sz_ulong : Z := 8.
Definition sz_byte : Z := 1.

(** [b ? 1 : 0] as a byte, and back. *)
Definition bool_byte (b : bool) : byte := if b then Byte.x01 else Byte.x00.

(** ** srv_config *)
Record srv_config := SrvConfig {
  id_ : Z;
  dc_id_ : Z;
  endpoint_ : string;
  aux_ : string;
  learner_ : bool;
  priority_ : Z
}.

Definition serialize_srv_config (junk : nat → byte) (c : srv_config) : outcome buffer :=
  buf ← alloc junk (sz_int + sz_int + (string_size (endpoint_ c) + 1) +
                    (string_size (aux_ c) + 1) + 1 + sz_int);
  buf ← put_int32 (id_ c) buf;
  buf ← put_int32 (dc_id_ c) buf;
  buf ← put_string (endpoint_ c) buf;
  buf ← put_string (aux_ c) buf;
  buf ← put_byte (bool_byte (learner_ c)) buf;
  buf ← put_int32 (priority_ c) buf;
  set_pos 0 buf.

Definition deserialize_srv_config (bs : serializer) : outcome (srv_config * serializer) :=
  '(id, bs) ← get_i32 bs;
  '(dc_id, bs) ← get_i32 bs;
  '(endpoint_char, bs) ← get_cstr bs;
  '(aux_char, bs) ← get_cstr bs;
  '(is_learner, bs) ← get_u8 bs;
  '(priority, bs) ← get_i32 bs;
  Ok (SrvConfig id dc_id (string_of_bytes endpoint_char) (string_of_bytes aux_char)
        (negb (is_learner =? 0)) priority, bs).

Definition wire_srv_config (c : srv_config) : list byte :=
  word_bytes 4 (id_ c) ++ word_bytes 4 (dc_id_ c)
    ++ (bytes_of_string (endpoint_ c) ++ [Byte.x00]) ++ (bytes_of_string (aux_ c) ++ [Byte.x00])
    ++ [bool_byte (learner_ c)] ++ word_bytes 4 (priority_ c).

Definition srv_config_ok (c : srv_config) : Prop :=
  in_s 32 (id_ c) ∧ in_s 32 (dc_id_ c) ∧ in_s 32 (priority_ c) ∧
  Byte.x00 ∉ bytes_of_string (endpoint_ c) ∧ Byte.x00 ∉ bytes_of_string (aux_ c).

Lemma serialize_srv_config_wire junk c :
  fits (wire_srv_config c) → serialize_srv_config junk c = Ok (cursor [] (wire_srv_config c)).
Proof.
  intros Hf. rewrite <- (fill_buffer junk _ (sz_int + sz_int + (string_size (endpoint_ c) + 1)
    + (string_size (aux_ c) + 1) + 1 + sz_int)
    (λ buf, buf ← put_int32 (id_ c) buf; buf ← put_int32 (dc_id_ c) buf;
            buf ← put_string (endpoint_ c) buf; buf ← put_string (aux_ c) buf;
            buf ← put_byte (bool_byte (learner_ c)) buf; put_int32 (priority_ c) buf)); [|..|done|].
  - unfold serialize_srv_config. same_steps.
  - unfold wire_srv_config. by wire_steps.
  - unfold wire_srv_config, sz_int. rewrite !length_app, !length_word_bytes, !string_size_bytes.
    simpl length. lia.
Qed.

Lemma reads_bool b : reads [bool_byte b] (Z.b2z b) get_u8.
Proof.
  destruct b; [change [bool_byte true] with (word_bytes 1 1)|
    change [bool_byte false] with (word_bytes 1 0)]; apply reads_u8; by split.
Qed.
#[export] Hint Resolve reads_bool : wire.

Lemma deserialize_srv_config_wire c :
  srv_config_ok c → reads (wire_srv_config c) c deserialize_srv_config.
Proof.
  intros (Hid & Hdc & Hpr & He & Ha). unfold deserialize_srv_config, wire_srv_config.
  wire_steps.
  intros x y Hf. rewrite reads_i32 by done. ok_bind.
  rewrite !string_of_bytes_of_string. by destruct c as [? ? ? ? [] ?].
Qed.

#[export] Instance srv_config_wire : Wire srv_config := {|
  wire := wire_srv_config;
  wire_ok := srv_config_ok;
  serialize := serialize_srv_config;
  deserialize := deserialize_srv_config;
  serialize_wire junk c _ := serialize_srv_config_wire junk c;
  deserialize_wire c x y Hc := deserialize_srv_config_wire c Hc x y
|}.

(** ** cluster_config *)
Record cluster_config := ClusterConfig {
  log_idx_ : Z;
  prev_log_idx_ : Z;
  async_replication_ : bool;
  user_ctx_ : string;
  servers_ : list srv_config
}.

Definition set_log_idx (log_idx : Z) (c : cluster_config) : cluster_config :=
  ClusterConfig log_idx (log_idx_ c) (async_replication_ c) (user_ctx_ c) (servers_ c).

Definition get_server (id : Z) (c : cluster_config) : option srv_config :=
  list_find (λ s, id_ s = id) (servers_ c) ≫= λ x, Some x.2.

(** The buffers of the servers, and the sum of their sizes. *)
Fixpoint serialize_servers (junk : nat → byte) (l : list srv_config) :
    outcome (list buffer * Z) :=
  match l with
  | [] => Ok ([], 0)
  | s :: l =>
      buf ← serialize junk s;
      sz ← size buf;
      '(bufs, szs) ← serialize_servers junk l;
      Ok (buf :: bufs, sz + szs)
  end.

Fixpoint put_buffers (bufs : list buffer) (m : buffer) : outcome buffer :=
  match bufs with [] => Ok m | b :: bufs => m ← put_buffer b m; put_buffers bufs m end.

Definition serialize_cluster_config (junk : nat → byte) (c : cluster_config) : outcome buffer :=
  '(srv_buffs, srv_sz) ← serialize_servers junk (servers_ c);
  let sz := 2 * sz_ulong + sz_int + sz_byte + srv_sz + sz_int + string_size (user_ctx_ c) in
  result ← alloc junk sz;
  result ← put_ulong (log_idx_ c) result;
  result ← put_ulong (prev_log_idx_ c) result;
  result ← put_byte (bool_byte (async_replication_ c)) result;
  result ← put_bytes (bytes_of_string (user_ctx_ c)) result;
  result ← put_int32 (i32 (Z.of_nat (length (servers_ c)))) result;
  result ← put_buffers srv_buffs result;
  set_pos 0 result.

(** [while (cnt -- > 0)], [cnt] not negative. *)
Fixpoint deserialize_servers (cnt : nat) (bs : serializer) :
    outcome (list srv_config * serializer) :=
  match cnt with
  | O => Ok ([], bs)
  | S cnt =>
      '(s, bs) ← deserialize bs;
      '(l, bs) ← deserialize_servers cnt bs;
      Ok (s :: l, bs)
  end.

Definition deserialize_cluster_config (bs : serializer) : outcome (cluster_config * serializer) :=
  '(log_idx, bs) ← get_u64 bs;
  '(prev_log_idx, bs) ← get_u64 bs;
  '(ec_byte, bs) ← get_u8 bs;
  '(ctx, bs) ← bs_get_bytes bs;
  '(cnt, bs) ← get_i32 bs;
  '(servers, bs) ← deserialize_servers (Z.to_nat cnt) bs;
  Ok (ClusterConfig log_idx prev_log_idx (negb (ec_byte =? 0)) (string_of_bytes ctx) servers, bs).

Fixpoint wire_servers (l : list srv_config) : list byte :=
  match l with [] => [] | s :: l => wire s ++ wire_servers l end.

Definition wire_cluster_config (c : cluster_config) : list byte :=
  word_bytes 8 (log_idx_ c) ++ word_bytes 8 (prev_log_idx_ c)
    ++ [bool_byte (async_replication_ c)]
    ++ (word_bytes 4 (string_size (user_ctx_ c)) ++ bytes_of_string (user_ctx_ c))
    ++ word_bytes 4 (Z.of_nat (length (servers_ c))) ++ wire_servers (servers_ c).

Definition cluster_config_ok (c : cluster_config) : Prop :=
  in_u 64 (log_idx_ c) ∧ in_u 64 (prev_log_idx_ c) ∧ Forall wire_ok (servers_ c).

Lemma wire_servers_length l : (length l ≤ length (wire_servers l))%nat.
Proof.
  induction l as [|s l IH]; [done|]. cbn [wire_servers]. rewrite length_app.
  change (wire s) with (wire_srv_config s). unfold wire_srv_config.
  rewrite (length_app (word_bytes 4 (id_ s))), length_word_bytes. cbn [length]. lia.
Qed.

Lemma serialize_servers_wire junk l :
  Forall wire_ok l → fits (wire_servers l) →
  serialize_servers junk l =
    Ok ((λ s, cursor [] (wire s)) <$> l, Z.of_nat (length (wire_servers l))).
Proof.
  induction l as [|s l IH]; [done|]. intros [Hs Hl]%Forall_cons Hf.
  cbn [serialize_servers wire_servers] in *.
  assert (fits (wire s) ∧ fits (wire_servers l)) as [Hfs Hfl].
  { unfold fits in *. rewrite length_app in Hf. lia. }
  rewrite serialize_wire by done. ok_bind.
  rewrite cursor_size by done. ok_bind.
  rewrite IH by done. ok_bind. rewrite app_nil_l.
  by rewrite fmap_cons, length_app, Nat2Z.inj_add.
Qed.

Lemma put_buffers_wire l :
  Forall wire_ok l → fits (wire_servers l) →
  writes (wire_servers l) (put_buffers ((λ s, cursor [] (wire s)) <$> l)).
Proof.
  induction l as [|s l IH]; intros Hl Hf; [apply writes_nothing|].
  apply Forall_cons in Hl as [Hs Hl]. cbn [wire_servers fmap list_fmap put_buffers] in *.
  apply writes_then.
  - apply writes_buffer. unfold fits in *. simpl. rewrite length_app in Hf. simpl in Hf. lia.
  - apply IH; [done|]. unfold fits in *. rewrite length_app in Hf. lia.
Qed.

Lemma serialize_cluster_config_wire junk c :
  cluster_config_ok c → fits (wire_cluster_config c) →
  serialize_cluster_config junk c = Ok (cursor [] (wire_cluster_config c)).
Proof.
  intros (_ & _ & Hsrv) Hf.
  assert (fits (wire_servers (servers_ c))) as Hfs.
  { unfold fits, wire_cluster_config in *. rewrite !length_app in Hf. lia. }
  unfold serialize_cluster_config. rewrite serialize_servers_wire by done. ok_bind.
  pose proof (wire_servers_length (servers_ c)) as Hcnt.
  rewrite wrap_s_id by (lia || (unfold fits in Hfs; range)).
  rewrite <- (fill_buffer junk _ (2 * sz_ulong + sz_int + sz_byte
    + Z.of_nat (length (wire_servers (servers_ c))) + sz_int + string_size (user_ctx_ c))
    (λ buf, buf ← put_ulong (log_idx_ c) buf; buf ← put_ulong (prev_log_idx_ c) buf;
            buf ← put_byte (bool_byte (async_replication_ c)) buf;
            buf ← put_bytes (bytes_of_string (user_ctx_ c)) buf;
            buf ← put_int32 (Z.of_nat (length (servers_ c))) buf;
            put_buffers ((λ s, cursor [] (wire s)) <$> servers_ c) buf)); [|..|done|].
  - same_steps.
  - unfold wire_cluster_config. rewrite string_size_bytes.
    wire_steps. by apply put_buffers_wire.
  - unfold wire_cluster_config, sz_int, sz_ulong, sz_byte.
    rewrite !length_app, !length_word_bytes, !string_size_bytes. simpl length. lia.
Qed.

Lemma deserialize_servers_wire l :
  Forall wire_ok l → reads (wire_servers l) l (deserialize_servers (length l)).
Proof.
  induction l as [|s l IH]; intros Hl; [apply reads_ret|].
  apply Forall_cons in Hl as [Hs Hl]. cbn [wire_servers length deserialize_servers].
  eapply reads_then; [by apply reads_wire|].
  apply (reads_map _ _ _ (λ l, s :: l)). by apply IH.
Qed.

Lemma deserialize_cluster_config_wire c :
  cluster_config_ok c → fits (wire_cluster_config c) →
  reads (wire_cluster_config c) c deserialize_cluster_config.
Proof.
  intros (Hl & Hp & Hsrv) Hf.
  pose proof (wire_servers_length (servers_ c)) as Hcnt.
  assert (in_s 32 (Z.of_nat (length (servers_ c)))) as Hn.
  { unfold fits, wire_cluster_config in Hf. rewrite !length_app in Hf. range. }
  unfold deserialize_cluster_config, wire_cluster_config. rewrite string_size_bytes.
  wire_steps.
  rewrite Nat2Z.id. intros x y Hfit. rewrite deserialize_servers_wire by done.
  ok_bind. rewrite string_of_bytes_of_string. by destruct c as [? ? [] ? ?].
Qed.

#[export] Instance cluster_config_wire : Wire cluster_config := {|
  wire := wire_cluster_config;
  wire_ok := cluster_config_ok;
  serialize := serialize_cluster_config;
  deserialize := deserialize_cluster_config;
  serialize_wire := serialize_cluster_config_wire;
  deserialize_wire c x y Hc Hf :=
    deserialize_cluster_config_wire c Hc (fits_middle _ _ _ Hf) x y Hf
|}.

(** ** snapshot *)
Record snapshot := Snapshot {
  last_log_idx_ : Z;
  last_log_term_ : Z;
  size_ : Z;
  last_config_ : cluster_config;
  type_ : Z
}.

Definition raw_binary : Z := 0x1.
Definition logical_object : Z := 0x2.

Definition serialize_snapshot (junk : nat → byte) (s : snapshot) : outcome buffer :=
  conf_buf ← serialize junk (last_config_ s);
  conf_size ← size conf_buf;
  buf ← alloc junk (conf_size + sz_ulong * 3 + sz_byte);
  buf ← put_byte (byte_of_Z (type_ s)) buf;
  buf ← put_ulong (last_log_idx_ s) buf;
  buf ← put_ulong (last_log_term_ s) buf;
  buf ← put_ulong (size_ s) buf;
  buf ← put_buffer conf_buf buf;
  set_pos 0 buf.

Definition deserialize_snapshot (bs : serializer) : outcome (snapshot * serializer) :=
  '(snp_type, bs) ← get_u8 bs;
  '(last_log_idx, bs) ← get_u64 bs;
  '(last_log_term, bs) ← get_u64 bs;
  '(sz, bs) ← get_u64 bs;
  '(conf, bs) ← deserialize bs;
  Ok (Snapshot last_log_idx last_log_term sz conf snp_type, bs).

Definition wire_snapshot (s : snapshot) : list byte :=
  word_bytes 1 (type_ s) ++ word_bytes 8 (last_log_idx_ s) ++ word_bytes 8 (last_log_term_ s)
    ++ word_bytes 8 (size_ s) ++ wire (last_config_ s).

Definition snapshot_ok (s : snapshot) : Prop :=
  in_u 8 (type_ s) ∧ in_u 64 (last_log_idx_ s) ∧ in_u 64 (last_log_term_ s) ∧
  in_u 64 (size_ s) ∧ wire_ok (last_config_ s).

Lemma serialize_snapshot_wire junk s :
  snapshot_ok s → fits (wire_snapshot s) →
  serialize_snapshot junk s = Ok (cursor [] (wire_snapshot s)).
Proof.
  intros (_ & _ & _ & _ & Hc) Hf.
  assert (fits (wire (last_config_ s))) as Hfc.
  { unfold fits, wire_snapshot in *. rewrite !length_app in Hf. lia. }
  unfold serialize_snapshot. rewrite serialize_wire by done. ok_bind.
  rewrite cursor_size by done. ok_bind. rewrite app_nil_l.
  rewrite <- (fill_buffer junk _
    (Z.of_nat (length (wire (last_config_ s))) + sz_ulong * 3 + sz_byte)
    (λ buf, buf ← put_byte (byte_of_Z (type_ s)) buf; buf ← put_ulong (last_log_idx_ s) buf;
            buf ← put_ulong (last_log_term_ s) buf; buf ← put_ulong (size_ s) buf;
            put_buffer (cursor [] (wire (last_config_ s))) buf)); [|..|done|].
  - same_steps.
  - unfold wire_snapshot. wire_steps. by apply writes_buffer.
  - unfold wire_snapshot, sz_ulong, sz_byte. rewrite !length_app, !length_word_bytes. lia.
Qed.

Lemma deserialize_snapshot_wire s :
  snapshot_ok s → reads (wire_snapshot s) s deserialize_snapshot.
Proof.
  intros (Ht & Hi & Hte & Hs & Hc). unfold deserialize_snapshot, wire_snapshot.
  wire_steps. destruct s as [i te sz c ty]. simpl in *.
  apply (reads_map _ _ _ (λ c, Snapshot i te sz c ty)). exact (reads_wire c Hc).
Qed.

#[export] Instance snapshot_wire : Wire snapshot := {|
  wire := wire_snapshot;
  wire_ok := snapshot_ok;
  serialize := serialize_snapshot;
  deserialize := deserialize_snapshot;
  serialize_wire := serialize_snapshot_wire;
  deserialize_wire s x y Hs := deserialize_snapshot_wire s Hs x y
|}.

(** ** snapshot_sync_req: what is left of its buffer is the data *)
Record snapshot_sync_req := SnapshotSyncReq {
  snapshot_ : snapshot;
  offset_ : Z;
  data_ : buffer;
  done_ : bool
}.

Definition serialize_snapshot_sync_req (junk : nat → byte) (r : snapshot_sync_req) :
    outcome buffer :=
  snp_buf ← serialize junk (snapshot_ r);
  snp_size ← size snp_buf;
  data_size ← size (data_ r);
  data_pos ← pos (data_ r);
  buf ← alloc junk (u64 (snp_size + sz_ulong + sz_byte + u64 (data_size - data_pos)));
  buf ← put_buffer snp_buf buf;
  buf ← put_ulong (offset_ r) buf;
  buf ← put_byte (bool_byte (done_ r)) buf;
  buf ← put_buffer (data_ r) buf;
  set_pos 0 buf.

Definition deserialize_snapshot_sync_req (junk : nat → byte) (bs : serializer) :
    outcome snapshot_sync_req :=
  '(snp, bs) ← deserialize bs;
  '(offset, bs) ← get_u64 bs;
  '(d, bs) ← get_u8 bs;
  sz ← ser_size bs;
  b ← (if decide (pos_ bs < sz) then
         let sz := u64 (sz - pos_ bs) in
         b ← alloc junk sz;
         src ← load_here sz bs;
         store_data src b
       else alloc junk 0);
  Ok (SnapshotSyncReq snp offset b (bool_decide (d = 1))).

Definition wire_snapshot_sync_req (r : snapshot_sync_req) (data : list byte) : list byte :=
  wire (snapshot_ r) ++ word_bytes 8 (offset_ r) ++ [bool_byte (done_ r)] ++ data.

Lemma serialize_sync_req_wire junk r before data :
  wire_ok (snapshot_ r) → data_ r = cursor before data → fits (before ++ data) →
  fits (wire_snapshot_sync_req r data) →
  serialize_snapshot_sync_req junk r = Ok (cursor [] (wire_snapshot_sync_req r data)).
Proof.
  intros Hs Hd Hfd Hf.
  assert (fits (wire (snapshot_ r))) as Hfs.
  { unfold fits, wire_snapshot_sync_req in *. rewrite !length_app in Hf. lia. }
  unfold serialize_snapshot_sync_req. rewrite serialize_wire by done. ok_bind.
  rewrite cursor_size, app_nil_l, Hd by done. ok_bind.
  rewrite cursor_size by done. ok_bind.
  rewrite cursor_pos by done. ok_bind.
  assert (u64 (Z.of_nat (length (before ++ data)) - Z.of_nat (length before))
    = Z.of_nat (length data)) as ->.
  { unfold fits in Hfd. rewrite length_app in *. rewrite wrap_u_id by range. lia. }
  assert (Z.of_nat (length (wire (snapshot_ r))) + sz_ulong + sz_byte + Z.of_nat (length data) =
    Z.of_nat (length (wire_snapshot_sync_req r data))) as Hlen.
  { unfold wire_snapshot_sync_req, sz_ulong, sz_byte.
    rewrite !length_app, length_word_bytes. simpl length. lia. }
  rewrite Hlen, wrap_u_id by (unfold fits in Hf; range).
  rewrite <- (fill_buffer junk _ (Z.of_nat (length (wire_snapshot_sync_req r data)))
    (λ buf, buf ← put_buffer (cursor [] (wire (snapshot_ r))) buf; buf ← put_ulong (offset_ r) buf;
            buf ← put_byte (bool_byte (done_ r)) buf; put_buffer (cursor before data) buf));
    [|..|done|done].
  - same_steps.
  - unfold wire_snapshot_sync_req. apply writes_then; [by apply writes_buffer|].
    wire_steps. by apply writes_buffer.
Qed.
