(* ===== verification/SrvState.v ===== *)
(** * nuraft::srv_state: the durable state of a server

    libs/nuraft/include/libnuraft/srv_state.hxx.  The first version of the
    format is 12 bytes through the buffer; the current one, with a version byte
    and the election timer flag, is 14 bytes through a serializer.  The size of
    the buffer says which one it holds. *)
From S2P Require Import Prelude Bytes Buffer BufferSpec BufferSerializer Wire RaftTypes.
Local Open Scope Z_scope.

Record srv_state := SrvState {
  term_ : Z;
  voted_for_ : Z;
  election_timer_allowed_ : bool;
  inc_term_cb_ : option (Z → Z)
}.

Definition new_srv_state : srv_state := SrvState 0 (-1) true None.

Definition CURRENT_VERSION : Z := 1.

Definition set_term (term : Z) (s : srv_state) : srv_state :=
  SrvState term (voted_for_ s) (election_timer_allowed_ s) (inc_term_cb_ s).
Definition set_voted_for (voted_for : Z) (s : srv_state) : srv_state :=
  SrvState (term_ s) voted_for (election_timer_allowed_ s) (inc_term_cb_ s).
Definition allow_election_timer (to : bool) (s : srv_state) : srv_state :=
  SrvState (term_ s) (voted_for_ s) to (inc_term_cb_ s).

Definition inc_term (s : srv_state) : outcome srv_state :=
  match inc_term_cb_ s with
  | Some cb =>
      let new_term := cb (term_ s) in
      if decide (term_ s < new_term) then Ok (set_term new_term s) else throw assertion_failed
  | None => Ok (set_term (u64 (term_ s + 1)) s)
  end.

Definition serialize_v0 (junk : nat → byte) (s : srv_state) : outcome buffer :=
  buf ← alloc junk (sz_ulong + sz_int);
  buf ← put_ulong (term_ s) buf;
  buf ← put_int32 (voted_for_ s) buf;
  set_pos 0 buf.

Definition serialize_v1p (junk : nat → byte) (version : Z) (s : srv_state) : outcome buffer :=
  buf ← alloc junk (1 + 8 + 4 + 1);
  let bs := new_serializer buf LITTLE in
  bs ← put_u8 version bs;
  bs ← put_u64 (term_ s) bs;
  bs ← put_i32 (voted_for_ s) bs;
  bs ← put_u8 (if election_timer_allowed_ s then 1 else 0) bs;
  Ok (buf_ bs).

Definition serialize_srv_state (junk : nat → byte) (s : srv_state) : outcome buffer :=
  serialize_v1p junk CURRENT_VERSION s.

Definition deserialize_v0 (buf : buffer) : outcome srv_state :=
  '(term, buf) ← get_ulong buf;
  '(voted_for, _) ← get_int buf;
  Ok (SrvState term voted_for true None).

Definition deserialize_v1p (buf : buffer) : outcome srv_state :=
  let bs := new_serializer buf LITTLE in
  '(_, bs) ← get_u8 bs;
  '(term, bs) ← get_u64 bs;
  '(voted_for, bs) ← get_i32 bs;
  '(et, _) ← get_u8 bs;
  Ok (SrvState term voted_for (bool_decide (et = 1)) None).

Definition deserialize_srv_state (buf : buffer) : outcome srv_state :=
  sz ← size buf;
  if decide (sz > sz_ulong + sz_int) then deserialize_v1p buf else deserialize_v0 buf.

(** ** The two formats *)
Definition wire_v0 (s : srv_state) : list byte :=
  word_bytes 8 (term_ s) ++ word_bytes 4 (voted_for_ s).
Definition wire_v1p (version : Z) (s : srv_state) : list byte :=
  word_bytes 1 version ++ word_bytes 8 (term_ s) ++ word_bytes 4 (voted_for_ s)
    ++ word_bytes 1 (if election_timer_allowed_ s then 1 else 0).

Definition srv_state_ok (s : srv_state) : Prop := in_u 64 (term_ s) ∧ in_s 32 (voted_for_ s).

Lemma serialize_v0_wire junk s : serialize_v0 junk s = Ok (cursor [] (wire_v0 s)).
Proof.
  rewrite <- (fill_buffer junk _ (sz_ulong + sz_int)
    (λ buf, buf ← put_ulong (term_ s) buf; put_int32 (voted_for_ s) buf)); [|..|done|done].
  - unfold serialize_v0. same_steps.
  - unfold wire_v0. wire_steps.
Qed.

Lemma serialize_v1p_wire junk version s :
  serialize_v1p junk version s = Ok (cursor [] (wire_v1p version s)).
Proof.
  transitivity (m ← alloc junk (1 + 8 + 4 + 1);
    s ← (bs ← put_u8 version (new_serializer m LITTLE); bs ← put_u64 (term_ s) bs;
         bs ← put_i32 (voted_for_ s) bs; put_u8 (if election_timer_allowed_ s then 1 else 0) bs);
    Ok (buf_ s) : outcome buffer).
  { unfold serialize_v1p. same_steps. }
  rewrite (fill_serializer junk (wire_v1p version s) _ (λ bs, bs ← put_u8 version bs;
    bs ← put_u64 (term_ s) bs; bs ← put_i32 (voted_for_ s) bs;
    put_u8 (if election_timer_allowed_ s then 1 else 0) bs)); [done| |done|done].
  unfold wire_v1p. wire_steps.
Qed.

Lemma deserialize_v0_wire s :
  srv_state_ok s →
  deserialize_v0 (cursor [] (wire_v0 s)) = Ok (SrvState (term_ s) (voted_for_ s) true None).
Proof.
  intros [Ht Hv]. unfold deserialize_v0, wire_v0.
  rewrite get_ulong_spec; [|by unfold fits; rewrite !length_app, !length_word_bytes|done].
  ok_bind.
  rewrite <- (app_nil_r (word_bytes 4 (voted_for_ s))) at 1.
  rewrite get_int_spec; [|by unfold fits; rewrite !length_app, !length_word_bytes|done].
  ok_bind. by rewrite word64_roundtrip, signed32_roundtrip.
Qed.

Lemma deserialize_v1p_wire version s :
  in_u 8 version → srv_state_ok s →
  deserialize_v1p (cursor [] (wire_v1p version s)) =
    Ok (SrvState (term_ s) (voted_for_ s) (election_timer_allowed_ s) None).
Proof.
  intros Hver [Ht Hv]. unfold deserialize_v1p. rewrite new_serializer_at.
  set (f := λ bs, '(_, bs) ← get_u8 bs; '(term, bs) ← get_u64 bs; '(voted_for, bs) ← get_i32 bs;
    '(et, bs) ← get_u8 bs; Ok (SrvState term voted_for (bool_decide (et = 1)) None, bs)).
  assert (reads (wire_v1p version s)
    (SrvState (term_ s) (voted_for_ s) (election_timer_allowed_ s) None) f) as Hr.
  { unfold f, wire_v1p. wire_steps.
    assert (in_u 8 (if election_timer_allowed_ s then 1 else 0)) as Het
      by (by destruct (election_timer_allowed_ s)).
    intros x y Hf. rewrite reads_u8 by done. ok_bind.
    by destruct (election_timer_allowed_ s). }
  specialize (Hr [] []). rewrite app_nil_r in Hr.
  assert (fits ([] ++ wire_v1p version s)) as Hf by done.
  specialize (Hr Hf).
  transitivity ('(s', _) ← f (at_pos LITTLE [] (wire_v1p version s)); Ok s' : outcome srv_state);
    [|by rewrite Hr].
  unfold f. repeat (rewrite ?bind_assoc; apply bind_ext; intros [? ?]). done.
Qed.
