(* ===== verification/RaftTypesThms.v ===== *)
(** * Theorems about the serializable Raft types

    Round trips of the cluster configuration and of a snapshot request, which
    contains a snapshot, which contains a configuration; the two formats of
    the server state; the growth of the term. *)
From S2P Require Import Prelude Bytes Buffer BufferSpec BufferSerializer Wire RaftTypes SrvState.
Local Open Scope Z_scope.

(** ** A small cluster, for the witnesses *)
Definition sample_config : cluster_config :=
  ClusterConfig 7 3 true "ctx"
    [SrvConfig 1 0 "10.0.0.1:9000" "aux" false 10; SrvConfig 2 (-1) "10.0.0.2:9000" "" true 0].

Lemma sample_config_ok : wire_ok sample_config.
Proof.
  split; [by vm_compute|]. split; [by vm_compute|].
  repeat constructor; try (by vm_compute); apply (bool_decide_unpack _); by vm_compute.
Qed.

Definition sample_snapshot : snapshot := Snapshot 100 5 4096 sample_config logical_object.

Lemma sample_snapshot_ok : wire_ok sample_snapshot.
Proof.
  split; [by vm_compute|]. split; [by vm_compute|]. split; [by vm_compute|].
  split; [by vm_compute|]. exact sample_config_ok.
Qed.

(** ** Round trips *)

(** What [cluster_config::deserialize] reads from the buffer that
    [cluster_config::serialize] returned, whatever the fresh memory held, is
    the configuration: the log indices, the replication flag, the user context
    and every server in order, provided its strings hold no NUL and its
    integers fit their types. *)
Theorem cluster_config_roundtrip (junk : nat → byte) (c : cluster_config) :
  wire_ok c → fits (wire c) →
  (m ← serialize_cluster_config junk c;
   '(c', _) ← deserialize_cluster_config (new_serializer m LITTLE); Ok c') = Ok c.
Proof. exact (wire_roundtrip junk c). Qed.

Example cluster_config_roundtrip_witness :
  wire_ok sample_config ∧ fits (wire sample_config) ∧
  (m ← serialize_cluster_config (λ _, Byte.xff) sample_config;
   '(c', _) ← deserialize_cluster_config (new_serializer m LITTLE); Ok c') = Ok sample_config.
Proof.
  split; [exact sample_config_ok|]. split; [by vm_compute|].
  apply (cluster_config_roundtrip (λ _, Byte.xff)); [exact sample_config_ok|by vm_compute].
Defined.

Lemma deserialize_sync_req_wire junk r data :
  wire_ok (snapshot_ r) → in_u 64 (offset_ r) → fits (wire_snapshot_sync_req r data) →
  deserialize_snapshot_sync_req junk (at_pos LITTLE [] (wire_snapshot_sync_req r data)) =
    Ok (SnapshotSyncReq (snapshot_ r) (offset_ r) (cursor [] data) (done_ r)).
Proof.
  intros Hs Ho Hf. unfold deserialize_snapshot_sync_req.
  set (w := wire (snapshot_ r) ++ word_bytes 8 (offset_ r) ++ [bool_byte (done_ r)]).
  assert (wire_snapshot_sync_req r data = w ++ data) as Hw
    by (unfold wire_snapshot_sync_req, w; by rewrite <- !app_assoc).
  assert (fits data) as Hfd by (unfold fits in *; rewrite Hw, length_app in Hf; lia).
  unfold wire_snapshot_sync_req in Hf |- *.
  rewrite (reads_wire (snapshot_ r)) by done. ok_bind.
  rewrite app_nil_l in *. rewrite reads_u64 by done. ok_bind.
  rewrite reads_bool by (rewrite <- !app_assoc; done). ok_bind.
  rewrite <- !app_assoc. fold w.
  assert (fits (w ++ data)) as Hfw by by rewrite <- Hw.
  assert (bool_decide (Z.b2z (done_ r) = 1) = done_ r) as -> by by destruct (done_ r).
  unfold ser_size. rewrite at_pos_size by done. ok_bind.
  change (pos_ (at_pos LITTLE w data)) with (Z.of_nat (length w)). clearbody w.
  rewrite length_app.
  assert (u64 (Z.of_nat (length w + length data) - Z.of_nat (length w)) = Z.of_nat (length data)) as ->.
  { unfold fits in Hfd. rewrite wrap_u_id by range. lia. }
  case_decide as Hlt.
  - rewrite alloc_spec by (unfold fits in Hfd; lia). ok_bind.
    pose proof (at_pos_load LITTLE w data [] (Z.of_nat (length data))) as Hl.
    rewrite !app_nil_r in Hl. rewrite Hl by done. ok_bind. rewrite Nat2Z.id.
    pose proof (cursor_store [] (junk <$> seq 0 (length data)) data []) as Hst.
    rewrite !app_nil_r in Hst. rewrite Hst; [done| |by rewrite length_fmap, length_seq].
    unfold fits. simpl. by rewrite length_fmap, length_seq.
  - destruct data; [done|]. simpl length in Hlt. lia.
Qed.

(** A snapshot request read from its serialization has the snapshot with
    its configuration, the offset and the last-chunk flag that were written,
    and a buffer, its cursor at the start, with exactly the bytes that were
    left of the data from its cursor on; an empty rest gives an empty buffer. *)
Theorem snapshot_sync_req_roundtrip (junk junk' : nat → byte) (r : snapshot_sync_req)
    (before data : list byte) :
  wire_ok (snapshot_ r) → in_u 64 (offset_ r) → data_ r = cursor before data →
  fits (before ++ data) → fits (wire_snapshot_sync_req r data) →
  (m ← serialize_snapshot_sync_req junk r;
   deserialize_snapshot_sync_req junk' (new_serializer m LITTLE)) =
    Ok (SnapshotSyncReq (snapshot_ r) (offset_ r) (cursor [] data) (done_ r)).
Proof.
  intros Hs Ho Hd Hfd Hf. rewrite (serialize_sync_req_wire junk r before data) by done.
  ok_bind. by apply deserialize_sync_req_wire.
Qed.

Example snapshot_sync_req_roundtrip_witness :
  let data := [Byte.x01; Byte.x00; Byte.xff] in
  let r := SnapshotSyncReq sample_snapshot 12 (cursor [Byte.x09] data) true in
  (m ← serialize_snapshot_sync_req (λ _, Byte.xff) r;
   deserialize_snapshot_sync_req (λ _, Byte.xaa) (new_serializer m LITTLE)) =
    Ok (SnapshotSyncReq sample_snapshot 12 (cursor [] data) true).
Proof.
  intros data r.
  apply (snapshot_sync_req_roundtrip _ _ r [Byte.x09] data);
    [exact sample_snapshot_ok|by vm_compute..].
Defined.

(** [srv_state::deserialize] reads both formats, which it tells apart by
    their size: from the current one it gets the term, the vote and the
    election timer flag back, whatever the version byte; from the first one
    the term and the vote, with the election timer allowed. *)
Theorem srv_state_formats (junk : nat → byte) (version : Z) (s : srv_state) :
  in_u 8 version → srv_state_ok s →
  (m ← serialize_v1p junk version s; deserialize_srv_state m) =
    Ok (SrvState (term_ s) (voted_for_ s) (election_timer_allowed_ s) None) ∧
  (m ← serialize_v0 junk s; deserialize_srv_state m) =
    Ok (SrvState (term_ s) (voted_for_ s) true None).
Proof.
  intros Hver Hok. rewrite serialize_v1p_wire, serialize_v0_wire. ok_bind.
  unfold deserialize_srv_state. rewrite !cursor_size by done. ok_bind.
  split.
  - rewrite decide_True by done. by apply deserialize_v1p_wire.
  - rewrite decide_False by done. by apply deserialize_v0_wire.
Qed.

Example srv_state_formats_witness :
  let s := SrvState 0x123456789abc (-1) false None in
  (m ← serialize_v1p (λ _, Byte.xff) 1 s; deserialize_srv_state m) = Ok s ∧
  (m ← serialize_v0 (λ _, Byte.xff) s; deserialize_srv_state m) =
    Ok (allow_election_timer true s).
Proof. intros s. apply (srv_state_formats (λ _, Byte.xff) 1 s); by vm_compute. Defined.

(** The term only grows: [inc_term] stores a greater term, or fails its
    assertion when the callback does not give one; without a callback the term
    goes up by one, and wraps to 0 from the last 64-bit value only. *)
Theorem inc_term_grows (s : srv_state) :
  in_u 64 (term_ s) →
  match inc_term s with
  | Ok s' =>
      voted_for_ s' = voted_for_ s ∧
      (term_ s < term_ s' ∨ inc_term_cb_ s = None ∧ term_ s = 2 ^ 64 - 1 ∧ term_ s' = 0)
  | Fault f =>
      f = Exn assertion_failed ∧ ∃ cb, inc_term_cb_ s = Some cb ∧ cb (term_ s) ≤ term_ s
  end.
Proof.
  intros Ht. unfold inc_term. destruct (inc_term_cb_ s) as [cb|].
  - case_decide as Hlt; simpl; [by auto|]. split; [done|]. exists cb. split; [done|lia].
  - simpl. split; [done|]. destruct (decide (term_ s = 2 ^ 64 - 1)) as [->|].
    + by right.
    + left. rewrite wrap_u_id by range. lia.
Qed.

Example inc_term_grows_witness :
  let s := SrvState 41 2 true (Some (λ t, t + 10)) in
  inc_term s = Ok (set_term 51 s) ∧
  match inc_term s with
  | Ok s' =>
      voted_for_ s' = voted_for_ s ∧
      (term_ s < term_ s' ∨ inc_term_cb_ s = None ∧ term_ s = 2 ^ 64 - 1 ∧ term_ s' = 0)
  | Fault f =>
      f = Exn assertion_failed ∧ ∃ cb, inc_term_cb_ s = Some cb ∧ cb (term_ s) ≤ term_ s
  end.
Proof. intros s. split; [done|]. apply (inc_term_grows s). by vm_compute. Defined.
