(* ===== verification/LogEntry.v ===== *)
(** * nuraft::log_entry: an entry of the Raft log

    libs/nuraft/include/libnuraft/log_entry.hxx and src/log_entry.cxx.  An
    entry points to its payload; serializing the entry moves the cursor of that
    payload, so [serialize_log_entry] returns the entry too.  What the stored
    entries are, and what an entry keeps through its serialization, follows the
    model. *)
From S2P Require Import Prelude Bytes Buffer BufferSpec Crc32 BufferSerializer Wire RaftTypes.
Local Open Scope Z_scope.

(** [enum log_val_type : byte] *)
Abbreviation log_val_type := byte.
Definition app_log : log_val_type := byte_of_Z 1.
Definition conf : log_val_type := byte_of_Z 2.
Definition cluster_server : log_val_type := byte_of_Z 3.
Definition log_pack : log_val_type := byte_of_Z 4.
Definition snp_sync_req : log_val_type := byte_of_Z 5.
Definition custom : log_val_type := byte_of_Z 231.

Record log_entry := LogEntry {
  term_ : Z;
  value_type_ : log_val_type;
  buff_ : option buffer;
  timestamp_us_ : Z;
  has_crc32_ : bool;
  crc32_ : Z
}.

(** [crc32_8(buff->data_begin(), buff->size(), 0)] *)
Definition payload_crc (buff : buffer) : outcome Z :=
  start ← entire_data_of_block buff;
  sz ← size buff;
  data ← load start sz buff;
  Ok (crc32_8 data 0).

Definition new_log_entry (term : Z) (buff : option buffer) (value_type : log_val_type)
    (log_timestamp : Z) (has_crc32 : bool) (crc32 : Z) (compute_crc : bool) : outcome log_entry :=
  match buff with
  | Some b =>
      if negb has_crc32 && compute_crc then
        crc ← payload_crc b;
        Ok (LogEntry term value_type buff log_timestamp true crc)
      else Ok (LogEntry term value_type buff log_timestamp has_crc32 crc32)
  | None => Ok (LogEntry term value_type buff log_timestamp has_crc32 crc32)
  end.

Definition get_buf (e : log_entry) : outcome buffer :=
  match buff_ e with
  | Some b => Ok b
  | None => throw (runtime_error "get_buf cannot be called for a log_entry with nil buffer")
  end.

Definition with_buff (b : buffer) (e : log_entry) : log_entry :=
  LogEntry (term_ e) (value_type_ e) (Some b) (timestamp_us_ e) (has_crc32_ e) (crc32_ e).

Definition serialize_log_entry (junk : nat → byte) (e : log_entry) :
    outcome (buffer * log_entry) :=
  buff ← or_ub NullPointer (buff_ e);
  buff ← set_pos 0 buff;
  sz ← size buff;
  buf ← alloc junk (8 + 1 + sz);
  buf ← put_ulong (term_ e) buf;
  buf ← put_byte (value_type_ e) buf;
  buf ← put_buffer buff buf;
  buf ← set_pos 0 buf;
  Ok (buf, with_buff buff e).

Definition deserialize_log_entry (junk : nat → byte) (buf : buffer) : outcome log_entry :=
  '(term, buf) ← get_ulong buf;
  '(t, buf) ← get_byte buf;
  data ← copy junk buf;
  new_log_entry term (Some data) t 0 false 0 true.

Definition term_in_buffer (buf : buffer) : outcome (Z * buffer) :=
  '(term, buf) ← get_ulong buf;
  buf ← set_pos 0 buf;
  Ok (term, buf).

(** ** Entries by their contents

    [entry_data] is an entry with the bytes of its payload; [to_entry] is the
    entry whose payload has its cursor at the start, as in the log store. *)
Record entry_data := EntryData {
  e_term : Z;
  e_type : log_val_type;
  e_payload : list byte;
  e_timestamp : Z;
  e_has_crc : bool;
  e_crc : Z
}.

Definition to_entry (d : entry_data) : log_entry :=
  LogEntry (e_term d) (e_type d) (Some (cursor [] (e_payload d))) (e_timestamp d)
    (e_has_crc d) (e_crc d).

(** The entry holds the data, wherever the cursor of its payload is. *)
Definition entry_holds (e : log_entry) (d : entry_data) : Prop :=
  ∃ b a, e_payload d = b ++ a ∧ fits (e_payload d) ∧
    e = LogEntry (e_term d) (e_type d) (Some (cursor b a)) (e_timestamp d) (e_has_crc d) (e_crc d).

(** An entry that goes through its serialization: the timestamp is dropped and
    the checksum is computed anew. *)
Definition renewed (d : entry_data) : entry_data :=
  EntryData (e_term d) (e_type d) (e_payload d) 0 true (crc32_8 (e_payload d) 0).

Definition wire_entry (d : entry_data) : list byte :=
  word_bytes 8 (e_term d) ++ [e_type d] ++ e_payload d.

Lemma to_entry_holds d : fits (e_payload d) → entry_holds (to_entry d) d.
Proof. intros Hf. by exists [], (e_payload d). Qed.

Lemma length_wire_entry d : length (wire_entry d) = (9 + length (e_payload d))%nat.
Proof. done. Qed.

Lemma payload_crc_cursor b a : fits (b ++ a) → payload_crc (cursor b a) = Ok (crc32_8 (b ++ a) 0).
Proof.
  intros Hf. unfold payload_crc. rewrite cursor_entire by done. ok_bind.
  rewrite cursor_size by done. ok_bind. unfold cursor.
  pose proof (load_app (header (Z.of_nat (length (b ++ a))) (Z.of_nat (length b))) (b ++ a) []) as Hl.
  rewrite app_nil_r in Hl. by rewrite Hl.
Qed.

Lemma serialize_log_entry_wire junk e d :
  entry_holds e d → fits (wire_entry d) →
  serialize_log_entry junk e = Ok (cursor [] (wire_entry d), to_entry d).
Proof.
  intros (b & a & Hp & Hf & ->) Hw. unfold serialize_log_entry. cbn [or_ub buff_ mbind outcome_bind].
  rewrite Hp in Hf. rewrite (cursor_set_pos b a [] (b ++ a)) by done. ok_bind.
  rewrite cursor_size by done. ok_bind. simpl term_. simpl value_type_.
  rewrite app_nil_l, <- Hp.
  transitivity (m ← (m ← alloc junk (8 + 1 + Z.of_nat (length (e_payload d)));
      m ← (m ← put_ulong (e_term d) m; m ← put_byte (e_type d) m;
           put_buffer (cursor [] (e_payload d)) m); set_pos 0 m);
    Ok (m, to_entry d) : outcome (buffer * log_entry)).
  { same_steps. }
  rewrite (fill_buffer junk (wire_entry d)); [done|..|done|].
  - unfold wire_entry. wire_steps. apply writes_buffer. by rewrite Hp.
  - rewrite length_wire_entry. lia.
Qed.

Lemma deserialize_log_entry_wire junk d :
  in_u 64 (e_term d) → fits (wire_entry d) →
  deserialize_log_entry junk (cursor [] (wire_entry d)) = Ok (to_entry (renewed d)).
Proof.
  intros Ht Hf. unfold deserialize_log_entry, wire_entry in *.
  rewrite get_ulong_spec by done. ok_bind.
  rewrite word64_roundtrip by done. rewrite app_nil_l. change ([e_type d] ++ e_payload d) with (e_type d :: e_payload d).
  rewrite get_byte_spec by done. ok_bind.
  rewrite copy_spec by (by rewrite <- app_assoc). ok_bind.
  unfold new_log_entry. simpl negb. simpl andb. cbv match.
  rewrite payload_crc_cursor; [done|]. unfold fits in *. rewrite !length_app in Hf. simpl in *. lia.
Qed.

(** What [make_clone] of the log store does with an entry. *)
Lemma clone_entry_holds junk e d :
  entry_holds e d →
  (b ← get_buf e; b ← clone junk b;
   new_log_entry (LogEntry.term_ e) (Some b) (value_type_ e) (timestamp_us_ e) (has_crc32_ e)
     (crc32_ e) false) = Ok (to_entry d).
Proof.
  intros (b & a & Hp & Hf & ->). cbn [get_buf buff_ mbind outcome_bind].
  rewrite clone_spec by (by rewrite <- Hp). ok_bind.
  unfold new_log_entry. rewrite andb_false_r. by rewrite <- Hp.
Qed.
