(* ===== verification/LogStore.v ===== *)
(** * inmem_log_store: the Raft log in memory

    src/raft/in_memory_log_store.{hxx,cc}.  [logs_] is a [std::map] from the
    index to a pointer to the entry, [None] being the null pointer; index 0
    holds a dummy entry.  Every operation runs as one step, as it does under
    [logs_lock_]; [junk] is what fresh memory holds and [cur_time] the clock in
    microseconds. *)
From S2P Require Import Prelude Bytes Buffer BufferSpec LogEntry RaftTypes.
Local Open Scope Z_scope.

Record log_store := LogStore {
  logs_ : gmap Z (option log_entry);
  start_idx_ : Z;
  disk_emul_delay : Z;
  disk_emul_logs_being_written_ : gmap Z Z;
  disk_emul_last_durable_index_ : Z
}.

Definition with_logs (logs : gmap Z (option log_entry)) (s : log_store) : log_store :=
  LogStore logs (start_idx_ s) (disk_emul_delay s) (disk_emul_logs_being_written_ s)
    (disk_emul_last_durable_index_ s).
Definition with_start (start : Z) (s : log_store) : log_store :=
  LogStore (logs_ s) start (disk_emul_delay s) (disk_emul_logs_being_written_ s)
    (disk_emul_last_durable_index_ s).
Definition with_written (w : gmap Z Z) (s : log_store) : log_store :=
  LogStore (logs_ s) (start_idx_ s) (disk_emul_delay s) w (disk_emul_last_durable_index_ s).
Definition with_durable (i : Z) (s : log_store) : log_store :=
  LogStore (logs_ s) (start_idx_ s) (disk_emul_delay s) (disk_emul_logs_being_written_ s) i.

Definition map_size {A} (m : gmap Z A) : Z := Z.of_nat (stdpp.base.size m).

(** ** Iteration over a std::map

    An iterator is the keys from it on, in order; [end()] is []. *)
Definition sorted_keys {A} (m : gmap Z A) : list Z := merge_sort (≤) (map_to_list m).*1.
Definition lower_bound {A} (i : Z) (m : gmap Z A) : list Z := filter (λ k, i ≤ k) (sorted_keys m).
Definition upper_bound {A} (i : Z) (m : gmap Z A) : list Z := filter (λ k, i < k) (sorted_keys m).

(** [while (itr != end()) itr = erase(itr);] *)
Fixpoint erase_rest {A} (itr : list Z) (m : gmap Z A) : gmap Z A :=
  match itr with [] => m | k :: itr => erase_rest itr (delete k m) end.

(** [find(i)], and [find(0)] when it is not there; dereferenced. *)
Definition find_or_dummy (i : Z) (s : log_store) : outcome (option log_entry) :=
  match logs_ s !! i with
  | Some e => Ok e
  | None => or_ub DanglingIterator (logs_ s !! 0)
  end.

(** The same with [assert(0)] when it is not there. *)
Definition find_asserted (i : Z) (s : log_store) : outcome (option log_entry) :=
  match logs_ s !! i with
  | Some e => Ok e
  | None => throw assertion_failed
  end.

Definition make_clone (junk : nat → byte) (entry : option log_entry) : outcome log_entry :=
  e ← or_ub NullPointer entry;
  b ← get_buf e;
  b ← clone junk b;
  new_log_entry (term_ e) (Some b) (value_type_ e) (timestamp_us_ e) (has_crc32_ e) (crc32_ e) false.

(** ** The operations *)
Definition new_log_store (junk : nat → byte) : outcome log_store :=
  buf ← alloc junk sz_ulong;
  e ← new_log_entry 0 (Some buf) app_log 0 false 0 true;
  Ok (LogStore {[ 0 := Some e ]} 1 0 ∅ 0).

Definition next_slot (s : log_store) : Z := u64 (start_idx_ s + map_size (logs_ s) - 1).
Definition start_index (s : log_store) : Z := start_idx_ s.

Definition last_entry (junk : nat → byte) (s : log_store) : outcome log_entry :=
  e ← find_or_dummy (u64 (next_slot s - 1)) s;
  make_clone junk e.

Definition append (junk : nat → byte) (cur_time : Z) (entry : option log_entry) (s : log_store) :
    outcome (Z * log_store) :=
  clone ← make_clone junk entry;
  let idx := u64 (start_idx_ s + map_size (logs_ s) - 1) in
  let s := with_logs (<[idx := Some clone]> (logs_ s)) s in
  let s :=
    if decide (disk_emul_delay s = 0) then s
    else with_written
           (<[u64 (cur_time + disk_emul_delay s * 1000) := idx]> (disk_emul_logs_being_written_ s)) s in
  Ok (idx, s).

(** The loop over [disk_emul_logs_being_written_]. *)
Fixpoint erase_greater (index : Z) (itr : list Z) (m : gmap Z Z) : gmap Z Z :=
  match itr with
  | [] => m
  | t :: itr =>
      match m !! t with
      | Some i => erase_greater index itr (if decide (i > index) then delete t m else m)
      | None => m
      end
  end.

Definition write_at (junk : nat → byte) (cur_time : Z) (index : Z) (entry : option log_entry)
    (s : log_store) : outcome log_store :=
  clone ← make_clone junk entry;
  let logs := erase_rest (lower_bound index (logs_ s)) (logs_ s) in
  let s := with_logs (<[index := Some clone]> logs) s in
  Ok (if decide (disk_emul_delay s = 0) then s
      else
        let w := <[u64 (cur_time + disk_emul_delay s * 1000) := index]>
                   (disk_emul_logs_being_written_ s) in
        with_written (erase_greater index (sorted_keys w) w) s).

(** [ret->at(cc++) = make_clone(src)], for [n] indices from [ii] on. *)
Fixpoint log_entries_loop (junk : nat → byte) (n : nat) (ii : Z) (cc : nat)
    (ret : list (option log_entry)) (s : log_store) : outcome (list (option log_entry)) :=
  match n with
  | O => Ok ret
  | S n =>
      src ← find_asserted ii s;
      e ← make_clone junk src;
      log_entries_loop junk n (ii + 1) (S cc) (<[cc := Some e]> ret) s
  end.

(** [max_size()] of a vector of 16-byte pointers. *)
Definition vector_max_size : Z := 2 ^ 59 - 1.

Definition log_entries (junk : nat → byte) (start end_ : Z) (s : log_store) :
    outcome (list (option log_entry)) :=
  let n := u64 (end_ - start) in
  if decide (vector_max_size < n) then throw (length_error "vector::_M_default_append")
  else log_entries_loop junk (Z.to_nat (end_ - start)) start 0 (replicate (Z.to_nat n) None) s.

Fixpoint log_entries_ext_loop (junk : nat → byte) (hint : Z) (n : nat) (ii accum_size : Z)
    (ret : list log_entry) (s : log_store) : outcome (list log_entry) :=
  match n with
  | O => Ok ret
  | S n =>
      src ← find_asserted ii s;
      e ← make_clone junk src;
      src ← or_ub NullPointer src;
      b ← get_buf src;
      sz ← size b;
      let accum_size := u64 (accum_size + sz) in
      if decide (hint ≠ 0 ∧ u64 hint ≤ accum_size) then Ok (ret ++ [e])
      else log_entries_ext_loop junk hint n (ii + 1) accum_size (ret ++ [e]) s
  end.

Definition log_entries_ext (junk : nat → byte) (start end_ batch_size_hint_in_bytes : Z)
    (s : log_store) : outcome (list log_entry) :=
  if decide (batch_size_hint_in_bytes < 0) then Ok []
  else
    log_entries_ext_loop junk batch_size_hint_in_bytes (Z.to_nat (end_ - start)) start 0 [] s.

Definition entry_at (junk : nat → byte) (index : Z) (s : log_store) : outcome log_entry :=
  src ← find_or_dummy index s;
  make_clone junk src.

Definition term_at (index : Z) (s : log_store) : outcome Z :=
  src ← find_or_dummy index s;
  e ← or_ub NullPointer src;
  Ok (term_ e).

(** The buffers of [n] entries from [ii] on, and the sum of their sizes; the
    serialized entries have their cursors moved. *)
Fixpoint pack_loop (junk : nat → byte) (n : nat) (ii : Z) (s : log_store) :
    outcome (list buffer * Z * log_store) :=
  match n with
  | O => Ok ([], 0, s)
  | S n =>
      match logs_ s !! ii with
      | Some (Some le) =>
          '(buf, le) ← serialize_log_entry junk le;
          sz ← size buf;
          '(bufs, szs, s) ← pack_loop junk n (ii + 1) (with_logs (<[ii := Some le]> (logs_ s)) s);
          Ok (buf :: bufs, sz + szs, s)
      | _ => throw assertion_failed
      end
  end.

Fixpoint put_packed (bufs : list buffer) (m : buffer) : outcome buffer :=
  match bufs with
  | [] => Ok m
  | bb :: bufs =>
      sz ← size bb;
      m ← put_int32 (i32 sz) m;
      m ← put_buffer bb m;
      put_packed bufs m
  end.

Definition pack (junk : nat → byte) (index cnt : Z) (s : log_store) :
    outcome (buffer * log_store) :=
  '(logs, size_total, s) ← pack_loop junk (Z.to_nat (u64 (index + cnt) - index)) index s;
  buf_out ← alloc junk (u64 (4 + cnt * 4 + size_total));
  buf_out ← set_pos 0 buf_out;
  buf_out ← put_int32 cnt buf_out;
  buf_out ← put_packed logs buf_out;
  Ok (buf_out, s).

Fixpoint apply_pack_loop (junk : nat → byte) (n : nat) (cur_idx : Z) (pack : buffer)
    (s : log_store) : outcome (buffer * log_store) :=
  match n with
  | O => Ok (pack, s)
  | S n =>
      '(buf_size, pack) ← get_int pack;
      buf_local ← alloc junk (u64 buf_size);
      '(buf_local, pack) ← get_buffer buf_local pack;
      le ← deserialize_log_entry junk buf_local;
      apply_pack_loop junk n (u64 (cur_idx + 1)) pack
        (with_logs (<[cur_idx := Some le]> (logs_ s)) s)
  end.

Definition apply_pack (junk : nat → byte) (index : Z) (pack : buffer) (s : log_store) :
    outcome (buffer * log_store) :=
  pack ← set_pos 0 pack;
  '(num_logs, pack) ← get_int pack;
  '(pack, s) ← apply_pack_loop junk (Z.to_nat num_logs) index pack s;
  Ok (pack, with_start (match upper_bound 0 (logs_ s) with k :: _ => k | [] => 1 end) s).

(** [for (ii = start_idx_; ii <= last_log_index; ++ii)], [ii] a [ulong]. *)
Fixpoint compact_loop (fuel : nat) (ii last_log_index : Z) (logs : gmap Z (option log_entry)) :
    outcome (gmap Z (option log_entry)) :=
  match fuel with
  | O => Fault OutOfFuel
  | S fuel =>
      if decide (ii ≤ last_log_index) then
        compact_loop fuel (u64 (ii + 1)) last_log_index (delete ii logs)
      else Ok logs
  end.

Definition compact (fuel : nat) (last_log_index : Z) (s : log_store) : outcome log_store :=
  logs ← compact_loop fuel (start_idx_ s) last_log_index (logs_ s);
  let s := with_logs logs s in
  Ok (if decide (start_idx_ s ≤ last_log_index) then with_start (u64 (last_log_index + 1)) s else s).

Definition flush (s : log_store) : log_store := with_durable (u64 (next_slot s - 1)) s.

Definition last_durable_index (s : log_store) : Z :=
  let last_log := u64 (next_slot s - 1) in
  if decide (disk_emul_delay s = 0) then last_log else disk_emul_last_durable_index_ s.

(** The state [set_disk_delay] changes. *)
Definition set_disk_delay (delay_ms : Z) (s : log_store) : log_store :=
  LogStore (logs_ s) (start_idx_ s) delay_ms (disk_emul_logs_being_written_ s)
    (disk_emul_last_durable_index_ s).

(** One turn of [disk_emul_loop] at [cur_time]: the store, whether the Raft
    server is notified, and the next sleep in microseconds. *)
Fixpoint disk_emul_writes (cur_time : Z) (itr : list Z) (call_notification : bool)
    (s : log_store) : log_store * bool :=
  match itr with
  | [] => (s, call_notification)
  | t :: itr =>
      match disk_emul_logs_being_written_ s !! t with
      | Some i =>
          if decide (t ≤ cur_time) then
            disk_emul_writes cur_time itr true
              (with_written (delete t (disk_emul_logs_being_written_ s)) (with_durable i s))
          else (s, call_notification)
      | None => (s, call_notification)
      end
  end.

Definition disk_emul_turn (cur_time : Z) (s : log_store) : log_store * bool * Z :=
  let '(s, call_notification) :=
    disk_emul_writes cur_time (sorted_keys (disk_emul_logs_being_written_ s)) false s in
  let next_sleep_us :=
    match sorted_keys (disk_emul_logs_being_written_ s) with
    | t :: _ => u64 (t - cur_time)
    | [] => 100 * 1000
    end in
  (s, call_notification, next_sleep_us).
