(* ===== verification/LogStoreSpec.v ===== *)
(** * The log a log store represents

    A log is its first index and its entries.  [represents s first ds] says
    that the store [s] holds the dummy entry at index 0, entry [i] of [ds] at
    index [first + i], and nothing else.  Each operation of the store, on its
    branches, in terms of the log. *)
From S2P Require Import Prelude Bytes Buffer BufferSpec BufferSerializer Wire RaftTypes LogEntry.
From S2P Require Import Crc32 LogStore.
Local Open Scope Z_scope.

Definition index_map (first : Z) (ds : list entry_data) : gmap Z (option log_entry) :=
  map_seqZ first ((λ d, Some (to_entry d)) <$> ds).

(** The dummy entry at index 0, whose payload is eight bytes of fresh memory. *)
Definition dummy_entry (junk : nat → byte) : entry_data :=
  let payload := junk <$> seq 0 8 in
  EntryData 0 app_log payload 0 true (crc32_8 payload 0).

Definition payload_ok (d : entry_data) : Prop := fits (wire_entry d).

Record represents (junk : nat → byte) (s : log_store) (first : Z) (ds : list entry_data) : Prop := {
  rep_logs : logs_ s = <[0 := Some (to_entry (dummy_entry junk))]> (index_map first ds);
  rep_start : start_idx_ s = first;
  rep_first : 1 ≤ first;
  rep_room : first + Z.of_nat (length ds) < 2 ^ 64;
  rep_payloads : Forall payload_ok ds
}.

(** The entry of a log at an index, the dummy entry outside it. *)
Definition log_lookup (first : Z) (ds : list entry_data) (i : Z) : option entry_data :=
  if decide (first ≤ i) then ds !! Z.to_nat (i - first) else None.

Lemma payload_ok_fits d : payload_ok d → fits (e_payload d).
Proof. unfold payload_ok, fits. rewrite length_wire_entry. lia. Qed.

Lemma dummy_payload_ok junk : payload_ok (dummy_entry junk).
Proof. by unfold payload_ok, fits. Qed.

(** ** The map of a log *)
Lemma index_map_lookup first ds i :
  index_map first ds !! i = (λ d, Some (to_entry d)) <$> log_lookup first ds i.
Proof.
  unfold index_map, log_lookup. rewrite lookup_map_seqZ. case_decide.
  - rewrite option_guard_True by done. by rewrite list_lookup_fmap.
  - by rewrite option_guard_False.
Qed.

Lemma index_map_None first ds i :
  i < first ∨ first + Z.of_nat (length ds) ≤ i → index_map first ds !! i = None.
Proof.
  intros Hi. rewrite index_map_lookup. unfold log_lookup. case_decide; [|done].
  rewrite lookup_ge_None_2; [done|lia].
Qed.

Lemma map_size_insert {A} (m : gmap Z A) i x :
  m !! i = None → map_size (<[i := x]> m) = map_size m + 1.
Proof. intros Hi. unfold map_size. rewrite map_size_insert_None by done. lia. Qed.

Lemma index_map_size first ds : map_size (index_map first ds) = Z.of_nat (length ds).
Proof.
  revert first. induction ds as [|d ds IH]; intros first; [done|].
  unfold index_map in *. rewrite fmap_cons, map_seqZ_cons, map_size_insert, IH; [simpl; lia|].
  apply map_seqZ_cons_disjoint.
Qed.

Lemma index_map_snoc first ds d :
  index_map first (ds ++ [d]) =
    <[first + Z.of_nat (length ds) := Some (to_entry d)]> (index_map first ds).
Proof.
  unfold index_map. rewrite fmap_app. rewrite (map_seqZ_snoc first _ (Some (to_entry d))).
  by rewrite length_fmap.
Qed.

(** ** Iteration *)
Lemma elem_of_sorted_keys {A} (m : gmap Z A) k : k ∈ sorted_keys m ↔ is_Some (m !! k).
Proof.
  unfold sorted_keys. rewrite merge_sort_Permutation, list_elem_of_fmap. split.
  - intros ([k' x] & -> & Hx%elem_of_map_to_list). by exists x.
  - intros [x Hx]. exists (k, x). split; [done|]. by apply elem_of_map_to_list.
Qed.

Lemma sorted_keys_NoDup {A} (m : gmap Z A) : NoDup (sorted_keys m).
Proof. unfold sorted_keys. rewrite merge_sort_Permutation. apply NoDup_fst_map_to_list. Qed.

Lemma sorted_keys_sorted {A} (m : gmap Z A) : StronglySorted Z.le (sorted_keys m).
Proof. apply (StronglySorted_merge_sort _). Qed.

Lemma erase_rest_lookup {A} itr (m : gmap Z A) k :
  erase_rest itr m !! k = if decide (k ∈ itr) then None else m !! k.
Proof.
  revert m. induction itr as [|i itr IH]; intros m; cbn [erase_rest].
  - rewrite decide_False; [done|]. apply not_elem_of_nil.
  - rewrite IH. destruct (decide (k = i)) as [->|Hne].
    + rewrite lookup_delete_eq, (decide_True (P := i ∈ i :: itr)) by left. by case_decide.
    + rewrite lookup_delete_ne by done. apply decide_ext. rewrite elem_of_cons. tauto.
Qed.

(** The loop of [write_at] erases the indices from [index] on. *)
Lemma erase_from_lookup {A} index (m : gmap Z A) k :
  erase_rest (lower_bound index m) m !! k = if decide (index ≤ k) then None else m !! k.
Proof.
  rewrite erase_rest_lookup. unfold lower_bound.
  destruct (decide (k ∈ _)) as [[? ?]%list_elem_of_filter|Hn].
  - by rewrite decide_True.
  - case_decide; [|done]. destruct (m !! k) eqn:E; [|done]. destruct Hn.
    apply list_elem_of_filter. split; [done|]. apply elem_of_sorted_keys. by rewrite E.
Qed.

(** [upper_bound(0)] is the smallest positive key. *)
Lemma upper_bound_min {A} (m : gmap Z A) i k :
  i < k → is_Some (m !! k) → (∀ j, i < j → is_Some (m !! j) → k ≤ j) →
  head (upper_bound i m) = Some k.
Proof.
  intros Hk Hm Hmin. unfold upper_bound.
  assert (k ∈ filter (λ k, i < k) (sorted_keys m)) as Hin.
  { apply list_elem_of_filter. split; [done|]. by apply elem_of_sorted_keys. }
  assert (∀ j, j ∈ filter (λ k, i < k) (sorted_keys m) → k ≤ j) as Hle.
  { intros j [Hj Hjm%elem_of_sorted_keys]%list_elem_of_filter. by apply Hmin. }
  assert (StronglySorted Z.le (filter (λ k, i < k) (sorted_keys m))) as Hs
    by apply StronglySorted_filter, sorted_keys_sorted.
  destruct (filter _ _) as [|j l]; [by apply not_elem_of_nil in Hin|].
  simpl. f_equal. apply StronglySorted_inv in Hs as [_ Hs].
  apply elem_of_cons in Hin as [->|Hin]; [done|].
  pose proof (Hle j ltac:(left)). pose proof (proj1 (Forall_forall _ _) Hs k) as Hjk.
  apply Z.le_antisymm; [|done]. by apply Hjk.
Qed.

(** ** The store and the log *)
Section operations.
Context (junk : nat → byte).
Implicit Types (s : log_store) (d : entry_data) (ds : list entry_data).

Lemma make_clone_holds e d : entry_holds e d → make_clone junk (Some e) = Ok (to_entry d).
Proof. apply clone_entry_holds. Qed.

Lemma make_clone_stored d : payload_ok d → make_clone junk (Some (to_entry d)) = Ok (to_entry d).
Proof. intros Hd. by apply make_clone_holds, to_entry_holds, payload_ok_fits. Qed.

Lemma log_lookup_in first ds i :
  first ≤ i < first + Z.of_nat (length ds) → ∃ d, log_lookup first ds i = Some d ∧ d ∈ ds.
Proof.
  intros Hi. unfold log_lookup. rewrite decide_True by lia.
  destruct (lookup_lt_is_Some_2 ds (Z.to_nat (i - first))) as [d Hd]; [lia|].
  exists d. split; [done|]. by apply list_elem_of_lookup_2 in Hd.
Qed.

Lemma log_lookup_elem first ds i d : log_lookup first ds i = Some d → d ∈ ds.
Proof. unfold log_lookup. case_decide; [|done]. by intros ?%list_elem_of_lookup_2. Qed.

Lemma log_lookup_nat first ds k : log_lookup first ds (first + Z.of_nat k) = ds !! k.
Proof. unfold log_lookup. rewrite decide_True by lia. f_equal. lia. Qed.

Lemma rep_zero s first ds :
  represents junk s first ds → logs_ s !! 0 = Some (Some (to_entry (dummy_entry junk))).
Proof. intros Hr. rewrite (rep_logs _ _ _ _ Hr). apply lookup_insert_eq. Qed.

Lemma rep_lookup s first ds i :
  represents junk s first ds → 0 < i →
  logs_ s !! i = (λ d, Some (to_entry d)) <$> log_lookup first ds i.
Proof.
  intros Hr Hi. rewrite (rep_logs _ _ _ _ Hr), lookup_insert_ne by lia. apply index_map_lookup.
Qed.

Lemma rep_size s first ds :
  represents junk s first ds → map_size (logs_ s) = Z.of_nat (length ds) + 1.
Proof.
  intros Hr. rewrite (rep_logs _ _ _ _ Hr), map_size_insert, index_map_size; [done|].
  apply index_map_None. pose proof (rep_first _ _ _ _ Hr). lia.
Qed.

Lemma rep_next_slot s first ds :
  represents junk s first ds → next_slot s = first + Z.of_nat (length ds).
Proof.
  intros Hr. unfold next_slot. rewrite (rep_size s first ds), (rep_start _ _ _ _ Hr) by done.
  pose proof (rep_first _ _ _ _ Hr). pose proof (rep_room _ _ _ _ Hr).
  rewrite wrap_u_id by range. lia.
Qed.

(** [find(i)], or the dummy entry. *)
Lemma rep_find s first ds i :
  represents junk s first ds →
  find_or_dummy i s = Ok (Some (to_entry (default (dummy_entry junk) (log_lookup first ds i)))).
Proof.
  intros Hr. unfold find_or_dummy. pose proof (rep_zero s first ds Hr) as H0.
  pose proof (rep_first _ _ _ _ Hr) as Hf. destruct (decide (0 < i)).
  - rewrite (rep_lookup s first ds i) by done. destruct (log_lookup first ds i); [done|].
    simpl. by rewrite H0.
  - unfold log_lookup. rewrite decide_False by lia. simpl.
    destruct (decide (i = 0)) as [->|]; [by rewrite H0|].
    rewrite (rep_logs _ _ _ _ Hr), lookup_insert_ne, index_map_None by lia.
    by rewrite lookup_insert_eq.
Qed.

Lemma rep_payload s first ds i :
  represents junk s first ds → payload_ok (default (dummy_entry junk) (log_lookup first ds i)).
Proof.
  intros Hr. destruct (log_lookup first ds i) as [d|] eqn:E; [|apply dummy_payload_ok].
  apply log_lookup_elem in E. pose proof (rep_payloads _ _ _ _ Hr) as Hp.
  by apply (proj1 (Forall_forall _ _) Hp).
Qed.

Lemma entry_at_rep s first ds i :
  represents junk s first ds →
  entry_at junk i s = Ok (to_entry (default (dummy_entry junk) (log_lookup first ds i))).
Proof.
  intros Hr. unfold entry_at. rewrite (rep_find s first ds) by done. ok_bind.
  apply make_clone_stored. by apply (rep_payload s).
Qed.

Lemma term_at_rep s first ds i :
  represents junk s first ds →
  term_at i s = Ok (e_term (default (dummy_entry junk) (log_lookup first ds i))).
Proof. intros Hr. unfold term_at. by rewrite (rep_find s first ds). Qed.

(** The entry past the last index, or the dummy entry, is never the last. *)
Lemma last_entry_rep s first ds :
  represents junk s first ds →
  last_entry junk s = Ok (to_entry (default (dummy_entry junk) (last ds))).
Proof.
  intros Hr. pose proof (rep_first _ _ _ _ Hr). pose proof (rep_room _ _ _ _ Hr).
  unfold last_entry. rewrite (rep_next_slot s first ds), wrap_u_id by (done || range).
  change (e ← find_or_dummy ?i s; make_clone junk e) with (entry_at junk i s).
  rewrite (entry_at_rep s first ds) by done. do 3 f_equal.
  unfold log_lookup. rewrite last_lookup. destruct ds as [|d ds].
  - rewrite decide_False; [done|simpl; lia].
  - rewrite decide_True by (simpl; lia). f_equal. simpl length. lia.
Qed.

Lemma new_log_store_rep :
  ∃ s, new_log_store junk = Ok s ∧ represents junk s 1 [].
Proof.
  unfold new_log_store, sz_ulong. rewrite alloc_spec by lia. ok_bind.
  unfold new_log_entry. cbn [negb andb]. rewrite payload_crc_cursor by done.
  ok_bind. eexists. split; [done|]. by split.
Qed.
End operations.
