(* ===== verification/LogStoreOps.v ===== *)
(** * What the operations of the log store do to the log

    [append], [write_at], [compact], [log_entries], [log_entries_ext], [pack]
    and [apply_pack] on a store that represents a log. *)
From S2P Require Import Prelude Bytes Buffer BufferSpec BufferSerializer Wire RaftTypes LogEntry.
From S2P Require Import Crc32 LogStore LogStoreSpec.
Local Open Scope Z_scope.

Section operations.
Context (junk : nat → byte).
Implicit Types (s : log_store) (d : entry_data) (ds : list entry_data).

(** A store with the map of a log in it. *)
Lemma represents_with_logs s first ds :
  start_idx_ s = first → 1 ≤ first → first + Z.of_nat (length ds) < 2 ^ 64 →
  Forall payload_ok ds →
  represents junk (with_logs (<[0 := Some (to_entry (dummy_entry junk))]> (index_map first ds)) s)
    first ds.
Proof. intros. by split. Qed.

(** The disk emulation does not touch the log. *)
Lemma represents_with_written s first ds w :
  represents junk s first ds → represents junk (with_written w s) first ds.
Proof. intros []. by split. Qed.

Lemma represents_with_durable s first ds i :
  represents junk s first ds → represents junk (with_durable i s) first ds.
Proof. intros []. by split. Qed.

Lemma append_rep cur_time e d s first ds :
  represents junk s first ds → entry_holds e d → payload_ok d →
  first + Z.of_nat (length ds) + 1 < 2 ^ 64 →
  ∃ s', append junk cur_time (Some e) s = Ok (first + Z.of_nat (length ds), s') ∧
    represents junk s' first (ds ++ [d]).
Proof.
  intros Hr He Hd Hroom. unfold append. rewrite (make_clone_holds junk e d) by done.
  ok_bind. change (u64 (start_idx_ s + map_size (logs_ s) - 1)) with (next_slot s).
  rewrite (rep_next_slot junk s first ds) by done. eexists. split; [done|].
  assert (represents junk (with_logs (<[first + Z.of_nat (length ds) := Some (to_entry d)]> (logs_ s)) s)
    first (ds ++ [d])) as Hr'; [|case_decide; [done|by apply represents_with_written]].
  destruct Hr as [Hl Hs Hf _ Hp]. rewrite Hl, insert_insert_ne, <- index_map_snoc by lia.
  apply represents_with_logs; [done..|rewrite length_app; simpl; lia|].
  apply Forall_app. split; [done|]. by apply Forall_singleton.
Qed.

Lemma log_lookup_take first ds i n :
  log_lookup first (take n ds) i =
    if decide (first + Z.of_nat n ≤ i) then None else log_lookup first ds i.
Proof.
  unfold log_lookup. repeat case_decide; try done; [|].
  - by rewrite lookup_take_ge by lia.
  - by rewrite lookup_take_lt by lia.
Qed.

Lemma log_lookup_drop first ds i n :
  log_lookup (first + Z.of_nat n) (drop n ds) i =
    if decide (i < first + Z.of_nat n) then None else log_lookup first ds i.
Proof.
  unfold log_lookup. repeat case_decide; try (done || lia); [].
  rewrite lookup_drop. f_equal. lia.
Qed.

Lemma log_lookup_ge first ds i :
  first + Z.of_nat (length ds) ≤ i → log_lookup first ds i = None.
Proof. intros. unfold log_lookup. case_decide; [|done]. apply lookup_ge_None_2. lia. Qed.

Lemma write_at_rep cur_time index e d s first ds :
  represents junk s first ds → entry_holds e d → payload_ok d →
  first ≤ index ≤ first + Z.of_nat (length ds) → index + 1 < 2 ^ 64 →
  ∃ s', write_at junk cur_time index (Some e) s = Ok s' ∧
    represents junk s' first (take (Z.to_nat (index - first)) ds ++ [d]).
Proof.
  intros Hr He Hd Hi Hroom. unfold write_at. rewrite (make_clone_holds junk e d) by done.
  ok_bind. eexists. split; [done|].
  set (ds' := take (Z.to_nat (index - first)) ds).
  assert (Z.of_nat (length ds') = index - first) as Hlen
    by (unfold ds'; rewrite length_take; lia).
  set (s' := with_logs _ s).
  assert (represents junk s' first (ds' ++ [d])) as Hr';
    [|case_decide; [done|by apply represents_with_written]].
  destruct Hr as [Hl Hs Hf Hro Hp].
  assert (<[index := Some (to_entry d)]> (erase_rest (lower_bound index (logs_ s)) (logs_ s)) =
    <[0 := Some (to_entry (dummy_entry junk))]> (index_map first (ds' ++ [d]))) as Hlogs.
  { rewrite index_map_snoc, Hlen. replace (first + (index - first)) with index by lia.
    rewrite insert_insert_ne by lia. f_equal. apply map_eq. intros k.
    rewrite erase_from_lookup, Hl. destruct (decide (k = 0)) as [->|].
    - rewrite decide_False by lia. by rewrite !lookup_insert_eq.
    - rewrite !lookup_insert_ne, !index_map_lookup by done. unfold ds'.
      rewrite log_lookup_take. replace (first + Z.of_nat (Z.to_nat (index - first))) with index by lia.
      by case_decide. }
  unfold s'. rewrite Hlogs. apply represents_with_logs; [done..|rewrite length_app; simpl; lia|].
  apply Forall_app. split; [by apply Forall_take|by apply Forall_singleton].
Qed.

(** The loop of [compact] ends, for any last index but the last 64-bit value. *)
Lemma compact_loop_delete fuel ii last logs :
  0 ≤ ii → last < 2 ^ 64 - 1 → (Z.to_nat (last + 1 - ii) < fuel)%nat →
  ∃ logs', compact_loop fuel ii last logs = Ok logs' ∧
    ∀ k, logs' !! k = if decide (ii ≤ k ≤ last) then None else logs !! k.
Proof.
  revert ii logs. induction fuel as [|fuel IH]; intros ii logs Hii Hlast Hfuel; [lia|].
  cbn [compact_loop]. case_decide as Hle.
  - rewrite wrap_u_id by range.
    destruct (IH (ii + 1) (delete ii logs)) as (logs' & -> & Hk); [lia..|].
    eexists. split; [done|]. intros k. rewrite Hk. destruct (decide (k = ii)) as [->|].
    + rewrite lookup_delete_eq, (decide_True (P := ii ≤ ii ≤ last)) by lia. by case_decide.
    + rewrite lookup_delete_ne by done. apply decide_ext. lia.
  - eexists. split; [done|]. intros k. by rewrite decide_False by lia.
Qed.

Lemma compact_rep fuel last s first ds :
  represents junk s first ds → 0 ≤ last < 2 ^ 64 - 1 → (Z.to_nat (last + 1 - first) < fuel)%nat →
  ∃ s', compact fuel last s = Ok s' ∧
    represents junk s' (Z.max first (last + 1)) (drop (Z.to_nat (last + 1 - first)) ds).
Proof.
  intros Hr Hlast Hfuel. destruct Hr as [Hl Hs Hf Hro Hp]. unfold compact. rewrite Hs.
  destruct (compact_loop_delete fuel first last (logs_ s)) as (logs' & -> & Hk); [lia..|].
  ok_bind. eexists. split; [done|].
  assert (logs' = <[0 := Some (to_entry (dummy_entry junk))]>
    (index_map (Z.max first (last + 1)) (drop (Z.to_nat (last + 1 - first)) ds))) as Hlogs.
  { apply map_eq. intros k. rewrite Hk, Hl. destruct (decide (k = 0)) as [->|].
    - rewrite decide_False by lia. by rewrite !lookup_insert_eq.
    - rewrite !lookup_insert_ne, !index_map_lookup by done.
      replace (Z.max first (last + 1)) with (first + Z.of_nat (Z.to_nat (last + 1 - first))) by lia.
      rewrite log_lookup_drop.
      destruct (decide (k < _)) as [Hlt|Hge]; [|by rewrite decide_False by lia].
      case_decide; [done|]. unfold log_lookup. by rewrite decide_False by lia. }
  simpl start_idx_. rewrite Hs. case_decide; split; simpl; rewrite ?length_drop; rewrite ?Hlogs;
    try done; rewrite ?wrap_u_id by range; try lia; try (by apply Forall_drop).
Qed.

(** ** Ranges of entries *)
Definition slice (k n : nat) ds : list entry_data := take n (drop k ds).

Lemma slice_step first ds ii n :
  first ≤ ii → ii + Z.of_nat (S n) ≤ first + Z.of_nat (length ds) →
  ∃ d, log_lookup first ds ii = Some d ∧
    slice (Z.to_nat (ii - first)) (S n) ds = d :: slice (Z.to_nat (ii + 1 - first)) n ds.
Proof.
  intros Hi Hn. unfold log_lookup. rewrite decide_True by done.
  destruct (lookup_lt_is_Some_2 ds (Z.to_nat (ii - first))) as [d Hd]; [lia|].
  exists d. split; [done|]. unfold slice. rewrite (drop_S ds d) by done. simpl.
  do 2 f_equal. f_equal. lia.
Qed.

Lemma slice_payloads k n ds : Forall payload_ok ds → Forall payload_ok (slice k n ds).
Proof. intros. by apply Forall_take, Forall_drop. Qed.

Lemma find_asserted_rep s first ds i d :
  represents junk s first ds → log_lookup first ds i = Some d →
  find_asserted i s = Ok (Some (to_entry d)) ∧ payload_ok d.
Proof.
  intros Hr Hd. pose proof (rep_first _ _ _ _ Hr) as Hf. unfold find_asserted.
  assert (0 < i) by (unfold log_lookup in Hd; case_decide; [lia|done]).
  rewrite (rep_lookup junk s first ds), Hd by done. split; [done|].
  pose proof (rep_payload junk s first ds i Hr) as Hp. by rewrite Hd in Hp.
Qed.

Lemma log_entries_loop_rep s first ds n ii cc ret :
  represents junk s first ds → first ≤ ii → ii + Z.of_nat n ≤ first + Z.of_nat (length ds) →
  length ret = (cc + n)%nat →
  log_entries_loop junk n ii cc ret s =
    Ok (take cc ret ++ ((λ d, Some (to_entry d)) <$> slice (Z.to_nat (ii - first)) n ds)).
Proof.
  intros Hr. revert ii cc ret. induction n as [|n IH]; intros ii cc ret Hi Hn Hret.
  - simpl. by rewrite app_nil_r, take_ge by lia.
  - destruct (slice_step first ds ii n) as (d & Hd & ->); [lia..|].
    destruct (find_asserted_rep s first ds ii d) as [Hfind Hp]; [done..|].
    cbn [log_entries_loop]. rewrite Hfind. ok_bind.
    rewrite make_clone_stored by done. ok_bind.
    rewrite IH; [|lia|lia|rewrite length_insert; lia].
    rewrite fmap_cons, (take_S_r _ _ (Some (to_entry d))).
    + by rewrite take_insert_ge, <- app_assoc by lia.
    + apply list_lookup_insert_eq. lia.
Qed.

Lemma log_entries_rep s first ds start end_ :
  represents junk s first ds → first ≤ start ≤ end_ → end_ ≤ first + Z.of_nat (length ds) →
  end_ - start ≤ vector_max_size →
  log_entries junk start end_ s =
    Ok ((λ d, Some (to_entry d)) <$> slice (Z.to_nat (start - first)) (Z.to_nat (end_ - start)) ds).
Proof.
  intros Hr Hs He Hmax. unfold log_entries, vector_max_size in *.
  rewrite wrap_u_id by range. rewrite decide_False by lia.
  rewrite (log_entries_loop_rep s first ds); [done..|lia|lia|by rewrite length_replicate].
Qed.

(** The bytes of the payloads. *)
Fixpoint total_size ds : Z :=
  match ds with [] => 0 | d :: ds => Z.of_nat (length (e_payload d)) + total_size ds end.

Lemma total_size_nonneg ds : 0 ≤ total_size ds.
Proof. induction ds; simpl; lia. Qed.

(** A batch of [ds]: [hint] bytes are reached by its last entry at the
    earliest, and it stops before the end of [ds] only when they are. *)
Definition is_batch (hint acc : Z) (l ds : list entry_data) : Prop :=
  l `prefix_of` ds ∧ (ds ≠ [] → l ≠ []) ∧
  (l ≠ ds → 0 < hint ≤ acc + total_size l) ∧
  (0 < hint → ∀ l' d, l = l' ++ [d] → l' ≠ [] → acc + total_size l' < hint).

Lemma log_entries_ext_loop_rep s first ds hint n ii acc ret :
  represents junk s first ds → first ≤ ii → ii + Z.of_nat n ≤ first + Z.of_nat (length ds) →
  in_s 64 hint → 0 ≤ hint → 0 ≤ acc →
  acc + total_size (slice (Z.to_nat (ii - first)) n ds) < 2 ^ 64 →
  ∃ l, log_entries_ext_loop junk hint n ii acc ret s = Ok (ret ++ (to_entry <$> l)) ∧
    is_batch hint acc l (slice (Z.to_nat (ii - first)) n ds).
Proof.
  intros Hr. revert ii acc ret. induction n as [|n IH]; intros ii acc ret Hi Hn Hh Hh0 Ha Htot.
  - exists []. split; [by rewrite fmap_nil, app_nil_r|].
    split; [done|]. split; [done|]. split; [done|]. intros _ [|??] ? ?; done.
  - destruct (slice_step first ds ii n) as (d & Hd & Hsl); [lia..|]. rewrite Hsl in *.
    destruct (find_asserted_rep s first ds ii d) as [Hfind Hp]; [done..|].
    cbn [log_entries_ext_loop]. rewrite Hfind. ok_bind.
    rewrite make_clone_stored by done. cbn [mbind outcome_bind or_ub get_buf to_entry buff_].
    rewrite cursor_size by (by apply payload_ok_fits). ok_bind.
    rewrite app_nil_l. cbn [total_size] in Htot.
    pose proof (total_size_nonneg (slice (Z.to_nat (ii + 1 - first)) n ds)) as Hnn.
    rewrite (wrap_u_id 64 hint) by range. rewrite wrap_u_id by range. case_decide as Hstop.
    + exists [d]. split; [done|]. split; [by apply (prefix_app_alt [d] [d]), prefix_nil|].
      split; [done|]. split; [intros _; simpl; lia|].
      intros _ [|? [|??]] ? [=]; done.
    + destruct (IH (ii + 1) (acc + Z.of_nat (length (e_payload d))) (ret ++ [to_entry d]))
        as (l & -> & Hpre & Hne & Hend & Hmin); [lia|lia|done|lia..|].
      exists (d :: l). split; [by rewrite <- app_assoc|]. split; [by apply prefix_cons|].
      split; [done|]. split.
      * intros Hl. cbn [total_size]. destruct Hend as [? ?]; [congruence|lia].
      * intros Hpos l' x Heq Hl'. destruct l' as [|y l']; [done|]. simplify_eq/=.
        destruct l' as [|z l']; [simpl; lia|].
        specialize (Hmin Hpos (z :: l') x eq_refl ltac:(done)). cbn [total_size] in *. lia.
Qed.
End operations.
