(* ===== verification/LogStorePack.v ===== *)
(** * Packing a part of the log, and applying a pack

    [pack] writes a count, and each entry with its size in front; [apply_pack]
    reads them into the map and sets the first index to the smallest one. *)
From S2P Require Import Prelude Bytes Buffer BufferSpec BufferSerializer Wire RaftTypes LogEntry.
From S2P Require Import Crc32 LogStore LogStoreSpec LogStoreOps.
Local Open Scope Z_scope.

Fixpoint wire_entries (ds : list entry_data) : list byte :=
  match ds with
  | [] => []
  | d :: ds => word_bytes 4 (Z.of_nat (length (wire_entry d))) ++ wire_entry d ++ wire_entries ds
  end.

Definition wire_pack (ds : list entry_data) : list byte :=
  word_bytes 4 (Z.of_nat (length ds)) ++ wire_entries ds.

Lemma wire_entries_length ds : (length ds ≤ length (wire_entries ds))%nat.
Proof.
  induction ds as [|d ds IH]; [done|]. cbn [wire_entries]. rewrite !length_app, length_word_bytes.
  simpl length at 1. lia.
Qed.

(** The payload of a pack fills what is at the cursor of the target. *)
Lemma get_buffer_spec l b w a :
  fits (b ++ w ++ a) → length l = length w →
  get_buffer (cursor [] l) (cursor b (w ++ a)) = Ok (cursor [] w, cursor (b ++ w) a).
Proof.
  intros Hf Hl. assert (fits ([] ++ l)) as Hfl.
  { unfold fits in *. rewrite !length_app in Hf. simpl. lia. }
  unfold get_buffer. rewrite cursor_size by done. ok_bind.
  rewrite cursor_pos by done. ok_bind. rewrite app_nil_l, Z.sub_0_r.
  rewrite wrap_u_id by (unfold fits in Hfl; simpl in Hfl; range). rewrite Hl.
  rewrite cursor_load by done. ok_bind.
  pose proof (cursor_store [] l w []) as Hst. rewrite !app_nil_r in Hst.
  rewrite Hst by done. ok_bind. by rewrite cursor_forward.
Qed.

Section pack.
Context (junk : nat → byte).
Implicit Types (s : log_store) (d : entry_data) (ds : list entry_data).

Lemma with_logs_same s : with_logs (logs_ s) s = s.
Proof. by destruct s. Qed.

(** The sum of the sizes of the serialized entries. *)
Definition entries_size ds : Z := Z.of_nat (length (wire_entries ds)) - 4 * Z.of_nat (length ds).

Lemma pack_loop_rep s first ds n ii :
  represents junk s first ds → first ≤ ii → ii + Z.of_nat n ≤ first + Z.of_nat (length ds) →
  let l := slice (Z.to_nat (ii - first)) n ds in
  pack_loop junk n ii s = Ok ((λ d, cursor [] (wire_entry d)) <$> l, entries_size l, s).
Proof.
  intros Hr. revert ii. induction n as [|n IH]; intros ii Hi Hn; [done|].
  destruct (slice_step first ds ii n) as (d & Hd & ->); [lia..|].
  destruct (find_asserted_rep junk s first ds ii d) as [Hfind Hp]; [done..|].
  unfold find_asserted in Hfind. destruct (logs_ s !! ii) as [x|] eqn:E; [|done].
  injection Hfind as ->. cbn [pack_loop]. rewrite E.
  rewrite (serialize_log_entry_wire junk (to_entry d) d);
    [|by apply to_entry_holds, payload_ok_fits|done].
  ok_bind. rewrite cursor_size by done. ok_bind.
  rewrite insert_id, with_logs_same by done. rewrite IH by lia. ok_bind.
  rewrite app_nil_l, fmap_cons. unfold entries_size. cbn [wire_entries].
  rewrite !length_app, length_word_bytes. simpl (length (d :: _)).
  do 2 f_equal. f_equal. lia.
Qed.

Lemma put_packed_writes ds :
  Forall payload_ok ds → writes (wire_entries ds) (put_packed ((λ d, cursor [] (wire_entry d)) <$> ds)).
Proof.
  induction 1 as [|d ds Hd Hds IH]; [apply writes_nothing|].
  cbn [wire_entries fmap list_fmap put_packed]. intros b a Hf Hlen.
  rewrite cursor_size by done. ok_bind. rewrite app_nil_l.
  rewrite wrap_s_id by (lia || (unfold payload_ok, fits in Hd; range)).
  revert b a Hf Hlen. apply writes_then; [apply writes_int32|].
  apply writes_then; [|done]. by apply writes_buffer.
Qed.

Lemma pack_rep s first ds index cnt :
  represents junk s first ds → first ≤ index → 0 ≤ cnt →
  index + cnt ≤ first + Z.of_nat (length ds) →
  let l := slice (Z.to_nat (index - first)) (Z.to_nat cnt) ds in
  fits (wire_pack l) → pack junk index cnt s = Ok (cursor (wire_pack l) [], s).
Proof.
  intros Hr Hi Hc Hn l Hf. pose proof (rep_first _ _ _ _ Hr). pose proof (rep_room _ _ _ _ Hr).
  unfold pack. rewrite wrap_u_id by range. replace (index + cnt - index) with cnt by lia.
  rewrite (pack_loop_rep s first ds) by (done || lia). fold l. ok_bind.
  assert (Z.of_nat (length l) = cnt) as Hl.
  { unfold l, slice. rewrite length_take, length_drop. lia. }
  assert (4 + cnt * 4 + entries_size l = Z.of_nat (length (wire_pack l))) as ->.
  { unfold entries_size, wire_pack. rewrite length_app, length_word_bytes. lia. }
  rewrite wrap_u_id by (unfold fits in Hf; range).
  rewrite alloc_spec by (unfold fits in Hf; lia). ok_bind. rewrite Nat2Z.id.
  assert (length (junk <$> seq 0 (length (wire_pack l))) = length (wire_pack l)) as Hjk
    by (by rewrite length_fmap, length_seq).
  revert Hjk. generalize (junk <$> seq 0 (length (wire_pack l))). intros jk Hjk.
  assert (fits ([] ++ jk)) as Hfj by (unfold fits in *; rewrite app_nil_l; by rewrite Hjk).
  rewrite (cursor_set_pos [] jk [] jk) by done. ok_bind.
  assert (writes (wire_pack l) (λ m, m ← put_int32 cnt m;
    put_packed ((λ d, cursor [] (wire_entry d)) <$> l) m)) as Hw.
  { unfold wire_pack. rewrite Hl. apply writes_then; [apply writes_int32|].
    apply put_packed_writes, slice_payloads. by destruct Hr. }
  specialize (Hw [] jk Hfj ltac:(lia)). rewrite drop_ge, app_nil_l in Hw by lia.
  apply bind_Ok in Hw as (m & Hm & Hw). rewrite Hm. ok_bind. by rewrite Hw.
Qed.

(** ** Applying a pack *)
Lemma apply_pack_loop_map cur_idx ds b y s :
  Forall payload_ok ds → Forall (λ d, in_u 64 (e_term d)) ds →
  fits (b ++ wire_entries ds ++ y) →
  0 ≤ cur_idx → cur_idx + Z.of_nat (length ds) < 2 ^ 64 →
  apply_pack_loop junk (length ds) cur_idx (cursor b (wire_entries ds ++ y)) s =
    Ok (cursor (b ++ wire_entries ds) y,
        with_logs (index_map cur_idx (renewed <$> ds) ∪ logs_ s) s).
Proof.
  intros Hp Ht. revert cur_idx b s. induction ds as [|d ds IH]; intros cur_idx b s Hf Hi Hn.
  - cbn [wire_entries length apply_pack_loop]. unfold index_map. simpl.
    by rewrite app_nil_r, (left_id_L ∅ (∪)), with_logs_same.
  - apply Forall_cons in Hp as [Hd Hp]. apply Forall_cons in Ht as [Htd Ht].
    cbn [wire_entries length apply_pack_loop] in *. rewrite <- !app_assoc in *.
    assert (Z.of_nat (length (wire_entry d)) < 2 ^ 31) as Hw by exact Hd.
    rewrite get_int_spec by done. ok_bind.
    rewrite signed32_roundtrip by range.
    rewrite (wrap_u_id 64 (Z.of_nat _)), (wrap_u_id 64 (cur_idx + 1)) by (simpl length in Hn; range).
    rewrite alloc_spec by lia. ok_bind. rewrite Nat2Z.id, (app_assoc b).
    rewrite app_assoc in Hf.
    rewrite get_buffer_spec by (done || by rewrite length_fmap, length_seq).
    ok_bind.
    rewrite deserialize_log_entry_wire by done. ok_bind.
    rewrite IH; [|done|done|by rewrite <- !app_assoc in *|lia|simpl length in Hn; lia].
    rewrite <- !app_assoc. unfold with_logs at 1 3. simpl. do 3 f_equal.
    unfold index_map. rewrite !fmap_cons, map_seqZ_cons, Z.add_1_r.
    rewrite <- insert_union_l, <- insert_union_r; [done|]. apply map_seqZ_cons_disjoint.
Qed.

(** The first index of the log after [apply_pack]. *)
Definition packed_first (ds : list entry_data) (first index : Z) : Z :=
  if decide (ds = []) then index else first.

(** Where a pack may go: it starts the log, or follows it. *)
Definition pack_fits_log (first : Z) ds (index : Z) : Prop :=
  ds = [] ∧ 1 ≤ index ∨ index = first + Z.of_nat (length ds).

Lemma index_map_follow first ds index l :
  pack_fits_log first ds index →
  index_map index l ∪ index_map first ds = index_map (packed_first ds first index) (ds ++ l).
Proof.
  unfold packed_first. intros [[-> Hi]| ->]; [apply (right_id_L ∅ (∪))|].
  unfold index_map. rewrite fmap_app. destruct ds as [|d ds].
  - rewrite decide_True by done. apply (right_id_L ∅ (∪)).
  - rewrite decide_False by done. rewrite map_seqZ_app, length_fmap.
    apply map_union_comm, map_seqZ_disjoint. rewrite !length_fmap. lia.
Qed.

(** The smallest positive index is the first of the log. *)
Lemma upper_bound_index_map e first ds :
  1 ≤ first → ds ≠ [] → head (upper_bound 0 (<[0 := e]> (index_map first ds))) = Some first.
Proof.
  intros Hf Hne. apply upper_bound_min; [lia| |].
  - rewrite lookup_insert_ne, index_map_lookup by lia. apply fmap_is_Some.
    destruct (log_lookup_in first ds first) as (d & -> & _); [|done].
    destruct ds; [done|simpl; lia].
  - intros j Hj. rewrite lookup_insert_ne, index_map_lookup, fmap_is_Some by lia.
    unfold log_lookup. case_decide; [done|]. by intros [].
Qed.

(** Entries that follow a log, or start it, applied to the store. *)
Lemma apply_pack_rep s first ds index l :
  represents junk s first ds → l ≠ [] → pack_fits_log first ds index →
  Forall payload_ok l → Forall (λ d, in_u 64 (e_term d)) l → fits (wire_pack l) →
  index + Z.of_nat (length l) < 2 ^ 64 →
  ∃ m s', apply_pack junk index (cursor (wire_pack l) []) s = Ok (m, s') ∧
    represents junk s' (packed_first ds first index) (ds ++ (renewed <$> l)).
Proof.
  intros Hr Hne Hidx Hp Ht Hf Hroom. pose proof (rep_first _ _ _ _ Hr) as Hfirst.
  assert (1 ≤ index) as Hindex by (destruct Hidx as [[??]| ->]; lia).
  unfold apply_pack.
  rewrite (cursor_set_pos (wire_pack l) [] [] (wire_pack l)) by (by rewrite ?app_nil_r).
  ok_bind.
  assert (Z.of_nat (length l) < 2 ^ 31) as Hl31.
  { pose proof (wire_entries_length l). unfold fits, wire_pack in Hf. rewrite length_app in Hf. lia. }
  unfold wire_pack in *. rewrite get_int_spec by done. ok_bind.
  rewrite signed32_roundtrip, Nat2Z.id by range. rewrite app_nil_l.
  pose proof (apply_pack_loop_map index l (word_bytes 4 (Z.of_nat (length l))) [] s) as Hloop.
  rewrite !app_nil_r in Hloop. rewrite Hloop by (done || lia). ok_bind.
  eexists _, _. split; [done|]. simpl logs_.
  rewrite (rep_logs _ _ _ _ Hr), <- insert_union_r by (apply index_map_None; lia).
  rewrite index_map_follow by done.
  assert (1 ≤ packed_first ds first index) as Hf1 by (unfold packed_first; case_decide; lia).
  split; simpl; [done| |done| |].
  - assert (ds ++ (renewed <$> l) ≠ []) as Hne' by (by destruct ds, l).
    pose proof (upper_bound_index_map (Some (to_entry (dummy_entry junk))) _ _ Hf1 Hne') as Hh.
    by destruct (upper_bound _ _); simplify_eq/=.
  - unfold packed_first. rewrite length_app, length_fmap.
    destruct Hidx as [[-> ?]| ->]; case_decide; subst; simpl in *; done || lia.
  - apply Forall_app. split; [by destruct Hr|]. apply Forall_fmap.
    by apply (Forall_impl payload_ok _ l Hp).
Qed.
End pack.
