(* ===== verification/LogStoreThms.v ===== *)
(** * Theorems about the log store

    The store refines a log with a first index; what is read from it; a pack
    applied to another store; what happens to the log after a write past its
    end, and to the durable index after a truncation. *)
From S2P Require Import Prelude Bytes Buffer BufferSpec BufferSerializer Wire RaftTypes LogEntry.
From S2P Require Import Crc32 LogStore LogStoreSpec LogStoreOps LogStorePack.
Local Open Scope Z_scope.

(** ** The abstract log *)
Record raft_log := RaftLog { first_index : Z; log_data : list entry_data }.

Inductive log_cmd :=
  | Append (cur_time : Z) (e : log_entry) (d : entry_data)
  | WriteAt (cur_time index : Z) (e : log_entry) (d : entry_data)
  | Compact (last : Z)
  | Flush
  | SetDelay (delay_ms : Z)
  | DiskTurn (cur_time : Z).

(** One past the last index. *)
Definition log_end (l : raft_log) : Z := first_index l + Z.of_nat (length (log_data l)).

Definition entry_ok (e : log_entry) (d : entry_data) : Prop := entry_holds e d ∧ payload_ok d.

(** When the Raft server issues the command: a write is inside the log or
    right behind it, and indices stay below the last 64-bit value. *)
Definition log_cmd_ok (l : raft_log) (c : log_cmd) : Prop :=
  match c with
  | Append _ e d => entry_ok e d ∧ log_end l + 1 < 2 ^ 64
  | WriteAt _ index e d =>
      entry_ok e d ∧ first_index l ≤ index ≤ log_end l ∧ index + 1 < 2 ^ 64
  | Compact last => 0 ≤ last < 2 ^ 64 - 1
  | _ => True
  end.

Definition log_step (l : raft_log) (c : log_cmd) : raft_log :=
  match c with
  | Append _ _ d => RaftLog (first_index l) (log_data l ++ [d])
  | WriteAt _ index _ d =>
      RaftLog (first_index l) (take (Z.to_nat (index - first_index l)) (log_data l) ++ [d])
  | Compact last =>
      RaftLog (Z.max (first_index l) (last + 1))
        (drop (Z.to_nat (last + 1 - first_index l)) (log_data l))
  | _ => l
  end.

Fixpoint log_cmds_ok (l : raft_log) (cs : list log_cmd) : Prop :=
  match cs with [] => True | c :: cs => log_cmd_ok l c ∧ log_cmds_ok (log_step l c) cs end.

(** The command run by the code; the fuel of [compact] is one more than the
    indices it visits. *)
Definition store_step (junk : nat → byte) (s : log_store) (c : log_cmd) : outcome log_store :=
  match c with
  | Append cur_time e _ => '(_, s) ← append junk cur_time (Some e) s; Ok s
  | WriteAt cur_time index e _ => write_at junk cur_time index (Some e) s
  | Compact last => compact (S (Z.to_nat (last + 1 - start_idx_ s))) last s
  | Flush => Ok (flush s)
  | SetDelay delay_ms => Ok (set_disk_delay delay_ms s)
  | DiskTurn cur_time => Ok (disk_emul_turn cur_time s).1.1
  end.

Fixpoint store_steps (junk : nat → byte) (s : log_store) (cs : list log_cmd) : outcome log_store :=
  match cs with [] => Ok s | c :: cs => s ← store_step junk s c; store_steps junk s cs end.

Definition represents_log (junk : nat → byte) (s : log_store) (l : raft_log) : Prop :=
  represents junk s (first_index l) (log_data l).

Lemma disk_emul_writes_rep junk cur_time itr b s first ds :
  represents junk s first ds → represents junk (disk_emul_writes cur_time itr b s).1 first ds.
Proof.
  revert b s. induction itr as [|t itr IH]; intros b s Hr; [done|]. cbn [disk_emul_writes].
  destruct (disk_emul_logs_being_written_ s !! t) as [i|]; [|done]. case_decide; [|done].
  apply IH. destruct Hr. by split.
Qed.

Lemma store_step_rep junk s l c :
  represents_log junk s l → log_cmd_ok l c →
  ∃ s', store_step junk s c = Ok s' ∧ represents_log junk s' (log_step l c).
Proof.
  unfold represents_log, log_end, entry_ok. destruct l as [first ds]. simpl first_index. simpl log_data.
  intros Hr. destruct c; simpl; unfold log_end; simpl; intros Hok.
  - destruct Hok as [[? ?] ?].
    destruct (append_rep junk cur_time e d s first ds) as (s' & -> & ?); eauto.
  - destruct Hok as ([? ?] & ? & ?). by apply write_at_rep.
  - rewrite (rep_start _ _ _ _ Hr). apply compact_rep; [done|done|lia].
  - eexists. split; [done|]. destruct Hr. by split.
  - eexists. split; [done|]. destruct Hr. by split.
  - eexists. split; [done|]. unfold disk_emul_turn.
    pose proof (disk_emul_writes_rep junk cur_time
      (sorted_keys (disk_emul_logs_being_written_ s)) false s first ds Hr) as Hd.
    by destruct (disk_emul_writes _ _ _ _).
Qed.

Lemma store_steps_rep junk s l cs :
  represents_log junk s l → log_cmds_ok l cs →
  ∃ s', store_steps junk s cs = Ok s' ∧ represents_log junk s' (foldl log_step l cs).
Proof.
  revert s l. induction cs as [|c cs IH]; intros s l Hr Hok; [by exists s|].
  destruct Hok as [Hc Hcs]. destruct (store_step_rep junk s l c) as (s' & Hs' & Hr'); [done..|].
  cbn [store_steps foldl]. rewrite Hs'. by apply IH.
Qed.

(** The reads of a log. *)
Definition default_entry (junk : nat → byte) (o : option entry_data) : log_entry :=
  to_entry (default (dummy_entry junk) o).

(** C29: from a new store, any sequence of appends, writes inside the log or
    right behind it, compactions, flushes and turns of the disk emulation
    returns, and leaves a store whose map holds exactly the dummy entry at
    index 0 and the entries of the log at consecutive indices from its first
    one: a write cuts off what follows it, a compaction drops a prefix and
    moves the first index, even past the end.  Every read agrees: the next
    slot, the entry and the term at any index and the last entry.  Outside the
    log an entry is a copy of the dummy entry, where the interface says null; a
    write past the end is left out, see [write_past_end_leaves_gap]. *)
Theorem log_store_refines (junk : nat → byte) (cs : list log_cmd) :
  log_cmds_ok (RaftLog 1 []) cs →
  ∃ s, (s ← new_log_store junk; store_steps junk s cs) = Ok s ∧
    let l := foldl log_step (RaftLog 1 []) cs in
    represents_log junk s l ∧
    start_index s = first_index l ∧ next_slot s = log_end l ∧
    (∀ i, entry_at junk i s = Ok (default_entry junk (log_lookup (first_index l) (log_data l) i))) ∧
    (∀ i, term_at i s =
      Ok (e_term (default (dummy_entry junk) (log_lookup (first_index l) (log_data l) i)))) ∧
    last_entry junk s = Ok (default_entry junk (last (log_data l))).
Proof.
  intros Hok. destruct (new_log_store_rep junk) as (s0 & -> & H0). ok_bind.
  destruct (store_steps_rep junk s0 (RaftLog 1 []) cs) as (s & -> & Hr); [done..|].
  exists s. split; [done|]. cbv zeta. revert Hr. generalize (foldl log_step (RaftLog 1 []) cs).
  intros l Hr. unfold represents_log in *.
  split; [done|]. split; [by destruct Hr|]. split; [by apply (rep_next_slot junk)|].
  split; [intros; by apply entry_at_rep|]. split; [intros; by apply (term_at_rep junk)|].
  by apply (last_entry_rep junk _ (first_index l)).
Qed.

(** Three entries, for the witnesses. *)
Definition sample_data (term : Z) (b : byte) : entry_data :=
  EntryData term app_log [b; b] 5 true 77.
Definition sample_cmd (term : Z) (b : byte) : log_cmd :=
  Append 0 (to_entry (sample_data term b)) (sample_data term b).
Definition sample_write (index term : Z) (b : byte) : log_cmd :=
  WriteAt 0 index (to_entry (sample_data term b)) (sample_data term b).

Lemma sample_entry_ok term b : entry_ok (to_entry (sample_data term b)) (sample_data term b).
Proof. split; [by apply to_entry_holds|done]. Qed.

Definition sample_cmds : list log_cmd :=
  [sample_cmd 1 Byte.x01; sample_cmd 1 Byte.x02; sample_cmd 2 Byte.x03;
   sample_write 2 3 Byte.x04; Compact 1].

Lemma sample_cmds_ok : log_cmds_ok (RaftLog 1 []) sample_cmds.
Proof. repeat (split; try apply sample_entry_ok); done. Qed.

Example log_store_refines_witness :
  foldl log_step (RaftLog 1 []) sample_cmds = RaftLog 2 [sample_data 3 Byte.x04] ∧
  ∃ s, (s ← new_log_store (λ _, Byte.x00); store_steps (λ _, Byte.x00) s sample_cmds) = Ok s ∧
    let l := foldl log_step (RaftLog 1 []) sample_cmds in
    represents_log (λ _, Byte.x00) s l ∧
    start_index s = first_index l ∧ next_slot s = log_end l ∧
    (∀ i, entry_at (λ _, Byte.x00) i s =
      Ok (default_entry (λ _, Byte.x00) (log_lookup (first_index l) (log_data l) i))) ∧
    (∀ i, term_at i s = Ok (e_term
      (default (dummy_entry (λ _, Byte.x00)) (log_lookup (first_index l) (log_data l) i)))) ∧
    last_entry (λ _, Byte.x00) s = Ok (default_entry (λ _, Byte.x00) (last (log_data l))).
Proof.
  split; [by vm_compute|]. apply (log_store_refines (λ _, Byte.x00) sample_cmds).
  exact sample_cmds_ok.
Defined.

(** ** Ranges *)

(** Inside the log [log_entries] returns a clone of each entry of the
    range, in order, none of them null; [log_entries_ext] returns the longest
    prefix of the range that its size hint allows: never empty for a range
    that is not, the whole range when the hint is 0 or not reached, and else
    cut right after the entry that reaches the hint; a negative hint gives no
    entry. *)
Theorem log_entries_range (junk : nat → byte) (s : log_store) (first : Z) (ds : list entry_data)
    (start end_ hint : Z) :
  represents junk s first ds → first ≤ start ≤ end_ → end_ ≤ first + Z.of_nat (length ds) →
  end_ - start ≤ vector_max_size → in_s 64 hint →
  let range := slice (Z.to_nat (start - first)) (Z.to_nat (end_ - start)) ds in
  total_size range < 2 ^ 64 →
  log_entries junk start end_ s = Ok ((λ d, Some (to_entry d)) <$> range) ∧
  ∃ l, log_entries_ext junk start end_ hint s = Ok (to_entry <$> l) ∧
    if decide (hint < 0) then l = [] else is_batch hint 0 l range.
Proof.
  intros Hr Hs He Hmax Hh range Ht. split; [by apply log_entries_rep|].
  unfold log_entries_ext. case_decide; [by exists []|].
  destruct (log_entries_ext_loop_rep junk s first ds hint (Z.to_nat (end_ - start)) start 0 [])
    as (l & Hl & Hb); [done|lia|lia|done|lia|lia|done|].
  exists l. by rewrite app_nil_l in Hl.
Qed.

Definition sample_log : list entry_data :=
  [sample_data 1 Byte.x01; sample_data 1 Byte.x02; sample_data 2 Byte.x03].

(** A store that holds the sample log from index 1 on. *)
Definition sample_store : log_store :=
  LogStore (<[0 := Some (to_entry (dummy_entry (λ _, Byte.x00)))]> (index_map 1 sample_log)) 1 0 ∅ 0.

Lemma sample_store_rep : represents (λ _, Byte.x00) sample_store 1 sample_log.
Proof. split; [done|done|done|done|]. by repeat constructor. Qed.

Example log_entries_range_witness :
  let range := slice 1 2 sample_log in
  log_entries (λ _, Byte.x00) 2 4 sample_store = Ok ((λ d, Some (to_entry d)) <$> range) ∧
  ∃ l, log_entries_ext (λ _, Byte.x00) 2 4 1 sample_store = Ok (to_entry <$> l) ∧
    if decide (1 < 0) then l = [] else is_batch 1 0 l range.
Proof.
  apply (log_entries_range (λ _, Byte.x00) sample_store 1 sample_log 2 4 1);
    [exact sample_store_rep|done..].
Defined.

(** ** Packs *)

(** C30: the pack of [cnt] entries of a log from [index] on, applied at [index]
    to a store whose log is empty or ends right before [index], appends these
    entries, each with its term, type and payload, a timestamp of 0 and the
    checksum of its payload; an empty log then starts at [index].  Packing
    leaves the packed store as it was. *)
Theorem pack_apply_pack (junk junk' : nat → byte) (s t : log_store) (first first' : Z)
    (ds ds' : list entry_data) (index cnt : Z) :
  represents junk s first ds → represents junk' t first' ds' →
  first ≤ index → 0 < cnt → index + cnt ≤ first + Z.of_nat (length ds) →
  pack_fits_log first' ds' index →
  let l := slice (Z.to_nat (index - first)) (Z.to_nat cnt) ds in
  Forall (λ d, in_u 64 (e_term d)) l → fits (wire_pack l) →
  ∃ m, pack junk index cnt s = Ok (m, s) ∧
    ∃ m' t', apply_pack junk' index m t = Ok (m', t') ∧
      represents junk' t' (packed_first ds' first' index) (ds' ++ (renewed <$> l)).
Proof.
  intros Hs Ht Hi Hc Hn Hfit l Hterm Hf. exists (cursor (wire_pack l) []). split.
  - apply (pack_rep junk s first ds); (done || lia).
  - assert (length l = Z.to_nat cnt) as Hl.
    { unfold l, slice. rewrite length_take, length_drop. lia. }
    apply (apply_pack_rep junk' t first' ds').
    + done.
    + destruct l; [simpl in Hl; lia|done].
    + done.
    + apply slice_payloads. by destruct Hs.
    + done.
    + done.
    + pose proof (rep_room _ _ _ _ Hs). lia.
Qed.

Example pack_apply_pack_witness :
  ∃ t, new_log_store (λ _, Byte.xff) = Ok t ∧
  ∃ m, pack (λ _, Byte.x00) 2 2 sample_store = Ok (m, sample_store) ∧
    ∃ m' t', apply_pack (λ _, Byte.xff) 2 m t = Ok (m', t') ∧
      represents (λ _, Byte.xff) t' (packed_first [] 1 2) ([] ++ (renewed <$> slice 1 2 sample_log)).
Proof.
  destruct (new_log_store_rep (λ _, Byte.xff)) as (t & Ht & Hr). exists t. split; [done|].
  apply (pack_apply_pack (λ _, Byte.x00) (λ _, Byte.xff) sample_store t 1 1 sample_log [] 2 2);
    [exact sample_store_rep|exact Hr|done..|by left|by repeat constructor|done].
Defined.

(** ** What the store does not keep *)

(** A write past the end of the log breaks the correspondence between
    indices and slots: after a write at index 5 of an empty log the next slot
    is 2, the last entry is the dummy entry although one was written, and the
    entry appended next goes to index 2, before the written one. *)
Theorem write_past_end_leaves_gap :
  let junk := λ _, Byte.x00 in
  let e := to_entry (sample_data 9 Byte.x05) in
  ∃ s s', (s ← new_log_store junk; write_at junk 0 5 (Some e) s) = Ok s ∧
    entry_at junk 5 s = Ok e ∧ next_slot s = 2 ∧
    last_entry junk s = Ok (to_entry (dummy_entry junk)) ∧
    append junk 0 (Some e) s = Ok (2, s').
Proof.
  intros junk e.
  eexists _, _. split; [by vm_compute|]. split; [by vm_compute|]. split; [by vm_compute|].
  split; by vm_compute.
Qed.

(** With the disk emulation on, a truncation does not lower the durable
    index: three entries written and their disk delay over, index 3 is
    durable; after a write at index 1 the log ends at index 1, and
    [last_durable_index] still answers 3.  And an index declared durable by
    [flush] is taken back by a later turn of the emulation. *)
Theorem durable_index_is_stale :
  let junk := λ _, Byte.x00 in
  let e := Some (to_entry (sample_data 1 Byte.x01)) in
  ∃ s1 s2 s3,
    (s ← new_log_store junk; let s := set_disk_delay 1 s in
     '(_, s) ← append junk 100 e s; '(_, s) ← append junk 200 e s;
     '(_, s) ← append junk 300 e s; Ok s) = Ok s1 ∧
    (let '(s, notified, _) := disk_emul_turn 1300 s1 in
     last_durable_index s = 3 ∧ notified = true ∧ write_at junk 1400 1 e s = Ok s2) ∧
    next_slot s2 = 2 ∧ last_durable_index s2 = 3 ∧
    flush s1 = s3 ∧ last_durable_index s3 = 3 ∧ last_durable_index (disk_emul_turn 1100 s3).1.1 = 1.
Proof.
  intros junk e.
  eexists _, _, _. split; [by vm_compute|]. split; [split; [by vm_compute|split; by vm_compute]|].
  split; [by vm_compute|]. split; [by vm_compute|]. split; [reflexivity|]. split; by vm_compute.
Qed.

(** [compact] of the last 64-bit index never returns: its loop variable
    wraps and stays at or below that index, so no fuel is enough. *)
Theorem compact_last_index_diverges (fuel : nat) (s : log_store) :
  in_u 64 (start_idx_ s) → compact fuel (2 ^ 64 - 1) s = Fault OutOfFuel.
Proof.
  intros Hs. unfold compact.
  assert (∀ ii logs, in_u 64 ii → compact_loop fuel ii (2 ^ 64 - 1) logs = Fault OutOfFuel) as Hl;
    [|by rewrite Hl].
  induction fuel as [|fuel IH]; intros ii logs Hii; [done|]. cbn [compact_loop].
  rewrite decide_True by range. apply IH. by apply wrap_u_range.
Qed.

Example compact_last_index_diverges_witness :
  compact 1000 (2 ^ 64 - 1) sample_store = Fault OutOfFuel.
Proof. apply (compact_last_index_diverges 1000 sample_store). by vm_compute. Defined.
