(* ===== verification/CacheStateMachine.v ===== *)
(** * cache_state_machine: from log entries to cache commands

    src/raft/cache_state_machine.{hxx,cc}.  [encode_log] writes a command into
    a buffer, [decode_log] reads it, and [commit] applies it to the cache.  A
    field of [op_payload] the code may leave uninitialised is an option, [None]
    being an indeterminate value; [data] is the memory the pointer points to.
    [last_committed_idx_] and [last_config_idx_] are atomics without an
    initial value. *)
From S2P Require Import Prelude StdContainers Bytes CacheTypes CacheStorage CacheState.
From S2P Require Import Buffer BufferSpec BufferSerializer RaftTypes.
Local Open Scope Z_scope.

(** [enum op_type : int] *)
Definition READ : Z := 0x1.
Definition WRITE : Z := 0x2.
Definition PURGE : Z := 0x3.

Record op_payload := OpPayload {
  p_type : Z;
  p_timestamp : Z;
  p_key : string;
  p_data_len : option Z;
  p_data : option (list byte);
  p_expires_at : option Z
}.

(** [op_payload payload;]: the type and the time are written before they are
    read. *)
Definition fresh_payload : op_payload := OpPayload 0 0 "" None None None.

Definition encoded_size (payload : op_payload) (data_len : Z) : Z :=
  let size := 4 + 8 in
  let size := if decide (p_type payload = PURGE) then size
              else u64 (size + (8 + string_size (p_key payload))) in
  if decide (p_type payload = WRITE) then u64 (size + (8 + data_len + 8)) else size.

Definition encode_log (junk : nat → byte) (payload : op_payload) : outcome buffer :=
  data_len ← (if decide (p_type payload = WRITE)
              then or_ub UninitialisedRead (p_data_len payload) else Ok 0);
  log ← alloc junk (encoded_size payload data_len);
  let bs := new_serializer log LITTLE in
  bs ← bs_put_raw (word_bytes 4 (p_type payload)) bs;
  bs ← bs_put_raw (word_bytes 8 (p_timestamp payload)) bs;
  bs ← (if decide (p_type payload = PURGE) then Ok bs else bs_put_str (p_key payload) bs);
  bs ← (if decide (p_type payload = WRITE) then
          mem ← or_ub UninitialisedRead (p_data payload);
          bytes ← load 0 data_len mem;
          bs ← bs_put_bytes bytes bs;
          expires_at ← or_ub UninitialisedRead (p_expires_at payload);
          bs_put_raw (word_bytes 8 expires_at) bs
        else Ok bs);
  Ok (buf_ bs).

Definition decode_log (log : buffer) (payload : op_payload) : outcome op_payload :=
  let bs := new_serializer log LITTLE in
  '(type, bs) ← bs_get_raw 4 bs;
  let type := i32 (bytes_word type) in
  '(timestamp, bs) ← bs_get_raw 8 bs;
  let timestamp := i64 (bytes_word timestamp) in
  '(key, bs) ← (if decide (type = PURGE) then Ok (p_key payload, bs) else bs_get_str bs);
  if decide (type = WRITE) then
    '(data, _) ← bs_get_bytes bs;
    mem ← or_ub UninitialisedRead (p_data payload);
    mem ← store 0 data mem;
    Ok (OpPayload type timestamp key (Some (Z.of_nat (length data))) (Some mem)
          (p_expires_at payload))
  else
    Ok (OpPayload type timestamp key (p_data_len payload) (p_data payload) (p_expires_at payload)).

Record cache_state_machine := StateMachine {
  state_ : cache_state;
  last_committed_idx_ : option Z;
  last_config_idx_ : option Z
}.

Definition new_state_machine (config : cache_config) : cache_state_machine :=
  StateMachine (new_cache_state config) None None.

Definition with_state (s : cache_state) (m : cache_state_machine) : cache_state_machine :=
  StateMachine s (last_committed_idx_ m) (last_config_idx_ m).

(** The item [{payload.data, payload.data_len, payload.expires_at}]. *)
Definition payload_item (payload : op_payload) : outcome cache_item :=
  bytes ← or_ub UninitialisedRead (p_data payload);
  len ← or_ub UninitialisedRead (p_data_len payload);
  exp ← or_ub UninitialisedRead (p_expires_at payload);
  new_cache_item bytes len exp.

Definition apply_payload (payload : op_payload) (s : cache_state) : outcome cache_state :=
  if decide (p_type payload = READ) then
    '(s, _) ← state_commit_read s (p_key payload) (p_timestamp payload); Ok s
  else if decide (p_type payload = WRITE) then
    it ← payload_item payload;
    '(s, _) ← state_commit_write s (p_key payload) it (p_timestamp payload); Ok s
  else if decide (p_type payload = PURGE) then commit_purge_expired s (p_timestamp payload)
  else Ok s.

Definition commit (junk : nat → byte) (log_idx : Z) (data : buffer) (m : cache_state_machine) :
    outcome (buffer * cache_state_machine) :=
  payload ← decode_log data fresh_payload;
  s ← apply_payload payload (state_ m);
  ret ← alloc junk 8;
  bs ← put_u64 log_idx (new_serializer ret LITTLE);
  Ok (buf_ bs, with_state s m).

Definition commit_config (log_idx : Z) (new_conf : cluster_config) (m : cache_state_machine) :
    cache_state_machine := StateMachine (state_ m) (Some log_idx) (Some log_idx).

(** ** The format of a log entry *)
Definition wire_prefix (type timestamp : Z) : list byte := word_bytes 4 type ++ word_bytes 8 timestamp.
Definition wire_sized (l : list byte) : list byte := word_bytes 4 (Z.of_nat (length l)) ++ l.

(** The command in a payload: its bytes, and the bytes of fresh memory that
    [encode_log] leaves behind them, as it counts 8 bytes for a length it
    writes in 4. *)
Inductive log_op := LRead (k : string) | LWrite (k : string) (d : list byte) (expires : Z) | LPurge.

Definition op_code (o : log_op) : Z :=
  match o with LRead _ => READ | LWrite _ _ _ => WRITE | LPurge => PURGE end.

Definition op_to_payload (o : log_op) (timestamp : Z) : op_payload :=
  match o with
  | LRead k => OpPayload READ timestamp k None None None
  | LWrite k d exp =>
      OpPayload WRITE timestamp k (Some (Z.of_nat (length d))) (Some d) (Some exp)
  | LPurge => OpPayload PURGE timestamp "" None None None
  end.

Definition wire_op (o : log_op) (timestamp : Z) : list byte :=
  wire_prefix (op_code o) timestamp ++
  match o with
  | LRead k => wire_sized (bytes_of_string k)
  | LWrite k d exp => wire_sized (bytes_of_string k) ++ wire_sized d ++ word_bytes 8 exp
  | LPurge => []
  end.

Definition op_slack (o : log_op) : nat :=
  match o with LRead _ => 4 | LWrite _ _ _ => 8 | LPurge => 0 end.

Definition op_fits (o : log_op) (timestamp : Z) : Prop :=
  Z.of_nat (length (wire_op o timestamp) + op_slack o) < 0x80000000.
