(* ===== verification/CacheStateMachineThms.v ===== *)
(** * Theorems about the state machine

    What encoding and decoding keep, and what [commit] does with each kind of
    command. *)
From S2P Require Import Prelude StdContainers Bytes CacheTypes CacheStorage CacheState.
From S2P Require Import Buffer BufferSpec BufferSerializer Wire RaftTypes CacheStateMachine.
Local Open Scope Z_scope.

(** Decides the tests of the command code. *)
Ltac code_cases :=
  repeat match goal with
    | |- context [decide (?a = ?b)] =>
        destruct (decide (a = b)); try (unfold READ, WRITE, PURGE in *; lia)
    end; cbn [mbind outcome_bind].

(** ** Writing and reading a log entry *)
Lemma get_raw_here n w x y :
  fits (x ++ w ++ y) → n = Z.of_nat (length w) →
  bs_get_raw n (at_pos LITTLE x (w ++ y)) = Ok (w, at_pos LITTLE (x ++ w) y).
Proof. apply bs_get_raw_spec. Qed.

Lemma get_bytes_here w x y :
  fits (x ++ wire_sized w ++ y) →
  bs_get_bytes (at_pos LITTLE x (wire_sized w ++ y)) = Ok (w, at_pos LITTLE (x ++ wire_sized w) y).
Proof.
  unfold wire_sized. intros Hf. rewrite <- app_assoc in *. by apply bs_get_bytes_spec.
Qed.

Lemma length_wire_sized l : length (wire_sized l) = (4 + length l)%nat.
Proof. done. Qed.

Lemma encoded_size_op o timestamp :
  op_fits o timestamp →
  encoded_size (op_to_payload o timestamp)
    (match o with LWrite _ d _ => Z.of_nat (length d) | _ => 0 end) =
    Z.of_nat (length (wire_op o timestamp) + op_slack o).
Proof.
  unfold op_fits, encoded_size, wire_op. intros Hf.
  destruct o as [k|k d exp|]; cbn [op_to_payload p_type p_key op_slack] in *;
    rewrite ?string_size_bytes; code_cases;
    rewrite !length_app, ?length_wire_sized in *; simpl length in *;
    rewrite ?wrap_u_add, ?wrap_u_id by range; lia.
Qed.

(** [f] on the serializer of the new buffer is all [encode_log] does. *)
Lemma encode_log_wire junk o timestamp :
  op_fits o timestamp →
  ∃ slack, length slack = op_slack o ∧
    encode_log junk (op_to_payload o timestamp) = Ok (cursor [] (wire_op o timestamp ++ slack)).
Proof.
  intros Hf. pose proof (encoded_size_op o timestamp Hf) as Hsize. unfold op_fits in Hf.
  set (n := Z.of_nat (length (wire_op o timestamp) + op_slack o)) in *.
  exists (drop (length (wire_op o timestamp)) (junk <$> seq 0 (Z.to_nat n))).
  split; [rewrite length_drop, length_fmap, length_seq; lia|].
  set (rest := λ bs, match o with
    | LRead k => bs_put_bytes (bytes_of_string k) bs
    | LWrite k d exp =>
        bs ← bs_put_bytes (bytes_of_string k) bs; bs ← bs_put_bytes d bs;
        bs_put_raw (word_bytes 8 exp) bs
    | LPurge => Ok bs
    end).
  rewrite <- (fill_serializer junk _ n (λ bs, bs ← bs_put_raw (word_bytes 4 (op_code o)) bs;
    bs ← bs_put_raw (word_bytes 8 timestamp) bs; rest bs)); [| |lia|lia].
  - unfold encode_log, bs_put_str. unfold rest. clear rest. rewrite <- Hsize. clear.
    destruct o; cbn [op_to_payload p_type p_timestamp p_key p_data_len p_data p_expires_at
      or_ub op_code]; code_cases; same_steps.
    rewrite load_all. ok_bind. same_steps.
  - unfold wire_op, wire_prefix, wire_sized. rewrite <- app_assoc.
    unfold rest. destruct o; wire_steps.
Qed.

(** What decoding puts into a payload: the expiry is never read. *)
Definition decoded (o : log_op) (timestamp : Z) (payload : op_payload) (mem : list byte) :
    op_payload :=
  match o with
  | LRead k =>
      OpPayload READ timestamp k (p_data_len payload) (p_data payload) (p_expires_at payload)
  | LWrite k d _ =>
      OpPayload WRITE timestamp k (Some (Z.of_nat (length d)))
        (Some (d ++ drop (length d) mem)) (p_expires_at payload)
  | LPurge =>
      OpPayload PURGE timestamp (p_key payload) (p_data_len payload) (p_data payload)
        (p_expires_at payload)
  end.

(** The reads of [decode_log] before the data. *)
Lemma decode_prefix y type timestamp :
  fits (wire_prefix type timestamp ++ y) →
  ∃ bs, bs_get_raw 4 (at_pos LITTLE [] (wire_prefix type timestamp ++ y)) =
      Ok (word_bytes 4 type, bs) ∧
    bs_get_raw 8 bs = Ok (word_bytes 8 timestamp, at_pos LITTLE (wire_prefix type timestamp) y).
Proof.
  intros Hf. unfold wire_prefix in *. rewrite <- app_assoc in *. eexists.
  split; [by apply get_raw_here|]. by apply get_raw_here.
Qed.

(** [decode_log] on an entry, its first two reads done. *)
Ltac decode_step o timestamp :=
  match goal with
  | |- context [at_pos LITTLE [] (wire_prefix (op_code o) timestamp ++ ?y)] =>
      let s := fresh in let Hs := fresh in
      destruct (decode_prefix y (op_code o) timestamp) as (s & -> & Hs); [done|];
      ok_bind; rewrite Hs; clear s Hs; ok_bind;
      rewrite signed64_roundtrip, signed32_roundtrip by (done || by destruct o)
  end.

Lemma decode_log_wire o timestamp slack payload mem :
  in_s 64 timestamp → fits (wire_op o timestamp ++ slack) →
  (∀ k d exp, o = LWrite k d exp → p_data payload = Some mem ∧ (length d ≤ length mem)%nat) →
  decode_log (cursor [] (wire_op o timestamp ++ slack)) payload =
    Ok (decoded o timestamp payload mem).
Proof.
  intros Hts Hf Hmem. unfold decode_log. rewrite new_serializer_at. unfold wire_op in *.
  rewrite <- app_assoc in *.
  decode_step o timestamp. set (x := wire_prefix (op_code o) timestamp) in *. clearbody x.
  destruct o as [k|k d exp|]; cbn [op_code decoded]; rewrite <- ?app_assoc in *; code_cases.
  - unfold bs_get_str. rewrite get_bytes_here by done. ok_bind.
    by rewrite string_of_bytes_of_string.
  - destruct (Hmem k d exp eq_refl) as [Hd Hlen]. unfold bs_get_str.
    rewrite get_bytes_here by done. ok_bind.
    rewrite get_bytes_here by (by rewrite <- app_assoc). ok_bind.
    rewrite Hd. cbn [or_ub mbind outcome_bind]. rewrite string_of_bytes_of_string.
    unfold store. rewrite decide_True by lia. by rewrite Nat.add_0_l.
  - done.
Qed.

(** [decode_log] into a payload whose data pointer has room reads from
    what [encode_log] wrote the type, the time, the key and the data.  It does
    not read the expiry of a write, which keeps the value it had; and the log
    carries 4 bytes of uninitialised memory per length, as [encode_log] counts
    8 bytes for a length and writes 4. *)
Theorem decode_encode_log (junk : nat → byte) (o : log_op) (timestamp : Z) (payload : op_payload)
    (mem : list byte) :
  in_s 64 timestamp → op_fits o timestamp →
  (∀ k d exp, o = LWrite k d exp → p_data payload = Some mem ∧ (length d ≤ length mem)%nat) →
  ∃ log slack, encode_log junk (op_to_payload o timestamp) = Ok log ∧
    log = cursor [] (wire_op o timestamp ++ slack) ∧ length slack = op_slack o ∧
    decode_log log payload = Ok (decoded o timestamp payload mem).
Proof.
  intros Hts Hf Hmem. destruct (encode_log_wire junk o timestamp Hf) as (slack & Hslack & Hlog).
  exists (cursor [] (wire_op o timestamp ++ slack)), slack.
  split; [done|]. split; [done|]. split; [done|]. apply decode_log_wire; [done| |done].
  unfold op_fits in Hf. unfold fits. rewrite length_app, Hslack. done.
Qed.

Example decode_encode_log_witness :
  let o := LWrite "key" [Byte.x01; Byte.x02] 99 in
  let payload := OpPayload 0 0 "" None (Some [Byte.xaa; Byte.xbb; Byte.xcc]) None in
  ∃ log slack, encode_log (λ _, Byte.x00) (op_to_payload o 5) = Ok log ∧
    log = cursor [] (wire_op o 5 ++ slack) ∧ length slack = op_slack o ∧
    decode_log log payload = Ok (decoded o 5 payload [Byte.xaa; Byte.xbb; Byte.xcc]).
Proof.
  intros o payload.
  apply (decode_encode_log (λ _, Byte.x00) o 5 payload [Byte.xaa; Byte.xbb; Byte.xcc]);
    [by vm_compute|by vm_compute|]. intros k d exp [= <- <- <-]. split; [done|simpl; lia].
Defined.

(** ** Committing *)

(** The answer to a commit: the index of the entry. *)
Lemma log_idx_buffer junk log_idx :
  ∃ bs, (ret ← alloc junk 8; put_u64 log_idx (new_serializer ret LITTLE)) = Ok bs ∧
    buf_ bs = cursor [] (word_bytes 8 log_idx).
Proof.
  pose proof (fill_serializer junk (word_bytes 8 log_idx) 8 (put_u64 log_idx)
    (puts_u64 log_idx) ltac:(lia) ltac:(done)) as Hf.
  rewrite <- bind_assoc in Hf. apply bind_Ok in Hf as (bs & Hbs & [= Hbuf]).
  exists bs. split; [done|]. rewrite Hbuf. done.
Qed.

(** The cache command a log entry stands for. *)
Definition op_effect (o : log_op) (timestamp : Z) (s : cache_state) : outcome cache_state :=
  match o with
  | LRead k => '(s, _) ← state_commit_read s k timestamp; Ok s
  | LPurge => commit_purge_expired s timestamp
  | LWrite _ _ _ => undefined UninitialisedRead
  end.

(** C32: committing an encoded read or purge runs that command on the cache
    with the entry's key and time, returns a buffer with the entry's index,
    and leaves the last committed index as it was; committing any encoded
    write is undefined behaviour, as [decode_log] copies the data through a
    pointer that was never set. *)
Theorem commit_encoded_log (junk junk' : nat → byte) (o : log_op) (timestamp log_idx : Z)
    (m : cache_state_machine) :
  in_s 64 timestamp → op_fits o timestamp →
  (log ← encode_log junk (op_to_payload o timestamp); commit junk' log_idx log m) =
    (s ← op_effect o timestamp (state_ m);
     Ok (cursor [] (word_bytes 8 log_idx),
         StateMachine s (last_committed_idx_ m) (last_config_idx_ m))).
Proof.
  intros Hts Hf. destruct (encode_log_wire junk o timestamp Hf) as (slack & Hslack & ->).
  ok_bind.
  assert (fits (wire_op o timestamp ++ slack)) as Hfit
    by (unfold op_fits in Hf; unfold fits; by rewrite length_app, Hslack).
  unfold commit. destruct (log_idx_buffer junk' log_idx) as (bs & Hret & Hbuf).
  assert (∀ s, (ret ← alloc junk' 8; bs ← put_u64 log_idx (new_serializer ret LITTLE);
    Ok (buf_ bs, with_state s m)) = Ok (cursor [] (word_bytes 8 log_idx), with_state s m)) as Htail.
  { intros s. rewrite <- bind_assoc, Hret. ok_bind. by rewrite Hbuf. }
  destruct o as [k|k d exp|].
  - rewrite (decode_log_wire (LRead k) timestamp slack fresh_payload []) by done.
    cbn [mbind outcome_bind decoded]. unfold apply_payload, op_effect. cbn [p_type p_key p_timestamp].
    code_cases. destruct (state_commit_read _ _ _) as [[s r]|f]; [|done].
    ok_bind. by rewrite Htail.
  - cbn [op_effect mbind outcome_bind]. unfold decode_log. rewrite new_serializer_at.
    unfold wire_op in *. rewrite <- app_assoc in *.
    decode_step (LWrite k d exp) timestamp. cbn [op_code] in *. code_cases.
    rewrite <- !app_assoc in *. unfold bs_get_str.
    rewrite get_bytes_here by done. ok_bind.
    by rewrite get_bytes_here by (by rewrite <- !app_assoc).
  - rewrite (decode_log_wire LPurge timestamp slack fresh_payload []) by done.
    cbn [mbind outcome_bind decoded]. unfold apply_payload, op_effect. cbn [p_type p_timestamp].
    code_cases. destruct (commit_purge_expired _ _) as [s|f]; [|done].
    ok_bind. by rewrite Htail.
Qed.

Example commit_encoded_log_witness :
  let m := new_state_machine
    (CacheConfig "" 0 "" 0 "" 0 350 100 10 60 "" 0 100 200 400 1000 5 3000) in
  (log ← encode_log (λ _, Byte.xaa) (op_to_payload (LRead "key") 5); commit (λ _, Byte.xbb) 7 log m) =
    (s ← op_effect (LRead "key") 5 (state_ m);
     Ok (cursor [] (word_bytes 8 7),
         StateMachine s (last_committed_idx_ m) (last_config_idx_ m))).
Proof.
  intros m. apply (commit_encoded_log (λ _, Byte.xaa) (λ _, Byte.xbb) (LRead "key") 5 7 m);
    by vm_compute.
Defined.
