(* ===== verification/StateMgr.v ===== *)
(** * inmem_state_mgr: what a server keeps besides its log

    src/raft/in_memory_state_mgr.hxx.  The manager keeps the server's own
    configuration, the log store, the saved cluster configuration and the saved
    server state, [None] before the first one is saved.  Saving goes through
    the serialized form and back. *)
From S2P Require Import Prelude Bytes Buffer BufferSpec BufferSerializer Wire RaftTypes LogStore.
From S2P Require Import SrvState.
Local Open Scope Z_scope.

Definition INIT_PRIORITY : Z := 1.

(** [srv_config(id, endpoint)] *)
Definition new_srv_config (id : Z) (endpoint : string) : srv_config :=
  SrvConfig id 0 endpoint "" false INIT_PRIORITY.

Definition new_cluster_config : cluster_config := ClusterConfig 0 0 false "" [].

Record state_mgr := StateMgr {
  my_id_ : Z;
  my_endpoint_ : string;
  cur_log_store_ : log_store;
  my_srv_config_ : srv_config;
  saved_config_ : cluster_config;
  saved_state_ : option srv_state
}.

Definition new_state_mgr (junk : nat → byte) (srv_id : Z) (endpoint : string) : outcome state_mgr :=
  store ← new_log_store junk;
  let my_srv_config := new_srv_config srv_id endpoint in
  Ok (StateMgr srv_id endpoint store my_srv_config
        (ClusterConfig 0 0 false "" (servers_ new_cluster_config ++ [my_srv_config])) None).

Definition load_config (m : state_mgr) : cluster_config := saved_config_ m.

Definition save_config (junk : nat → byte) (config : cluster_config) (m : state_mgr) :
    outcome state_mgr :=
  buf ← serialize_cluster_config junk config;
  '(saved, _) ← deserialize_cluster_config (new_serializer buf LITTLE);
  Ok (StateMgr (my_id_ m) (my_endpoint_ m) (cur_log_store_ m) (my_srv_config_ m) saved
        (saved_state_ m)).

Definition save_state (junk : nat → byte) (state : srv_state) (m : state_mgr) : outcome state_mgr :=
  buf ← serialize_srv_state junk state;
  saved ← deserialize_srv_state buf;
  Ok (StateMgr (my_id_ m) (my_endpoint_ m) (cur_log_store_ m) (my_srv_config_ m) (saved_config_ m)
        (Some saved)).

Definition read_state (m : state_mgr) : option srv_state := saved_state_ m.
Definition load_log_store (m : state_mgr) : log_store := cur_log_store_ m.
Definition server_id (m : state_mgr) : Z := my_id_ m.
Definition get_srv_config (m : state_mgr) : srv_config := my_srv_config_ m.

(** ** Theorems *)
Lemma save_config_ok junk config m :
  wire_ok config → fits (wire config) →
  save_config junk config m =
    Ok (StateMgr (my_id_ m) (my_endpoint_ m) (cur_log_store_ m) (my_srv_config_ m) config
          (saved_state_ m)).
Proof.
  intros Hok Hf. pose proof (wire_roundtrip junk config Hok Hf) as Hrt.
  apply bind_Ok in Hrt as (buf & Hser & Hrt). apply bind_Ok in Hrt as ([c' bs] & Hde & [= ->]).
  unfold save_config. cbn [serialize deserialize cluster_config_wire] in Hser, Hde.
  rewrite Hser. ok_bind. by rewrite Hde.
Qed.

(** A state without its callback. *)
Definition saved_form (s : srv_state) : srv_state :=
  SrvState (term_ s) (voted_for_ s) (election_timer_allowed_ s) None.

Lemma save_state_ok junk state m :
  srv_state_ok state →
  save_state junk state m =
    Ok (StateMgr (my_id_ m) (my_endpoint_ m) (cur_log_store_ m) (my_srv_config_ m) (saved_config_ m)
          (Some (saved_form state))).
Proof.
  intros Hs. unfold save_state, serialize_srv_state. rewrite serialize_v1p_wire. ok_bind.
  unfold deserialize_srv_state. rewrite cursor_size by done. ok_bind.
  rewrite decide_True by done. by rewrite deserialize_v1p_wire.
Qed.

(** A new manager loads a configuration with the server itself alone, and
    no state.  After saving a configuration and a server state, in any order
    with each other, what is loaded is that configuration, and that state but
    for its term callback; the identity of the server and the log store are
    those of the start. *)
Theorem state_mgr_keeps (junk : nat → byte) (m : state_mgr) (config : cluster_config)
    (state : srv_state) :
  wire_ok config → fits (wire config) → srv_state_ok state →
  (∃ m1 m2, save_config junk config m = Ok m1 ∧ save_state junk state m1 = Ok m2 ∧
    (m1 ← save_state junk state m; save_config junk config m1) = Ok m2 ∧
    load_config m2 = config ∧
    read_state m2 = Some (saved_form state) ∧
    server_id m2 = server_id m ∧ get_srv_config m2 = get_srv_config m ∧
    load_log_store m2 = load_log_store m) ∧
  ∀ id endpoint, ∃ m0, new_state_mgr junk id endpoint = Ok m0 ∧ read_state m0 = None ∧
    server_id m0 = id ∧ servers_ (load_config m0) = [get_srv_config m0] ∧
    endpoint_ (get_srv_config m0) = endpoint.
Proof.
  intros Hok Hf Hs. split.
  - eexists _, _. split; [by apply save_config_ok|]. split; [by apply save_state_ok|].
    split; [|by split]. rewrite save_state_ok by done. ok_bind. by apply save_config_ok.
  - intros id endpoint. unfold new_state_mgr, new_log_store.
    rewrite alloc_spec by (unfold sz_ulong; lia). ok_bind.
    unfold LogEntry.new_log_entry. cbn [negb andb].
    rewrite LogEntry.payload_crc_cursor by done. ok_bind.
    eexists. split; [done|]. by split.
Qed.

Example state_mgr_keeps_witness :
  let junk := λ _, Byte.xff in
  let config := ClusterConfig 4 2 true "u" [new_srv_config 1 "a:1"] in
  let state := SrvState 9 1 false None in
  ∃ m, new_state_mgr junk 7 "me:7" = Ok m ∧
  (∃ m1 m2, save_config junk config m = Ok m1 ∧ save_state junk state m1 = Ok m2 ∧
    (m1 ← save_state junk state m; save_config junk config m1) = Ok m2 ∧
    load_config m2 = config ∧
    read_state m2 = Some (saved_form state) ∧
    server_id m2 = server_id m ∧ get_srv_config m2 = get_srv_config m ∧
    load_log_store m2 = load_log_store m).
Proof.
  intros junk config state. eexists. split; [by vm_compute|].
  apply (state_mgr_keeps junk _ config state); [|by vm_compute|by split].
  split; [by vm_compute|]. split; [by vm_compute|]. repeat constructor; try (by vm_compute);
    apply (bool_decide_unpack _); by vm_compute.
Defined.
