(* ===== verification/RaftParams.v ===== *)
(** * Timers, parameters and limits of a Raft server

    libs/nuraft/include/libnuraft/internal_timer.hxx ([timer_helper]),
    raft_params.hxx ([raft_params]) and the [limits] of raft_server.hxx.  The
    clock is a number of microseconds, which every timer operation takes; the
    [double] in which the code holds an elapsed time is taken to be exact. *)
From S2P Require Import Prelude.
Local Open Scope Z_scope.

(** ** timer_helper *)
Record timer_helper := TimerHelper {
  t_created_ : Z;
  duration_us_ : Z;
  first_event_fired_ : bool
}.
#[export] Instance timer_helper_rebuild : Rebuild timer_helper :=
  λ t, TimerHelper (t_created_ t) (duration_us_ t) (first_event_fired_ t).

Definition new_timer (now duration_us : Z) (fire_first_event : bool) : timer_helper :=
  TimerHelper now duration_us (negb fire_first_event).

Definition reset_timer (now : Z) (t : timer_helper) : timer_helper := t <| t_created_ := now |>.

Definition set_duration_us (us : Z) (t : timer_helper) : timer_helper := t <| duration_us_ := us |>.
Definition set_duration_ms (ms : Z) : timer_helper → timer_helper := set_duration_us (u64 (ms * 1000)).
Definition set_duration_sec (sec : Z) : timer_helper → timer_helper :=
  set_duration_us (u64 (sec * 1000000)).

Definition get_us (now : Z) (t : timer_helper) : Z := now - t_created_ t.
Definition get_ms (now : Z) (t : timer_helper) : Z := (now - t_created_ t) `quot` 1000.
Definition get_sec (now : Z) (t : timer_helper) : Z := (now - t_created_ t) `quot` 1000000.

Definition timeout (now : Z) (t : timer_helper) : bool * timer_helper :=
  if first_event_fired_ t then (bool_decide (duration_us_ t < now - t_created_ t), t)
  else (true, t <| first_event_fired_ := true |>).

Definition timeout_and_reset (now : Z) (t : timer_helper) : bool * timer_helper :=
  if first_event_fired_ t then
    if decide (duration_us_ t < now - t_created_ t) then (true, reset_timer now t) else (false, t)
  else (true, t <| first_event_fired_ := true |>).

(** ** raft_params *)
Inductive locking_method_type := single_mutex | dual_mutex | dual_rw_lock.
Inductive return_method_type := blocking | async_handler.
#[export] Instance return_method_type_eq_dec : EqDecision return_method_type.
Proof. solve_decision. Defined.

Record raft_params := RaftParams {
  election_timeout_upper_bound_ : Z;
  election_timeout_lower_bound_ : Z;
  heart_beat_interval_ : Z;
  rpc_failure_backoff_ : Z;
  log_sync_batch_size_ : Z;
  log_sync_stop_gap_ : Z;
  snapshot_distance_ : Z;
  snapshot_block_size_ : Z;
  enable_randomized_snapshot_creation_ : bool;
  max_append_size_ : Z;
  reserved_log_items_ : Z;
  client_req_timeout_ : Z;
  fresh_log_gap_ : Z;
  stale_log_gap_ : Z;
  custom_commit_quorum_size_ : Z;
  custom_election_quorum_size_ : Z;
  leadership_expiry_ : Z;
  leadership_transfer_min_wait_time_ : Z;
  allow_temporary_zero_priority_leader_ : bool;
  auto_forwarding_ : bool;
  auto_forwarding_max_connections_ : Z;
  use_bg_thread_for_urgent_commit_ : bool;
  exclude_snp_receiver_from_quorum_ : bool;
  auto_adjust_quorum_for_small_cluster_ : bool;
  locking_method_type_ : locking_method_type;
  return_method_ : return_method_type;
  auto_forwarding_req_timeout_ : Z;
  grace_period_of_lagging_state_machine_ : Z;
  use_bg_thread_for_snapshot_io_ : bool;
  use_full_consensus_among_healthy_members_ : bool;
  parallel_log_appending_ : bool
}.
#[export] Instance raft_params_rebuild : Rebuild raft_params := λ p, RaftParams
  (election_timeout_upper_bound_ p) (election_timeout_lower_bound_ p) (heart_beat_interval_ p)
  (rpc_failure_backoff_ p) (log_sync_batch_size_ p) (log_sync_stop_gap_ p) (snapshot_distance_ p)
  (snapshot_block_size_ p) (enable_randomized_snapshot_creation_ p) (max_append_size_ p)
  (reserved_log_items_ p) (client_req_timeout_ p) (fresh_log_gap_ p) (stale_log_gap_ p)
  (custom_commit_quorum_size_ p) (custom_election_quorum_size_ p) (leadership_expiry_ p)
  (leadership_transfer_min_wait_time_ p) (allow_temporary_zero_priority_leader_ p)
  (auto_forwarding_ p) (auto_forwarding_max_connections_ p) (use_bg_thread_for_urgent_commit_ p)
  (exclude_snp_receiver_from_quorum_ p) (auto_adjust_quorum_for_small_cluster_ p)
  (locking_method_type_ p) (return_method_ p) (auto_forwarding_req_timeout_ p)
  (grace_period_of_lagging_state_machine_ p) (use_bg_thread_for_snapshot_io_ p)
  (use_full_consensus_among_healthy_members_ p) (parallel_log_appending_ p).

(** The constructor's values. *)
Definition default_params : raft_params := RaftParams
  500 250 125 50 1000 99999 0 0 false 100 100000 3000 200 2000 0 0 0 0 true false 10 true false false
  dual_mutex blocking 0 0 false false false.

Definition max_hb_interval (p : raft_params) : Z :=
  heart_beat_interval_ p `max`
  (election_timeout_lower_bound_ p - heart_beat_interval_ p `quot` 2).

(** ** raft_server::limits *)
Record limits := Limits {
  pre_vote_rejection_limit_ : Z;
  warning_limit_ : Z;
  response_limit_ : Z;
  leadership_limit_ : Z;
  reconnect_limit_ : Z;
  leave_limit_ : Z;
  vote_limit_ : Z
}.
Definition default_limits : limits := Limits 20 20 20 20 50 5 5.

(** A timer that does not fire on its first event is not changed by asking it. *)
Definition timed_out (now : Z) (t : timer_helper) : bool := (timeout now t).1.
