(* ===== verification/RaftMsg.v ===== *)
(** * The messages Raft servers exchange

    libs/nuraft/include/libnuraft/{msg_type,msg_base,req_msg,resp_msg}.hxx, the
    notifications of src/handle_custom_notification.{hxx,cxx} and the
    [resp_appendix] of src/handle_append_entries.cxx.  A request holds its
    entries, none of them null; a response names by its number the pending
    result its callback would wait for. *)
From S2P Require Import Prelude Bytes Buffer BufferSpec BufferSerializer Wire RaftTypes.
From S2P Require Import LogEntry.
Local Open Scope Z_scope.

Inductive msg_type :=
  | request_vote_request | request_vote_response
  | append_entries_request | append_entries_response
  | client_request
  | add_server_request | add_server_response
  | remove_server_request | remove_server_response
  | sync_log_request | sync_log_response
  | join_cluster_request | join_cluster_response
  | leave_cluster_request | leave_cluster_response
  | install_snapshot_request | install_snapshot_response
  | ping_request | ping_response
  | pre_vote_request | pre_vote_response
  | other_request | other_response
  | priority_change_request | priority_change_response
  | reconnect_request | reconnect_response
  | custom_notification_request | custom_notification_response.
#[export] Instance msg_type_eq_dec : EqDecision msg_type.
Proof. solve_decision. Defined.

(** The value of the enumerator. *)
Definition msg_type_value (t : msg_type) : Z :=
  match t with
  | request_vote_request => 1 | request_vote_response => 2
  | append_entries_request => 3 | append_entries_response => 4
  | client_request => 5
  | add_server_request => 6 | add_server_response => 7
  | remove_server_request => 8 | remove_server_response => 9
  | sync_log_request => 10 | sync_log_response => 11
  | join_cluster_request => 12 | join_cluster_response => 13
  | leave_cluster_request => 14 | leave_cluster_response => 15
  | install_snapshot_request => 16 | install_snapshot_response => 17
  | ping_request => 18 | ping_response => 19
  | pre_vote_request => 20 | pre_vote_response => 21
  | other_request => 22 | other_response => 23
  | priority_change_request => 24 | priority_change_response => 25
  | reconnect_request => 26 | reconnect_response => 27
  | custom_notification_request => 28 | custom_notification_response => 29
  end.

Definition is_valid_msg (t : msg_type) : bool :=
  bool_decide (msg_type_value request_vote_request ≤ msg_type_value t ∧
               msg_type_value t ≤ msg_type_value other_response).

Record req_msg := ReqMsg {
  rq_term : Z;
  rq_type : msg_type;
  rq_src : Z;
  rq_dst : Z;
  rq_last_log_term : Z;
  rq_last_log_idx : Z;
  rq_commit_idx : Z;
  rq_log_entries : list log_entry
}.
#[export] Instance req_msg_rebuild : Rebuild req_msg := λ r, ReqMsg (rq_term r) (rq_type r)
  (rq_src r) (rq_dst r) (rq_last_log_term r) (rq_last_log_idx r) (rq_commit_idx r)
  (rq_log_entries r).

(** [enum cmd_result_code] *)
Inductive cmd_result_code :=
  | OK | CANCELLED | TIMEOUT | NOT_LEADER | BAD_REQUEST | SERVER_ALREADY_EXISTS | CONFIG_CHANGING
  | SERVER_IS_JOINING | SERVER_NOT_FOUND | CANNOT_REMOVE_LEADER | SERVER_IS_LEAVING | TERM_MISMATCH
  | RESULT_NOT_EXIST_YET | FAILED.
#[export] Instance cmd_result_code_eq_dec : EqDecision cmd_result_code.
Proof. solve_decision. Defined.

Record resp_msg := RespMsg {
  rs_term : Z;
  rs_type : msg_type;
  rs_src : Z;
  rs_dst : Z;
  rs_next_idx : Z;
  rs_next_batch_size_hint_in_bytes : Z;
  rs_accepted : bool;
  rs_ctx : option buffer;
  rs_peer : option positive;
  rs_cb : option positive;
  rs_async_cb : option positive;
  rs_result_code : cmd_result_code
}.
#[export] Instance resp_msg_rebuild : Rebuild resp_msg := λ r, RespMsg (rs_term r) (rs_type r)
  (rs_src r) (rs_dst r) (rs_next_idx r) (rs_next_batch_size_hint_in_bytes r) (rs_accepted r)
  (rs_ctx r) (rs_peer r) (rs_cb r) (rs_async_cb r) (rs_result_code r).

Definition new_resp (term : Z) (type : msg_type) (src dst next_idx : Z) : resp_msg :=
  RespMsg term type src dst next_idx 0 false None None None None OK.

Definition accept (next_idx : Z) (r : resp_msg) : resp_msg :=
  r <| rs_next_idx := next_idx |> <| rs_accepted := true |>.

(** ** custom_notification_msg, out_of_log_msg and force_vote_msg

    The type is the byte as it is read: the code casts it to the enum whatever
    its value. *)
Definition out_of_log_range_warning : Z := 1.
Definition leadership_takeover : Z := 2.
Definition request_resignation : Z := 3.

Record custom_notification_msg := CustomNotificationMsg {
  cn_type : Z;
  cn_ctx : option buffer
}.

Definition serialize_custom_notification (junk : nat → byte) (m : custom_notification_msg) :
    outcome buffer :=
  len ← (match cn_ctx m with Some c => size c | None => Ok 0 end);
  ret ← alloc junk (u64 (1 + 1 + 4 + len));
  let bs := new_serializer ret LITTLE in
  bs ← put_u8 0 bs;
  bs ← put_u8 (cn_type m) bs;
  bs ← (match cn_ctx m with
        | Some c => start ← entire_data_of_block c; raw ← load start len c; bs_put_bytes raw bs
        | None => put_u32 0 bs
        end);
  Ok (buf_ bs).

Definition deserialize_custom_notification (junk : nat → byte) (buf : buffer) :
    outcome custom_notification_msg :=
  let bs := new_serializer buf LITTLE in
  '(_, bs) ← get_u8 bs;
  '(type, bs) ← get_u8 bs;
  '(data, bs) ← bs_get_bytes bs;
  if decide (data = []) then Ok (CustomNotificationMsg type None)
  else
    ctx ← alloc junk (Z.of_nat (length data));
    start ← entire_data_of_block ctx;
    ctx ← store start data ctx;
    Ok (CustomNotificationMsg type (Some ctx)).

Definition serialize_out_of_log (junk : nat → byte) (start_idx_of_leader : Z) : outcome buffer :=
  ret ← alloc junk (1 + 8);
  let bs := new_serializer ret LITTLE in
  bs ← put_u8 0 bs;
  bs ← put_u64 start_idx_of_leader bs;
  Ok (buf_ bs).

Definition deserialize_out_of_log (buf : buffer) : outcome Z :=
  let bs := new_serializer buf LITTLE in
  '(_, bs) ← get_u8 bs;
  '(start_idx_of_leader, _) ← get_u64 bs;
  Ok start_idx_of_leader.

Definition serialize_force_vote (junk : nat → byte) : outcome buffer :=
  ret ← alloc junk 1;
  let bs := new_serializer ret LITTLE in
  bs ← put_u8 0 bs;
  Ok (buf_ bs).

(** ** resp_appendix *)
Definition NONE : Z := 0.
Definition DO_NOT_REWIND : Z := 1.

Definition serialize_appendix (junk : nat → byte) (extra_order : Z) : outcome buffer :=
  result ← alloc junk (1 + 1);
  let bs := new_serializer result LITTLE in
  bs ← put_u8 0 bs;
  bs ← put_u8 extra_order bs;
  Ok (buf_ bs).

Definition deserialize_appendix (buf : buffer) : outcome Z :=
  let bs := new_serializer buf LITTLE in
  '(cur_ver, bs) ← get_u8 bs;
  if decide (cur_ver ≠ 0) then Ok NONE
  else
    '(extra_order, _) ← get_u8 bs;
    Ok extra_order.
