(* ===== verification/RpcFrame.v ===== *)
(** * The frames of the RPC transport

    libs/nuraft/src/asio_service.cxx, what goes over a connection: how
    [asio_rpc_client::send] lays a request out, how [rpc_session] reads it
    ([start], [read_log_data], [read_complete]) and lays the response out
    ([on_resp_ready]), and how the client reads that ([response_read],
    [ctx_read]).  Sockets and timers are not here: what was read is an
    argument, what is to be done next a result.  The enumerators are cast from
    and to a byte unchecked, so a request and a response on the wire have that
    byte for their type. *)
From S2P Require Import Prelude Bytes Buffer BufferSpec BufferSerializer Crc32 Wire RaftTypes.
From S2P Require Import LogEntry RaftMsg.
Local Open Scope Z_scope.

Definition RPC_REQ_HEADER_SIZE : Z := 4 * 3 + 8 * 5 + 1 * 2.
Definition RPC_RESP_HEADER_SIZE : Z := 4 * 3 + 8 * 3 + 1 * 3.
Definition DATA_SIZE_LEN : Z := 4.
Definition CRC_FLAGS_LEN : Z := 8.

Definition INCLUDE_META : Z := 0x1.
Definition INCLUDE_HINT : Z := 0x2.
Definition INCLUDE_LOG_TIMESTAMP : Z := 0x4.
Definition CRC_ON_ENTIRE_MESSAGE : Z := 0x8.
Definition CRC_ON_PAYLOAD : Z := 0x10.

(** [flags & f] *)
Definition has (flags f : Z) : bool := bool_decide (Z.land flags f ≠ 0).
(** [flags |= f], if it is to be set *)
Definition with_flag (b : bool) (f flags : Z) : Z := if b then Z.lor flags f else flags.

(** ** What is sent *)
Record rpc_req := RpcReq {
  q_term : Z;
  q_type : Z;
  q_src : Z;
  q_dst : Z;
  q_last_log_term : Z;
  q_last_log_idx : Z;
  q_commit_idx : Z;
  q_log_entries : list log_entry
}.
Record rpc_resp := RpcResp {
  p_term : Z;
  p_type : Z;
  p_src : Z;
  p_dst : Z;
  p_next_idx : Z;
  p_accepted : bool;
  p_hint : Z;
  p_ctx : option buffer
}.

Definition rpc_req_of (r : req_msg) : rpc_req :=
  RpcReq (rq_term r) (msg_type_value (rq_type r)) (rq_src r) (rq_dst r) (rq_last_log_term r)
    (rq_last_log_idx r) (rq_commit_idx r) (rq_log_entries r).
Definition rpc_resp_of (r : resp_msg) : rpc_resp :=
  RpcResp (rs_term r) (msg_type_value (rs_type r)) (rs_src r) (rs_dst r) (rs_next_idx r)
    (rs_accepted r) (rs_next_batch_size_hint_in_bytes r) (rs_ctx r).

(** [asio_service_options]: the callbacks see the request, and the response
    where there is one; of [corrupted_msg_handler_] whether it is set. *)
Record options := Options {
  write_req_meta_ : option (rpc_req → string);
  read_req_meta_ : option (rpc_req → string → bool);
  invoke_req_cb_on_empty_meta_ : bool;
  write_resp_meta_ : option (rpc_req → rpc_resp → string);
  read_resp_meta_ : option (rpc_req → rpc_resp → string → bool);
  invoke_resp_cb_on_empty_meta_ : bool;
  replicate_log_timestamp_ : bool;
  crc_on_entire_message_ : bool;
  crc_on_payload_ : bool;
  corrupted_msg_handler_ : bool
}.
#[export] Instance options_rebuild : Rebuild options := λ o, Options (write_req_meta_ o) (read_req_meta_ o)
  (invoke_req_cb_on_empty_meta_ o) (write_resp_meta_ o) (read_resp_meta_ o)
  (invoke_resp_cb_on_empty_meta_ o) (replicate_log_timestamp_ o) (crc_on_entire_message_ o)
  (crc_on_payload_ o) (corrupted_msg_handler_ o).
Definition default_options : options :=
  Options None None true None None true false false false false.

(** [m->data_begin() + off], [n] bytes of it *)
Definition data_at (off n : Z) (m : buffer) : outcome (list byte) :=
  start ← entire_data_of_block m; load (start + off) n m.
(** A buffer whose bytes a read from the socket filled, from the position 0. *)
Definition received (junk : nat → byte) (bs : list byte) : outcome buffer :=
  m ← alloc junk (Z.of_nat (length bs));
  start ← data_of_block m; store start bs m.

(** ** asio_rpc_client::send: the request *)

(** The size of an entry besides its payload. *)
Definition LOG_ENTRY_SIZE (flags : Z) : Z :=
  8 + 1 + 4 + (if has flags INCLUDE_LOG_TIMESTAMP then 8 else 0)
    + (if has flags CRC_ON_PAYLOAD then 5 else 0).

Definition request_flags (o : options) : Z :=
  with_flag (crc_on_payload_ o) CRC_ON_PAYLOAD
    (with_flag (replicate_log_timestamp_ o) INCLUDE_LOG_TIMESTAMP 0x0).

Definition when_ (b : bool) (f : serializer → outcome serializer) (s : serializer) :
    outcome serializer := if b then f s else Ok s.

Definition encode_entry (junk : nat → byte) (o : options) (le : log_entry) : outcome buffer :=
  buf ← get_buf le;
  sz ← size buf;
  entry_buf ← alloc junk (LOG_ENTRY_SIZE (request_flags o) + sz);
  let ss := new_serializer entry_buf LITTLE in
  ss ← put_u64 (LogEntry.term_ le) ss;
  ss ← put_u8 (Z_of_byte (value_type_ le)) ss;
  ss ← when_ (replicate_log_timestamp_ o) (put_u64 (timestamp_us_ le)) ss;
  ss ← when_ (crc_on_payload_ o)
         (λ ss, ss ← put_u8 (if has_crc32_ le then 1 else 0) ss; put_u32 (LogEntry.crc32_ le) ss) ss;
  ss ← put_i32 sz ss;
  raw ← data_at 0 sz buf;
  ss ← bs_put_raw raw ss;
  Ok (buf_ ss).

(** The buffers of the entries, and the sum of their sizes, an [int32]. *)
Fixpoint encode_entries (junk : nat → byte) (o : options) (les : list log_entry) (log_data_size : Z) :
    outcome (list buffer * Z) :=
  match les with
  | [] => Ok ([], log_data_size)
  | le :: les =>
      b ← encode_entry junk o le;
      sz ← size b;
      log_data_size ← chk_s 32 (log_data_size + i32 sz);
      '(bs, log_data_size) ← encode_entries junk o les log_data_size;
      Ok (b :: bs, log_data_size)
  end.

Fixpoint put_buffers (bufs : list buffer) (bs : serializer) : outcome serializer :=
  match bufs with
  | [] => Ok bs
  | b :: bufs => bs ← bs_put_buffer b bs; put_buffers bufs bs
  end.

Definition put_req_header (q : rpc_req) (data_size : Z) (bs : serializer) : outcome serializer :=
  bs ← put_u8 0x0 bs;
  bs ← put_u8 (q_type q) bs;
  bs ← put_i32 (q_src q) bs;
  bs ← put_i32 (q_dst q) bs;
  bs ← put_u64 (q_term q) bs;
  bs ← put_u64 (q_last_log_term q) bs;
  bs ← put_u64 (q_last_log_idx q) bs;
  bs ← put_u64 (q_commit_idx q) bs;
  put_i32 data_size bs.

(** What is written to the socket. *)
Definition encode_request (junk : nat → byte) (o : options) (q : rpc_req) : outcome (list byte) :=
  '(log_entry_bufs, log_data_size) ← encode_entries junk o (q_log_entries q) 0;
  let meta_str := match write_req_meta_ o with Some f => f q | None => ""%string end in
  let include_meta := bool_decide (meta_str ≠ ""%string) in
  let flags := with_flag include_meta INCLUDE_META (request_flags o) in
  let meta_size := if include_meta then 4 + string_size meta_str else 0 in
  data_size ← chk_s 32 (i32 meta_size + log_data_size);
  req_buf ← alloc junk (u64 (RPC_REQ_HEADER_SIZE + meta_size + log_data_size));
  bs ← put_req_header q data_size (new_serializer req_buf LITTLE);
  header ← data_at 0 (RPC_REQ_HEADER_SIZE - CRC_FLAGS_LEN) (buf_ bs);
  let crc_header := crc32_8 header 0 in
  let crc_pos := pos_ bs in
  bs ← put_u64 (Z.lor (Z.shiftl flags 32) crc_header) bs;
  let payload_pos := pos_ bs in
  bs ← when_ include_meta (bs_put_bytes (bytes_of_string meta_str)) bs;
  bs ← put_buffers log_entry_bufs bs;
  bs ← when_ (crc_on_entire_message_ o) (λ bs,
         payload ← data_at payload_pos (u64 (meta_size + log_data_size)) (buf_ bs);
         let crc_payload := crc32_8 payload crc_header in
         bs ← ser_set_pos crc_pos bs;
         put_u64 (Z.lor (Z.shiftl (Z.lor flags CRC_ON_ENTIRE_MESSAGE) 32) crc_payload) bs) bs;
  sz ← size (buf_ bs);
  d ← data_of_block (buf_ bs);
  load d sz (buf_ bs).

(** ** rpc_session *)
Record session := Session {
  flags_ : Z;
  header_ : buffer;
  src_id_ : Z;
  is_leader_ : bool;
  crc_header_ : Z;
  crc_from_msg_ : Z
}.
#[export] Instance session_rebuild : Rebuild session := λ s,
  Session (flags_ s) (header_ s) (src_id_ s) (is_leader_ s) (crc_header_ s) (crc_from_msg_ s).

Definition new_session (junk : nat → byte) : outcome session :=
  h ← alloc junk RPC_REQ_HEADER_SIZE; Ok (Session 0x0 h (-1) false 0 0).

(** What a session tells: the callbacks of the server and of the options. *)
Inductive session_event :=
  | ConnectionOpened (src : Z) (is_leader : bool)
  | NewSessionFromLeader (src : Z)
  | ConnectionClosed (src : Z) (is_leader : bool)
  | CorruptedMsg (header : buffer) (log_ctx : option buffer).

(** What it does next: end, read so many bytes, or have the server process the
    request. *)
Inductive session_action :=
  | Stop
  | ReadLogData (n : Z)
  | ProcessReq (q : rpc_req).

Abbreviation session_result := (session * list session_event * session_action)%type.

(** The leader may have changed without the session being closed. *)
Definition check_leader (leader : Z) (s : session) : session :=
  if is_leader_ s && bool_decide (src_id_ s ≠ leader) then s <| is_leader_ := false |> else s.

Definition stop (leader : Z) (s : session) (evs : list session_event) : outcome session_result :=
  let s := check_leader leader s in
  Ok (s, evs ++ [ConnectionClosed (src_id_ s) (is_leader_ s)], Stop).

Definition stop_corrupted (o : options) (leader : Z) (log_ctx : option buffer) (s : session)
    (evs : list session_event) : outcome session_result :=
  stop leader s (evs ++ if corrupted_msg_handler_ o then [CorruptedMsg (header_ s) log_ctx] else []).

(** [try { m } catch (std::exception&) { h }] *)
Definition caught {A} (h m : outcome A) : outcome A :=
  match m with Fault (Exn _) => h | _ => m end.

(** The handler of a header that was read. *)
Definition start (o : options) (leader : Z) (hdr : list byte) (s : session) : outcome session_result :=
  h ← set_pos 0 (header_ s);
  d ← data_of_block h;
  h ← store d hdr h;
  let s := s <| header_ := h |> in
  let h_bs := new_serializer h LITTLE in
  head ← data_at 0 (RPC_REQ_HEADER_SIZE - CRC_FLAGS_LEN) h;
  let s := s <| crc_header_ := crc32_8 head 0 |> in
  h_bs ← ser_set_pos (RPC_REQ_HEADER_SIZE - CRC_FLAGS_LEN) h_bs;
  '(flags_and_crc, h_bs) ← get_u64 h_bs;
  let s := s <| crc_from_msg_ := Z.land flags_and_crc 0xffffffff |>
             <| flags_ := u32 (Z.shiftr flags_and_crc 32) |> in
  if negb (has (flags_ s) CRC_ON_ENTIRE_MESSAGE) && bool_decide (crc_header_ s ≠ crc_from_msg_ s)
  then stop_corrupted o leader None s []
  else
    h_bs ← ser_set_pos 0 h_bs;
    '(marker, h_bs) ← get_u8 h_bs;
    if decide (marker = 0x1) then stop_corrupted o leader None s []
    else
      h_bs ← ser_set_pos (RPC_REQ_HEADER_SIZE - CRC_FLAGS_LEN - DATA_SIZE_LEN) h_bs;
      '(data_size, _) ← get_i32 h_bs;
      if decide (data_size < 0 ∨ data_size > 0x40000000) then stop_corrupted o leader None s []
      else Ok (s, [], ReadLogData data_size).

(** What precedes the payload of an entry. *)
Record entry_head := EntryHead {
  h_term : Z;
  h_type : Z;
  h_timestamp : Z;
  h_has_crc : Z;
  h_crc : Z;
  h_size : Z
}.

Definition get_entry_head (flags : Z) (ss : serializer) : outcome (entry_head * serializer) :=
  '(term, ss) ← get_u64 ss;
  '(val_type, ss) ← get_u8 ss;
  '(timestamp, ss) ← (if has flags INCLUDE_LOG_TIMESTAMP then get_u64 ss else Ok (0, ss));
  '(has_crc, ss) ← (if has flags CRC_ON_PAYLOAD then get_u8 ss else Ok (0, ss));
  '(crc, ss) ← (if has flags CRC_ON_PAYLOAD then get_u32 ss else Ok (0, ss));
  '(val_size, ss) ← get_i32 ss;
  Ok (EntryHead term val_type timestamp has_crc crc val_size, ss).

(** [None]: the loop found the message corrupted. *)
Fixpoint parse_entries (fuel : nat) (junk : nat → byte) (flags log_ctx_size : Z) (ss : serializer) :
    outcome (option (list log_entry)) :=
  if decide (pos_ ss < log_ctx_size) then
    match fuel with
    | O => Fault OutOfFuel
    | S fuel =>
        if decide (u64 (log_ctx_size - pos_ ss) < LOG_ENTRY_SIZE flags) then Ok None
        else
          '(h, ss) ← get_entry_head flags ss;
          let val_size := u64 (h_size h) in
          if decide (u64 (log_ctx_size - pos_ ss) < val_size) then Ok None
          else
            buf ← alloc junk val_size;
            '(buf, ss) ← bs_get_buffer buf ss;
            let has_crc32 := bool_decide (h_has_crc h ≠ 0) in
            entry ← new_log_entry (h_term h) (Some buf) (byte_of_Z (h_type h)) (h_timestamp h)
                      has_crc32 (h_crc h) false;
            local ← (if has flags CRC_ON_PAYLOAD && has_crc32 then payload_crc buf else Ok (h_crc h));
            if decide (local ≠ h_crc h) then Ok None
            else
              rest ← parse_entries fuel junk flags log_ctx_size ss;
              Ok (cons entry <$> (rest : option (list log_entry)))
    end
  else Ok (Some []).

(** The meta, and the entries. *)
Definition parse_payload (junk : nat → byte) (flags log_data_size : Z) (log_ctx : option buffer) :
    outcome (string * option (list log_entry)) :=
  match log_ctx with
  | Some ctx =>
      if decide (log_data_size > 0) then
        log_ctx_size ← size ctx;
        let ss := new_serializer ctx LITTLE in
        '(meta_raw, ss) ← (if has flags INCLUDE_META then bs_get_bytes ss else Ok ([], ss));
        entries ← parse_entries (Z.to_nat log_ctx_size) junk flags log_ctx_size ss;
        Ok (string_of_bytes meta_raw, entries)
      else Ok (""%string, Some [])
  | None => Ok (""%string, Some [])
  end.

Definition parse_req_header (h : buffer) : outcome (rpc_req * Z) :=
  h_bs ← ser_set_pos 1 (new_serializer h LITTLE);
  '(t, h_bs) ← get_u8 h_bs;
  '(src, h_bs) ← get_i32 h_bs;
  '(dst, h_bs) ← get_i32 h_bs;
  '(term, h_bs) ← get_u64 h_bs;
  '(last_term, h_bs) ← get_u64 h_bs;
  '(last_idx, h_bs) ← get_u64 h_bs;
  '(commit_idx, h_bs) ← get_u64 h_bs;
  '(log_data_size, _) ← get_i32 h_bs;
  Ok (RpcReq term t src dst last_term last_idx commit_idx [], log_data_size).

(** The types only a leader sends. *)
Definition from_leader (t : Z) : bool :=
  bool_decide (t ∈ msg_type_value <$>
    [append_entries_request; sync_log_request; join_cluster_request; leave_cluster_request;
     install_snapshot_request; priority_change_request; custom_notification_request]).

(** Who is at the other end. *)
Definition note_sender (leader : Z) (q : rpc_req) (s : session) : session * list session_event :=
  let '(s, opened) :=
    if decide (src_id_ s = -1) then
      let s := check_leader leader (s <| src_id_ := q_src q |>) in
      (s, [ConnectionOpened (src_id_ s) (is_leader_ s)])
    else (check_leader leader s, []) in
  if negb (is_leader_ s) && from_leader (q_type q) then
    (s <| is_leader_ := true |>, opened ++ [NewSessionFromLeader (src_id_ s)])
  else (s, opened).

Definition meta_accepted (o : options) (q : rpc_req) (meta_str : string) : bool :=
  match read_req_meta_ o with
  | Some f =>
      if bool_decide (meta_str ≠ ""%string) || invoke_req_cb_on_empty_meta_ o then f q meta_str else true
  | None => true
  end.

Definition with_entries (q : rpc_req) (les : list log_entry) : rpc_req :=
  RpcReq (q_term q) (q_type q) (q_src q) (q_dst q) (q_last_log_term q) (q_last_log_idx q)
    (q_commit_idx q) les.

(** Up to the call of the server. *)
Definition read_complete (junk : nat → byte) (o : options) (leader : Z) (log_ctx : option buffer)
    (s : session) : outcome session_result :=
  caught (stop leader s []) (
    '(q, log_data_size) ← parse_req_header (header_ s);
    crc_payload ← (if has (flags_ s) CRC_ON_ENTIRE_MESSAGE then
                     match log_ctx with
                     | Some ctx => sz ← size ctx; bs ← data_at 0 sz ctx; Ok (crc32_8 bs (crc_header_ s))
                     | None => Ok (crc_header_ s)
                     end
                   else Ok (crc_from_msg_ s));
    if decide (crc_payload ≠ crc_from_msg_ s) then stop_corrupted o leader log_ctx s []
    else
      let '(s, evs) := note_sender leader q s in
      caught (stop leader s evs) (
        '(meta_str, entries) ← parse_payload junk (flags_ s) log_data_size log_ctx;
        match entries with
        | None => stop_corrupted o leader log_ctx s evs
        | Some les =>
            let q := with_entries q les in
            if meta_accepted o q meta_str then Ok (s, evs, ProcessReq q) else stop leader s evs
        end)).

(** One request read from what the connection still gives; with too little, the
    read fails.  The rest is returned. *)
Definition read_request (junk : nat → byte) (o : options) (leader : Z) (stream : list byte)
    (s : session) : outcome (session_result * list byte) :=
  let n := Z.to_nat RPC_REQ_HEADER_SIZE in
  if decide (length stream < n)%nat then r ← stop leader s []; Ok (r, [])
  else
    r ← start o leader (take n stream) s;
    let stream := drop n stream in
    match r with
    | (s, _, ReadLogData size) =>
        if decide (size = 0) then
          r ← read_complete junk o leader None s; Ok (r, stream)
        else if decide (length stream < Z.to_nat size)%nat then r ← stop leader s []; Ok (r, [])
        else
          log_ctx ← received junk (take (Z.to_nat size) stream);
          r ← read_complete junk o leader (Some log_ctx) s;
          Ok (r, drop (Z.to_nat size) stream)
    | _ => Ok (r, stream)
    end.

(** ** rpc_session::on_resp_ready: the response *)
Definition put_resp_header (p : rpc_resp) (data_size : Z) (bs : serializer) : outcome serializer :=
  bs ← put_u8 0x1 bs;
  bs ← put_u8 (p_type p) bs;
  bs ← put_i32 (p_src p) bs;
  bs ← put_i32 (p_dst p) bs;
  bs ← put_u64 (p_term p) bs;
  bs ← put_u64 (p_next_idx p) bs;
  bs ← put_u8 (Z.b2z (p_accepted p)) bs;
  put_i32 data_size bs.

Definition put_hint (hint : Z) (bs : serializer) : outcome serializer :=
  bs ← put_u16 0 bs;
  bs ← put_u16 sz_ulong bs;
  put_i64 hint bs.

Definition put_ctx (ctx : buffer) (bs : serializer) : outcome serializer :=
  ctx ← set_pos 0 ctx; bs_put_buffer ctx bs.

Definition encode_response (junk : nat → byte) (o : options) (q : rpc_req) (p : rpc_resp) :
    outcome (list byte) :=
  ctx_size ← (match p_ctx p with Some c => sz ← size c; Ok (i32 sz) | None => Ok 0 end);
  let meta_str := match write_resp_meta_ o with Some f => f q p | None => ""%string end in
  let include_meta := bool_decide (meta_str ≠ ""%string) in
  let include_hint := bool_decide (p_hint p ≠ 0) in
  let flags := with_flag include_hint INCLUDE_HINT (with_flag include_meta INCLUDE_META 0x0) in
  let meta_size := if include_meta then 4 + string_size meta_str else 0 in
  let hint_size := if include_hint then 2 * 2 + 8 else 0 in
  let carried_data_size := u64 (meta_size + hint_size + ctx_size) in
  let buf_size := i32 (RPC_RESP_HEADER_SIZE + carried_data_size) in
  resp_buf ← alloc junk (u64 buf_size);
  bs ← put_resp_header p carried_data_size (new_serializer resp_buf LITTLE);
  header ← data_at 0 (RPC_RESP_HEADER_SIZE - CRC_FLAGS_LEN) (buf_ bs);
  let crc_val := crc32_8 header 0 in
  bs ← put_u64 (Z.lor (Z.shiftl flags 32) crc_val) bs;
  bs ← when_ include_meta (bs_put_str meta_str) bs;
  bs ← when_ include_hint (put_hint (p_hint p)) bs;
  bs ← when_ (bool_decide (ctx_size ≠ 0))
         (λ bs, ctx ← or_ub NullPointer (p_ctx p); put_ctx ctx bs) bs;
  sz ← size (buf_ bs);
  data_at 0 sz (buf_ bs).

(** ** asio_rpc_client: reading the response

    What the client does next: call the handler with the response or with an
    exception, or read so many bytes more. *)
Inductive client_failure := CrcMismatch | MetaRejected.
Inductive client_action :=
  | Failed (why : client_failure)
  | ReadCtx (n : Z) (p : rpc_resp) (flags : Z)
  | Received (p : rpc_resp).

Definition resp_meta_ok (o : options) (q : rpc_req) (p : rpc_resp) (meta_str : string) : bool :=
  match read_resp_meta_ o with Some f => f q p meta_str | None => true end.

Definition parse_resp_header (bs : serializer) : outcome (rpc_resp * Z) :=
  bs ← ser_set_pos 1 bs;
  '(t, bs) ← get_u8 bs;
  '(src, bs) ← get_i32 bs;
  '(dst, bs) ← get_i32 bs;
  '(term, bs) ← get_u64 bs;
  '(nxt_idx, bs) ← get_u64 bs;
  '(accepted_val, bs) ← get_u8 bs;
  '(carried_data_size, _) ← get_i32 bs;
  Ok (RpcResp term t src dst nxt_idx (bool_decide (accepted_val = 1)) 0 None, carried_data_size).

Definition response_read (junk : nat → byte) (o : options) (q : rpc_req) (hdr : list byte) :
    outcome client_action :=
  resp_buf ← received junk hdr;
  let bs := new_serializer resp_buf LITTLE in
  head ← data_at 0 (RPC_RESP_HEADER_SIZE - CRC_FLAGS_LEN) resp_buf;
  let crc_local := crc32_8 head 0 in
  bs ← ser_set_pos (RPC_RESP_HEADER_SIZE - CRC_FLAGS_LEN) bs;
  '(flags_and_crc, bs) ← get_u64 bs;
  let crc_buf := Z.land flags_and_crc 0xffffffff in
  let flags := u32 (Z.shiftr flags_and_crc 32) in
  if decide (crc_local ≠ crc_buf) then Ok (Failed CrcMismatch)
  else
    '(p, carried_data_size) ← parse_resp_header bs;
    if negb (has flags INCLUDE_META) && invoke_resp_cb_on_empty_meta_ o
       && negb (resp_meta_ok o q p ""%string)
    then Ok (Failed MetaRejected)
    else if decide (carried_data_size ≠ 0) then
      _ ← alloc junk (u64 carried_data_size);
      Ok (ReadCtx (u64 carried_data_size) p flags)
    else Ok (Received p).

Definition with_ctx (ctx : buffer) (p : rpc_resp) : rpc_resp :=
  RpcResp (p_term p) (p_type p) (p_src p) (p_dst p) (p_next_idx p) (p_accepted p) (p_hint p) (Some ctx).
Definition with_hint (hint : Z) (p : rpc_resp) : rpc_resp :=
  RpcResp (p_term p) (p_type p) (p_src p) (p_dst p) (p_next_idx p) (p_accepted p) hint (p_ctx p).

(** The meta, of which the callback may say no: [None]. *)
Definition read_resp_meta (o : options) (flags : Z) (q : rpc_req) (p : rpc_resp)
    (bs : serializer) (remaining_len : Z) : outcome (option (serializer * Z)) :=
  if has flags INCLUDE_META then
    '(meta_raw, bs) ← bs_get_bytes bs;
    let len := Z.of_nat (length meta_raw) in
    if (bool_decide (len ≠ 0) || invoke_resp_cb_on_empty_meta_ o)
       && negb (resp_meta_ok o q p (string_of_bytes meta_raw))
    then Ok None
    else Ok (Some (bs, i32 (remaining_len - (4 + len))))
  else Ok (Some (bs, remaining_len)).

Definition read_hint (flags : Z) (p : rpc_resp) (bs : serializer) (remaining_len : Z) :
    outcome (rpc_resp * serializer * Z) :=
  if has flags INCLUDE_HINT then
    '(_, bs) ← get_u16 bs;
    '(hint_len, bs) ← get_u16 bs;
    '(hint, bs) ← get_i64 bs;
    Ok (with_hint hint p, bs, i32 (remaining_len - (2 * 2 + hint_len)))
  else Ok (p, bs, remaining_len).

(** The error code of the read is not looked at: [ctx_buf] is what is there. *)
Definition ctx_read (junk : nat → byte) (o : options) (q : rpc_req) (p : rpc_resp) (flags : Z)
    (ctx_buf : buffer) : outcome client_action :=
  if negb (has flags INCLUDE_META) && negb (has flags INCLUDE_HINT) then
    ctx ← set_pos 0 ctx_buf;
    Ok (Received (with_ctx ctx p))
  else
    sz ← size ctx_buf;
    meta ← read_resp_meta o flags q p (new_serializer ctx_buf LITTLE) (i32 sz);
    match meta with
    | None => Ok (Failed MetaRejected)
    | Some (bs, remaining_len) =>
        '(p, bs, remaining_len) ← read_hint flags p bs remaining_len;
        if decide (remaining_len < 0) then throw assertion_failed
        else if decide (remaining_len ≠ 0) then
          actual_ctx ← alloc junk remaining_len;
          '(actual_ctx, _) ← bs_get_buffer actual_ctx bs;
          Ok (Received (with_ctx actual_ctx p))
        else Ok (Received p)
    end.

(** One response read from a connection that gives all of it. *)
Definition read_response (junk : nat → byte) (o : options) (q : rpc_req) (stream : list byte) :
    outcome (client_action * list byte) :=
  let n := Z.to_nat RPC_RESP_HEADER_SIZE in
  a ← response_read junk o q (take n stream);
  let stream := drop n stream in
  match a with
  | ReadCtx size p flags =>
      ctx_buf ← received junk (take (Z.to_nat size) stream);
      a ← ctx_read junk o q p flags ctx_buf;
      Ok (a, drop (Z.to_nat size) stream)
  | _ => Ok (a, stream)
  end.
