(* ===== verification/RpcFrameSpec.v ===== *)
(** * The bytes of the frames

    What [encode_request] writes, entry by entry, and what the reading side does
    with a header, an entry and a payload: with those bytes, and with any
    others.  The theorems put these together. *)
From S2P Require Import Prelude Bytes Buffer BufferSpec BufferSerializer Crc32 Crc32Thms Wire.
From S2P Require Import RaftTypes LogEntry RaftMsg RpcFrame.
Local Open Scope Z_scope.

(** ** Buffers that hold given bytes *)
Lemma data_at_spec x w y off n :
  fits (x ++ w ++ y) → off = Z.of_nat (length x) → n = Z.of_nat (length w) →
  data_at off n (cursor [] (x ++ w ++ y)) = Ok w.
Proof.
  intros Hf -> ->. unfold data_at. rewrite cursor_entire by done. ok_bind.
  unfold cursor. rewrite !app_nil_l, (app_assoc (header _ _) x).
  apply load_at; [rewrite (length_app (header _ _) x); lia|done].
Qed.

Lemma data_at_front w y n :
  fits (w ++ y) → n = Z.of_nat (length w) → data_at 0 n (cursor [] (w ++ y)) = Ok w.
Proof. intros Hf ->. by apply (data_at_spec []). Qed.

Lemma data_at_all w n :
  fits w → n = Z.of_nat (length w) → data_at 0 n (cursor [] w) = Ok w.
Proof. intros Hf ->. pose proof (data_at_front w []) as H. rewrite app_nil_r in H. by apply H. Qed.

Lemma data_at_any b a n :
  fits (b ++ a) → n = Z.of_nat (length (b ++ a)) → data_at 0 n (cursor b a) = Ok (b ++ a).
Proof.
  intros Hf ->. unfold data_at. rewrite cursor_entire by done. ok_bind. unfold cursor.
  rewrite <- (app_nil_r (b ++ a)) at 4. apply load_at; [lia|done].
Qed.

Lemma overwrite d w : fits w → length d = length w →
  (start ← data_of_block (cursor [] d); store start w (cursor [] d)) = Ok (cursor [] w).
Proof.
  intros Hf Hd. pose proof (cursor_store [] d w []) as Hs. rewrite !app_nil_r in Hs.
  apply Hs; [|done]. unfold fits in *. simpl. lia.
Qed.

Lemma received_spec junk w : fits w → received junk w = Ok (cursor [] w).
Proof.
  intros Hf. unfold received. rewrite alloc_spec by (unfold fits in Hf; lia). ok_bind.
  rewrite Nat2Z.id. apply overwrite; [done|by rewrite length_fmap, length_seq].
Qed.

(** ** The bytes of a request *)
Definition flag_set (o : options) : Z := request_flags o.

Definition wire_rpc_entry (o : options) (d : entry_data) : list byte :=
  word_bytes 8 (e_term d) ++ word_bytes 1 (Z_of_byte (e_type d))
    ++ (if replicate_log_timestamp_ o then word_bytes 8 (e_timestamp d) else [])
    ++ (if crc_on_payload_ o
        then word_bytes 1 (if e_has_crc d then 1 else 0) ++ word_bytes 4 (e_crc d) else [])
    ++ word_bytes 4 (Z.of_nat (length (e_payload d))) ++ e_payload d.

Lemma has_timestamp o :
  has (request_flags o) INCLUDE_LOG_TIMESTAMP = replicate_log_timestamp_ o.
Proof. unfold request_flags. by destruct (crc_on_payload_ o), (replicate_log_timestamp_ o). Qed.
Lemma has_payload_crc o : has (request_flags o) CRC_ON_PAYLOAD = crc_on_payload_ o.
Proof. unfold request_flags. by destruct (crc_on_payload_ o), (replicate_log_timestamp_ o). Qed.

Lemma entry_size o :
  LOG_ENTRY_SIZE (request_flags o) =
    13 + (if replicate_log_timestamp_ o then 8 else 0) + (if crc_on_payload_ o then 5 else 0).
Proof. unfold LOG_ENTRY_SIZE. rewrite has_timestamp, has_payload_crc. lia. Qed.

Lemma length_wire_rpc_entry o d :
  Z.of_nat (length (wire_rpc_entry o d)) =
    LOG_ENTRY_SIZE (request_flags o) + Z.of_nat (length (e_payload d)).
Proof.
  unfold wire_rpc_entry. rewrite !length_app, !length_word_bytes, entry_size.
  destruct (replicate_log_timestamp_ o), (crc_on_payload_ o);
    rewrite ?length_app, ?length_word_bytes; simpl length; lia.
Qed.

Definition put_entry (o : options) (d : entry_data) (ss : serializer) : outcome serializer :=
  ss ← put_u64 (e_term d) ss;
  ss ← put_u8 (Z_of_byte (e_type d)) ss;
  ss ← when_ (replicate_log_timestamp_ o) (put_u64 (e_timestamp d)) ss;
  ss ← when_ (crc_on_payload_ o)
         (λ ss, ss ← put_u8 (if e_has_crc d then 1 else 0) ss; put_u32 (e_crc d) ss) ss;
  ss ← put_i32 (Z.of_nat (length (e_payload d))) ss;
  bs_put_raw (e_payload d) ss.

Lemma puts_entry o d : puts (wire_rpc_entry o d) (put_entry o d).
Proof.
  unfold wire_rpc_entry. do 2 (eapply puts_then; [eauto with wire|]).
  eapply puts_then; [apply puts_if; eauto with wire|].
  eapply puts_then; [apply puts_if; wire_steps|]. wire_steps.
Qed.

Lemma encode_entry_wire junk o e d :
  entry_holds e d → fits (wire_rpc_entry o d) →
  encode_entry junk o e = Ok (cursor [] (wire_rpc_entry o d)).
Proof.
  intros (b & a & Hp & Hf & ->) Hw. unfold encode_entry. cbn [get_buf buff_ mbind outcome_bind].
  pose proof (length_wire_rpc_entry o d) as Hlen. pose proof (entry_size o) as Hes. rewrite Hp in *.
  rewrite cursor_size by done. ok_bind.
  transitivity (m ← alloc junk (Z.of_nat (length (wire_rpc_entry o d)));
    s ← put_entry o d (new_serializer m LITTLE); Ok (buf_ s)).
  { rewrite Hlen. unfold put_entry. rewrite Hp.
    cbn [LogEntry.term_ value_type_ timestamp_us_ has_crc32_ LogEntry.crc32_].
    apply bind_ext. intros m. same_steps. rewrite data_at_any by done. ok_bind. done. }
  rewrite (fill_serializer junk (wire_rpc_entry o d)).
  - rewrite Nat2Z.id, drop_ge by (by rewrite length_fmap, length_seq). by rewrite app_nil_r.
  - apply puts_entry.
  - unfold fits in Hw. lia.
  - lia.
Qed.

Definition req_head (q : rpc_req) (data_size : Z) : list byte :=
  word_bytes 1 0x0 ++ word_bytes 1 (q_type q) ++ word_bytes 4 (q_src q) ++ word_bytes 4 (q_dst q)
    ++ word_bytes 8 (q_term q) ++ word_bytes 8 (q_last_log_term q) ++ word_bytes 8 (q_last_log_idx q)
    ++ word_bytes 8 (q_commit_idx q) ++ word_bytes 4 data_size.

Lemma length_req_head q n : length (req_head q n) = 46%nat.
Proof. done. Qed.

Lemma puts_req_header q n : puts (req_head q n) (put_req_header q n).
Proof. unfold req_head, put_req_header. wire_steps. Qed.

Definition req_meta (o : options) (q : rpc_req) : string :=
  match write_req_meta_ o with Some f => f q | None => ""%string end.
Definition includes_meta (o : options) (q : rpc_req) : bool := bool_decide (req_meta o q ≠ ""%string).

Definition wire_meta (o : options) (q : rpc_req) : list byte :=
  if includes_meta o q
  then word_bytes 4 (string_size (req_meta o q)) ++ bytes_of_string (req_meta o q) else [].
Definition wire_entries (o : options) (ds : list entry_data) : list byte :=
  concat (wire_rpc_entry o <$> ds).
Definition payload (o : options) (q : rpc_req) (ds : list entry_data) : list byte :=
  wire_meta o q ++ wire_entries o ds.

Definition sent_flags (o : options) (q : rpc_req) : Z :=
  with_flag (crc_on_entire_message_ o) CRC_ON_ENTIRE_MESSAGE
    (with_flag (includes_meta o q) INCLUDE_META (request_flags o)).

(** The checksum of the header and, if so chosen, of all. *)
Definition frame_crc (o : options) (head p : list byte) : Z :=
  if crc_on_entire_message_ o then crc32_8 p (crc32_8 head 0) else crc32_8 head 0.

Definition frame (o : options) (q : rpc_req) (ds : list entry_data) : list byte :=
  let p := payload o q ds in
  let head := req_head q (Z.of_nat (length p)) in
  head ++ word_bytes 8 (Z.lor (Z.shiftl (sent_flags o q) 32) (frame_crc o head p)) ++ p.

(** ** Writing it *)
Lemma wire_entries_cons o d ds : wire_entries o (d :: ds) = wire_rpc_entry o d ++ wire_entries o ds.
Proof. done. Qed.

Lemma encode_entries_wire junk o es ds n :
  Forall2 entry_holds es ds → 0 ≤ n → n + Z.of_nat (length (wire_entries o ds)) < 0x80000000 →
  encode_entries junk o es n =
    Ok (cursor [] <$> (wire_rpc_entry o <$> ds), n + Z.of_nat (length (wire_entries o ds))).
Proof.
  intros H. revert n. induction H as [|e d es ds He H IH]; intros n Hn Hlen; cbn [encode_entries].
  { by rewrite Z.add_0_r. }
  rewrite wire_entries_cons, length_app, Nat2Z.inj_add in *.
  assert (fits (wire_rpc_entry o d)) as Hf by (unfold fits; lia).
  rewrite (encode_entry_wire _ _ _ d) by done. ok_bind. rewrite (cursor_size []) by done. ok_bind.
  rewrite app_nil_l, wrap_s_id, chk_s_Ok by range. ok_bind. rewrite IH by lia. ok_bind.
  by rewrite Z.add_assoc.
Qed.

Lemma puts_buffers ws : Forall fits ws → puts (concat ws) (put_buffers (cursor [] <$> ws)).
Proof.
  induction 1 as [|w ws Hw _ IH]; [apply puts_nothing|].
  change (concat (w :: ws)) with (w ++ concat ws).
  change (put_buffers (cursor [] <$> (w :: ws)))
    with (λ s, s ← bs_put_buffer (cursor [] w) s; put_buffers (cursor [] <$> ws) s).
  by eapply puts_then; [apply puts_buffer|].
Qed.

Lemma fits_entries o ds : fits (wire_entries o ds) → Forall fits (wire_rpc_entry o <$> ds).
Proof.
  unfold fits. induction ds as [|d ds IH]; [constructor|]. rewrite wire_entries_cons, length_app.
  intros H. constructor; [unfold fits; lia|]. apply IH. lia.
Qed.

Lemma at_pos_back x y x' y' p :
  fits (x ++ y) → x ++ y = x' ++ y' → p = Z.of_nat (length x') →
  ser_set_pos p (at_pos LITTLE x y) = Ok (at_pos LITTLE x' y').
Proof.
  intros Hf He ->. unfold ser_set_pos. rewrite at_pos_size by done. ok_bind.
  assert (length (x ++ y) = length (x' ++ y')) as Hl by by rewrite He.
  rewrite decide_False by (rewrite Hl, length_app; lia). unfold at_pos. simpl. by rewrite He.
Qed.

Lemma puts_payload o q ds :
  fits (payload o q ds) →
  puts (payload o q ds) (λ s,
    s ← when_ (includes_meta o q) (bs_put_bytes (bytes_of_string (req_meta o q))) s;
    put_buffers (cursor [] <$> (wire_rpc_entry o <$> ds)) s).
Proof.
  intros Hf. eapply puts_then.
  - apply puts_if. rewrite string_size_bytes. apply puts_bytes.
  - apply puts_buffers, fits_entries. unfold fits, payload in *. rewrite length_app in Hf. lia.
Qed.

(** The checksum of the whole message put over that of the header. *)
Lemma message_crc_spec o head w1 p flags :
  length head = 46%nat → length w1 = 8%nat → fits ((head ++ w1) ++ p) →
  ∃ s, when_ (crc_on_entire_message_ o) (λ bs,
      payload ← data_at 54 (Z.of_nat (length p)) (buf_ bs);
      bs ← ser_set_pos 46 bs;
      put_u64 (Z.lor (Z.shiftl (Z.lor flags CRC_ON_ENTIRE_MESSAGE) 32)
        (crc32_8 payload (crc32_8 head 0))) bs) (at_pos LITTLE ((head ++ w1) ++ p) []) = Ok s ∧
    buf_ s = cursor [] (head ++ (if crc_on_entire_message_ o
      then word_bytes 8 (Z.lor (Z.shiftl (Z.lor flags CRC_ON_ENTIRE_MESSAGE) 32)
             (crc32_8 p (crc32_8 head 0)))
      else w1) ++ p).
Proof.
  intros Hhead Hw1 Hf. unfold when_. destruct (crc_on_entire_message_ o).
  - change (buf_ (at_pos LITTLE ((head ++ w1) ++ p) [])) with (cursor [] (((head ++ w1) ++ p) ++ [])).
    rewrite <- (app_assoc _ p), (data_at_spec (head ++ w1) p []);
      [|by rewrite app_nil_r|by rewrite length_app, Hhead, Hw1|done].
    ok_bind. rewrite (at_pos_back ((head ++ w1) ++ p) [] head (w1 ++ p));
      [|by rewrite app_nil_r|by rewrite app_nil_r, <- app_assoc|by rewrite Hhead].
    ok_bind. rewrite <- app_assoc in Hf.
    rewrite puts_u64; [|done|rewrite !length_app, !length_word_bytes, Hw1; lia].
    rewrite length_word_bytes. eexists. split; [done|]. cbn [buf_ at_pos]. rewrite <- app_assoc.
    do 3 f_equal. by rewrite <- Hw1, drop_app_length.
  - eexists. split; [done|]. cbn [buf_ at_pos]. by rewrite app_nil_r, <- app_assoc.
Qed.

Lemma encode_request_wire junk o q ds :
  Forall2 entry_holds (q_log_entries q) ds →
  Z.of_nat (length (payload o q ds)) < 0x80000000 - RPC_REQ_HEADER_SIZE →
  encode_request junk o q = Ok (frame o q ds).
Proof.
  intros Hds Hlen. unfold encode_request. fold (req_meta o q). cbv zeta. fold (includes_meta o q).
  set (p := payload o q ds) in *. set (n := Z.of_nat (length p)) in *.
  change RPC_REQ_HEADER_SIZE with 54 in *.
  assert (n = (if includes_meta o q then 4 + string_size (req_meta o q) else 0)
            + Z.of_nat (length (wire_entries o ds))) as Hn.
  { unfold n, p, payload, wire_meta. destruct (includes_meta o q); rewrite !length_app;
      [rewrite length_word_bytes, string_size_bytes|]; simpl; lia. }
  set (ms := if includes_meta o q then _ else _) in *.
  assert (0 ≤ ms) as Hms.
  { unfold ms. pose proof (string_size_nonneg (req_meta o q)). destruct (includes_meta o q); lia. }
  rewrite (encode_entries_wire _ _ _ ds) by (done || lia). ok_bind. rewrite Z.add_0_l.
  rewrite (wrap_s_id 32 ms), chk_s_Ok by range. ok_bind. rewrite <- Z.add_assoc, <- Hn.
  rewrite !wrap_u_id by range. rewrite alloc_spec by lia. ok_bind.
  set (room := junk <$> seq 0 (Z.to_nat (54 + n))).
  assert (length room = (54 + length p)%nat) as Hroom.
  { unfold room. rewrite length_fmap, length_seq. lia. }
  rewrite new_serializer_at, (puts_req_header q n);
    [|unfold fits; simpl; lia|rewrite length_req_head; lia].
  ok_bind. set (head := req_head q n). assert (length head = 46%nat) as Hhead by done.
  rewrite app_nil_l.
  assert (buf_ (at_pos LITTLE head (drop (length head) room)) =
    cursor [] (head ++ drop (length head) room)) as -> by done.
  assert (fits (head ++ drop (length head) room)) as Hf1
    by (unfold fits; rewrite length_app, length_drop; lia).
  rewrite data_at_front by done. ok_bind.
  assert (pos_ (at_pos LITTLE head (drop (length head) room)) = 46) as -> by done.
  set (flags := with_flag (includes_meta o q) INCLUDE_META (request_flags o)).
  set (w1 := Z.lor (Z.shiftl flags 32) (crc32_8 head 0)).
  rewrite (puts_u64 w1); [|done|rewrite length_word_bytes, length_drop; lia]. ok_bind.
  rewrite length_word_bytes, drop_drop, Hhead.
  set (x1 := head ++ word_bytes 8 w1). assert (length x1 = 54%nat) as Hx1 by done.
  assert (pos_ (at_pos LITTLE x1 (drop (46 + 8) room)) = 54) as -> by done.
  assert (fits (x1 ++ drop (46 + 8) room)) as Hf2
    by (unfold fits; rewrite length_app, length_drop; lia).
  assert (fits p) as Hfp by (unfold fits; lia).
  pose proof (puts_payload o q ds Hfp x1 (drop (46 + 8) room) Hf2) as Hput. fold p in Hput.
  rewrite length_drop in Hput. specialize (Hput ltac:(lia)).
  rewrite drop_drop in Hput. rewrite (drop_ge room (_ + _ + _)) in Hput by lia.
  apply bind_Ok in Hput as (s1 & Hs1 & Hput). rewrite Hs1. ok_bind. rewrite Hput. ok_bind.
  assert (frame o q ds = head ++ word_bytes 8 (Z.lor (Z.shiftl (sent_flags o q) 32)
    (frame_crc o head p)) ++ p) as Hframe by done.
  assert (frame o q ds = head ++ (if crc_on_entire_message_ o
    then word_bytes 8 (Z.lor (Z.shiftl (Z.lor flags CRC_ON_ENTIRE_MESSAGE) 32)
           (crc32_8 p (crc32_8 head 0)))
    else word_bytes 8 w1) ++ p) as Hframe'.
  { rewrite Hframe. unfold sent_flags, frame_crc. fold flags. by destruct (crc_on_entire_message_ o). }
  assert (fits (x1 ++ p)) as Hf3 by (unfold fits; rewrite length_app; lia).
  destruct (message_crc_spec o head (word_bytes 8 w1) p flags) as (s & Hs & Hbuf); [done..|].
  fold n in Hs. unfold x1. rewrite Hs. ok_bind. rewrite Hbuf, <- Hframe'.
  assert (fits (frame o q ds)) as Hf4.
  { rewrite Hframe. unfold fits in *. rewrite !length_app in *. rewrite length_word_bytes in *. lia. }
  rewrite (cursor_size []) by done. ok_bind. rewrite (cursor_data []) by done. ok_bind.
  unfold cursor. rewrite !app_nil_r, !app_nil_l. rewrite <- (app_nil_r (frame o q ds)) at 4.
  by apply load_at.
Qed.

(** ** Reading entries *)
Definition wire_entry_head (t c : bool) (h : entry_head) : list byte :=
  word_bytes 8 (h_term h) ++ word_bytes 1 (h_type h) ++ (if t then word_bytes 8 (h_timestamp h) else [])
    ++ (if c then word_bytes 1 (h_has_crc h) else []) ++ (if c then word_bytes 4 (h_crc h) else [])
    ++ word_bytes 4 (h_size h).

(** The fields that the flags leave out are 0. *)
Record head_ok (t c : bool) (h : entry_head) : Prop := {
  ho_term : in_u 64 (h_term h);
  ho_type : in_u 8 (h_type h);
  ho_timestamp : in_u 64 (h_timestamp h);
  ho_has_crc : in_u 8 (h_has_crc h);
  ho_crc : in_u 32 (h_crc h);
  ho_size : in_s 32 (h_size h);
  ho_no_timestamp : t = false → h_timestamp h = 0;
  ho_no_crc : c = false → h_has_crc h = 0 ∧ h_crc h = 0
}.

Lemma length_wire_entry_head t c h :
  length (wire_entry_head t c h) = (13 + (if t then 8 else 0) + (if c then 5 else 0))%nat.
Proof. unfold wire_entry_head. destruct t, c; rewrite !length_app, !length_word_bytes; done. Qed.

Lemma reads_entry_head flags h :
  let t := has flags INCLUDE_LOG_TIMESTAMP in let c := has flags CRC_ON_PAYLOAD in
  head_ok t c h → reads (wire_entry_head t c h) h (get_entry_head flags).
Proof.
  intros t c [? ? ? ? ? ? Ht Hc]. unfold get_entry_head, wire_entry_head. fold t c.
  do 2 (eapply reads_then; [eauto with wire|]).
  eapply reads_then; [apply (reads_if t _ (h_timestamp h) 0); eauto with wire|].
  eapply reads_then; [apply (reads_if c _ (h_has_crc h) 0); eauto with wire|].
  eapply reads_then; [apply (reads_if c _ (h_crc h) 0); eauto with wire|].
  rewrite <- (app_nil_r (word_bytes 4 _)).
  eapply reads_then; [eauto with wire|].
  intros x y _. rewrite app_nil_r. do 3 f_equal. destruct h; cbn in *.
  destruct t, c; rewrite ?Ht by done; try destruct (Hc eq_refl) as [-> ->]; done.
Qed.

(** Bytes of a word's length are those of a word. *)
Lemma some_word (n : nat) (l : list byte) :
  (n ≤ length l)%nat →
  ∃ z l', l = word_bytes n z ++ l' ∧ in_u (8 * Z.of_nat n) z ∧ length l' = (length l - n)%nat.
Proof.
  intros Hn. exists (bytes_word (take n l)), (drop n l). rewrite length_drop. split_and!; [| |done].
  - rewrite <- (take_drop n l) at 1. f_equal. rewrite <- (word_of_bytes_word (take n l)) at 1.
    by rewrite length_take, Nat.min_l.
  - pose proof (bytes_word_range (take n l)) as H. rewrite length_take, Nat.min_l in H by done.
    unfold in_u. rewrite Z.pow_mul_r by lia. exact H.
Qed.

Lemma some_optional_word (b : bool) (n : nat) (l : list byte) :
  ((if b then n else 0) ≤ length l)%nat →
  ∃ z l', l = (if b then word_bytes n z else []) ++ l' ∧ in_u (8 * Z.of_nat n) z ∧
    (b = false → z = 0) ∧ length l' = (length l - (if b then n else 0))%nat.
Proof.
  destruct b; intros Hn.
  - destruct (some_word n l Hn) as (z & l' & -> & ? & ?). by exists z, l'.
  - exists 0, l. split_and!; [done| |done|lia]. unfold in_u. split; [done|]. apply Z.pow_pos_nonneg; lia.
Qed.

Lemma some_int32 (l : list byte) :
  (4 ≤ length l)%nat →
  ∃ z l', l = word_bytes 4 z ++ l' ∧ in_s 32 z ∧ length l' = (length l - 4)%nat.
Proof.
  intros Hn. destruct (some_word 4 l Hn) as (z & l' & -> & ? & ?). exists (i32 z), l'.
  split_and!; [|by apply wrap_s_range|done]. f_equal.
  rewrite <- (word_bytes_mod 4 (i32 z)), <- (word_bytes_mod 4 z).
  change (256 ^ Z.of_nat 4) with (2 ^ 32). f_equal. symmetry. apply (wrap_u_wrap_s 32).
Qed.

(** Enough bytes start with the head of some entry. *)
Lemma some_entry_head (t c : bool) (l : list byte) :
  (13 + (if t then 8 else 0) + (if c then 5 else 0) ≤ length l)%nat →
  ∃ h l', head_ok t c h ∧ l = wire_entry_head t c h ++ l'.
Proof.
  intros Hl.
  destruct (some_word 8 l) as (term & l1 & -> & ? & K1); [lia|].
  rewrite length_app, length_word_bytes in Hl.
  destruct (some_word 1 l1) as (ty & l2 & -> & ? & K2); [lia|].
  destruct (some_optional_word t 8 l2) as (ts & l3 & -> & ? & ? & K3); [destruct t; lia|].
  destruct (some_optional_word c 1 l3) as (hc & l4 & -> & ? & ? & K4); [destruct t, c; lia|].
  destruct (some_optional_word c 4 l4) as (crc & l5 & -> & ? & ? & K5); [destruct t, c; lia|].
  destruct (some_int32 l5) as (sz & l6 & -> & ? & K6); [destruct t, c; lia|].
  exists (EntryHead term ty ts hc crc sz), l6. split; [by split; auto|].
  unfold wire_entry_head. by rewrite <- !app_assoc.
Qed.

(** The entry that a head and a payload make. *)
Definition entry_of (h : entry_head) (w : list byte) : entry_data :=
  EntryData (h_term h) (byte_of_Z (h_type h)) w (h_timestamp h) (bool_decide (h_has_crc h ≠ 0)) (h_crc h).

Lemma LOG_ENTRY_SIZE_head flags h :
  LOG_ENTRY_SIZE flags =
    Z.of_nat (length (wire_entry_head (has flags INCLUDE_LOG_TIMESTAMP) (has flags CRC_ON_PAYLOAD) h)).
Proof. rewrite length_wire_entry_head. unfold LOG_ENTRY_SIZE. repeat case_match; lia. Qed.

(** One turn of the loop, in front of a head and what follows it. *)
Lemma parse_entries_turn fuel junk flags h x y n :
  let t := has flags INCLUDE_LOG_TIMESTAMP in let c := has flags CRC_ON_PAYLOAD in
  let w := take (Z.to_nat (h_size h)) y in
  head_ok t c h → fits (x ++ wire_entry_head t c h ++ y) →
  n = Z.of_nat (length (x ++ wire_entry_head t c h ++ y)) →
  parse_entries (S fuel) junk flags n (at_pos LITTLE x (wire_entry_head t c h ++ y)) =
    if decide (Z.of_nat (length y) < u64 (h_size h)) then Ok None
    else if decide (c = true ∧ h_has_crc h ≠ 0 ∧ crc32_8 w 0 ≠ h_crc h) then Ok None
    else
      rest ← parse_entries fuel junk flags n
               (at_pos LITTLE (x ++ wire_entry_head t c h ++ w) (drop (Z.to_nat (h_size h)) y));
      Ok (cons (to_entry (entry_of h w)) <$> (rest : option (list log_entry))).
Proof.
  intros t c w Hok Hf ->. pose proof (LOG_ENTRY_SIZE_head flags h) as Hsize. fold t c in Hsize.
  assert (length (wire_entry_head t c h) ≥ 13)%nat as H13 by (rewrite length_wire_entry_head; lia).
  set (eh := wire_entry_head t c h) in *.
  assert (Z.of_nat (length (x ++ eh ++ y)) < 2 ^ 31) as Hf' by exact Hf. rewrite !length_app in Hf'.
  cbn [parse_entries]. simpl pos_.
  rewrite (decide_True (P := Z.of_nat (length x) < _)) by (rewrite !length_app; lia).
  rewrite (wrap_u_id 64 (_ - _)) by (unfold in_u; rewrite !length_app; lia).
  rewrite decide_False by (rewrite Hsize, !length_app; lia).
  rewrite (reads_entry_head flags h Hok) by done. fold t c. fold eh. ok_bind. simpl pos_.
  rewrite (wrap_u_id 64 (_ - _)) by (unfold in_u; rewrite !length_app; lia).
  replace (Z.of_nat (length (x ++ eh ++ y)) - Z.of_nat (length (x ++ eh)))
    with (Z.of_nat (length y)) by (rewrite !length_app; lia).
  case_decide as Hlt; [done|].
  assert (0 ≤ h_size h ≤ Z.of_nat (length y)) as Hh.
  { destruct Hok as [_ _ _ _ _ Hs _ _]. unfold in_s, wrap_u in *. destruct (decide (h_size h < 0)).
    - rewrite <- (Z.mod_add _ 1) in Hlt by lia. rewrite Z.mod_small in Hlt; range.
    - rewrite Z.mod_small in Hlt; range. }
  rewrite !(wrap_u_id 64) by range. rewrite alloc_spec by lia. ok_bind.
  assert (length w = Z.to_nat (h_size h)) as Hw by (unfold w; rewrite length_take; lia).
  assert (y = w ++ drop (Z.to_nat (h_size h)) y) as Hy by by (unfold w; rewrite take_drop).
  assert (fits ((x ++ eh) ++ w ++ drop (Z.to_nat (h_size h)) y)) as Hf2
    by (by rewrite <- Hy, <- app_assoc).
  rewrite Hy at 1. rewrite (reads_buffer w); [|by rewrite length_fmap, length_seq, Hw|done]. ok_bind.
  cbn [new_log_entry]. rewrite andb_false_r. ok_bind.
  assert (fits w) as Hfw by (unfold fits; lia).
  rewrite <- (app_assoc x). fold c.
  destruct c; simpl andb; [|ok_bind; ok_bind; by rewrite !decide_False by naive_solver].
  case_bool_decide as Hc.
  - rewrite payload_crc_cursor by done. ok_bind. rewrite app_nil_l.
    unfold entry_of. rewrite bool_decide_true by done.
    destruct (decide (crc32_8 w 0 = h_crc h)) as [He|He].
    + rewrite !decide_False by naive_solver. done.
    + by rewrite !decide_True by naive_solver.
  - ok_bind; ok_bind. rewrite !decide_False by naive_solver. unfold entry_of. by rewrite bool_decide_false by naive_solver.
Qed.

(** What the receiver gets of an entry: the timestamp and the checksum only if
    they are sent. *)
Definition head_of (o : options) (d : entry_data) : entry_head :=
  EntryHead (e_term d) (Z_of_byte (e_type d)) (if replicate_log_timestamp_ o then e_timestamp d else 0)
    (if crc_on_payload_ o then (if e_has_crc d then 1 else 0) else 0)
    (if crc_on_payload_ o then e_crc d else 0) (Z.of_nat (length (e_payload d))).
Definition sent (o : options) (d : entry_data) : entry_data :=
  EntryData (e_term d) (e_type d) (e_payload d) (if replicate_log_timestamp_ o then e_timestamp d else 0)
    (crc_on_payload_ o && e_has_crc d) (if crc_on_payload_ o then e_crc d else 0).

Record rpc_entry_ok (d : entry_data) : Prop := {
  ro_term : in_u 64 (e_term d);
  ro_timestamp : in_u 64 (e_timestamp d);
  ro_crc : in_u 32 (e_crc d);
  ro_payload : fits (e_payload d)
}.
(** A checksum the entry has is that of its payload. *)
Definition crc_ok (d : entry_data) : Prop := e_has_crc d = true → e_crc d = crc32_8 (e_payload d) 0.

Lemma entry_of_head o d : entry_of (head_of o d) (e_payload d) = sent o d.
Proof.
  unfold entry_of, head_of, sent. simpl. rewrite byte_of_Z_of_byte.
  by destruct (crc_on_payload_ o), (e_has_crc d).
Qed.

Lemma wire_rpc_entry_head o d :
  wire_rpc_entry o d =
    wire_entry_head (replicate_log_timestamp_ o) (crc_on_payload_ o) (head_of o d) ++ e_payload d.
Proof.
  unfold wire_rpc_entry, wire_entry_head, head_of. cbn [h_term h_type h_timestamp h_has_crc h_crc h_size].
  rewrite <- !app_assoc. by destruct (replicate_log_timestamp_ o), (crc_on_payload_ o); rewrite <- ?app_assoc.
Qed.

Lemma head_of_ok o d :
  rpc_entry_ok d → head_ok (replicate_log_timestamp_ o) (crc_on_payload_ o) (head_of o d).
Proof.
  intros [? ? ? Hf]. unfold fits in Hf. pose proof (Z_of_byte_range (e_type d)).
  split; unfold head_of; simpl; try done.
  - destruct (replicate_log_timestamp_ o); [done|range].
  - destruct (crc_on_payload_ o), (e_has_crc d); range.
  - destruct (crc_on_payload_ o); [done|range].
  - range.
  - by intros ->.
  - by intros ->.
Qed.

Lemma parse_entries_wire fuel junk o flags ds x n :
  has flags INCLUDE_LOG_TIMESTAMP = replicate_log_timestamp_ o →
  has flags CRC_ON_PAYLOAD = crc_on_payload_ o →
  Forall rpc_entry_ok ds → (crc_on_payload_ o = true → Forall crc_ok ds) →
  fits (x ++ wire_entries o ds) → n = Z.of_nat (length (x ++ wire_entries o ds)) →
  (length (wire_entries o ds) ≤ fuel)%nat →
  parse_entries fuel junk flags n (at_pos LITTLE x (wire_entries o ds)) =
    Ok (Some (to_entry <$> (sent o <$> ds))).
Proof.
  intros Ht Hc Hok. revert fuel x. induction Hok as [|d ds Hd Hok IH]; intros fuel x Hcrc Hf Hn Hfuel.
  { replace (wire_entries o []) with (@nil byte) in * by done. rewrite app_nil_r in Hn. subst n.
    destruct fuel; cbn [parse_entries]; by rewrite decide_False by (simpl; lia). }
  rewrite wire_entries_cons, wire_rpc_entry_head in *. rewrite <- !app_assoc in *.
  assert (13 ≤ length (wire_entry_head (replicate_log_timestamp_ o) (crc_on_payload_ o) (head_of o d)))%nat
    as H13 by (rewrite length_wire_entry_head; lia).
  rewrite !length_app in Hfuel. destruct fuel as [|fuel]; [lia|].
  pose proof (parse_entries_turn fuel junk flags (head_of o d) x (e_payload d ++ wire_entries o ds) n)
    as Hturn. cbv zeta in Hturn. rewrite Ht, Hc in Hturn.
  specialize (Hturn (head_of_ok o d Hd) Hf Hn). rewrite Hturn. clear Hturn.
  change (h_size (head_of o d)) with (Z.of_nat (length (e_payload d))). rewrite Nat2Z.id.
  assert (fits (e_payload d)) as Hfd by apply Hd. unfold fits in Hfd.
  rewrite wrap_u_id, decide_False by (rewrite ?length_app; unfold in_u; lia).
  rewrite take_app_length, drop_app_length, decide_False.
  - rewrite IH; [by rewrite entry_of_head| |by rewrite <- !app_assoc| |lia].
    + intros Hcp. by specialize (Hcrc Hcp); apply Forall_cons in Hcrc as [_ ?].
    + by rewrite <- !app_assoc.
  - intros (Hcp & Hh & Hne). apply Hne. unfold head_of in *. simpl in *. rewrite Hcp in *.
    specialize (Hcrc eq_refl). apply Forall_cons in Hcrc as [Hcd _].
    destruct (e_has_crc d) eqn:He; [|done]. by rewrite Hcd.
Qed.

(** Whatever the bytes, the loop ends, and what it read is well formed. *)
Lemma parse_entries_total fuel junk flags x y n :
  fits (x ++ y) → n = Z.of_nat (length (x ++ y)) → (length y ≤ fuel)%nat →
  parse_entries fuel junk flags n (at_pos LITTLE x y) = Ok None ∨
  ∃ ds, parse_entries fuel junk flags n (at_pos LITTLE x y) = Ok (Some (to_entry <$> ds)) ∧
    Forall (λ d, rpc_entry_ok d ∧ crc_ok d) ds.
Proof.
  intros Hf Hn. revert x y Hf Hn. induction fuel as [|fuel IH]; intros x y Hf Hn Hfuel.
  { destruct y; [|simpl in Hfuel; lia]. right. exists []. cbn [parse_entries].
    rewrite decide_False by (rewrite Hn, app_nil_r; simpl; lia). done. }
  set (t := has flags INCLUDE_LOG_TIMESTAMP). set (c := has flags CRC_ON_PAYLOAD).
  destruct (decide (y = [])) as [->|Hy].
  { right. exists []. cbn [parse_entries].
    rewrite decide_False by (rewrite Hn, app_nil_r; simpl; lia). done. }
  assert (0 < length y)%nat by (destruct y; [done|simpl; lia]).
  unfold fits in Hf. rewrite length_app in Hf.
  destruct (decide (length y < 13 + (if t then 8 else 0) + (if c then 5 else 0))%nat) as [Hshort|Hlong].
  { left. cbn [parse_entries]. simpl pos_. rewrite decide_True by (rewrite Hn, length_app; lia).
    rewrite decide_True; [done|]. rewrite Hn, length_app, wrap_u_id by (unfold in_u; lia).
    unfold LOG_ENTRY_SIZE. fold t c. destruct t, c; lia. }
  destruct (some_entry_head t c y) as (h & y' & Hh & ->); [lia|].
  pose proof (parse_entries_turn fuel junk flags h x y' n) as Hturn. cbv zeta in Hturn. fold t c in Hturn.
  rewrite Hturn; [|done|unfold fits; rewrite length_app; lia|done]. clear Hturn.
  case_decide as Hlt; [by left|]. case_decide as Hcrc; [by left|].
  set (w := take (Z.to_nat (h_size h)) y') in *.
  rewrite length_app in Hfuel, Hf. pose proof (length_wire_entry_head t c h) as Hlh.
  assert (y' = w ++ drop (Z.to_nat (h_size h)) y') as Hy' by by (unfold w; rewrite take_drop).
  assert (length y' = (length w + length (drop (Z.to_nat (h_size h)) y'))%nat) as Hly'
    by (by rewrite <- length_app, <- Hy').
  destruct (IH (x ++ wire_entry_head t c h ++ w) (drop (Z.to_nat (h_size h)) y')) as [Hr|(ds & Hr & Hds)].
  - unfold fits. rewrite !length_app. lia.
  - rewrite Hn, Hy' at 1. by rewrite <- !app_assoc.
  - lia.
  - left. rewrite Hr. done.
  - right. exists (entry_of h w :: ds). rewrite Hr. split; [done|]. constructor; [|done].
    destruct Hh as [? ? ? ? ? ? _ Hnoc]. split; [split; try done; unfold fits; simpl; lia|].
    intros Hhas. unfold entry_of in *. simpl in *. apply bool_decide_eq_true in Hhas.
    destruct c eqn:Ec; [|by destruct (Hnoc eq_refl)].
    destruct (decide (crc32_8 w 0 = h_crc h)) as [->|]; [done|]. by destruct Hcrc.
Qed.

(** ** The header *)
Record rpc_req_ok (q : rpc_req) : Prop := {
  qo_type : in_u 8 (q_type q);
  qo_src : in_s 32 (q_src q);
  qo_dst : in_s 32 (q_dst q);
  qo_term : in_u 64 (q_term q);
  qo_last_log_term : in_u 64 (q_last_log_term q);
  qo_last_log_idx : in_u 64 (q_last_log_idx q);
  qo_commit_idx : in_u 64 (q_commit_idx q)
}.

Definition req_fields (q : rpc_req) (n : Z) : list byte :=
  word_bytes 1 (q_type q) ++ word_bytes 4 (q_src q) ++ word_bytes 4 (q_dst q)
    ++ word_bytes 8 (q_term q) ++ word_bytes 8 (q_last_log_term q) ++ word_bytes 8 (q_last_log_idx q)
    ++ word_bytes 8 (q_commit_idx q) ++ word_bytes 4 n.

(** A header: the marker, the fields, the flags and the checksum. *)
Definition header_bytes (m : Z) (q : rpc_req) (n fc : Z) : list byte :=
  (word_bytes 1 m ++ req_fields q n) ++ word_bytes 8 fc.

Lemma length_header_bytes m q n fc : length (header_bytes m q n fc) = 54%nat.
Proof. done. Qed.

Lemma some_header (l : list byte) :
  length l = 54%nat →
  ∃ m q n fc, l = header_bytes m q n fc ∧ in_u 8 m ∧ rpc_req_ok q ∧ in_s 32 n ∧ in_u 64 fc.
Proof.
  intros Hl.
  destruct (some_word 1 l) as (m & l0 & -> & ? & K0); [lia|]. rewrite Hl in K0.
  destruct (some_word 1 l0) as (ty & l1 & -> & ? & K1); [lia|].
  destruct (some_int32 l1) as (src & l2 & -> & ? & K2); [lia|].
  destruct (some_int32 l2) as (dst & l3 & -> & ? & K3); [lia|].
  destruct (some_word 8 l3) as (term & l4 & -> & ? & K4); [lia|].
  destruct (some_word 8 l4) as (lt & l5 & -> & ? & K5); [lia|].
  destruct (some_word 8 l5) as (li & l6 & -> & ? & K6); [lia|].
  destruct (some_word 8 l6) as (ci & l7 & -> & ? & K7); [lia|].
  destruct (some_int32 l7) as (n & l8 & -> & ? & K8); [lia|].
  destruct (some_word 8 l8) as (fc & l9 & -> & ? & K9); [lia|].
  assert (l9 = []) as -> by (apply nil_length_inv; lia).
  exists m, (RpcReq term ty src dst lt li ci []), n, fc.
  split; [|done]. unfold header_bytes, req_fields. simpl q_type. by rewrite <- !app_assoc, app_nil_r.
Qed.

(** The state of a session that read the header. *)
Definition saw_header (m : Z) (q : rpc_req) (n fc : Z) (s : session) : session :=
  Session (u32 (Z.shiftr fc 32)) (cursor [] (header_bytes m q n fc)) (src_id_ s) (is_leader_ s)
    (crc32_8 (word_bytes 1 m ++ req_fields q n) 0) (Z.land fc 0xffffffff).

Definition session_ok (s : session) : Prop := ∃ h, header_ s = cursor [] h ∧ length h = 54%nat.

Lemma saw_header_ok m q n fc s : session_ok (saw_header m q n fc s).
Proof. by eexists. Qed.

Section header.
Context (m : Z) (q : rpc_req) (n fc : Z).
Context (Hm : in_u 8 m) (Hq : rpc_req_ok q) (Hn : in_s 32 n) (Hfc : in_u 64 fc).
Local Abbreviation hdr := (header_bytes m q n fc).

Lemma start_spec o leader s :
  session_ok s →
  let s' := saw_header m q n fc s in
  start o leader hdr s =
    if negb (has (flags_ s') CRC_ON_ENTIRE_MESSAGE) && bool_decide (crc_header_ s' ≠ crc_from_msg_ s')
    then stop_corrupted o leader None s' []
    else if decide (m = 1) then stop_corrupted o leader None s' []
    else if decide (n < 0 ∨ n > 0x40000000) then stop_corrupted o leader None s' []
    else Ok (s', [], ReadLogData n).
Proof.
  intros (h & Hh & Hlen). unfold start. rewrite Hh.
  assert (fits h) as Hfh by (unfold fits; lia). assert (fits hdr) as Hfit by done.
  rewrite (cursor_set_pos [] h [] h) by done. ok_bind.
  assert (∀ A (k : buffer → outcome A),
    (d ← data_of_block (cursor [] h); m ← store d hdr (cursor [] h); k m) = k (cursor [] hdr)) as ->.
  { intros A k. pose proof (overwrite h hdr) as Ho. apply bind_Ok in Ho as (d & -> & Hs); [|done..].
    ok_bind. by rewrite Hs. }
  assert (data_at 0 (RPC_REQ_HEADER_SIZE - CRC_FLAGS_LEN) (cursor [] hdr) =
    Ok (word_bytes 1 m ++ req_fields q n)) as -> by by apply data_at_front.
  ok_bind. rewrite new_serializer_at, (at_pos_back [] hdr (word_bytes 1 m ++ req_fields q n) (word_bytes 8 fc)) by done.
  ok_bind. assert (∀ k : Z * serializer → outcome session_result,
    get_u64 (at_pos LITTLE (word_bytes 1 m ++ req_fields q n) (word_bytes 8 fc)) ≫= k =
      k (fc, at_pos LITTLE hdr [])) as ->.
  { intros k. pose proof (reads_u64 fc Hfc (word_bytes 1 m ++ req_fields q n) []) as Hr.
    rewrite app_nil_r in Hr. by rewrite Hr. }
  cbv beta iota.
  assert (s <| header_ := cursor [] hdr |> <| crc_header_ := crc32_8 (word_bytes 1 m ++ req_fields q n) 0 |>
    <| crc_from_msg_ := Z.land fc 0xffffffff |> <| flags_ := u32 (Z.shiftr fc 32) |>
      = saw_header m q n fc s) as -> by done.
  case_match; [done|].
  rewrite (at_pos_back hdr [] [] hdr) by (rewrite ?app_nil_r; done). ok_bind.
  assert (get_u8 (at_pos LITTLE [] hdr) =
    Ok (m, at_pos LITTLE (word_bytes 1 m) (req_fields q n ++ word_bytes 8 fc))) as ->.
  { unfold header_bytes. rewrite <- app_assoc. by rewrite (reads_u8 m Hm []) by exact Hfit. }
  ok_bind. destruct (decide (m = 1)); [done|].
  set (x := word_bytes 1 m ++ word_bytes 1 (q_type q) ++ word_bytes 4 (q_src q) ++ word_bytes 4 (q_dst q)
    ++ word_bytes 8 (q_term q) ++ word_bytes 8 (q_last_log_term q) ++ word_bytes 8 (q_last_log_idx q)
    ++ word_bytes 8 (q_commit_idx q)).
  rewrite (at_pos_back _ _ x (word_bytes 4 n ++ word_bytes 8 fc)) by done. ok_bind.
  by rewrite (reads_i32 n Hn x) by exact Hfit.
Qed.

Lemma parse_req_header_spec : parse_req_header (cursor [] hdr) = Ok (with_entries q [], n).
Proof.
  unfold parse_req_header. rewrite new_serializer_at.
  rewrite (at_pos_back [] hdr (word_bytes 1 m) (req_fields q n ++ word_bytes 8 fc)) by done. ok_bind.
  destruct Hq. transitivity ('(r, _) ← Ok ((with_entries q [], n), at_pos LITTLE
    (word_bytes 1 m ++ req_fields q n) (word_bytes 8 fc)); Ok r : outcome (rpc_req * Z)); [|done].
  assert (reads (req_fields q n) (with_entries q [], n) (λ h_bs,
    '(t, h_bs) ← get_u8 h_bs; '(src, h_bs) ← get_i32 h_bs; '(dst, h_bs) ← get_i32 h_bs;
    '(term, h_bs) ← get_u64 h_bs; '(last_term, h_bs) ← get_u64 h_bs; '(last_idx, h_bs) ← get_u64 h_bs;
    '(commit_idx, h_bs) ← get_u64 h_bs; '(log_data_size, h_bs) ← get_i32 h_bs;
    Ok ((RpcReq term t src dst last_term last_idx commit_idx [], log_data_size), h_bs))) as Hr.
  { unfold req_fields. rewrite <- (app_nil_r (word_bytes 4 n)). wire_steps. }
  rewrite <- Hr by done. by repeat (rewrite bind_assoc; apply bind_ext; intros [? ?]; cbv beta iota).
Qed.
End header.

(** ** The whole request *)
Lemma bs_get_bytes_any x y :
  fits (x ++ y) →
  (∃ e, bs_get_bytes (at_pos LITTLE x y) = throw e) ∨
  ∃ w y', y = (word_bytes 4 (Z.of_nat (length w)) ++ w) ++ y' ∧
    bs_get_bytes (at_pos LITTLE x y) =
      Ok (w, at_pos LITTLE (x ++ word_bytes 4 (Z.of_nat (length w)) ++ w) y').
Proof.
  intros Hf. destruct (decide (length y < 4)%nat) as [Hlt|Hge].
  { left. unfold bs_get_bytes, get_u32, get_word. rewrite at_pos_chk by (done || lia).
    rewrite decide_False by lia. by eexists. }
  destruct (some_word 4 y) as (z & y1 & -> & Hz & Hl1); [lia|].
  assert (fits ((x ++ word_bytes 4 z) ++ y1)) as Hf1 by (by rewrite <- app_assoc).
  destruct (decide (z ≤ Z.of_nat (length y1))) as [Hle|Hgt].
  - right. exists (take (Z.to_nat z) y1), (drop (Z.to_nat z) y1).
    assert (0 ≤ z) by (by destruct Hz). 
    assert (Z.of_nat (length (take (Z.to_nat z) y1)) = z) as -> by (rewrite length_take; lia).
    rewrite <- app_assoc, take_drop. split; [done|].
    rewrite <- (take_drop (Z.to_nat z) y1) in Hf |- * at 1.
    pose proof (reads_bytes (take (Z.to_nat z) y1) x (drop (Z.to_nat z) y1)) as Hr.
    assert (Z.of_nat (length (take (Z.to_nat z) y1)) = z) as Hz' by (rewrite length_take; lia).
    rewrite Hz', <- app_assoc in Hr. by apply Hr.
  - left. unfold bs_get_bytes. rewrite (reads_u32 z Hz) by done. ok_bind.
    destruct (decide (z < 2 ^ 63)); [|range].
    rewrite at_pos_chk by (done || (destruct Hz; lia)). rewrite decide_False by done. by eexists.
Qed.

Definition entries_ok (les : list log_entry) : Prop :=
  ∃ ds, les = to_entry <$> ds ∧ Forall (λ d, rpc_entry_ok d ∧ crc_ok d) ds.

Lemma parse_payload_total junk flags n p :
  fits p →
  (∃ e, parse_payload junk flags n (Some (cursor [] p)) = throw e) ∨
  ∃ meta r, parse_payload junk flags n (Some (cursor [] p)) = Ok (meta, r) ∧
    (∀ les, r = Some les → entries_ok les).
Proof.
  intros Hf. unfold parse_payload. case_decide as Hn.
  2:{ right. exists ""%string, (Some []). split; [done|]. intros les [= <-]. by exists []. }
  rewrite (cursor_size []) by done. ok_bind. rewrite new_serializer_at, Nat2Z.id, app_nil_l.
  assert (∀ x y meta_raw, p = x ++ y →
    ∃ meta r, ('(meta_raw, ss) ← Ok (meta_raw, at_pos LITTLE x y);
      entries ← parse_entries (length p) junk flags (Z.of_nat (length p)) ss;
      Ok (string_of_bytes meta_raw, entries)) = Ok (meta, r) ∧ (∀ les, r = Some les → entries_ok les))
    as Hrest.
  { intros x y raw Hp. ok_bind.
    destruct (parse_entries_total (length p) junk flags x y (Z.of_nat (length p))) as [->|(ds & -> & Hds)];
      [by rewrite <- Hp|by rewrite Hp|rewrite Hp, length_app; lia| |].
    - ok_bind. eexists _, _. split; [done|]. done.
    - ok_bind. eexists _, _. split; [done|]. intros les [= <-]. by exists ds. }
  destruct (has flags INCLUDE_META); [|right; by apply Hrest].
  destruct (bs_get_bytes_any [] p Hf) as [(e & ->)|(w & y' & Hp & ->)]; [left; by exists e|right].
  by apply Hrest.
Qed.

(** The state after a request is of the same shape. *)
Lemma check_leader_ok leader s : session_ok s → session_ok (check_leader leader s).
Proof. unfold check_leader. by case_match. Qed.

Lemma note_sender_ok leader q s s' evs :
  session_ok s → note_sender leader q s = (s', evs) → session_ok s'.
Proof.
  unfold note_sender. intros Hs H.
  pose proof (check_leader_ok leader _ Hs) as H1.
  assert (session_ok (check_leader leader (s <| src_id_ := q_src q |>))) as H2
    by (by apply check_leader_ok).
  case_decide; case_match; injection H as <- <-; done.
Qed.

Lemma note_sender_flags leader q s : flags_ (note_sender leader q s).1 = flags_ s.
Proof.
  unfold note_sender, check_leader.
  destruct (decide _); simpl; repeat case_match; simplify_eq/=; done.
Qed.

(** One of the two ways out. *)
Definition turn_ok (r : session_result) : Prop :=
  session_ok r.1.1 ∧
  match r.2 with
  | Stop => True
  | ReadLogData _ => False
  | ProcessReq q => rpc_req_ok q ∧ entries_ok (q_log_entries q)
  end.

Lemma stop_ok leader s evs : session_ok s → ∃ r, stop leader s evs = Ok r ∧ turn_ok r ∧ r.2 = Stop.
Proof. intros Hs. eexists. split; [done|]. split; [|done]. split; [by apply check_leader_ok|done]. Qed.

Lemma caught_ok h m r :
  h = Ok r → turn_ok r → (∃ e, m = throw e) ∨ (∃ r, m = Ok r ∧ turn_ok r) →
  ∃ r, caught h m = Ok r ∧ turn_ok r.
Proof. intros -> Hr [(e & ->)|(r' & -> & ?)]; by eexists. Qed.

Lemma read_complete_total junk o leader ctx m q n fc s :
  in_u 8 m → rpc_req_ok q → in_s 32 n → in_u 64 fc → header_ s = cursor [] (header_bytes m q n fc) →
  (∀ c, ctx = Some c → ∃ p, c = cursor [] p ∧ fits p) →
  ∃ r, read_complete junk o leader ctx s = Ok r ∧ turn_ok r.
Proof.
  intros Hm Hq Hn Hfc Hh Hctx. assert (session_ok s) as Hs by (by eexists).
  unfold read_complete. destruct (stop_ok leader s [] Hs) as (r0 & Hstop & Hr0 & _).
  apply (caught_ok _ _ r0 Hstop Hr0). right. rewrite Hh, parse_req_header_spec by done. ok_bind.
  set (crc := (if has _ _ then _ else _) : outcome Z).
  assert (∃ v, crc = Ok v) as (v & ->).
  { unfold crc. case_match; [|by eexists]. destruct ctx as [c|]; [|by eexists].
    destruct (Hctx c eq_refl) as (p & -> & Hp). rewrite (cursor_size []) by done. ok_bind.
    rewrite data_at_all by done. by eexists. }
  ok_bind. case_decide.
  { unfold stop_corrupted. destruct (stop_ok leader s ([] ++ (if corrupted_msg_handler_ o
      then [CorruptedMsg (header_ s) ctx] else [])) Hs) as (r & Hr & ? & _). by exists r. }
  destruct (note_sender leader (with_entries q []) s) as [s1 evs] eqn:Hnote.
  pose proof (note_sender_ok _ _ _ _ _ Hs Hnote) as Hs1.
  destruct (stop_ok leader s1 evs Hs1) as (r1 & Hstop1 & Hr1 & _).
  apply (caught_ok _ _ r1 Hstop1 Hr1).
  assert ((∃ e, parse_payload junk (flags_ s1) n ctx = throw e) ∨
    ∃ meta r, parse_payload junk (flags_ s1) n ctx = Ok (meta, r) ∧ (∀ les, r = Some les → entries_ok les))
    as [(e & ->)|(meta & r & -> & Hr)].
  { destruct ctx as [c|].
    - destruct (Hctx c eq_refl) as (p & -> & Hp). by apply parse_payload_total.
    - right. exists ""%string, (Some []). split; [done|]. intros les [= <-]. by exists []. }
  { left. by exists e. }
  right. ok_bind. destruct r as [les|].
  - case_match; [|by exists r1]. eexists. split; [done|]. split; [done|]. cbn. split; [|by apply Hr].
    by destruct Hq.
  - unfold stop_corrupted. destruct (stop_ok leader s1 (evs ++ (if corrupted_msg_handler_ o
      then [CorruptedMsg (header_ s1) ctx] else [])) Hs1) as (r & ? & ? & _). by exists r.
Qed.
