(* ===== verification/RpcFrameThms.v ===== *)
(** * Theorems about the frames

    What a client writes is what a session reads, and the response likewise; a
    session ends in one of its own ways whatever the bytes it is sent; and
    changed bytes are found by the checksums. *)
From S2P Require Import Prelude Bytes Buffer BufferSpec BufferSerializer Crc32 Crc32Thms Wire.
From S2P Require Import RaftTypes LogEntry RaftMsg RpcFrame RpcFrameSpec.
Local Open Scope Z_scope.

(** ** Reading a request *)
Lemma start_any o leader (l : list byte) s :
  session_ok s → length l = 54%nat →
  ∃ m q n fc, l = header_bytes m q n fc ∧ in_u 8 m ∧ rpc_req_ok q ∧ in_s 32 n ∧ in_u 64 fc ∧
    ((∃ r, start o leader l s = Ok r ∧ turn_ok r ∧ r.2 = Stop) ∨
     (start o leader l s = Ok (saw_header m q n fc s, [], ReadLogData n) ∧ 0 ≤ n ≤ 0x40000000)).
Proof.
  intros Hs Hl. destruct (some_header l Hl) as (m & q & n & fc & -> & Hm & Hq & Hn & Hfc).
  exists m, q, n, fc. split_and!; [done..|].
  rewrite (start_spec m q n fc) by done. cbv zeta.
  assert (∀ evs, ∃ r, stop leader (saw_header m q n fc s) evs = Ok r ∧ turn_ok r ∧ r.2 = Stop) as Hstop
    by (intros evs; apply stop_ok, saw_header_ok).
  unfold stop_corrupted.
  case_match; [left; apply Hstop|].
  destruct (decide (m = 1)); [left; apply Hstop|].
  destruct (decide (n < 0 ∨ n > 0x40000000)); [left; apply Hstop|right]. split; [done|lia].
Qed.

(** C16: a session takes any bytes: reading a request from them always returns,
    never reads or writes outside a buffer nor lets an exception through, and
    leaves the session able to read another.  It ends the session, or hands the
    server a request whose fields are of their types and whose entries have
    payloads that fit and checksums that agree with them. *)
Theorem session_reads_anything (junk : nat → byte) (o : options) (leader : Z) (stream : list byte)
    (s : session) :
  session_ok s →
  ∃ s' evs a rest, read_request junk o leader stream s = Ok ((s', evs, a), rest) ∧ session_ok s' ∧
    match a with
    | Stop => True
    | ReadLogData _ => False
    | ProcessReq q => rpc_req_ok q ∧ entries_ok (q_log_entries q) ∧
                      ∃ used, stream = used ++ rest ∧ (54 ≤ length used)%nat
    end.
Proof.
  intros Hs. destruct (stop_ok leader s [] Hs) as ([[s0 evs0] a0] & Hstop & [Hs0 _] & Ha0). simpl in Ha0.
  unfold read_request. change (Z.to_nat RPC_REQ_HEADER_SIZE) with 54%nat.
  case_decide as Hshort.
  { rewrite Hstop. ok_bind. eexists s0, evs0, a0, []. by rewrite Ha0. }
  destruct (start_any o leader (take 54 stream) s Hs) as (m & q & n & fc & Hl & Hm & Hq & Hn & Hfc & Hr);
    [rewrite length_take; lia|].
  destruct Hr as [([[s1 evs1] a1] & -> & [Hs1 _] & Ha1)|[-> Hn0]]; ok_bind.
  { simpl in Ha1. rewrite Ha1. eexists s1, evs1, Stop, _. done. }
  assert (header_ (saw_header m q n fc s) = cursor [] (header_bytes m q n fc)) as Hh by done.
  destruct (decide (n = 0)) as [->|Hn1].
  { destruct (read_complete_total junk o leader None m q 0 fc (saw_header m q 0 fc s))
      as ([[s1 evs1] a1] & -> & [Hs1 Ha1]); [done..|]. ok_bind.
    eexists s1, evs1, a1, _. split_and!; [done|done|]. destruct a1; [done..|]. destruct Ha1.
    split_and!; [done|done|]. exists (take 54 stream). rewrite take_drop, length_take. split; [done|lia]. }
  case_decide as Hshort1.
  { destruct (stop_ok leader (saw_header m q n fc s) [] (saw_header_ok _ _ _ _ _))
      as ([[s1 evs1] a1] & -> & [Hs1 _] & Ha1). ok_bind. simpl in Ha1.
    eexists s1, evs1, a1, []. by rewrite Ha1. }
  assert (fits (take (Z.to_nat n) (drop 54 stream))) as Hf by (unfold fits; rewrite length_take; lia).
  rewrite received_spec by done. ok_bind.
  destruct (read_complete_total junk o leader (Some (cursor [] (take (Z.to_nat n) (drop 54 stream))))
    m q n fc (saw_header m q n fc s)) as ([[s1 evs1] a1] & -> & [Hs1 Ha1]);
    [done..|by intros c [= <-]; eexists|]. ok_bind.
  eexists s1, evs1, a1, _. split_and!; [done|done|]. destruct a1; [done..|]. destruct Ha1.
  split_and!; [done|done|]. exists (take 54 stream ++ take (Z.to_nat n) (drop 54 stream)).
  rewrite <- app_assoc, !take_drop, length_app, length_take. split; [done|lia].
Qed.

(** ** Flags and checksum in one word *)
Lemma lor_high f c : 0 ≤ f → in_u 32 c → Z.lor (Z.shiftl f 32) c = f * 2 ^ 32 + c.
Proof.
  intros Hf Hc. rewrite <- Z.shiftl_mul_pow2 by lia.
  rewrite Z.add_nocarry_lxor, Z.lxor_lor; [done|..];
    (apply Z.bits_inj'; intros i Hi; rewrite Z.land_spec, Z.bits_0;
     destruct (decide (i < 32)); [by rewrite Z.shiftl_spec_low by lia|];
     assert (Z.testbit c i = false) as ->; [|by rewrite andb_false_r];
     destruct (decide (c = 0)) as [->|]; [by rewrite Z.bits_0|];
     apply Z.bits_above_log2; [by destruct Hc|];
     apply Z.log2_lt_pow2; [destruct Hc; lia|]; destruct Hc; apply (Z.lt_le_trans _ (2 ^ 32)); [lia|];
     apply Z.pow_le_mono_r; lia).
Qed.

Lemma flags_and_crc f c :
  in_u 32 f → in_u 32 c →
  let fc := Z.lor (Z.shiftl f 32) c in
  in_u 64 fc ∧ u32 (Z.shiftr fc 32) = f ∧ Z.land fc 0xffffffff = c.
Proof.
  intros Hf Hc fc. unfold fc. rewrite lor_high by (done || by destruct Hf).
  unfold in_u in Hf, Hc.
  change 0xffffffff with (Z.ones 32). rewrite Z.land_ones, Z.shiftr_div_pow2 by lia.
  rewrite Z.div_add_l, Z.div_small, Z.add_0_r by (done || lia).
  rewrite Z.add_comm, Z.mod_add, Z.mod_small by (done || lia).
  split_and!; [unfold in_u; lia|by apply wrap_u_id|done].
Qed.

Section frame.
Context (o : options) (q : rpc_req) (ds : list entry_data).
Local Abbreviation p := (payload o q ds).
Local Abbreviation n := (Z.of_nat (length p)).
Local Abbreviation fc :=
  (Z.lor (Z.shiftl (sent_flags o q) 32) (frame_crc o (word_bytes 1 0 ++ req_fields q n) p)).

Lemma frame_header : frame o q ds = header_bytes 0 q n fc ++ p.
Proof. unfold frame, header_bytes. by rewrite <- app_assoc. Qed.

Lemma sent_flags_spec :
  in_u 32 (sent_flags o q) ∧
  has (sent_flags o q) INCLUDE_META = includes_meta o q ∧
  has (sent_flags o q) INCLUDE_LOG_TIMESTAMP = replicate_log_timestamp_ o ∧
  has (sent_flags o q) CRC_ON_PAYLOAD = crc_on_payload_ o ∧
  has (sent_flags o q) CRC_ON_ENTIRE_MESSAGE = crc_on_entire_message_ o.
Proof.
  unfold sent_flags, request_flags.
  destruct (crc_on_entire_message_ o), (includes_meta o q), (replicate_log_timestamp_ o), (crc_on_payload_ o);
    (split; [by vm_compute|split_and!; reflexivity]).
Qed.

Lemma frame_crc_u32 head : in_u 32 (frame_crc o head p).
Proof.
  unfold frame_crc. case_match; repeat apply crc32_8_u32; range.
Qed.

Lemma frame_fc :
  in_u 64 fc ∧ u32 (Z.shiftr fc 32) = sent_flags o q ∧
  Z.land fc 0xffffffff = frame_crc o (word_bytes 1 0 ++ req_fields q n) p.
Proof. apply flags_and_crc; [apply sent_flags_spec|apply frame_crc_u32]. Qed.

(** The payload is read back, by who sees the flags. *)
Lemma parse_payload_wire junk :
  Forall rpc_entry_ok ds → (crc_on_payload_ o = true → Forall crc_ok ds) → fits p →
  parse_payload junk (sent_flags o q) n (if decide (p = []) then None else Some (cursor [] p)) =
    Ok (req_meta o q, Some (to_entry <$> (sent o <$> ds))).
Proof.
  intros Hok Hcrc Hf. destruct sent_flags_spec as (_ & Hmeta & Ht & Hc & _).
  assert (includes_meta o q = false → req_meta o q = ""%string) as Hno.
  { unfold includes_meta. intros H%bool_decide_eq_false.
    destruct (decide (req_meta o q = ""%string)); [done|by destruct H]. }
  case_decide as Hp.
  { unfold payload, wire_meta in Hp. apply app_nil in Hp as [Hm He].
    destruct (includes_meta o q); [done|]. rewrite Hno by done.
    destruct ds as [|d ds']; [done|].
    rewrite wire_entries_cons in He. apply app_nil in He as [He _].
    apply (f_equal (@length byte)) in He. apply (f_equal Z.of_nat) in He.
    rewrite length_wire_rpc_entry, entry_size in He.
    destruct (replicate_log_timestamp_ o), (crc_on_payload_ o); simpl in He; lia. }
  unfold parse_payload. rewrite decide_True by (destruct p; [done|simpl; lia]).
  rewrite (cursor_size []) by done. ok_bind. rewrite new_serializer_at, Nat2Z.id, app_nil_l, Hmeta.
  unfold payload, wire_meta in *. destruct (includes_meta o q).
  - assert (fits ([] ++ (word_bytes 4 (string_size (req_meta o q)) ++ bytes_of_string (req_meta o q))
      ++ wire_entries o ds)) as Hf' by done. rewrite string_size_bytes in Hf' |- *.
    rewrite (reads_bytes (bytes_of_string (req_meta o q)) []) by done. ok_bind.
    rewrite app_nil_l. rewrite (parse_entries_wire _ _ o); [|done..|rewrite !length_app; lia].
    ok_bind. by rewrite string_of_bytes_of_string.
  - rewrite app_nil_l in *. ok_bind. rewrite (parse_entries_wire _ _ o); [|done..]. by rewrite Hno.
Qed.

(** The checksum of a whole message. *)
Lemma entire_crc :
  frame_crc o (word_bytes 1 0 ++ req_fields q n) p =
    if crc_on_entire_message_ o
    then crc32_8 ((word_bytes 1 0 ++ req_fields q n) ++ p) 0
    else crc32_8 (word_bytes 1 0 ++ req_fields q n) 0.
Proof. unfold frame_crc. case_match; [|done]. by rewrite (crc32_8_app (_ ++ _) p) by range. Qed.

(** The session that read the header of the frame. *)
Local Abbreviation seen s := (saw_header 0 q n fc s).
Local Abbreviation ctx := (if decide (p = []) then None else Some (cursor [] p)).

Lemma seen_flags s : flags_ (seen s) = sent_flags o q.
Proof. apply frame_fc. Qed.
Lemma seen_crc s : crc_from_msg_ (seen s) = frame_crc o (word_bytes 1 0 ++ req_fields q n) p.
Proof. apply frame_fc. Qed.

Lemma seen_payload_crc s :
  fits p →
  (if crc_on_entire_message_ o
   then match ctx with
        | Some ctx => sz ← size ctx; bs ← data_at 0 sz ctx; Ok (crc32_8 bs (crc_header_ (seen s)))
        | None => Ok (crc_header_ (seen s))
        end
   else Ok (crc_from_msg_ (seen s))) = Ok (crc_from_msg_ (seen s)).
Proof.
  intros Hf. rewrite seen_crc. unfold frame_crc. destruct (crc_on_entire_message_ o); [|done].
  case_decide as Hp; [by rewrite Hp, crc32_8_nil|]. rewrite (cursor_size []) by done. ok_bind.
  by rewrite data_at_all by done.
Qed.

Lemma read_complete_frame junk o' leader s :
  rpc_req_ok q → Forall rpc_entry_ok ds → (crc_on_payload_ o = true → Forall crc_ok ds) →
  n ≤ 0x40000000 →
  meta_accepted o' (with_entries q (to_entry <$> (sent o <$> ds))) (req_meta o q) = true →
  ∃ s' evs, read_complete junk o' leader ctx (seen s) =
    Ok (s', evs, ProcessReq (with_entries q (to_entry <$> (sent o <$> ds)))) ∧ session_ok s'.
Proof.
  intros Hq Hok Hcrc Hn Hmeta. assert (fits p) as Hf by (unfold fits; lia).
  destruct frame_fc as (Hfc & _). destruct sent_flags_spec as (_ & _ & _ & _ & Hent).
  unfold read_complete. change (header_ (seen s)) with (cursor [] (header_bytes 0 q n fc)).
  rewrite (parse_req_header_spec 0 q n fc) by (done || range). ok_bind.
  rewrite seen_flags, Hent, seen_payload_crc by done. ok_bind. rewrite decide_False by naive_solver.
  destruct (note_sender leader (with_entries q []) (seen s)) as [s2 evs] eqn:Hnote.
  assert (flags_ s2 = sent_flags o q) as Hfl2.
  { pose proof (note_sender_flags leader (with_entries q []) (seen s)) as H.
    rewrite Hnote in H. cbn [fst] in H. by rewrite H, seen_flags. }
  rewrite Hfl2, parse_payload_wire by done. ok_bind.
  change (with_entries (with_entries q []) ?l) with (with_entries q l). rewrite Hmeta.
  eexists _, _. split; [done|]. eapply note_sender_ok, Hnote. apply saw_header_ok.
Qed.

Lemma start_frame o' leader s :
  rpc_req_ok q → n ≤ 0x40000000 → session_ok s →
  start o' leader (header_bytes 0 q n fc) s = Ok (seen s, [], ReadLogData n).
Proof.
  intros Hq Hn Hs. destruct frame_fc as (Hfc & _). destruct sent_flags_spec as (_ & _ & _ & _ & Hent).
  rewrite (start_spec 0 q n fc) by (done || range). cbv zeta. rewrite seen_flags, Hent.
  replace (negb (crc_on_entire_message_ o)
    && bool_decide (crc_header_ (seen s) ≠ crc_from_msg_ (seen s))) with false.
  - rewrite decide_False by done. by rewrite decide_False by lia.
  - rewrite seen_crc. unfold frame_crc. destruct (crc_on_entire_message_ o); [done|].
    by rewrite bool_decide_false by naive_solver.
Qed.
End frame.

(** Reading a frame is reading its header and then its payload. *)
Lemma read_request_frame junk o leader (hdr p rest : list byte) s s1 :
  length hdr = 54%nat → Z.of_nat (length p) ≤ 0x40000000 →
  start o leader hdr s = Ok (s1, [], ReadLogData (Z.of_nat (length p))) →
  read_request junk o leader ((hdr ++ p) ++ rest) s =
    (r ← read_complete junk o leader (if decide (p = []) then None else Some (cursor [] p)) s1;
     Ok (r, rest)).
Proof.
  intros Hhdr Hp Hstart. unfold read_request. change (Z.to_nat RPC_REQ_HEADER_SIZE) with 54%nat.
  rewrite <- app_assoc, <- Hhdr, decide_False by (rewrite length_app; lia).
  rewrite take_app_length, drop_app_length, Hstart. ok_bind. case_decide as Hn.
  - destruct p; [|simpl in Hn; lia]. by rewrite decide_True.
  - rewrite (decide_False (P := p = [])) by (by intros ->). rewrite Nat2Z.id, decide_False
      by (rewrite length_app; lia).
    rewrite take_app_length, drop_app_length, received_spec by (unfold fits; lia). done.
Qed.

(** C15: a request that a client writes to a connection, a session on the other
    end reads back: the same type, servers, term, indices and entries in the
    same order, of the entries the term, type and payload and what the client's
    options send of the timestamp and the checksum; the bytes after it are left
    for the next request.  The session goes by the flags in the frame, so the
    options of the two ends need not agree; only its meta callback may refuse. *)
Theorem rpc_request_roundtrip (junk junk' : nat → byte) (o o' : options) (leader : Z) (q : rpc_req)
    (ds : list entry_data) (s : session) (rest : list byte) :
  rpc_req_ok q → Forall2 entry_holds (q_log_entries q) ds → Forall rpc_entry_ok ds →
  (crc_on_payload_ o = true → Forall crc_ok ds) →
  Z.of_nat (length (payload o q ds)) ≤ 0x40000000 → session_ok s →
  meta_accepted o' (with_entries q (to_entry <$> (sent o <$> ds))) (req_meta o q) = true →
  ∃ bytes s' evs, encode_request junk o q = Ok bytes ∧
    read_request junk' o' leader (bytes ++ rest) s =
      Ok ((s', evs, ProcessReq (with_entries q (to_entry <$> (sent o <$> ds)))), rest) ∧
    session_ok s'.
Proof.
  intros Hq Hds Hok Hcrc Hlen Hs Hmeta.
  rewrite (encode_request_wire _ _ _ ds) by (done || (change RPC_REQ_HEADER_SIZE with 54; lia)).
  destruct (read_complete_frame o q ds junk' o' leader s) as (s' & evs & Hread & Hs'); [done..|].
  eexists _, s', evs. split; [done|]. split; [|done].
  rewrite frame_header.
  rewrite (read_request_frame _ _ _ _ _ _ _ _ (length_header_bytes 0 q _ _) Hlen
    (start_frame o q ds o' leader s Hq Hlen Hs)).
  by rewrite Hread.
Qed.

#[local] Strategy 100 [crc32_8 frame_crc word_bytes sent_flags].

(** ** Changed bytes *)
Lemma read_complete_mismatch junk o leader m q n fc s (p : list byte) :
  in_u 8 m → rpc_req_ok q → in_s 32 n → in_u 64 fc → fits p →
  has (u32 (Z.shiftr fc 32)) CRC_ON_ENTIRE_MESSAGE = true →
  crc32_8 ((word_bytes 1 m ++ req_fields q n) ++ p) 0 ≠ Z.land fc 0xffffffff →
  ∃ s' evs, read_complete junk o leader (if decide (p = []) then None else Some (cursor [] p))
    (saw_header m q n fc s) = Ok (s', evs, Stop).
Proof.
  intros Hm Hq Hn Hfc Hp Hent Hne. rewrite crc32_8_app in Hne by range.
  unfold read_complete. change (header_ (saw_header m q n fc s)) with (cursor [] (header_bytes m q n fc)).
  rewrite parse_req_header_spec by done. ok_bind.
  change (flags_ (saw_header m q n fc s)) with (u32 (Z.shiftr fc 32)). rewrite Hent.
  change (crc_from_msg_ (saw_header m q n fc s)) with (Z.land fc 0xffffffff).
  change (crc_header_ (saw_header m q n fc s)) with (crc32_8 (word_bytes 1 m ++ req_fields q n) 0).
  destruct (decide (p = [])) as [->|Hp0].
  - rewrite crc32_8_nil in Hne. ok_bind. rewrite decide_True by done. by eexists _, _.
  - rewrite (cursor_size []) by done. ok_bind. rewrite data_at_all by done. ok_bind.
    rewrite decide_True by done. by eexists _, _.
Qed.

Lemma some_head (l : list byte) :
  length l = 46%nat →
  ∃ m q n, l = word_bytes 1 m ++ req_fields q n ∧ in_u 8 m ∧ rpc_req_ok q ∧ in_s 32 n.
Proof.
  intros Hl. destruct (some_header (l ++ word_bytes 8 0)) as (m & q & n & fc & Heq & ? & ? & ? & _).
  { by rewrite length_app, Hl. }
  exists m, q, n. unfold header_bytes in Heq. apply app_inj_1 in Heq as [-> _]; [done|by rewrite Hl].
Qed.

Lemma word_bytes_inj_i32 x y : in_s 32 x → in_s 32 y → word_bytes 4 x = word_bytes 4 y → x = y.
Proof.
  intros Hx Hy H. rewrite <- (signed32_roundtrip x), <- (signed32_roundtrip y) by done. by rewrite H.
Qed.

(** The data size is the last field: changing what is before keeps it. *)
Lemma same_data_size (m m' : Z) q q' n n' (a w w' z : list byte) :
  in_s 32 n → in_s 32 n' → length w = length w' → (length (a ++ w) ≤ 42)%nat →
  word_bytes 1 m ++ req_fields q n = a ++ w ++ z →
  word_bytes 1 m' ++ req_fields q' n' = a ++ w' ++ z → n' = n.
Proof.
  intros Hn Hn' Hlen Hle H H'. symmetry. apply word_bytes_inj_i32; [done..|].
  rewrite length_app in Hle.
  assert (∀ m q n, word_bytes 4 n = drop 42 (word_bytes 1 m ++ req_fields q n)) as Hd by done.
  rewrite (Hd m q n), (Hd m' q' n'), H, H', !(app_assoc a).
  rewrite !drop_app_ge by (rewrite length_app; lia). by rewrite !length_app, Hlen.
Qed.

Section corrupted.
Context (junk : nat → byte) (o o' : options) (leader : Z) (q : rpc_req) (ds : list entry_data).
Context (s : session) (rest : list byte).
Local Abbreviation p := (payload o q ds).
Local Abbreviation n := (Z.of_nat (length p)).
Local Abbreviation head := (word_bytes 1 0 ++ req_fields q n).
Local Abbreviation fc := (Z.lor (Z.shiftl (sent_flags o q) 32) (frame_crc o head p)).
Context (Hq : rpc_req_ok q) (Hn : n ≤ 0x40000000) (Hs : session_ok s).

(** The head has other bytes than those it was sent with. *)
Lemma changed_head (head' : list byte) :
  length head' = 46%nat → crc32_8 head' 0 ≠ crc32_8 head 0 →
  (crc_on_entire_message_ o = true →
     crc32_8 (head' ++ p) 0 ≠ crc32_8 (head ++ p) 0 ∧
     ∀ m' q' n', in_s 32 n' → head' = word_bytes 1 m' ++ req_fields q' n' → n' = n) →
  ∃ s' evs rest', read_request junk o' leader (((head' ++ word_bytes 8 fc) ++ p) ++ rest) s =
    Ok ((s', evs, Stop), rest').
Proof.
  intros Hl Hcrc Hent. destruct (some_head head' Hl) as (m' & q' & n' & Hh & Hm' & Hq' & Hn').
  destruct (frame_fc o q ds) as (Hfc & Hfl & Hcr). destruct (sent_flags_spec o q) as (_ & _ & _ & _ & Hf).
  assert (head' ++ word_bytes 8 fc = header_bytes m' q' n' fc) as Hhdr by (by rewrite Hh).
  pose proof (start_spec m' q' n' fc Hm' Hn' Hfc o' leader s Hs) as Hstart. cbv zeta in Hstart.
  change (flags_ (saw_header m' q' n' fc s)) with (u32 (Z.shiftr fc 32)) in Hstart. rewrite Hfl, Hf in Hstart.
  change (crc_from_msg_ (saw_header m' q' n' fc s)) with (Z.land fc 0xffffffff) in Hstart.
  change (crc_header_ (saw_header m' q' n' fc s)) with (crc32_8 (word_bytes 1 m' ++ req_fields q' n') 0) in Hstart.
  rewrite <- Hh, Hcr in Hstart.
  assert (∀ evs, start o' leader (head' ++ word_bytes 8 fc) s = stop leader (saw_header m' q' n' fc s) evs →
    ∃ s' evs rest', read_request junk o' leader (((head' ++ word_bytes 8 fc) ++ p) ++ rest) s =
      Ok ((s', evs, Stop), rest')) as Hstop.
  { intros evs H. unfold read_request. change (Z.to_nat RPC_REQ_HEADER_SIZE) with 54%nat.
    assert (length (head' ++ word_bytes 8 fc) = 54%nat) as H54 by (by rewrite length_app, Hl).
    rewrite <- app_assoc, <- H54, decide_False by (rewrite length_app; lia).
    rewrite take_app_length, H. by eexists _, _, _. }
  rewrite <- Hhdr in Hstart.
  destruct (crc_on_entire_message_ o) eqn:Ho.
  - simpl andb in Hstart. cbv iota in Hstart.
    destruct (decide (m' = 1)) as [Hm1|Hm1]; [by eapply Hstop|].
    destruct (Hent eq_refl) as [Hne Hsize]. assert (n' = n) as -> by (by eapply Hsize).
    rewrite decide_False in Hstart by lia.
    rewrite (read_request_frame _ _ _ _ _ _ _ _ (eq_trans (f_equal length Hhdr) eq_refl) Hn Hstart).
    destruct (read_complete_mismatch junk o' leader m' q' n fc s p) as (s' & evs & ->);
      [done..|unfold fits; lia|by rewrite Hfl, Hf|by rewrite Hcr, entire_crc, Ho, <- Hh|].
    by eexists _, _, _.
  - rewrite bool_decide_true in Hstart by (unfold frame_crc; by rewrite Ho).
    eapply Hstop, Hstart.
Qed.

(** The payload has. *)
Lemma changed_payload (p' : list byte) :
  crc_on_entire_message_ o = true → length p' = length p → crc32_8 (head ++ p') 0 ≠ crc32_8 (head ++ p) 0 →
  ∃ s' evs rest', read_request junk o' leader ((header_bytes 0 q n fc ++ p') ++ rest) s =
    Ok ((s', evs, Stop), rest').
Proof.
  intros Ho Hl Hne. destruct (frame_fc o q ds) as (Hfc & Hfl & Hcr).
  destruct (sent_flags_spec o q) as (_ & _ & _ & _ & Hf).
  pose proof (start_frame o q ds o' leader s Hq Hn Hs) as Hstart. rewrite <- Hl in Hstart at 5.
  rewrite (read_request_frame _ _ _ _ _ _ _ _ (length_header_bytes 0 q _ _) (eq_ind_r (λ k, Z.of_nat k ≤ _) Hn Hl) Hstart).
  destruct (read_complete_mismatch junk o' leader 0 q n fc s p') as (s' & evs & ->);
    [range|done|range|done|unfold fits; lia|by rewrite Hfl, Hf|by rewrite Hcr, entire_crc, Ho|].
  by eexists _, _, _.
Qed.
End corrupted.

Lemma app_in_front (x y a b : list byte) :
  x ++ y = a ++ b → (length a ≤ length x)%nat → ∃ c, x = a ++ c ∧ b = c ++ y.
Proof.
  intros H Hl. destruct (app_eq_inv _ _ _ _ H) as [(c & -> & ->)|(c & -> & ->)].
  - by exists c.
  - exists []. rewrite length_app in Hl. assert (c = []) as -> by (apply nil_length_inv; lia).
    by rewrite !app_nil_r.
Qed.

(** C17: a session does not take a request for another: of at most four bytes in
    a row of a frame that are changed in any way, in the fields before the data
    size, in the data size too when the checksum is of the header only, or in
    the payload when it is of the whole message, the session ends without giving
    the server anything.  Not covered are a data size changed under the checksum
    of the whole message, which then is of other bytes, and the flags, which are
    under no checksum. *)
Theorem rpc_corruption_detected (junk : nat → byte) (o o' : options) (leader : Z) (q : rpc_req)
    (ds : list entry_data) (s : session) (a w w' z rest : list byte) :
  rpc_req_ok q → Z.of_nat (length (payload o q ds)) ≤ 0x40000000 → session_ok s →
  frame o q ds = a ++ w ++ z → length w = length w' → (length w ≤ 4)%nat → w ≠ w' →
  (length (a ++ w) ≤ 42)%nat ∨
  (crc_on_entire_message_ o = false ∧ length (a ++ w) ≤ 46)%nat ∨
  (crc_on_entire_message_ o = true ∧ 54 ≤ length a)%nat →
  ∃ s' evs rest', read_request junk o' leader ((a ++ w' ++ z) ++ rest) s = Ok ((s', evs, Stop), rest').
Proof.
  intros Hq Hn Hs Hframe Hlen H4 Hne Hcase. rewrite frame_header in Hframe.
  set (p := payload o q ds) in *. set (n := Z.of_nat (length p)) in *.
  set (fc := Z.lor _ _) in *. set (head := word_bytes 1 0 ++ req_fields q n) in *.
  assert (length head = 46%nat) as H46 by done.
  destruct (decide (length (a ++ w) ≤ 46)%nat) as [Hle|Hgt].
  - assert (∃ z0, z = z0 ++ word_bytes 8 fc ++ p ∧ head = a ++ w ++ z0) as (z0 & -> & Hhead).
    { unfold header_bytes in Hframe. fold head in Hframe. rewrite <- app_assoc, (app_assoc a) in Hframe.
      destruct (app_in_front _ _ _ _ Hframe) as (c & Hc & ->); [lia|].
      exists c. by rewrite Hc, <- app_assoc. }
    destruct (changed_head junk o o' leader q ds s rest Hn Hs (a ++ w' ++ z0)) as (s' & evs & rest' & H).
    + rewrite <- H46, Hhead, !length_app. lia.
    + fold p n head. rewrite Hhead. intros H. by eapply crc32_8_burst, eq_sym, H.
    + intros Ho. fold p n head. rewrite Hhead. rewrite <- !app_assoc. split.
      { intros H. by eapply crc32_8_burst, eq_sym, H. }
      intros m' q' n' Hn' Hh. assert (length (a ++ w) ≤ 42)%nat as H42.
      { destruct Hcase as [?|[[? ?]|[? ?]]]; [done|congruence|rewrite length_app in Hle; lia]. }
      by eapply (same_data_size 0 m' q q' n n' a w w' z0); [range|..].
    + exists s', evs, rest'. rewrite <- H. fold p n head fc. by rewrite <- !app_assoc.
  - destruct Hcase as [?|[[? ?]|[Ho Ha]]]; [lia..|].
    assert (∃ a0, a = header_bytes 0 q n fc ++ a0 ∧ p = a0 ++ w ++ z) as (a0 & -> & Hp).
    { destruct (app_in_front _ _ _ _ (eq_sym Hframe)) as (c & -> & Hp); [by rewrite length_header_bytes|].
      by exists c. }
    destruct (changed_payload junk o o' leader q ds s rest Hq Hn Hs (a0 ++ w' ++ z)) as (s' & evs & rest' & H).
    + done.
    + fold p. rewrite Hp, !length_app. lia.
    + fold p n head. rewrite Hp, !(app_assoc head a0). intros H. by eapply crc32_8_burst, eq_sym, H.
    + exists s', evs, rest'. rewrite <- H. fold p n head fc. by rewrite <- !app_assoc.
Qed.

(** ** Witnesses *)
Module ReqSample.
Definition opts : options :=
  default_options <| write_req_meta_ := Some (λ _, "m"%string) |> <| replicate_log_timestamp_ := true |>
    <| crc_on_payload_ := true |> <| crc_on_entire_message_ := true |>.
Definition entry : entry_data :=
  EntryData 2 app_log (bytes_of_string "x=1") 1700000000 true (crc32_8 (bytes_of_string "x=1") 0).
Definition req : rpc_req := RpcReq 3 3 1 2 2 10 9 [to_entry entry].
Definition idle : session := Session 0 (cursor [] (replicate 54 Byte.x00)) (-1) false 0 0.
Definition bytes : list byte := frame opts req [entry].
End ReqSample.

Lemma sample_req_ok : rpc_req_ok ReqSample.req.
Proof. split; by vm_compute. Qed.
Lemma sample_idle_ok : session_ok ReqSample.idle.
Proof. by eexists. Qed.

Example session_reads_anything_witness :
  ∃ s' evs a rest, read_request (λ _, Byte.x00) default_options 1 (replicate 100 Byte.xff) ReqSample.idle =
      Ok ((s', evs, a), rest) ∧ session_ok s' ∧
    match a with
    | Stop => True
    | ReadLogData _ => False
    | ProcessReq q => rpc_req_ok q ∧ entries_ok (q_log_entries q) ∧
                      ∃ used, replicate 100 Byte.xff = used ++ rest ∧ (54 ≤ length used)%nat
    end.
Proof. apply (session_reads_anything (λ _, Byte.x00)). exact sample_idle_ok. Defined.

Example rpc_request_roundtrip_witness :
  ∃ bytes s' evs, encode_request (λ _, Byte.x00) ReqSample.opts ReqSample.req = Ok bytes ∧
    read_request (λ _, Byte.x00) default_options 1 (bytes ++ []) ReqSample.idle =
      Ok ((s', evs, ProcessReq (with_entries ReqSample.req
             (to_entry <$> (sent ReqSample.opts <$> [ReqSample.entry])))), []) ∧
    session_ok s'.
Proof.
  apply (rpc_request_roundtrip (λ _, Byte.x00) (λ _, Byte.x00) ReqSample.opts default_options 1
    ReqSample.req [ReqSample.entry] ReqSample.idle []).
  - exact sample_req_ok.
  - repeat constructor. by apply to_entry_holds.
  - repeat constructor; by vm_compute.
  - repeat constructor.
  - by vm_compute.
  - exact sample_idle_ok.
  - done.
Defined.

Example rpc_corruption_detected_witness :
  ∃ s' evs rest', read_request (λ _, Byte.x00) default_options 1
    ((take 2 ReqSample.bytes ++ [Byte.x07] ++ drop 3 ReqSample.bytes) ++ []) ReqSample.idle =
      Ok ((s', evs, Stop), rest').
Proof.
  apply (rpc_corruption_detected (λ _, Byte.x00) ReqSample.opts default_options 1 ReqSample.req
    [ReqSample.entry] ReqSample.idle (take 2 ReqSample.bytes) [Byte.x01] [Byte.x07]
    (drop 3 ReqSample.bytes) []).
  - exact sample_req_ok.
  - by vm_compute.
  - exact sample_idle_ok.
  - by vm_compute.
  - done.
  - simpl. lia.
  - done.
  - left. vm_compute. lia.
Defined.
