(* ===== verification/RpcRespThms.v ===== *)
(** * Theorems about the responses

    What a session writes is what the client that sent the request reads. *)
From S2P Require Import Prelude Bytes Buffer BufferSpec BufferSerializer Crc32 Crc32Thms Wire.
From S2P Require Import RaftTypes LogEntry RaftMsg RpcFrame RpcFrameSpec RpcFrameThms.
Local Open Scope Z_scope.

#[local] Strategy 100 [crc32_8 word_bytes].

Record rpc_resp_ok (p : rpc_resp) : Prop := {
  po_type : in_u 8 (p_type p);
  po_src : in_s 32 (p_src p);
  po_dst : in_s 32 (p_dst p);
  po_term : in_u 64 (p_term p);
  po_next_idx : in_u 64 (p_next_idx p);
  po_hint : in_s 64 (p_hint p)
}.

(** The context, if there is one, holds the bytes. *)
Definition ctx_holds (ctx : option buffer) (c : list byte) : Prop :=
  match ctx with
  | Some m => ∃ b a, m = cursor b a ∧ c = b ++ a ∧ fits c
  | None => c = []
  end.

Definition resp_fields (p : rpc_resp) (n : Z) : list byte :=
  word_bytes 1 0x1 ++ word_bytes 1 (p_type p) ++ word_bytes 4 (p_src p) ++ word_bytes 4 (p_dst p)
    ++ word_bytes 8 (p_term p) ++ word_bytes 8 (p_next_idx p) ++ word_bytes 1 (Z.b2z (p_accepted p))
    ++ word_bytes 4 n.

(** The fields behind the marker, with any byte for the verdict. *)
Definition resp_rest (p : rpc_resp) (acc n : Z) : list byte :=
  word_bytes 1 (p_type p) ++ word_bytes 4 (p_src p) ++ word_bytes 4 (p_dst p)
    ++ word_bytes 8 (p_term p) ++ word_bytes 8 (p_next_idx p) ++ word_bytes 1 acc ++ word_bytes 4 n.

Lemma length_resp_fields p n : length (resp_fields p n) = 31%nat.
Proof. done. Qed.

Lemma puts_resp_header p n : puts (resp_fields p n) (put_resp_header p n).
Proof. unfold resp_fields, put_resp_header. wire_steps. Qed.

Section response.
Context (o : options) (q : rpc_req) (p : rpc_resp) (c : list byte).

Definition resp_meta : string :=
  match write_resp_meta_ o with Some f => f q p | None => ""%string end.
Definition includes_resp_meta : bool := bool_decide (resp_meta ≠ ""%string).
Definition includes_hint : bool := bool_decide (p_hint p ≠ 0).

Definition resp_flags : Z :=
  with_flag includes_hint INCLUDE_HINT (with_flag includes_resp_meta INCLUDE_META 0x0).

Definition wire_resp_meta : list byte :=
  if includes_resp_meta then word_bytes 4 (string_size resp_meta) ++ bytes_of_string resp_meta else [].
Definition wire_hint : list byte :=
  if includes_hint then word_bytes 2 0 ++ word_bytes 2 sz_ulong ++ word_bytes 8 (p_hint p) else [].
Definition carried : list byte := wire_resp_meta ++ wire_hint ++ c.

Definition resp_head : list byte := resp_fields p (Z.of_nat (length carried)).
Definition resp_fc : Z := Z.lor (Z.shiftl resp_flags 32) (crc32_8 resp_head 0).
Definition resp_frame : list byte := (resp_head ++ word_bytes 8 resp_fc) ++ carried.

Lemma length_carried :
  Z.of_nat (length carried) =
    (if includes_resp_meta then 4 + string_size resp_meta else 0)
    + (if includes_hint then 2 * 2 + 8 else 0) + Z.of_nat (length c).
Proof.
  unfold carried, wire_resp_meta, wire_hint. rewrite !length_app.
  destruct includes_resp_meta, includes_hint;
    rewrite ?length_app, ?length_word_bytes, ?string_size_bytes; simpl length; lia.
Qed.

Lemma puts_hint : puts (word_bytes 2 0 ++ word_bytes 2 sz_ulong ++ word_bytes 8 (p_hint p)) (put_hint (p_hint p)).
Proof. unfold put_hint. wire_steps. Qed.

Lemma puts_ctx :
  ctx_holds (p_ctx p) c →
  puts c (when_ (bool_decide (Z.of_nat (length c) ≠ 0)) (λ bs, ctx ← or_ub NullPointer (p_ctx p); put_ctx ctx bs)).
Proof.
  unfold ctx_holds, when_. intros H. case_bool_decide as Hc.
  - destruct (p_ctx p) as [m|]; [|by subst c]. destruct H as (b & a & -> & -> & Hf).
    intros x y Hxy Hlen. cbn [or_ub]. ok_bind. unfold put_ctx.
    rewrite (cursor_set_pos b a [] (b ++ a)) by done. ok_bind. by apply puts_buffer.
  - destruct c; [apply puts_nothing|simpl in Hc; lia].
Qed.

Lemma puts_carried :
  ctx_holds (p_ctx p) c →
  puts carried (λ bs,
    bs ← when_ includes_resp_meta (bs_put_str resp_meta) bs;
    bs ← when_ includes_hint (put_hint (p_hint p)) bs;
    when_ (bool_decide (Z.of_nat (length c) ≠ 0)) (λ bs, ctx ← or_ub NullPointer (p_ctx p); put_ctx ctx bs) bs).
Proof.
  intros Hc. eapply puts_then; [apply puts_if, puts_str|].
  eapply puts_then; [apply puts_if, puts_hint|by apply puts_ctx].
Qed.

Lemma encode_response_wire junk :
  ctx_holds (p_ctx p) c → Z.of_nat (length carried) < 0x80000000 - RPC_RESP_HEADER_SIZE →
  encode_response junk o q p = Ok resp_frame.
Proof.
  intros Hc Hlen. change RPC_RESP_HEADER_SIZE with 39 in Hlen. pose proof length_carried as Hl.
  pose proof (string_size_nonneg resp_meta) as Hms.
  assert (Z.of_nat (length c) < 2 ^ 31) as Hclen by (destruct includes_resp_meta, includes_hint; lia).
  unfold encode_response. fold resp_meta. cbv zeta. fold includes_resp_meta includes_hint resp_flags.
  assert (match p_ctx p with Some c => sz ← size c; Ok (i32 sz) | None => Ok 0 end
    = Ok (Z.of_nat (length c))) as ->.
  { unfold ctx_holds in Hc. destruct (p_ctx p); [|by rewrite Hc].
    destruct Hc as (b & a & -> & -> & Hf). rewrite cursor_size by done. ok_bind.
    by rewrite wrap_s_id by (unfold in_s; simpl; lia). }
  ok_bind. rewrite <- Hl. rewrite (wrap_u_id 64 (Z.of_nat _)) by (unfold in_u; lia).
  change RPC_RESP_HEADER_SIZE with 39. rewrite wrap_s_id by (unfold in_s; simpl; lia).
  rewrite wrap_u_id by (unfold in_u; lia). rewrite alloc_spec by lia. ok_bind.
  set (room := junk <$> seq 0 (Z.to_nat (39 + Z.of_nat (length carried)))).
  assert (length room = (39 + length carried)%nat) as Hroom.
  { unfold room. rewrite length_fmap, length_seq. lia. }
  rewrite new_serializer_at, (puts_resp_header p (Z.of_nat (length carried)));
    [|unfold fits; simpl; lia|rewrite length_resp_fields; lia].
  ok_bind. fold resp_head. assert (length resp_head = 31%nat) as Hhead by done. rewrite app_nil_l.
  assert (buf_ (at_pos LITTLE resp_head (drop (length resp_head) room)) =
    cursor [] (resp_head ++ drop (length resp_head) room)) as -> by done.
  assert (fits (resp_head ++ drop (length resp_head) room)) as Hf1
    by (unfold fits; rewrite length_app, length_drop; lia).
  rewrite data_at_front by done. ok_bind. fold resp_fc.
  rewrite (puts_u64 resp_fc); [|done|rewrite length_word_bytes, length_drop; lia]. ok_bind.
  rewrite length_word_bytes, drop_drop, Hhead.
  set (x1 := resp_head ++ word_bytes 8 resp_fc). assert (length x1 = 39%nat) as Hx1 by done.
  assert (fits (x1 ++ drop (31 + 8) room)) as Hf2
    by (unfold fits; rewrite length_app, length_drop; lia).
  pose proof (puts_carried Hc x1 (drop (31 + 8) room) Hf2) as Hput. rewrite length_drop in Hput.
  specialize (Hput ltac:(lia)). rewrite drop_drop in Hput. rewrite (drop_ge room (_ + _ + _)) in Hput by lia.
  apply bind_Ok in Hput as (s1 & Hs1 & Hput). rewrite Hs1. ok_bind.
  apply bind_Ok in Hput as (s2 & Hs2 & Hput). rewrite Hs2. ok_bind. rewrite Hput. ok_bind.
  assert (fits resp_frame) as Hf3 by (unfold fits, resp_frame; fold x1; rewrite length_app; lia).
  change (buf_ (at_pos LITTLE (x1 ++ carried) [])) with (cursor [] ((x1 ++ carried) ++ [])).
  rewrite app_nil_r. fold resp_frame. rewrite (cursor_size []) by done. ok_bind. by apply data_at_all.
Qed.
End response.

(** ** Reading it *)
Definition bare (p : rpc_resp) : rpc_resp :=
  RpcResp (p_term p) (p_type p) (p_src p) (p_dst p) (p_next_idx p) (p_accepted p) 0 None.

Definition with_verdict (acc : Z) (p : rpc_resp) : rpc_resp :=
  RpcResp (p_term p) (p_type p) (p_src p) (p_dst p) (p_next_idx p) (bool_decide (acc = 1)) (p_hint p) (p_ctx p).

(** What the client gets: a context of no bytes comes as none. *)
Definition received_resp (p : rpc_resp) (c : list byte) : rpc_resp :=
  RpcResp (p_term p) (p_type p) (p_src p) (p_dst p) (p_next_idx p) (p_accepted p) (p_hint p)
    (if decide (c = []) then None else Some (cursor [] c)).

(** Neither the marker nor what stands for the verdict is checked. *)
Lemma parse_resp_header_any m p acc n w :
  rpc_resp_ok p → in_u 8 acc → in_s 32 n → length w = 8%nat →
  parse_resp_header (at_pos LITTLE ((word_bytes 1 m ++ resp_rest p acc n) ++ w) []) =
    Ok (bare (with_verdict acc p), n).
Proof.
  intros [? ? ? ? ? ?] Hacc Hn Hw. unfold parse_resp_header.
  assert (fits (((word_bytes 1 m ++ resp_rest p acc n) ++ w) ++ [])) as Hfit
    by (unfold fits; rewrite !length_app, Hw; simpl; lia).
  rewrite (at_pos_back _ [] (word_bytes 1 m) (resp_rest p acc n ++ w)) by (done || by rewrite app_nil_r, <- app_assoc).
  ok_bind.
  transitivity ('(r, _) ← Ok ((bare (with_verdict acc p), n), at_pos LITTLE (word_bytes 1 m ++ resp_rest p acc n) w);
    Ok r : outcome (rpc_resp * Z)); [|done].
  assert (reads (resp_rest p acc n) (bare (with_verdict acc p), n) (λ bs,
    '(t, bs) ← get_u8 bs; '(src, bs) ← get_i32 bs; '(dst, bs) ← get_i32 bs;
    '(term, bs) ← get_u64 bs; '(nxt_idx, bs) ← get_u64 bs; '(accepted_val, bs) ← get_u8 bs;
    '(carried_data_size, bs) ← get_i32 bs;
    Ok ((RpcResp term t src dst nxt_idx (bool_decide (accepted_val = 1)) 0 None, carried_data_size), bs)))
    as Hr.
  { unfold resp_rest. rewrite <- (app_nil_r (word_bytes 4 n)). wire_steps. }
  rewrite <- Hr by (by rewrite app_nil_r, <- app_assoc in Hfit).
  by repeat (rewrite bind_assoc; apply bind_ext; intros [? ?]; cbv beta iota).
Qed.

Lemma parse_resp_header_spec p n w :
  rpc_resp_ok p → in_s 32 n → length w = 8%nat →
  parse_resp_header (at_pos LITTLE (resp_fields p n ++ w) []) = Ok (bare p, n).
Proof.
  intros Hp Hn Hw. pose proof (parse_resp_header_any 0x1 p (Z.b2z (p_accepted p)) n w Hp) as H.
  assert (bare (with_verdict (Z.b2z (p_accepted p)) p) = bare p) as He
    by (destruct p as [? ? ? ? ? [] ? ?]; done).
  rewrite He in H. apply H; [by destruct (p_accepted p)|done|done].
Qed.

Section read_response.
Context (junk : nat → byte) (o o' : options) (q : rpc_req) (p : rpc_resp) (c : list byte).
Context (Hp : rpc_resp_ok p).
Context (Hlen : Z.of_nat (length (carried o q p c)) < 0x80000000 - RPC_RESP_HEADER_SIZE).
(** The callback of the client does not refuse. *)
Context (Hmeta : resp_meta o q p ≠ ""%string ∨ invoke_resp_cb_on_empty_meta_ o' = true →
                 resp_meta_ok o' q (bare p) (resp_meta o q p) = true).

Local Abbreviation n := (Z.of_nat (length (carried o q p c))).
Local Abbreviation flags := (resp_flags o q p).

Lemma resp_flags_spec :
  in_u 32 flags ∧ has flags INCLUDE_META = includes_resp_meta o q p ∧
  has flags INCLUDE_HINT = includes_hint p.
Proof.
  unfold resp_flags. destruct (includes_resp_meta o q p), (includes_hint p);
    (split; [by vm_compute|split; reflexivity]).
Qed.

Lemma no_resp_meta : includes_resp_meta o q p = false → resp_meta o q p = ""%string.
Proof.
  unfold includes_resp_meta. intros H%bool_decide_eq_false.
  destruct (decide (resp_meta o q p = ""%string)); [done|by destruct H].
Qed.

Lemma response_read_spec :
  response_read junk o' q (resp_head o q p c ++ word_bytes 8 (resp_fc o q p c)) =
    Ok (if decide (n = 0) then Received (bare p) else ReadCtx n (bare p) flags).
Proof.
  change RPC_RESP_HEADER_SIZE with 39 in Hlen.
  destruct (flags_and_crc flags (crc32_8 (resp_head o q p c) 0)) as (Hfc & Hfl & Hcr);
    [apply resp_flags_spec|apply crc32_8_u32; range|].
  fold (resp_fc o q p c) in Hfc, Hfl, Hcr.
  set (head := resp_head o q p c) in *. set (fc := resp_fc o q p c) in *.
  assert (length head = 31%nat) as H31 by done.
  assert (fits (head ++ word_bytes 8 fc)) as Hf by (unfold fits; rewrite length_app, H31; simpl; lia).
  unfold response_read. rewrite received_spec by done. ok_bind.
  rewrite data_at_front by done. ok_bind.
  rewrite new_serializer_at, (at_pos_back [] _ head (word_bytes 8 fc)) by done. ok_bind.
  pose proof (reads_u64 fc Hfc head []) as Hr. rewrite app_nil_r in Hr. rewrite Hr by done. ok_bind.
  rewrite Hcr, Hfl, decide_False by naive_solver. unfold head at 1, resp_head at 1.
  rewrite parse_resp_header_spec by (done || (unfold in_s; simpl; lia)). ok_bind.
  destruct resp_flags_spec as (_ & -> & _).
  replace (negb (includes_resp_meta o q p) && invoke_resp_cb_on_empty_meta_ o'
    && negb (resp_meta_ok o' q (bare p) "")) with false.
  - destruct (decide (n = 0)) as [->|Hn]; [done|]. rewrite decide_True by done.
    rewrite wrap_u_id, alloc_spec by (unfold in_u; lia). by ok_bind.
  - destruct (includes_resp_meta o q p) eqn:Hm; [done|].
    rewrite no_resp_meta in Hmeta by done.
    destruct (invoke_resp_cb_on_empty_meta_ o'); [|done]. by rewrite Hmeta by (by right).
Qed.

Lemma read_resp_meta_spec y :
  fits (wire_resp_meta o q p ++ y) →
  let m := wire_resp_meta o q p in
  read_resp_meta o' flags q (bare p) (at_pos LITTLE [] (m ++ y)) (Z.of_nat (length (m ++ y))) =
    Ok (Some (at_pos LITTLE m y, Z.of_nat (length y))).
Proof.
  intros Hf m. unfold read_resp_meta. destruct resp_flags_spec as (_ & -> & _).
  unfold m, wire_resp_meta in *. destruct (includes_resp_meta o q p) eqn:Hm; [|done].
  rewrite string_size_bytes in Hf |- *. rewrite (reads_bytes (bytes_of_string (resp_meta o q p)) []) by done.
  ok_bind. rewrite string_of_bytes_of_string. unfold includes_resp_meta in Hm.
  apply bool_decide_eq_true in Hm. rewrite Hmeta by (by left). rewrite andb_false_r. do 4 f_equal.
  unfold fits in Hf. rewrite !length_app, length_word_bytes in *.
  rewrite wrap_s_id by (unfold in_s; simpl; lia). lia.
Qed.

Lemma read_hint_spec x y :
  fits (x ++ wire_hint p ++ y) →
  read_hint flags (bare p) (at_pos LITTLE x (wire_hint p ++ y)) (Z.of_nat (length (wire_hint p ++ y))) =
    Ok (with_hint (p_hint p) (bare p), at_pos LITTLE (x ++ wire_hint p) y, Z.of_nat (length y)).
Proof.
  intros Hf. unfold read_hint. destruct resp_flags_spec as (_ & _ & ->).
  unfold wire_hint in *. destruct (includes_hint p) eqn:Hh.
  - rewrite <- !app_assoc in *. rewrite (reads_u16 0) by (done || range). ok_bind.
    rewrite (reads_u16 sz_ulong) by (rewrite <- ?app_assoc; done || range). ok_bind.
    rewrite (reads_i64 (p_hint p)) by (rewrite <- ?app_assoc; done || by destruct Hp). ok_bind.
    rewrite <- !app_assoc. do 2 f_equal. unfold fits in Hf. rewrite !length_app, !length_word_bytes in *.
    change sz_ulong with 8. rewrite wrap_s_id by (unfold in_s; simpl; lia). lia.
  - apply bool_decide_eq_false in Hh. rewrite app_nil_r.
    destruct (decide (p_hint p = 0)) as [->|]; [done|by destruct Hh].
Qed.

Lemma ctx_read_spec :
  carried o q p c ≠ [] →
  ctx_read junk o' q (bare p) flags (cursor [] (carried o q p c)) = Ok (Received (received_resp p c)).
Proof.
  intros Hne. change RPC_RESP_HEADER_SIZE with 39 in Hlen.
  assert (fits (carried o q p c)) as Hf by (unfold fits; lia).
  unfold ctx_read. destruct resp_flags_spec as (_ & -> & ->).
  destruct (negb (includes_resp_meta o q p) && negb (includes_hint p)) eqn:Hno.
  - apply andb_true_iff in Hno as [Hm%negb_true_iff Hh%negb_true_iff].
    rewrite (cursor_set_pos [] _ [] (carried o q p c)) by done. ok_bind.
    unfold carried, wire_resp_meta, wire_hint in *. rewrite Hm, Hh in *.
    unfold received_resp, with_ctx, bare. cbn [app] in *. rewrite decide_False by done.
    unfold includes_hint in Hh. apply bool_decide_eq_false in Hh.
    destruct (decide (p_hint p = 0)) as [->|]; [done|by destruct Hh].
  - rewrite (cursor_size []) by done. ok_bind. rewrite new_serializer_at, app_nil_l.
    rewrite wrap_s_id by (unfold in_s; simpl; lia). unfold carried in *.
    rewrite read_resp_meta_spec by done. ok_bind. rewrite read_hint_spec by done. ok_bind.
    rewrite decide_False by lia. unfold received_resp. destruct (decide (c = [])) as [->|Hc].
    + rewrite decide_False by (simpl; lia). done.
    + rewrite decide_True by (by destruct c).
      assert (fits c) as Hfc by (unfold fits in *; rewrite !length_app in Hf; lia).
      rewrite alloc_spec by (unfold fits in Hfc; lia). ok_bind.
      pose proof (reads_buffer c (junk <$> seq 0 (Z.to_nat (Z.of_nat (length c))))) as Hr.
      rewrite length_fmap, length_seq, Nat2Z.id in Hr.
      specialize (Hr eq_refl (wire_resp_meta o q p ++ wire_hint p) []). rewrite app_nil_r in Hr.
      rewrite Nat2Z.id, Hr by (by rewrite <- app_assoc). done.
Qed.
End read_response.

(** ** With any bytes *)
Lemma some_resp_header (l : list byte) :
  length l = 39%nat →
  ∃ m p acc n fc, l = (word_bytes 1 m ++ resp_rest p acc n) ++ word_bytes 8 fc ∧
    rpc_resp_ok p ∧ in_u 8 acc ∧ in_s 32 n ∧ in_u 64 fc.
Proof.
  intros Hl.
  destruct (some_word 1 l) as (m & l0 & -> & ? & K0); [lia|]. rewrite Hl in K0.
  destruct (some_word 1 l0) as (ty & l1 & -> & ? & K1); [lia|].
  destruct (some_int32 l1) as (src & l2 & -> & ? & K2); [lia|].
  destruct (some_int32 l2) as (dst & l3 & -> & ? & K3); [lia|].
  destruct (some_word 8 l3) as (term & l4 & -> & ? & K4); [lia|].
  destruct (some_word 8 l4) as (ni & l5 & -> & ? & K5); [lia|].
  destruct (some_word 1 l5) as (acc & l6 & -> & ? & K6); [lia|].
  destruct (some_int32 l6) as (n & l7 & -> & ? & K7); [lia|].
  destruct (some_word 8 l7) as (fc & l8 & -> & ? & K8); [lia|].
  assert (l8 = []) as -> by (apply nil_length_inv; lia).
  exists m, (RpcResp term ty src dst ni false 0 None), acc, n, fc.
  split; [|done]. unfold resp_rest. cbn [p_type p_src p_dst p_term p_next_idx]. by rewrite <- !app_assoc, app_nil_r.
Qed.

Section any_bytes.
Context (junk : nat → byte) (o : options) (q : rpc_req).

Lemma response_read_any m p acc n fc :
  rpc_resp_ok p → in_u 8 acc → in_s 32 n → in_u 64 fc →
  let head := word_bytes 1 m ++ resp_rest p acc n in
  let p := bare (with_verdict acc p) in
  let flags := u32 (Z.shiftr fc 32) in
  response_read junk o q (head ++ word_bytes 8 fc) =
    if decide (crc32_8 head 0 ≠ Z.land fc 0xffffffff) then Ok (Failed CrcMismatch)
    else if negb (has flags INCLUDE_META) && invoke_resp_cb_on_empty_meta_ o
            && negb (resp_meta_ok o q p ""%string) then Ok (Failed MetaRejected)
    else if decide (n < 0) then
      throw (out_of_range "size exceed the max size that nuraft::buffer could support")
    else Ok (if decide (n = 0) then Received p else ReadCtx n p flags).
Proof.
  intros Hp Hacc Hn Hfc head p' flags. assert (length head = 31%nat) as H31 by done.
  assert (fits (head ++ word_bytes 8 fc)) as Hf by (unfold fits; rewrite length_app, H31; simpl; lia).
  unfold response_read. rewrite received_spec by done. ok_bind. rewrite data_at_front by done. ok_bind.
  rewrite new_serializer_at, (at_pos_back [] _ head (word_bytes 8 fc)) by done. ok_bind.
  pose proof (reads_u64 fc Hfc head []) as Hr. rewrite app_nil_r in Hr. rewrite Hr by done. ok_bind.
  fold flags. case_decide; [done|].
  unfold head at 1. rewrite parse_resp_header_any by done. ok_bind. fold p'. case_match; [done|].
  unfold in_s in Hn. simpl in Hn. destruct (decide (n < 0)).
  - rewrite decide_True by lia. unfold alloc at 1. rewrite decide_True; [done|].
    unfold wrap_u. replace (n mod 2 ^ 64) with (n + 2 ^ 64); [lia|].
    symmetry. rewrite <- (Z_mod_plus_full n 1). apply Z.mod_small. lia.
  - destruct (decide (n = 0)) as [->|]; [done|]. rewrite decide_True by done.
    rewrite wrap_u_id, alloc_spec by (unfold in_u; lia). by ok_bind.
Qed.

(** A header ends in one of the ways of the client, or in the exception of a
    negative size. *)
Lemma response_read_total hdr :
  length hdr = 39%nat →
  (∃ what, response_read junk o q hdr = throw (out_of_range what)) ∨
  ∃ a, response_read junk o q hdr = Ok a ∧
       match a with ReadCtx size _ _ => 0 < size < 0x80000000 | _ => True end.
Proof.
  intros (m & p & acc & n & fc & -> & Hp & Hacc & Hn & Hfc)%some_resp_header.
  rewrite response_read_any by done. unfold in_s in Hn. simpl in Hn.
  case_decide; [right; by eexists|]. case_match; [right; by eexists|]. case_decide; [left; by eexists|].
  right. eexists. split; [done|]. case_decide; [done|lia].
Qed.

(** What is carried: every step returns or throws. *)
Definition ends {A} (P : A → Prop) (m : outcome A) : Prop :=
  (∃ e, m = throw e) ∨ ∃ a, m = Ok a ∧ P a.
Lemma ends_ret {A} (P : A → Prop) a : P a → ends P (Ok a).
Proof. intros ?. right. by eexists. Qed.
Lemma ends_throw {A} (P : A → Prop) e : ends P (throw e).
Proof. left. by eexists. Qed.
Lemma ends_bind {A B} (P : A → Prop) (Q : B → Prop) m k :
  ends P m → (∀ a, P a → ends Q (k a)) → ends Q (m ≫= k).
Proof. intros [(e & ->)|(a & -> & Ha)] Hk; [left; by exists e|by apply Hk]. Qed.

Definition within (s : serializer) : Prop := ∃ x y, s = at_pos LITTLE x y ∧ fits (x ++ y).

Lemma get_word_ends n s : within s → (n ≤ 8)%nat → ends (λ r, within r.2) (get_word n s).
Proof.
  intros (x & y & -> & Hf) Hn. destruct (decide (length y < n)%nat) as [Hlt|Hge].
  - unfold get_word. rewrite at_pos_chk by (done || lia). rewrite decide_False by lia. apply ends_throw.
  - destruct (some_word n y) as (z & y' & -> & Hz & Hl); [lia|].
    rewrite reads_word by done. apply ends_ret. exists (x ++ word_bytes n z), y'.
    by rewrite <- app_assoc.
Qed.

Lemma get_signed_ends n s : within s → (n ≤ 8)%nat → ends (λ r, within r.2) (get_signed n s).
Proof.
  intros Hs Hn. eapply ends_bind; [by apply get_word_ends|]. intros [v s'] ?. by apply ends_ret.
Qed.

Lemma bs_get_bytes_ends s : within s → ends (λ r, within r.2) (bs_get_bytes s).
Proof.
  intros (x & y & -> & Hf). destruct (bs_get_bytes_any x y Hf) as [(e & ->)|(w & y' & -> & ->)]; [apply ends_throw|].
  apply ends_ret. eexists _, _. split; [done|]. by rewrite <- app_assoc.
Qed.

Lemma bs_get_buffer_ends n s :
  within s → 0 ≤ n < 0x80000000 → ends (λ _, True) (m ← alloc junk n; bs_get_buffer m s).
Proof.
  intros (x & y & -> & Hf) Hn. rewrite alloc_spec by done. ok_bind. set (d := junk <$> _).
  assert (length d = Z.to_nat n) as Hd by (unfold d; by rewrite length_fmap, length_seq).
  destruct (decide (n ≤ Z.of_nat (length y))) as [Hle|Hgt].
  - rewrite <- (take_drop (Z.to_nat n) y) in Hf |- *.
    rewrite reads_buffer; [by apply ends_ret| |done]. rewrite Hd, length_take. lia.
  - assert (fits d) as Hfd by (unfold fits; lia). unfold bs_get_buffer.
    rewrite (cursor_avail [] d) by done. ok_bind. unfold bs_get_raw, ser_set_pos.
    rewrite at_pos_size by done. ok_bind. unfold fits in *. rewrite length_app in *.
    cbn [pos_ at_pos]. rewrite wrap_u_id by (unfold in_u; lia). rewrite decide_True by lia. apply ends_throw.
Qed.

Lemma ctx_read_total p flags w :
  fits w → ends (λ a, ∀ size p' flags', a ≠ ReadCtx size p' flags') (ctx_read junk o q p flags (cursor [] w)).
Proof.
  intros Hf. unfold ctx_read. destruct (_ && _).
  { rewrite (cursor_set_pos [] w [] w) by done. by apply ends_ret. }
  rewrite (cursor_size []) by done. ok_bind. rewrite new_serializer_at.
  eapply (ends_bind (λ r, ∀ s n, r = Some (s, n) → within s ∧ in_s 32 n)).
  - unfold read_resp_meta. assert (within (at_pos LITTLE [] w)) as Hw by (by exists [], w).
    destruct (has _ _).
    + eapply ends_bind; [by apply bs_get_bytes_ends|]. intros [raw s] Hs. case_match; apply ends_ret; [done|].
      intros s' n [= <- <-]. split; [done|]. by apply wrap_s_range.
    + apply ends_ret. intros s' n [= <- <-]. split; [done|]. by apply wrap_s_range.
  - intros [[s n]|] Hsn; [|by apply ends_ret]. destruct (Hsn s n eq_refl) as [Hs Hn]. clear Hsn.
    eapply (ends_bind (λ r : rpc_resp * serializer * Z, within r.1.2 ∧ in_s 32 r.2)).
    + unfold read_hint. destruct (has _ _); [|by apply ends_ret].
      eapply ends_bind; [apply get_word_ends; [done|lia]|]. intros [v1 s1] H1.
      eapply ends_bind; [apply get_word_ends; [exact H1|lia]|]. intros [v2 s2] H2.
      eapply ends_bind; [apply get_signed_ends; [exact H2|lia]|]. intros [v3 s3] H3.
      apply ends_ret. split; [done|]. by apply wrap_s_range.
    + intros [[p' s'] n'] [Hs' Hn']. cbn [fst snd] in *. unfold in_s in Hn'. simpl in Hn'.
      case_decide; [apply ends_throw|]. case_decide; [|by apply ends_ret].
      rewrite <- bind_assoc. eapply ends_bind; [apply bs_get_buffer_ends; [done|lia]|].
      intros [m s''] _. by apply ends_ret.
Qed.
End any_bytes.

(** A response that a session writes, the client of the request reads back:
    the same type, servers, term, next index, verdict, hint of the next batch
    size and context, whatever meta goes with it, which only the callback of the
    client may refuse; the bytes after it are left.  A context of no bytes is
    read as no context. *)
Theorem rpc_response_roundtrip (junk junk' : nat → byte) (o o' : options) (q : rpc_req) (p : rpc_resp)
    (c rest : list byte) :
  rpc_resp_ok p → ctx_holds (p_ctx p) c →
  Z.of_nat (length (carried o q p c)) < 0x80000000 - RPC_RESP_HEADER_SIZE →
  (resp_meta o q p ≠ ""%string ∨ invoke_resp_cb_on_empty_meta_ o' = true →
   resp_meta_ok o' q (bare p) (resp_meta o q p) = true) →
  ∃ bytes, encode_response junk o q p = Ok bytes ∧
    read_response junk' o' q (bytes ++ rest) = Ok (Received (received_resp p c), rest).
Proof.
  intros Hp Hc Hlen Hmeta. rewrite (encode_response_wire _ _ _ c) by done. eexists. split; [done|].
  unfold read_response, resp_frame. change (Z.to_nat RPC_RESP_HEADER_SIZE) with
    (length (resp_head o q p c ++ word_bytes 8 (resp_fc o q p c))).
  rewrite <- app_assoc, take_app_length, drop_app_length, response_read_spec by done. ok_bind.
  case_decide as Hn.
  - destruct (carried o q p c) as [|] eqn:Hcar; [|simpl in Hn; lia].
    unfold carried, wire_resp_meta, wire_hint in Hcar.
    apply app_nil in Hcar as [_ [Hh ->]%app_nil].
    unfold received_resp. rewrite decide_True by done. destruct (includes_hint p) eqn:Hi; [done|].
    apply bool_decide_eq_false in Hi. unfold bare.
    destruct (decide (p_hint p = 0)) as [->|]; [done|by destruct Hi].
  - rewrite Nat2Z.id, take_app_length, drop_app_length. change RPC_RESP_HEADER_SIZE with 39 in Hlen.
    rewrite received_spec by (unfold fits; lia). ok_bind.
    rewrite ctx_read_spec; [done|done|by change RPC_RESP_HEADER_SIZE with 39|done|by intros H; rewrite H in Hn].
Qed.

(** ** Witness *)
Module RespSample.
Definition opts : options :=
  default_options <| write_resp_meta_ := Some (λ _ _, "m"%string) |>.
Definition req : rpc_req := RpcReq 3 3 1 2 2 10 9 [].
Definition resp : rpc_resp := RpcResp 3 4 2 1 12 true 512 (Some (cursor [] (bytes_of_string "ctx"))).
End RespSample.

Example rpc_response_roundtrip_witness :
  ∃ bytes, encode_response (λ _, Byte.x00) RespSample.opts RespSample.req RespSample.resp = Ok bytes ∧
    read_response (λ _, Byte.x00) default_options RespSample.req (bytes ++ []) =
      Ok (Received (received_resp RespSample.resp (bytes_of_string "ctx")), []).
Proof.
  apply (rpc_response_roundtrip (λ _, Byte.x00) (λ _, Byte.x00) RespSample.opts default_options
    RespSample.req RespSample.resp (bytes_of_string "ctx") []).
  - split; by vm_compute.
  - exists [], (bytes_of_string "ctx"). split_and!; by vm_compute.
  - by vm_compute.
  - done.
Defined.
