(* ===== verification/Peer.v ===== *)
(** * nuraft::peer: what a server knows about another one

    libs/nuraft/include/libnuraft/peer.hxx, src/peer.cxx and the
    [snapshot_sync_ctx] of snapshot_sync_ctx.{hxx,cxx}.  An RPC client is the
    number [get_id()] returns; the pending request is in the server's output.
    The methods that reach the scheduler or the network are in RaftServer. *)
From S2P Require Import Prelude RaftTypes RaftParams RaftMsg.
Local Open Scope Z_scope.

Record snapshot_sync_ctx := SnapshotSyncCtx {
  sc_peer_id_ : Z;
  sc_snapshot_ : snapshot;
  sc_offset_ : Z;
  sc_user_snp_ctx_ : option positive;
  sc_timer_ : timer_helper
}.
#[export] Instance snapshot_sync_ctx_rebuild : Rebuild snapshot_sync_ctx := λ c,
  SnapshotSyncCtx (sc_peer_id_ c) (sc_snapshot_ c) (sc_offset_ c) (sc_user_snp_ctx_ c)
    (sc_timer_ c).

Definition new_snapshot_sync_ctx (now : Z) (s : snapshot) (peer_id timeout_ms : Z) :
    snapshot_sync_ctx :=
  SnapshotSyncCtx peer_id s 0 None (set_duration_ms timeout_ms (new_timer now 0 false)).

Definition set_offset (now offset : Z) (c : snapshot_sync_ctx) : snapshot_sync_ctx :=
  (if decide (sc_offset_ c ≠ offset) then c <| sc_timer_ ::= reset_timer now |> else c)
    <| sc_offset_ := offset |>.

(** The handler given with a request. *)
Inductive rpc_handler := resp_handler_ | ex_resp_handler_.

Record peer := Peer {
  config_ : srv_config;
  rpc_ : option Z;
  current_hb_interval_ : Z;
  hb_interval_ : Z;
  rpc_backoff_ : Z;
  max_hb_interval_ : Z;
  next_log_idx_ : Z;
  last_accepted_log_idx_ : Z;
  next_batch_size_hint_in_bytes_ : Z;
  matched_idx_ : Z;
  busy_flag_ : bool;
  pending_commit_flag_ : bool;
  hb_enabled_ : bool;
  snp_sync_ctx_ : option snapshot_sync_ctx;
  last_sent_timer_ : timer_helper;
  last_resp_timer_ : timer_helper;
  last_active_timer_ : timer_helper;
  long_pause_warnings_ : Z;
  network_recoveries_ : Z;
  manual_free_ : bool;
  rpc_errs_ : Z;
  last_sent_idx_ : Z;
  cnt_not_applied_ : Z;
  leave_requested_ : bool;
  hb_cnt_since_leave_ : Z;
  stepping_down_ : bool;
  reconn_scheduled_ : bool;
  reconn_timer_ : timer_helper;
  reconn_backoff_ : timer_helper;
  suppress_following_error_ : bool;
  abandoned_ : bool;
  rsv_msg_ : option (req_msg * rpc_handler)
}.
#[export] Instance peer_rebuild : Rebuild peer := λ p, Peer (config_ p) (rpc_ p)
  (current_hb_interval_ p) (hb_interval_ p) (rpc_backoff_ p) (max_hb_interval_ p) (next_log_idx_ p)
  (last_accepted_log_idx_ p) (next_batch_size_hint_in_bytes_ p) (matched_idx_ p) (busy_flag_ p)
  (pending_commit_flag_ p) (hb_enabled_ p) (snp_sync_ctx_ p) (last_sent_timer_ p)
  (last_resp_timer_ p) (last_active_timer_ p) (long_pause_warnings_ p) (network_recoveries_ p)
  (manual_free_ p) (rpc_errs_ p) (last_sent_idx_ p) (cnt_not_applied_ p) (leave_requested_ p)
  (hb_cnt_since_leave_ p) (stepping_down_ p) (reconn_scheduled_ p) (reconn_timer_ p)
  (reconn_backoff_ p) (suppress_following_error_ p) (abandoned_ p) (rsv_msg_ p).

(** The constructor; [rpc] is the client the factory makes. *)
Definition new_peer (now : Z) (params : raft_params) (rpc : option Z) (config : srv_config) : peer :=
  let t := new_timer now 0 false in
  Peer config rpc (heart_beat_interval_ params) (heart_beat_interval_ params)
    (rpc_failure_backoff_ params) (max_hb_interval params) 0 0 0 0 false false false None t t t
    0 0 false 0 0 0 false 0 false false t t false false None.

Definition get_id (p : peer) : Z := RaftTypes.id_ (config_ p).
Definition is_learner (p : peer) : bool := learner_ (config_ p).

(** [compare_exchange_strong(false, true)] on [busy_flag_]. *)
Definition make_busy (p : peer) : bool * peer :=
  if busy_flag_ p then (false, p) else (true, p <| busy_flag_ := true |>).
Definition set_free (p : peer) : peer := p <| busy_flag_ := false |>.

Definition clear_pending_commit (p : peer) : bool * peer :=
  if pending_commit_flag_ p then (true, p <| pending_commit_flag_ := false |>) else (false, p).

Definition set_snapshot_in_sync (now : Z) (s : option snapshot) (timeout_ms : Z) (p : peer) : peer :=
  p <| snp_sync_ctx_ :=
    match s with
    | None => None
    | Some s => Some (new_snapshot_sync_ctx now s (get_id p) timeout_ms)
    end |>.

Definition slow_down_hb (p : peer) : peer :=
  p <| current_hb_interval_ ::= λ i, max_hb_interval_ p `min` (i + rpc_backoff_ p) |>.
Definition resume_hb_speed (p : peer) : peer := p <| current_hb_interval_ := hb_interval_ p |>.

Definition inc_cnt_not_applied (p : peer) : peer := p <| cnt_not_applied_ ::= Z.succ |>.

Definition schedule_reconnection (now : Z) (p : peer) : peer :=
  p <| reconn_timer_ ::= λ t, reset_timer now (set_duration_sec 3 t) |>
    <| reconn_scheduled_ := true |>.

Definition need_to_reconnect (now : Z) (p : peer) : bool :=
  if abandoned_ p then false
  else if reconn_scheduled_ p && timed_out now (reconn_timer_ p) then true
  else bool_decide (rpc_ p = None).

Definition need_to_suppress_error (p : peer) : bool * peer :=
  if suppress_following_error_ p then (true, p <| suppress_following_error_ := false |>)
  else (false, p).

(** The changes of [recreate_rpc] once the factory is there; [rpc] is the new
    client and [no_backoff] the debugging option. *)
Definition recreate_rpc (now : Z) (no_backoff : bool) (rpc : Z) (p : peer) : bool * peer :=
  if abandoned_ p then (false, p)
  else if no_backoff || timed_out now (reconn_backoff_ p) then
    let d := duration_us_ (reconn_backoff_ p) `quot` 1000 in
    let d := u64 (hb_interval_ p `min` (i32 d * 2)) in
    let d := if decide (d = 0) then 1 else d in
    (true,
     set_free (p <| reconn_backoff_ ::= λ t, set_duration_ms d (reset_timer now t) |>
                 <| rpc_ := Some rpc |>
                 <| last_active_timer_ ::= reset_timer now |>) <| manual_free_ := true |>)
  else (false, p).

Definition shutdown (p : peer) : peer := p <| abandoned_ := true |> <| rpc_ := None |>.
