(* ===== verification/RaftServer.v ===== *)
(** * nuraft::raft_server: the state of a Raft server

    libs/nuraft/include/libnuraft/raft_server.hxx and the small operations of
    src/raft_server.cxx and src/handle_timeout.cxx that the handlers share.  A
    handler runs as one step, as it does under [lock_]: it reads the clock and
    what the rest of the process answers from an [env], changes the [server] and
    puts out [effect]s.  Peers and pending results are objects that several
    pointers may reach, so they live in heaps.  Logging is left out, and so are
    the overflows of [int] arithmetic on parameters and counters. *)
From S2P Require Import Prelude Bytes Buffer BufferSpec BufferSerializer Wire RaftTypes.
From S2P Require Import LogEntry LogStore SrvState StateMgr RaftParams RaftMsg Peer.
Local Open Scope Z_scope.

Inductive srv_role := follower | candidate | leader.
#[export] Instance srv_role_eq_dec : EqDecision srv_role.
Proof. solve_decision. Defined.

(** ** What the process answers *)

(** [cb_func::Type] *)
Inductive cb_type :=
  | ProcessReq | GotAppendEntryRespFromPeer | AppendLogs | HeartBeat | JoinedCluster | BecomeLeader
  | RequestAppendEntries | SaveSnapshot | NewConfig | RemovedFromCluster | BecomeFollower
  | BecomeFresh | BecomeStale | GotAppendEntryReqFromLeader | OutOfLogRangeWarning
  | ConnectionOpened | ConnectionClosed | NewSessionFromLeader | StateMachineExecution
  | SentAppendEntriesReq | ReceivedAppendEntriesReq | SentAppendEntriesResp
  | ReceivedAppendEntriesResp | AutoAdjustQuorum | ServerJoinFailed.

(** [cb_func::ReturnCode] *)
Inductive CbReturnCode := CbOk | ReturnNull.
#[export] Instance CbReturnCode_eq_dec : EqDecision CbReturnCode.
Proof. solve_decision. Defined.

(** The answers of a [state_machine], whose methods are virtual. *)
Record state_machine := StateMachine {
  sm_pre_commit_ext : Z → buffer → option buffer;
  sm_commit_ext : Z → buffer → option buffer;
  sm_last_snapshot : option snapshot;
  sm_get_next_batch_size_hint_in_bytes : Z;
  sm_allow_leadership_transfer : bool;
  sm_chk_create_snapshot : bool;
  sm_adjust_commit_index : Z → Z → list (Z * Z) → Z;
  sm_read_snapshot_data : snapshot → Z → Z → Z * list byte;
  sm_read_logical_snp_obj :
    snapshot → option positive → Z → Z * option positive * option buffer * bool;
  sm_apply_snapshot : snapshot → bool
}.

(** The values of the default methods; the pure virtual ones are given. *)
Definition default_state_machine (last_snapshot : option snapshot) (apply_snapshot : bool) :
    state_machine :=
  StateMachine (λ _ _, None) (λ _ _, None) last_snapshot 0 true true (λ _ expected _, expected) (λ _ _ _, (0, []))
    (λ _ ctx _, (0, ctx, None, true)) (λ _, apply_snapshot).

(** The clock, what fresh memory holds, the user's callback (of the type and
    the peer it is about), the random engine (a value of a range), whether a
    global manager is there, the limits, whether reconnection has no back-off,
    whether the context still has its scheduler and client factory, where a new
    element of an unordered map goes in its iteration order, whether the
    snapshot I/O thread has a request for a peer, and the state machine. *)
Record env := Env {
  now_ : Z;
  junk_ : nat → byte;
  cb_func_ : cb_type → Z → CbReturnCode;
  uniform_int_ : Z → Z → Z;
  global_mgr_ : bool;
  raft_limits_ : limits;
  disable_reconn_backoff_ : bool;
  ctx_alive_ : bool;
  bucket_ : nat;
  snp_io_pending_ : Z → bool;
  state_machine_ : state_machine
}.

(** ** The server *)
Record pre_vote_status_t := PreVoteStatus {
  pv_term_ : Z;
  pv_done_ : bool;
  pv_live_ : Z;
  pv_dead_ : Z;
  pv_abandoned_ : Z;
  pv_quorum_reject_count_ : Z;
  pv_failure_count_ : Z
}.
#[export] Instance pre_vote_status_rebuild : Rebuild pre_vote_status_t := λ p,
  PreVoteStatus (pv_term_ p) (pv_done_ p) (pv_live_ p) (pv_dead_ p) (pv_abandoned_ p)
    (pv_quorum_reject_count_ p) (pv_failure_count_ p).

Definition reset_pre_vote (term : Z) (p : pre_vote_status_t) : pre_vote_status_t :=
  PreVoteStatus term false 0 0 0 (pv_quorum_reject_count_ p) (pv_failure_count_ p).
Definition new_pre_vote : pre_vote_status_t := PreVoteStatus 0 false 0 0 0 0 0.

(** A client request that waits for its commit.  [invoked_] is the state of
    [awaiter_]; [async_result_] says whether the object is there. *)
Record commit_ret_elem := CommitRetElem {
  cr_idx_ : Z;
  cr_ret_value_ : option buffer;
  cr_invoked_ : bool;
  cr_result_code_ : cmd_result_code;
  cr_async_result_ : bool;
  cr_callback_invoked_ : bool
}.
#[export] Instance commit_ret_elem_rebuild : Rebuild commit_ret_elem := λ c,
  CommitRetElem (cr_idx_ c) (cr_ret_value_ c) (cr_invoked_ c) (cr_result_code_ c)
    (cr_async_result_ c) (cr_callback_invoked_ c).

(** The function [rand_timeout_] holds: one [update_rand_timeout] bound, or the
    one that keeps the server out of the next election. *)
Inductive rand_timeout_fn :=
  | UniformTimeout (lower upper : Z)
  | LongestTimeout.

(** [uncommitted_shares_] says whether the servers of [uncommitted_config_] are
    the objects [config_] points to, which a change of a priority shows in.
    [chk_timer_] is the static timer of [request_append_entries], and
    [next_rpc_id_] the number of the next RPC client. *)
Record server := Server {
  id_ : Z;
  leader_ : Z;
  role_ : srv_role;
  state_ : srv_state;
  my_priority_ : Z;
  target_priority_ : Z;
  priority_change_timer_ : timer_helper;
  votes_responded_ : Z;
  votes_granted_ : Z;
  election_completed_ : bool;
  pre_vote_ : pre_vote_status_t;
  hb_alive_ : bool;
  precommit_index_ : Z;
  leader_commit_index_ : Z;
  quick_commit_index_ : Z;
  sm_commit_index_ : Z;
  lagging_sm_target_index_ : Z;
  index_at_becoming_leader_ : Z;
  initial_commit_index_ : Z;
  initialized_ : bool;
  config_changing_ : bool;
  catching_up_ : bool;
  out_of_log_range_ : bool;
  data_fresh_ : bool;
  stopping_ : bool;
  write_paused_ : bool;
  sm_commit_paused_ : bool;
  next_leader_candidate_ : Z;
  reelection_timer_ : timer_helper;
  im_learner_ : bool;
  serving_req_ : bool;
  steps_to_down_ : Z;
  snp_in_progress_ : bool;
  params_ : raft_params;
  scheduler_ : bool;
  election_task_ : bool;
  last_election_timer_reset_ : timer_helper;
  peers_ : list (Z * positive);
  state_mgr_ : state_mgr;
  receiving_snapshot_ : bool;
  et_cnt_receiving_snapshot_ : Z;
  first_snapshot_distance_ : Z;
  rand_timeout_ : rand_timeout_fn;
  config_ : cluster_config;
  uncommitted_config_ : option cluster_config;
  uncommitted_shares_ : bool;
  srv_to_join_ : option positive;
  srv_to_join_snp_retry_required_ : bool;
  srv_to_leave_ : option positive;
  srv_to_leave_target_idx_ : Z;
  conf_to_add_ : option srv_config;
  commit_ret_elems_ : gmap Z positive;
  last_snapshot_ : option snapshot;
  leadership_transfer_timer_ : timer_helper;
  status_check_timer_ : timer_helper;
  vote_init_timer_ : timer_helper;
  vote_init_timer_term_ : Z;
  test_mode_flag_ : bool;
  chk_timer_ : timer_helper;
  peer_heap_ : gmap positive peer;
  elem_heap_ : gmap positive commit_ret_elem;
  next_rpc_id_ : Z
}.
#[export] Instance server_rebuild : Rebuild server := λ s, Server (id_ s) (leader_ s) (role_ s)
  (state_ s) (my_priority_ s) (target_priority_ s) (priority_change_timer_ s) (votes_responded_ s)
  (votes_granted_ s) (election_completed_ s) (pre_vote_ s) (hb_alive_ s) (precommit_index_ s)
  (leader_commit_index_ s) (quick_commit_index_ s) (sm_commit_index_ s)
  (lagging_sm_target_index_ s) (index_at_becoming_leader_ s) (initial_commit_index_ s)
  (initialized_ s) (config_changing_ s) (catching_up_ s) (out_of_log_range_ s) (data_fresh_ s)
  (stopping_ s) (write_paused_ s) (sm_commit_paused_ s) (next_leader_candidate_ s)
  (reelection_timer_ s) (im_learner_ s) (serving_req_ s) (steps_to_down_ s) (snp_in_progress_ s)
  (params_ s) (scheduler_ s) (election_task_ s) (last_election_timer_reset_ s) (peers_ s)
  (state_mgr_ s) (receiving_snapshot_ s) (et_cnt_receiving_snapshot_ s)
  (first_snapshot_distance_ s) (rand_timeout_ s) (config_ s) (uncommitted_config_ s)
  (uncommitted_shares_ s) (srv_to_join_ s) (srv_to_join_snp_retry_required_ s) (srv_to_leave_ s)
  (srv_to_leave_target_idx_ s) (conf_to_add_ s) (commit_ret_elems_ s) (last_snapshot_ s)
  (leadership_transfer_timer_ s) (status_check_timer_ s) (vote_init_timer_ s)
  (vote_init_timer_term_ s) (test_mode_flag_ s) (chk_timer_ s) (peer_heap_ s) (elem_heap_ s)
  (next_rpc_id_ s).

(** ** What a step puts out *)
Inductive task :=
  | ElectionTask
  | HbTask (p : positive)
  | RetryTask (p : positive) (req : req_msg).

Inductive effect :=
  | SendReq (p : positive) (rpc : Z) (req : req_msg) (handler : rpc_handler)
  | Schedule (t : task) (milliseconds : Z)
  | CancelTask (t : task)
  | Callback (t : cb_type) (peer_id : Z)
  | SystemExit (code : Z)
  | NotifyCommit
  | InvokeAppend
  | InvokeFollowerAppend
  | InvokeSnapshotIo
  | PushSnapshotIo (p : positive) (handler : rpc_handler)
  | SmPreCommit (idx : Z) (data : buffer)
  | SmCommit (idx : Z) (data : buffer)
  | SmCommitConfig (idx : Z) (conf : cluster_config)
  | SmRollback (idx : Z) (data : buffer)
  | SmRollbackConfig (idx : Z) (conf : cluster_config)
  | SmCreateSnapshot (s : snapshot)
  | SmSaveSnapshotData (s : snapshot) (offset : Z) (data : buffer)
  | SmSaveLogicalObj (s : snapshot) (obj_id : Z) (data : buffer) (is_first is_last : bool)
  | SmFreeUserCtx (ctx : option positive)
  | AsyncResult (elem : positive) (ret : option buffer) (code : cmd_result_code)
  | EndOfAppendBatch (start cnt : Z)
  | WaitForDurable.

(** ** The monad of the handlers *)
Definition M (A : Type) : Type := env → server → outcome (A * server * list effect).
#[export] Instance M_ret : MRet M := λ A a _ s, Ok (a, s, []).
#[export] Instance M_bind : MBind M := λ A B f m e s,
  '(a, s, o) ← m e s; '(b, s, o') ← f a e s; Ok (b, s, o ++ o').

#[export] Instance M_fmap : FMap M := λ A B f m, a ← m; mret (f a).

Definition asks {A} (f : env → A) : M A := λ e s, Ok (f e, s, []).
Definition get : M server := λ _ s, Ok (s, s, []).
Definition modify (f : server → server) : M unit := λ _ s, Ok (tt, f s, []).
Definition tell (x : effect) : M unit := λ _ s, Ok (tt, s, [x]).
Definition lift {A} (o : outcome A) : M A := λ _ s, a ← o; Ok (a, s, []).
Definition when (b : bool) (m : M unit) : M unit := if b then m else mret tt.

Fixpoint for_each {A} (l : list A) (f : A → M unit) : M unit :=
  match l with [] => mret tt | x :: l => f x ;; for_each l f end.

Notation "f :=! v" := (modify (λ s, s <| f := v |>)) (at level 60, only parsing) : cpp_scope.
Notation "f ::=! g" := (modify (λ s, s <| f ::= g |>)) (at level 60, only parsing) : cpp_scope.

(** [ctx_->cb_func_.call(t, &param)] *)
Definition call_cb (t : cb_type) (peer_id : Z) : M CbReturnCode :=
  tell (Callback t peer_id) ;; asks (λ e, cb_func_ e t peer_id).

Definition system_exit (code : Z) : M unit := tell (SystemExit code).
(** [::exit(-1)] *)
Definition exit {A} : M A := lift (Fault (Exited (-1))).

(** ** Access to the parts *)
#[export] Instance state_mgr_rebuild : Rebuild state_mgr := λ m, StateMgr (my_id_ m) (my_endpoint_ m)
  (cur_log_store_ m) (my_srv_config_ m) (saved_config_ m) (saved_state_ m).

(** The state manager and the server hold the same log store. *)
Definition log_store_ (s : server) : log_store := cur_log_store_ (state_mgr_ s).
Definition get_next_slot (s : server) : Z := next_slot (log_store_ s).
Definition get_last_log_idx (s : server) : Z := u64 (get_next_slot s - 1).
Definition get_term (s : server) : Z := SrvState.term_ (state_ s).
Definition get_voted_for (s : server) : Z := voted_for_ (state_ s).

Definition is_leader (s : server) : bool := bool_decide (leader_ s = id_ s) && bool_decide (role_ s = leader).

Definition log_read {A} (f : (nat → byte) → log_store → outcome A) : M A :=
  junk ← asks junk_; s ← get; lift (f junk (log_store_ s)).
Definition set_log_store (l : log_store) : M unit :=
  state_mgr_ ::=! (λ m, m <| cur_log_store_ := l |>).

(** [ctx_->state_mgr_->save_state( *state_)] and [save_config] *)
Definition save_state : M unit :=
  junk ← asks junk_; s ← get;
  m ← lift (StateMgr.save_state junk (state_ s) (state_mgr_ s));
  state_mgr_ :=! m.
Definition save_config (config : cluster_config) : M unit :=
  junk ← asks junk_; s ← get;
  m ← lift (StateMgr.save_config junk config (state_mgr_ s));
  state_mgr_ :=! m.

Definition get_peer (p : positive) : M peer :=
  s ← get; lift (or_ub DanglingPointer (peer_heap_ s !! p)).
Definition upd_peer (p : positive) (f : peer → peer) : M unit := peer_heap_ ::=! alter f p.
Definition with_peer {A} (p : positive) (f : peer → A * peer) : M A :=
  pr ← get_peer p; upd_peer p (λ pr, (f pr).2) ;; mret (f pr).1.

(** [peers_.find(id)] *)
Fixpoint find_peer (id : Z) (l : list (Z * positive)) : option positive :=
  match l with
  | [] => None
  | (k, p) :: l => if decide (k = id) then Some p else find_peer id l
  end.
Definition peer_ptrs (s : server) : list positive := (peers_ s).*2.
(** [peers_.insert({id, p})]: nothing when the key is there. *)
Definition insert_peer (bucket : nat) (id : Z) (p : positive) (l : list (Z * positive)) :
    list (Z * positive) :=
  match find_peer id l with
  | Some _ => l
  | None => take bucket l ++ (id, p) :: drop bucket l
  end.
Definition erase_peer (id : Z) (l : list (Z * positive)) : list (Z * positive) :=
  filter (λ e, e.1 ≠ id) l.

(** [cs_new<peer>(config, ...)] *)
Definition cs_new_peer (config : srv_config) : M positive :=
  now ← asks now_; s ← get;
  let p := fresh (dom (peer_heap_ s)) in
  modify (λ s, s <| peer_heap_ ::= <[p := new_peer now (params_ s) (Some (next_rpc_id_ s)) config]> |>
                 <| next_rpc_id_ ::= Z.succ |>) ;;
  mret p.

(** ** Membership and quorums *)
Definition is_regular_member (s : server) (p : peer) : bool :=
  match srv_to_leave_ s ≫= λ l, peer_heap_ s !! l with
  | Some l => negb (bool_decide (get_id l = get_id p))
  | None => true
  end && negb (is_learner p).

Definition is_regular (s : server) (p : positive) : bool :=
  match peer_heap_ s !! p with Some p => is_regular_member s p | None => false end.

Definition get_num_voting_members (s : server) : Z :=
  Z.of_nat (length (filter (λ p, is_regular s p = true) (peer_ptrs s)))
  + (if im_learner_ s then 0 else 1).

Definition get_quorum_for_election (s : server) : Z :=
  let num_voting_members := get_num_voting_members s in
  let custom := custom_election_quorum_size_ (params_ s) in
  if decide (custom ≤ 0 ∨ custom > num_voting_members) then num_voting_members `quot` 2
  else custom - 1.

(** The loop that excludes the peers that receive a snapshot. *)
Fixpoint exclude_snp_receivers (s : server) (l : list positive) (num_voting_members : Z) : Z :=
  match l with
  | [] => num_voting_members
  | p :: l =>
      exclude_snp_receivers s l
        (if decide (num_voting_members ≠ 0 ∧ (peer_heap_ s !! p ≫= snp_sync_ctx_) ≠ None)
         then num_voting_members - 1 else num_voting_members)
  end.

Definition get_quorum_for_commit (s : server) : Z :=
  let num_voting_members := get_num_voting_members s in
  let num_voting_members :=
    if exclude_snp_receiver_from_quorum_ (params_ s)
    then exclude_snp_receivers s (peer_ptrs s) num_voting_members else num_voting_members in
  let custom := custom_commit_quorum_size_ (params_ s) in
  if decide (custom ≤ 0 ∨ custom > num_voting_members) then num_voting_members `quot` 2
  else custom - 1.

Definition get_leadership_expiry (lim : limits) (s : server) : Z :=
  let expiry := leadership_expiry_ (params_ s) in
  if decide (expiry = 0) then heart_beat_interval_ (params_ s) * leadership_limit_ lim else expiry.

(** [(int32)(get_resp_timer_us() / 1000)] *)
Definition resp_elapsed_ms (now : Z) (p : peer) : Z :=
  i32 (RaftParams.get_us now (last_resp_timer_ p) `quot` 1000).

Definition get_not_responding_peers (now : Z) (lim : limits) (s : server) : Z :=
  let expiry := heart_beat_interval_ (params_ s) * response_limit_ lim in
  Z.of_nat (length (filter (λ p,
    match peer_heap_ s !! p with
    | Some p => is_regular_member s p && bool_decide (resp_elapsed_ms now p > expiry)
    | None => false
    end = true) (peer_ptrs s))).

Definition get_num_stale_peers (s : server) : Z :=
  if decide (leader_ s ≠ id_ s) then 0
  else
    Z.of_nat (length (filter (λ p,
      match peer_heap_ s !! p with
      | Some p =>
          bool_decide (get_last_log_idx s > u64 (last_accepted_log_idx_ p + stale_log_gap_ (params_ s)))
      | None => false
      end = true) (peer_ptrs s))).

(** ** Timers *)
Definition schedule_task (t : task) (milliseconds : Z) : M unit :=
  s ← get;
  if stopping_ s then mret tt
  else
    alive ← asks ctx_alive_;
    when (negb (scheduler_ s)) (scheduler_ :=! alive) ;;
    s ← get; when (scheduler_ s) (tell (Schedule t milliseconds)).

Definition cancel_task (t : task) : M unit :=
  s ← get; when (scheduler_ s) (tell (CancelTask t)).

(** [rand_timeout_()] *)
Definition call_rand_timeout : M Z :=
  s ← get; rnd ← asks uniform_int_;
  mret match rand_timeout_ s with
       | UniformTimeout lower upper => rnd lower upper
       | LongestTimeout =>
           election_timeout_upper_bound_ (params_ s) + election_timeout_lower_bound_ (params_ s)
       end.

Definition update_rand_timeout : M unit :=
  s ← get;
  rand_timeout_ :=! UniformTimeout (election_timeout_lower_bound_ (params_ s))
                      (election_timeout_upper_bound_ (params_ s)).

Definition restart_election_timer : M unit :=
  s ← get;
  if catching_up_ s || bool_decide (role_ s = leader) then mret tt
  else
    when (negb (election_timer_allowed_ (state_ s)))
      (state_ ::=! allow_election_timer true ;; save_state) ;;
    (if election_task_ s then cancel_task ElectionTask else election_task_ :=! true) ;;
    now ← asks now_;
    last_election_timer_reset_ ::=! reset_timer now ;;
    ms ← call_rand_timeout;
    schedule_task ElectionTask ms.

Definition stop_election_timer : M unit :=
  s ← get;
  if election_task_ s then cancel_task ElectionTask else mret tt.

(** [peer::enable_hb] *)
Definition enable_hb (p : positive) (enable : bool) : M unit :=
  pr ← get_peer p;
  if abandoned_ pr then mret tt
  else
    upd_peer p (λ pr, pr <| hb_enabled_ := enable |>) ;;
    when (negb enable) (tell (CancelTask (HbTask p))).

Definition enable_hb_for_peer (p : positive) : M unit :=
  enable_hb p true ;;
  upd_peer p resume_hb_speed ;;
  pr ← get_peer p;
  schedule_task (HbTask p) (current_hb_interval_ pr).

(** ** Requests *)

(** [peer::send_req]: what [rpc_->send] gets, or nothing. *)
Definition send_req (p : positive) (req : req_msg) (handler : rpc_handler) : M unit :=
  pr ← get_peer p;
  if abandoned_ pr then mret tt
  else
    match rpc_ pr with
    | None => upd_peer p set_free
    | Some rpc => tell (SendReq p rpc req handler)
    end.

(** [peer::recreate_rpc] *)
Definition recreate_rpc_for (p : positive) : M bool :=
  pr ← get_peer p;
  if abandoned_ pr then mret false
  else
    alive ← asks ctx_alive_;
    if negb alive then mret false
    else
      now ← asks now_; no_backoff ← asks disable_reconn_backoff_; s ← get;
      recreated ← with_peer p (recreate_rpc now no_backoff (next_rpc_id_ s));
      when recreated (next_rpc_id_ ::=! Z.succ) ;;
      mret recreated.

(** [if (pp->make_busy()) pp->send_req(pp, req, resp_handler_);] *)
Definition send_if_free (p : positive) (req : req_msg) (handler : rpc_handler) : M unit :=
  free ← with_peer p make_busy;
  when free (send_req p req handler).

Definition term_for_log (log_idx : Z) : M Z :=
  if decide (log_idx = 0) then mret 0
  else
    s ← get;
    if decide (start_index (log_store_ s) ≤ log_idx) then
      lift (LogStore.term_at log_idx (log_store_ s))
    else
      snp ← asks (λ e, sm_last_snapshot (state_machine_ e));
      mret match snp with
           | Some snp => if decide (log_idx ≠ last_log_idx_ snp) then 0 else last_log_term_ snp
           | None => 0
           end.

Definition set_config (new_config : cluster_config) : M unit := config_ :=! new_config.
