(* ===== verification/RaftRoles.v ===== *)
(** * Roles of a Raft server: following, stepping down, priorities

    The operations of src/raft_server.cxx, src/handle_priority.cxx,
    src/handle_snapshot_sync.cxx, src/handle_join_leave.cxx and
    src/handle_append_entries.cxx that change a server's role or that every
    handler shares. *)
From S2P Require Import Prelude Bytes Buffer BufferSpec BufferSerializer Wire RaftTypes.
From S2P Require Import LogEntry LogStore SrvState StateMgr RaftParams RaftMsg Peer RaftServer.
Local Open Scope Z_scope.

(** ** Priorities *)
Definition decay_target_priority : M unit :=
  s ← get;
  let gap := 10 `max` (target_priority_ s `quot` 5) in
  let prev_priority := target_priority_ s in
  target_priority_ :=! 1 `max` (target_priority_ s - gap) ;;
  now ← asks now_;
  when (bool_decide (prev_priority > 1)) (priority_change_timer_ ::=! reset_timer now).

Definition peer_priority (s : server) (p : positive) : Z :=
  match peer_heap_ s !! p with Some p => priority_ (Peer.config_ p) | None => 0 end.

Definition update_target_priority : M unit :=
  s ← get;
  let max_priority :=
    foldl (λ max_priority p, max_priority `max` peer_priority s p) (my_priority_ s) (peer_ptrs s) in
  target_priority_ :=! (if decide (max_priority > 0) then max_priority else INIT_PRIORITY) ;;
  now ← asks now_;
  priority_change_timer_ ::=! reset_timer now ;;
  hb_alive_ :=! true ;;
  pre_vote_ ::=! reset_pre_vote (get_term s).

(** ** Snapshot contexts of the peers *)
Definition destroy_user_snp_ctx (sync_ctx : option snapshot_sync_ctx) : M unit :=
  match sync_ctx with
  | None => mret tt
  | Some c => tell (SmFreeUserCtx (sc_user_snp_ctx_ c))
  end.

(** [set_snapshot_in_sync(nullptr)] after the user's context is freed. *)
Definition clear_snapshot_sync_ctx (p : positive) : M unit :=
  pr ← get_peer p;
  destroy_user_snp_ctx (snp_sync_ctx_ pr) ;;
  now ← asks now_;
  upd_peer p (set_snapshot_in_sync now None 0).

Definition check_snapshot_timeout (p : positive) : M bool :=
  pr ← get_peer p; now ← asks now_;
  match snp_sync_ctx_ pr with
  | None => mret false
  | Some sync_ctx =>
      if timed_out now (sc_timer_ sync_ctx) then clear_snapshot_sync_ctx p ;; mret true
      else mret false
  end.

(** ** Peers that leave and join *)
Definition remove_peer_from_peers (p : positive) : M unit :=
  pr ← get_peer p;
  enable_hb p false ;;
  clear_snapshot_sync_ctx p ;;
  peers_ ::=! erase_peer (get_id pr).

Definition reset_srv_to_leave : M unit :=
  s ← get;
  p ← lift (or_ub NullPointer (srv_to_leave_ s));
  upd_peer p shutdown ;;
  srv_to_leave_ :=! None ;;
  srv_to_leave_target_idx_ :=! 0.

Definition reset_srv_to_join : M unit :=
  s ← get;
  p ← lift (or_ub NullPointer (srv_to_join_ s));
  clear_snapshot_sync_ctx p ;;
  upd_peer p shutdown ;;
  srv_to_join_ :=! None.

Definition check_srv_to_leave_timeout : M unit :=
  s ← get;
  match srv_to_leave_ s with
  | None => mret tt
  | Some p =>
      pr ← get_peer p; now ← asks now_; lim ← asks raft_limits_;
      let last_resp_ms := RaftParams.get_us now (last_resp_timer_ pr) `quot` 1000 in
      if decide (last_resp_ms > u64 (leave_limit_ lim * heart_beat_interval_ (params_ s))) then
        remove_peer_from_peers p ;; reset_srv_to_leave
      else mret tt
  end.

(** ** Pending client requests *)

(** The blocking mode: every element is cancelled and woken. *)
Definition cancel_elem (p : positive) : M unit :=
  elem_heap_ ::=! alter (λ el, el <| cr_ret_value_ := None |> <| cr_result_code_ := CANCELLED |>
                                  <| cr_invoked_ := true |>) p.

Definition cancel_async_elem (p : positive) : M unit :=
  s ← get;
  el ← lift (or_ub DanglingPointer (elem_heap_ s !! p));
  if cr_async_result_ el then tell (AsyncResult p None CANCELLED)
  else lift (undefined NullPointer).

(** The elements of [commit_ret_elems_], a [std::map], in order. *)
Definition pending_elems (s : server) : list positive :=
  omap (λ i, commit_ret_elems_ s !! i) (sorted_keys (commit_ret_elems_ s)).

Definition drop_all_pending_commit_elems : M unit :=
  s ← get;
  if decide (return_method_ (params_ s) = blocking) then
    for_each (pending_elems s) cancel_elem ;;
    commit_ret_elems_ :=! ∅
  else
    commit_ret_elems_ :=! ∅ ;;
    for_each (pending_elems s) cancel_async_elem.

(** ** Following *)
Definition restore_quorum (p : raft_params) : raft_params :=
  p <| custom_commit_quorum_size_ := 0 |> <| custom_election_quorum_size_ := 0 |>.

Definition become_follower : M unit :=
  s ← get;
  for_each (peer_ptrs s) (λ p, enable_hb p false) ;;
  srv_to_join_ :=! None ;;
  role_ :=! follower ;;
  index_at_becoming_leader_ :=! 0 ;;
  _ ← call_cb BecomeFollower (-1);
  write_paused_ :=! false ;;
  next_leader_candidate_ :=! -1 ;;
  initialized_ :=! true ;;
  uncommitted_config_ :=! None ;;
  pre_vote_ ::=! (λ v, v <| pv_quorum_reject_count_ := 0 |> <| pv_failure_count_ := 0 |>) ;;
  s ← get;
  when (auto_adjust_quorum_for_small_cluster_ (params_ s)
        && bool_decide (length (peers_ s) = 1%nat)
        && bool_decide (custom_commit_quorum_size_ (params_ s) = 1))
    (params_ ::=! restore_quorum) ;;
  drop_all_pending_commit_elems ;;
  restart_election_timer.

Definition update_term (term : Z) : M bool :=
  s ← get;
  if decide (term > get_term s) then
    role_ :=! follower ;;
    state_ ::=! set_term term ;;
    state_ ::=! set_voted_for (-1) ;;
    state_ ::=! allow_election_timer true ;;
    election_completed_ :=! false ;;
    votes_granted_ :=! 0 ;;
    votes_responded_ :=! 0 ;;
    save_state ;;
    become_follower ;;
    mret true
  else mret false.

(** ** Giving up the leadership *)

(** The loop that looks for the successor: the best candidate so far and its
    priority. *)
Fixpoint find_successor (now : Z) (s : server) (l : list (Z * positive)) (max_priority candidate_id : Z) :
    Z * Z :=
  match l with
  | [] => (max_priority, candidate_id)
  | (srv_id, p) :: l =>
      match peer_heap_ s !! p with
      | Some pr =>
          if decide (srv_id ≠ id_ s ∧
                     RaftParams.get_us now (last_resp_timer_ pr) `quot` 1000
                       ≤ u64 (heart_beat_interval_ (params_ s)) ∧
                     priority_ (Peer.config_ pr) > max_priority)
          then find_successor now s l (priority_ (Peer.config_ pr)) srv_id
          else find_successor now s l max_priority candidate_id
      | None => find_successor now s l max_priority candidate_id
      end
  end.

Definition yield_leadership (immediate_yield : bool) (successor_id : Z) : M unit :=
  s ← get;
  if write_paused_ s then mret tt
  else if decide (id_ s ≠ leader_ s) then mret tt
  else if decide (get_num_voting_members s ≤ 1) then mret tt
  else if immediate_yield then
    leader_ :=! -1 ;;
    become_follower ;;
    hb_alive_ :=! false
  else
    now ← asks now_;
    let '(max_priority, candidate_id) :=
      if decide (0 ≤ successor_id) then
        match find_peer successor_id (peers_ s) with
        | Some p => (peer_priority s p, successor_id)
        | None => (0, -1)
        end
      else (0, -1) in
    let '(_, candidate_id) :=
      if decide (candidate_id = -1) then find_successor now s (peers_ s) max_priority candidate_id
      else (max_priority, candidate_id) in
    when (bool_decide (candidate_id > -1)) (next_leader_candidate_ :=! candidate_id) ;;
    write_paused_ :=! true ;;
    reelection_timer_ ::=!
      (λ t, reset_timer now (set_duration_ms (election_timeout_upper_bound_ (params_ s)) t)).

Definition check_leadership_validity : M bool :=
  s ← get; now ← asks now_; lim ← asks raft_limits_;
  if decide (role_ s ≠ leader) then mret false
  else
    let num_voting_members := get_num_voting_members s in
    let nr_peers :=
      if decide (get_leadership_expiry lim s < 0) then 0 else i32 (get_not_responding_peers now lim s) in
    let min_quorum_size := get_quorum_for_commit s + 1 in
    if decide (num_voting_members - nr_peers < min_quorum_size) then
      if decide (num_voting_members ≤ min_quorum_size) then mret true
      else yield_leadership true (-1) ;; mret false
    else mret true.

(** The loop of [check_leadership_transfer]: [None] when a peer lags or does
    not respond, and the successor and the highest priority otherwise. *)
Fixpoint transfer_target (now : Z) (s : server) (l : list (Z * positive)) (successor_id max_priority : Z) :
    option (Z * Z) :=
  match l with
  | [] => Some (successor_id, max_priority)
  | (_, p) :: l =>
      match peer_heap_ s !! p with
      | Some pr =>
          let cur_priority := priority_ (Peer.config_ pr) in
          let '(successor_id, max_priority) :=
            if decide (cur_priority > max_priority) then (get_id pr, cur_priority)
            else (successor_id, max_priority) in
          if decide (u64 (matched_idx_ pr + stale_log_gap_ (params_ s)) < quick_commit_index_ s) then None
          else if decide (RaftParams.get_us now (last_resp_timer_ pr) `quot` 1000
                            > u64 (heart_beat_interval_ (params_ s))) then None
          else transfer_target now s l successor_id max_priority
      | None => transfer_target now s l successor_id max_priority
      end
  end.

Definition check_leadership_transfer : M unit :=
  s ← get; now ← asks now_;
  if decide (leadership_transfer_min_wait_time_ (params_ s) = 0) then mret tt
  else if negb (timed_out now (leadership_transfer_timer_ s)) then mret tt
  else
    match transfer_target now s (peers_ s) (-1) (my_priority_ s) with
    | None => mret tt
    | Some (successor_id, max_priority) =>
        if decide (max_priority ≤ my_priority_ s ∨ successor_id = -1) then mret tt
        else
          allow ← asks (λ e, sm_allow_leadership_transfer (state_machine_ e));
          when allow (yield_leadership false successor_id)
    end.

Definition check_overall_status : M unit := check_leadership_transfer.

(** ** Entries of the log *)

(** [cs_new<log_entry>(term, buf, type, timestamp)] *)
Definition cs_new_entry (term : Z) (buf : buffer) (type : log_val_type) (timestamp : Z) : M log_entry :=
  lift (new_log_entry term (Some buf) type timestamp false 0 true).

(** [try_update_precommit_index]: nothing else changes the index during the
    step, so the first exchange succeeds. *)
Definition try_update_precommit_index (desired : Z) : M bool :=
  s ← get;
  when (bool_decide (precommit_index_ s < desired)) (precommit_index_ :=! desired) ;;
  mret true.

(** [store_log_entry(entry, index)], [index] being 0 for an append. *)
Definition store_log_entry (entry : log_entry) (index : Z) : M Z :=
  junk ← asks junk_; now ← asks now_; s ← get;
  log_index ←
    (if decide (index = 0) then
       '(i, l) ← lift (append junk now (Some entry) (log_store_ s));
       set_log_store l ;; mret i
     else
       l ← lift (write_at junk now index (Some entry) (log_store_ s));
       set_log_store l ;; mret index);
  when (bool_decide (value_type_ entry = conf))
    (s ← get;
     set_log_store (flush (log_store_ s)) ;;
     when (bool_decide (role_ s = leader))
       (_ ← try_update_precommit_index log_index; mret tt)) ;;
  mret log_index.

(** ** Notifications *)

(** A notification wrapped in an entry of a request to [dst]. *)
Definition custom_notification_req (dst type : Z) (ctx : option buffer) (last_log_term last_log_idx : Z)
    (term commit_idx : Z) : M req_msg :=
  junk ← asks junk_; s ← get;
  buf ← lift (serialize_custom_notification junk (CustomNotificationMsg type ctx));
  le ← cs_new_entry 0 buf custom 0;
  mret (ReqMsg term custom_notification_request (id_ s) dst last_log_term last_log_idx commit_idx [le]).

Definition request_leadership : M bool :=
  s ← get;
  if bool_decide (id_ s = leader_ s) || is_leader s then mret false
  else if decide (leader_ s = -1) then mret false
  else
    match find_peer (leader_ s) (peers_ s) with
    | None => mret false
    | Some p =>
        last_log_term ← term_for_log (get_last_log_idx s);
        req ← custom_notification_req (leader_ s) request_resignation None last_log_term
                (get_last_log_idx s) (get_term s) (quick_commit_index_ s);
        send_req p req resp_handler_ ;;
        mret true
    end.
