(* ===== verification/RaftReplicate.v ===== *)
(** * Sending the log to the peers

    src/handle_append_entries.cxx up to [create_append_entries_req],
    [create_sync_snapshot_req] of src/handle_snapshot_sync.cxx,
    [reconnect_client] of src/raft_server.cxx and [commit] of
    src/handle_commit.cxx.  The in-memory log store never returns a null list
    of entries. *)
From S2P Require Import Prelude Bytes Buffer BufferSpec BufferSerializer Wire RaftTypes.
From S2P Require Import LogEntry LogStore SrvState StateMgr RaftParams RaftMsg Peer RaftServer.
From S2P Require Import RaftRoles.
Local Open Scope Z_scope.

Definition N6_no_snapshot_found : Z := -6.
Definition N8_peer_last_log_idx_too_large : Z := -8.
Definition N10_leader_receive_InstallSnapshotRequest : Z := -10.
Definition N11_not_follower_for_snapshot : Z := -11.
Definition N12_apply_snapshot_failed : Z := -12.
Definition N16_snapshot_for_peer_not_found : Z := -16.
Definition N17_empty_snapshot : Z := -17.
Definition N18_partial_snapshot_block : Z := -18.
Definition N19_bad_log_idx_for_term : Z := -19.
Definition N21_log_flush_failed : Z := -21.
Definition N22_unrecoverable_isolation : Z := -22.
Definition N23_precommit_order_inversion : Z := -23.

(** ** Snapshots for a peer *)
Definition default_snapshot_sync_block_size : Z := 4 * 1024.
Definition get_snapshot_sync_block_size (s : server) : Z :=
  let block_size := snapshot_block_size_ (params_ s) in
  if decide (block_size = 0) then default_snapshot_sync_block_size else block_size.

(** The object read, its index and whether it is the last one; [None] when the
    state machine could not read it. *)
Definition read_snapshot_object (p : positive) (snp : snapshot) : M (option (buffer * Z * bool)) :=
  s ← get; junk ← asks junk_; sm ← asks state_machine_;
  pr ← get_peer p;
  c ← lift (or_ub NullPointer (snp_sync_ctx_ pr));
  if decide (type_ snp = raw_binary) then
    let offset := sc_offset_ c in
    let sz_left := if decide (size_ snp > offset) then size_ snp - offset else 0 in
    let n := u64 (get_snapshot_sync_block_size s) `min` sz_left in
    data ← lift (alloc junk n);
    let '(sz_rd, bytes) := sm_read_snapshot_data sm snp offset n in
    if decide (u64 sz_rd < n) then system_exit N18_partial_snapshot_block ;; exit
    else
      start ← lift (entire_data_of_block data);
      data ← lift (store start bytes data);
      mret (Some (data, offset, bool_decide (size_ snp ≤ u64 (offset + n))))
  else
    let obj_idx := sc_offset_ c in
    let '(rc, ctx, data, last_request) :=
      sm_read_logical_snp_obj sm snp (sc_user_snp_ctx_ c) obj_idx in
    upd_peer p (λ pr, pr <| snp_sync_ctx_ ::= fmap (λ c, c <| sc_user_snp_ctx_ := ctx |>) |>) ;;
    if decide (rc < 0) then clear_snapshot_sync_ctx p ;; mret None
    else
      data ← lift (or_ub NullPointer data);
      data ← lift (set_pos 0 data);
      mret (Some (data, obj_idx, last_request)).

(** The snapshot to go on with, after a new one was chosen where there was
    none. *)
Definition choose_snapshot (p : positive) (last_log_idx : Z) : M snapshot :=
  s ← get; now ← asks now_; lim ← asks raft_limits_;
  pr ← get_peer p;
  sync_ctx ←
    match snp_sync_ctx_ pr with
    | Some c =>
        if timed_out now (sc_timer_ c) then destroy_user_snp_ctx (Some c) ;; mret None
        else mret (Some c)
    | None => mret None
    end;
  let start_over :=
    match last_snapshot_ s with
    | None => system_exit N16_snapshot_for_peer_not_found ;; exit
    | Some snp =>
        if decide (last_log_idx > last_log_idx_ snp) then
          system_exit N16_snapshot_for_peer_not_found ;; exit
        else if decide (type_ snp = raw_binary ∧ size_ snp < 1) then
          system_exit N17_empty_snapshot ;; exit
        else
          destroy_user_snp_ctx sync_ctx ;;
          let snp_timeout_ms := u64 (heart_beat_interval_ (params_ s) * response_limit_ lim) in
          upd_peer p (set_snapshot_in_sync now (Some snp) snp_timeout_ms) ;;
          mret snp
    end in
  match sync_ctx with
  | Some c => if decide (sc_offset_ c = 0) then start_over else mret (sc_snapshot_ c)
  | None => start_over
  end.

(** The request, and [succeeded_out]. *)
Definition create_sync_snapshot_req (p : positive) (last_log_idx term commit_idx : Z) :
    M (option req_msg * bool) :=
  snp ← choose_snapshot p last_log_idx;
  s ← get; junk ← asks junk_;
  if use_bg_thread_for_snapshot_io_ (params_ s) then
    tell (PushSnapshotIo p
      (if decide (srv_to_join_ s = Some p) then ex_resp_handler_ else resp_handler_)) ;;
    mret (None, true)
  else
    obj ← read_snapshot_object p snp;
    match obj with
    | None => mret (None, false)
    | Some (data, data_idx, last_request) =>
        pr ← get_peer p;
        buf ← lift (serialize_snapshot_sync_req junk
                      (SnapshotSyncReq snp data_idx data last_request));
        le ← cs_new_entry term buf snp_sync_req 0;
        mret (Some (ReqMsg term install_snapshot_request (id_ s) (get_id pr) (last_log_term_ snp)
                      (last_log_idx_ snp) commit_idx [le]), true)
    end.

(** ** append_entries requests *)

(** Up to where entries are sent: one entry at a time from the fifth time the
    same entry is the first one. *)
Definition batch_end (p : positive) (last_log_idx cur_nxt_idx : Z) : M Z :=
  s ← get; pr ← get_peer p;
  let end_idx := cur_nxt_idx `min` u64 (last_log_idx + 1 + max_append_size_ (params_ s)) in
  if decide (u64 (last_log_idx + 1) = last_sent_idx_ pr ∧ u64 (last_log_idx + 2) < end_idx) then
    upd_peer p inc_cnt_not_applied ;;
    pr ← get_peer p;
    mret (if decide (5 ≤ cnt_not_applied_ pr) then cur_nxt_idx `min` u64 (last_log_idx + 1 + 1)
          else end_idx)
  else
    upd_peer p (λ pr, pr <| cnt_not_applied_ := 0 |>) ;;
    mret end_idx.

(** What is sent when the entries are gone. *)
Definition create_missing_log_req (p : positive) (last_log_idx starting_idx term commit_idx : Z) :
    M (option req_msg) :=
  s ← get; junk ← asks junk_; pr ← get_peer p;
  let out_of_log :=
    buf ← lift (serialize_out_of_log junk starting_idx);
    req ← custom_notification_req (get_id pr) out_of_log_range_warning (Some buf) 0 last_log_idx
            term commit_idx;
    mret (Some req) in
  match last_snapshot_ s with
  | Some snp_local =>
      if decide (last_log_idx < starting_idx ∧ last_log_idx < last_log_idx_ snp_local) then
        '(req, _) ← create_sync_snapshot_req p last_log_idx term commit_idx; mret req
      else out_of_log
  | None => out_of_log
  end.

Definition create_append_entries_req (p : positive) : M (option req_msg) :=
  s ← get;
  let starting_idx := start_index (log_store_ s) in
  let cur_nxt_idx := u64 (precommit_index_ s + 1) in
  let commit_idx := quick_commit_index_ s in
  let term := get_term s in
  pr ← get_peer p;
  when (bool_decide (next_log_idx_ pr = 0))
    (upd_peer p (λ pr, pr <| next_log_idx_ := cur_nxt_idx |>)) ;;
  pr ← get_peer p;
  let last_log_idx := u64 (next_log_idx_ pr - 1) in
  if decide (cur_nxt_idx ≤ last_log_idx) then
    system_exit N8_peer_last_log_idx_too_large ;; exit
  else
    end_idx ← batch_end p last_log_idx cur_nxt_idx;
    if decide (cur_nxt_idx ≤ u64 (last_log_idx + 1)) then
      if decide (starting_idx ≤ u64 (last_log_idx + 1)) then
        last_log_term ← term_for_log last_log_idx;
        upd_peer p (λ pr, pr <| last_sent_idx_ := u64 (last_log_idx + 1) |>) ;;
        mret (Some (ReqMsg term append_entries_request (id_ s) (get_id pr) last_log_term last_log_idx
                      commit_idx []))
      else create_missing_log_req p last_log_idx starting_idx term commit_idx
    else if decide (starting_idx ≤ u64 (last_log_idx + 1)) then
      log_entries ← log_read (λ junk, log_entries_ext junk (u64 (last_log_idx + 1)) end_idx
                                        (next_batch_size_hint_in_bytes_ pr));
      last_log_term ← term_for_log last_log_idx;
      upd_peer p (λ pr, pr <| last_sent_idx_ := u64 (last_log_idx + 1) |>) ;;
      mret (Some (ReqMsg term append_entries_request (id_ s) (get_id pr) last_log_term last_log_idx
                    commit_idx log_entries))
    else create_missing_log_req p last_log_idx starting_idx term commit_idx.

(** ** Connections *)
Definition reconnect_client (p : positive) : M bool :=
  s ← get; pr ← get_peer p;
  if stopping_ s then mret false
  else
    let s_config := get_server (get_id pr) (config_ s) in
    if bool_decide (s_config ≠ None) || leave_requested_ pr then recreate_rpc_for p else mret false.

(** The connection is dropped when it was idle too long, unless the peer is the
    one to leave; a new one forgets what the peer has. *)
Definition reconnect_if_needed (p : positive) : M unit :=
  s ← get; now ← asks now_; lim ← asks raft_limits_;
  pr ← get_peer p;
  let need := need_to_reconnect now pr in
  let last_active_time_ms := i32 (RaftParams.get_us now (last_active_timer_ pr) `quot` 1000) in
  let leaving :=
    match srv_to_leave_ s ≫= λ l, peer_heap_ s !! l with
    | Some l => bool_decide (get_id l = get_id pr)
    | None => false
    end in
  need ←
    (if decide (last_active_time_ms > heart_beat_interval_ (params_ s) * reconnect_limit_ lim) then
       if leaving then mret need
       else upd_peer p (λ pr, pr <| last_active_timer_ ::= reset_timer now |>) ;; mret true
     else mret need);
  if (need : bool) then
    reconnected ← reconnect_client p;
    pr ← get_peer p;
    when ((reconnected : bool) && bool_decide (next_log_idx_ pr ≠ 0))
      (upd_peer p (λ pr, pr <| next_log_idx_ := 0 |> <| matched_idx_ := 0 |>)) ;;
    upd_peer p (λ pr, pr <| reconn_scheduled_ := false |>)
  else mret tt.

(** ** The quorum of a cluster of two *)
Definition quorum_of_one (p : raft_params) : raft_params :=
  p <| custom_commit_quorum_size_ := 1 |> <| custom_election_quorum_size_ := 1 |>.

Definition adjust_quorum_of_two (p : positive) : M unit :=
  s ← get; now ← asks now_; lim ← asks raft_limits_;
  if auto_adjust_quorum_for_small_cluster_ (params_ s)
     && bool_decide (get_num_voting_members s = 2) then
    let '(fired, t) := timeout_and_reset now (chk_timer_ s) in
    chk_timer_ :=! t ;;
    if (fired : bool) then
      let num_not_responding_peers := get_not_responding_peers now lim s in
      let cur_quorum_size := get_quorum_for_commit s in
      let num_stale_peers := get_num_stale_peers s in
      if decide (1 ≤ u64 cur_quorum_size) then
        if decide (num_not_responding_peers ≠ 0 ∨ num_stale_peers ≠ 0) then
          pr ← get_peer p;
          rc ← call_cb AutoAdjustQuorum (get_id pr);
          when (bool_decide (rc ≠ ReturnNull)) (params_ ::=! quorum_of_one)
        else mret tt
      else
        when (bool_decide (num_not_responding_peers = 0 ∧ num_stale_peers = 0 ∧
                           custom_commit_quorum_size_ (params_ s) = 1))
          (params_ ::=! restore_quorum)
    else mret tt
  else mret tt.

(** ** request_append_entries(p) *)

(** What is done once the peer is busy with us. *)
Definition send_to_free_peer (p : positive) : M unit :=
  pr ← get_peer p;
  msg ←
    match rsv_msg_ pr with
    | Some (m, h) => upd_peer p (λ pr, pr <| rsv_msg_ := None |>) ;; mret (Some (m, h))
    | None => m ← create_append_entries_req p; mret ((., resp_handler_) <$> m)
    end;
  s ← get; now ← asks now_; lim ← asks raft_limits_;
  match msg with
  | None =>
      upd_peer p set_free ;;
      pr ← get_peer p;
      when (use_bg_thread_for_snapshot_io_ (params_ s) && bool_decide (snp_sync_ctx_ pr ≠ None))
        (tell InvokeSnapshotIo)
  | Some (msg, m_handler) =>
      pr ← get_peer p;
      (if negb (manual_free_ pr) then
         when (bool_decide (warning_limit_ lim ≤ long_pause_warnings_ pr))
           (upd_peer p (λ pr, pr <| network_recoveries_ ::= λ n,
                                      if decide (10 ≤ n + 1) then 0 else n + 1 |>)) ;;
         upd_peer p (λ pr, pr <| long_pause_warnings_ := 0 |>)
       else upd_peer p (λ pr, pr <| manual_free_ := false |>)) ;;
      send_req p msg m_handler ;;
      upd_peer p (λ pr, pr <| last_sent_timer_ ::= reset_timer now |>) ;;
      _ ← call_cb SentAppendEntriesReq (get_id pr);
      match srv_to_leave_ s with
      | Some l =>
          lv ← get_peer l;
          when (bool_decide (get_id lv = get_id pr ∧ srv_to_leave_target_idx_ s ≤ rq_commit_idx msg)
                && negb (stepping_down_ lv))
            (upd_peer l (λ lv, lv <| stepping_down_ := true |>))
      | None => mret tt
      end
  end.

Definition request_append_entries_to (p : positive) : M bool :=
  s ← get; now ← asks now_;
  if decide (role_ s ≠ leader) then mret false
  else
    pr ← get_peer p;
    rc ← call_cb RequestAppendEntries (get_id pr);
    if decide (rc = ReturnNull) then mret true
    else
      adjust_quorum_of_two p ;;
      reconnect_if_needed p ;;
      pending ← asks (λ e, snp_io_pending_ e (get_id pr));
      if use_bg_thread_for_snapshot_io_ (params_ s) && pending then mret true
      else
        free ← with_peer p make_busy;
        if (free : bool) then send_to_free_peer p ;; mret true
        else
          _ ← check_snapshot_timeout p;
          pr ← get_peer p;
          when (bool_decide (i32 (RaftParams.get_us now (last_sent_timer_ pr) `quot` 1000)
                               > heart_beat_interval_ (params_ s)))
            (upd_peer p (λ pr, pr <| long_pause_warnings_ ::= Z.succ |>)) ;;
          mret false.

(** ** commit *)
Definition commit (target_idx : Z) : M unit :=
  s ← get;
  (if decide (target_idx > quick_commit_index_ s) then
     quick_commit_index_ :=! target_idx ;;
     lagging_sm_target_index_ :=! target_idx ;;
     if decide (role_ s = leader) then
       for_each (peer_ptrs s) (λ p,
         sent ← request_append_entries_to p;
         when (negb sent) (upd_peer p (λ pr, pr <| pending_commit_flag_ := true |>)))
     else mret tt
   else mret tt) ;;
  s ← get;
  if decide (get_last_log_idx s > sm_commit_index_ s ∧ quick_commit_index_ s > sm_commit_index_ s) then
    tell NotifyCommit
  else if decide (role_ s = follower) then
    when (negb (data_fresh_ s)
          && bool_decide (leader_commit_index_ s
                            < u64 (sm_commit_index_ s + fresh_log_gap_ (params_ s))))
      (data_fresh_ :=! true ;; _ ← call_cb BecomeFresh (-1); mret tt)
  else mret tt.

Definition get_current_leader_index (s : server) : Z :=
  if parallel_log_appending_ (params_ s)
  then precommit_index_ s `min` last_durable_index (log_store_ s)
  else precommit_index_ s.

Definition request_append_entries : M unit :=
  s ← get;
  if decide (length (peers_ s) = 0%nat ∨ get_quorum_for_commit s = 0) then
    commit (get_current_leader_index s)
  else for_each (peer_ptrs s) (λ p, _ ← request_append_entries_to p; mret tt).

(** [request_append_entries_for_all] *)
Definition request_append_entries_for_all : M unit :=
  s ← get;
  if use_bg_thread_for_urgent_commit_ (params_ s) then tell InvokeAppend
  else request_append_entries.
