(* ===== verification/SnapshotIo.v ===== *)
(** * nuraft::snapshot_io_mgr: snapshots read in the background

    The thread of src/snapshot_sync_ctx.cxx that reads objects of snapshots and
    sends them to the peers, with the queue the servers push to.  RaftReplicate
    has the other side: a server with [use_bg_thread_for_snapshot_io_] puts out
    [PushSnapshotIo] where it would have read and sent itself.  The thread is cut
    where a server or another thread can come in between. *)
From S2P Require Import Prelude Bytes Buffer BufferSpec BufferSerializer Wire RaftTypes.
From S2P Require Import LogEntry LogStore SrvState StateMgr RaftParams RaftMsg Peer RaftServer.
From S2P Require Import RaftRoles RaftReplicate.
Local Open Scope Z_scope.

(** The [sync_ctx_] of a request: the object that the peer still has, or one that
    it has given up since. *)
Inductive ctx_ref := Attached | Detached (c : snapshot_sync_ctx).

(** [io_queue_elem]; a server is known by its number. *)
Record io_queue_elem := IoElem {
  raft_ : nat;
  snapshot_ : snapshot;
  sync_ctx_ : ctx_ref;
  dst_ : positive;
  handler_ : rpc_handler
}.

(** Where [async_io_loop] is: [reqs] is its copy of the queue, [todo] what is left
    of it, [back] is [reqs_to_return].  A request is known by its number. *)
Inductive io_pc :=
  | Waiting
  | Copy
  | Next (reqs todo back : list nat)
  | Offset (reqs : list nat) (elem : nat) (todo back : list nat)
  | Read (reqs : list nat) (elem : nat) (todo back : list nat) (dst_id obj_idx : Z)
  | Send (reqs : list nat) (elem : nat) (todo back : list nat) (dst_id obj_idx : Z)
      (rc : Z) (data : option buffer) (is_last_request : bool)
  | Finish (reqs back : list nat)
  | Test
  | Ended.

Record io_mgr := IoMgr {
  servers : list server;
  elems : list io_queue_elem;
  queue_ : list nat;
  terminating_ : bool;
  io_thread_ : io_pc
}.
#[export] Instance io_mgr_rebuild : Rebuild io_mgr := λ m,
  IoMgr (servers m) (elems m) (queue_ m) (terminating_ m) (io_thread_ m).

Definition new_io_mgr (servers : list server) : io_mgr := IoMgr servers [] [] false Waiting.

Definition ctx_of (s : server) (p : positive) : option snapshot_sync_ctx := peer_heap_ s !! p ≫= snp_sync_ctx_.

(** ** The queue *)

(** Whom a request is for: its server and [dst_->get_id()]. *)
Definition target_of (m : io_mgr) (i : nat) : option (nat * Z) :=
  el ← elems m !! i; s ← servers m !! raft_ el; pr ← peer_heap_ s !! dst_ el;
  Some (raft_ el, get_id pr).

Definition has_pending_request (x : nat) (srv_id : Z) (m : io_mgr) : bool :=
  existsb (λ i, bool_decide (target_of m i = Some (x, srv_id))) (queue_ m).

(** [push(r, p, h)], and whether it was added. *)
Definition push (x : nat) (p : positive) (h : rpc_handler) (m : io_mgr) : outcome (bool * io_mgr) :=
  s ← or_ub DanglingPointer (servers m !! x);
  pr ← or_ub DanglingPointer (peer_heap_ s !! p);
  c ← or_ub NullPointer (snp_sync_ctx_ pr);
  if has_pending_request x (get_id pr) m then Ok (false, m)
  else
    Ok (true, m <| elems ::= (.++ [IoElem x (sc_snapshot_ c) Attached p h]) |>
                <| queue_ ::= (.++ [length (elems m)]) |>).

Definition drop_reqs (x : nat) (m : io_mgr) : io_mgr :=
  m <| queue_ ::= filter (λ i, raft_ <$> elems m !! i ≠ Some x) |>.

Definition shutdown_io (m : io_mgr) : io_mgr := m <| terminating_ := true |>.

(** ** What happens to the contexts *)

(** Server [x] is now [s'], and the peers [replaced] have new contexts: a request
    that has the one of a peer before keeps it. *)
Definition set_server (x : nat) (s' : server) (replaced : list positive) (m : io_mgr) : io_mgr :=
  m <| servers ::= <[x := s']> |>
    <| elems ::= fmap (λ el,
         match sync_ctx_ el, servers m !! x ≫= λ s, ctx_of s (dst_ el) with
         | Attached, Some c =>
             if decide (raft_ el = x ∧ (dst_ el ∈ replaced ∨ ctx_of s' (dst_ el) = None))
             then IoElem (raft_ el) (snapshot_ el) (Detached c) (dst_ el) (handler_ el) else el
         | _, _ => el
         end) |>.

(** The context of a request of server [s], and the assignment to its
    [user_snp_ctx_]. *)
Definition elem_ctx (s : server) (el : io_queue_elem) : option snapshot_sync_ctx :=
  match sync_ctx_ el with Attached => ctx_of s (dst_ el) | Detached c => Some c end.

Definition set_user_snp_ctx (i : nat) (ctx : option positive) (el : io_queue_elem) (m : io_mgr) : io_mgr :=
  let upd := λ c, c <| sc_user_snp_ctx_ := ctx |> in
  match sync_ctx_ el with
  | Attached =>
      m <| servers ::= alter (λ s, s <| peer_heap_ ::=
                                alter (λ pr, pr <| snp_sync_ctx_ ::= fmap upd |>) (dst_ el) |>) (raft_ el) |>
  | Detached c =>
      m <| elems ::= <[i := IoElem (raft_ el) (snapshot_ el) (Detached (upd c)) (dst_ el) (handler_ el)]> |>
  end.

(** ** async_io_loop *)

(** The request to the peer, in the term the server has by now. *)
Definition install_snapshot_req (dst_id : Z) (snp : snapshot) (obj_idx : Z) (data : buffer)
    (is_last_request : bool) : M req_msg :=
  s ← get; junk ← asks junk_;
  buf ← lift (serialize_snapshot_sync_req junk (SnapshotSyncReq snp obj_idx data is_last_request));
  le ← cs_new_entry (get_term s) buf snp_sync_req 0;
  mret (ReqMsg (get_term s) install_snapshot_request (id_ s) dst_id (last_log_term_ snp) (last_log_idx_ snp)
          (quick_commit_index_ s) [le]).

(** What is done under the lock of the server after a read, and whether the peer
    was busy. *)
Definition send_object (el : io_queue_elem) (dst_id obj_idx rc : Z) (data : option buffer)
    (is_last_request : bool) : M bool :=
  s ← get;
  if decide (rc < 0) then
    match find_peer dst_id (peers_ s) with
    | Some _ => clear_snapshot_sync_ctx (dst_ el) ;; mret false
    | None =>
        srv_to_join_snp_retry_required_ :=! true ;;
        j ← lift (or_ub NullPointer (srv_to_join_ s));
        enable_hb_for_peer j ;; mret false
    end
  else
    data ← lift (or_ub NullPointer data);
    data ← lift (set_pos 0 data);
    req ← install_snapshot_req dst_id (snapshot_ el) obj_idx data is_last_request;
    free ← with_peer (dst_ el) make_busy;
    if (free : bool) then
      upd_peer (dst_ el) (λ pr, pr <| rsv_msg_ := None |>) ;;
      send_req (dst_ el) req (handler_ el) ;;
      now ← asks now_;
      upd_peer (dst_ el) (λ pr, pr <| last_sent_timer_ ::= reset_timer now |>) ;;
      mret false
    else mret true.

(** [queue_.erase] of the first element that is this one. *)
Fixpoint erase_elem (i : nat) (l : list nat) : list nat :=
  match l with [] => [] | j :: l => if decide (j = i) then l else j :: erase_elem i l end.

Definition update_queue (reqs back : list nat) (m : io_mgr) : io_mgr :=
  m <| queue_ ::= λ q, foldl (λ q i, erase_elem i q) q reqs ++ back |>.

Definition goto (pc : io_pc) (m : io_mgr) : io_mgr := m <| io_thread_ := pc |>.

(** The next part of the thread, with what it puts out and for which server.  It
    waits no longer than a second, so it can always wake up. *)
Definition thread_part (e : env) (m : io_mgr) : outcome (io_mgr * list (nat * effect)) :=
  let elem i := or_ub DanglingPointer (elems m !! i) in
  let raft el := or_ub DanglingPointer (servers m !! raft_ el) in
  match io_thread_ m return outcome (io_mgr * list (nat * effect)) with
  | Waiting => Ok (goto Copy m, [])
  | Copy =>
      let reqs := if terminating_ m then [] else queue_ m in
      Ok (goto (Next reqs reqs []) m, [])
  | Next reqs [] back => Ok (goto (Finish reqs back) m, [])
  | Next reqs (i :: todo) back =>
      if terminating_ m then Ok (goto (Finish reqs back) m, [])
      else
        el ← elem i; s ← raft el;
        Ok (goto (if is_leader s then Offset reqs i todo back else Finish reqs back) m, [])
  | Offset reqs i todo back =>
      el ← elem i; s ← raft el;
      pr ← or_ub DanglingPointer (peer_heap_ s !! dst_ el);
      c ← or_ub NullPointer (elem_ctx s el);
      Ok (goto (Read reqs i todo back (get_id pr) (sc_offset_ c)) m, [])
  | Read reqs i todo back dst_id obj_idx =>
      el ← elem i; s ← raft el;
      c ← or_ub NullPointer (elem_ctx s el);
      let '(rc, ctx, data, is_last_request) :=
        sm_read_logical_snp_obj (state_machine_ e) (snapshot_ el) (sc_user_snp_ctx_ c) obj_idx in
      Ok (goto (Send reqs i todo back dst_id obj_idx rc data is_last_request) (set_user_snp_ctx i ctx el m), [])
  | Send reqs i todo back dst_id obj_idx rc data is_last_request =>
      el ← elem i; s ← raft el;
      '(busy, s', o) ← send_object el dst_id obj_idx rc data is_last_request e s;
      Ok (goto (Next reqs todo (if (busy : bool) then back ++ [i] else back)) (set_server (raft_ el) s' [] m),
          (pair (raft_ el) <$> o : list _))
  | Finish reqs back => Ok (goto Test (update_queue reqs back m), [])
  | Test => Ok (goto (if terminating_ m then Ended else Waiting) m, [])
  | Ended => Ok (m, [])
  end.

(** ** What the others do *)
Inductive io_event :=
  | Raft (x : nat) (s' : server) (replaced : list positive)
  | Push (x : nat) (p : positive) (h : rpc_handler)
  | DropReqs (x : nat)
  | Shutdown.

(** A peer stays the server it is. *)
Definition keeps_ids (s s' : server) : Prop :=
  ∀ p pr, peer_heap_ s !! p = Some pr → get_id <$> peer_heap_ s' !! p = Some (get_id pr).

Definition happen (ev : io_event) (m : io_mgr) : outcome io_mgr :=
  match ev with
  | Raft x s' replaced => Ok (set_server x s' replaced m)
  | Push x p h => '(_, m) ← push x p h m; Ok m
  | DropReqs x => Ok (drop_reqs x m)
  | Shutdown => Ok (shutdown_io m)
  end.

(** The steps, when the others do only what is allowed. *)
Inductive io_step (allowed : io_event → Prop) (m m' : io_mgr) : Prop :=
  | io_thread_step e o : thread_part e m = Ok (m', o) → io_step allowed m m'
  | io_event_step ev :
      allowed ev →
      match ev with Raft x s' _ => ∀ s, servers m !! x = Some s → keeps_ids s s' | _ => True end →
      happen ev m = Ok m' → io_step allowed m m'.
