(* ===== verification/RaftVote.v ===== *)
(** * Leader election: src/handle_vote.cxx, become_leader and the election timer

    src/handle_vote.cxx, [become_leader], [send_reconnect_request] and
    [handle_reconnect_req] of src/raft_server.cxx, and
    [handle_election_timeout] of src/handle_timeout.cxx. *)
From S2P Require Import Prelude Bytes Buffer BufferSpec BufferSerializer Wire RaftTypes.
From S2P Require Import LogEntry LogStore SrvState StateMgr RaftParams RaftMsg Peer RaftServer.
From S2P Require Import RaftRoles RaftReplicate.
Local Open Scope Z_scope.

Definition check_cond_for_zp_election (now : Z) (s : server) : bool :=
  allow_temporary_zero_priority_leader_ (params_ s)
  && bool_decide (target_priority_ s = 1)
  && bool_decide (my_priority_ s = 0)
  && bool_decide (get_ms now (priority_change_timer_ s)
                    > u64 (heart_beat_interval_ (params_ s)) * 20).

(** ** become_leader *)

(** The last configuration among the entries from [ii] on, [n] of them. *)
Fixpoint last_conf_entry (n : nat) (ii : Z) (last_config : cluster_config) : M cluster_config :=
  match n with
  | O => mret last_config
  | S n =>
      le ← log_read (λ junk, entry_at junk ii);
      last_config ←
        (if decide (value_type_ le ≠ conf) then mret last_config
         else
           b ← lift (get_buf le);
           '(c, _) ← lift (deserialize_cluster_config (new_serializer b LITTLE));
           mret c);
      last_conf_entry n (ii + 1) last_config
  end.

Definition become_leader : M unit :=
  stop_election_timer ;;
  s ← get; now ← asks now_; junk ← asks junk_;
  role_ :=! leader ;;
  leader_ :=! id_ s ;;
  srv_to_join_ :=! None ;;
  leadership_transfer_timer_ ::=!
    (λ t, reset_timer now (set_duration_ms (leadership_transfer_min_wait_time_ (params_ s)) t)) ;;
  precommit_index_ :=! get_last_log_idx s ;;
  for_each (peer_ptrs s) (λ p,
    clear_snapshot_sync_ctx p ;;
    upd_peer p (λ pr, pr <| next_log_idx_ := get_next_slot s |>) ;;
    enable_hb_for_peer p) ;;
  let s_idx := u64 (sm_commit_index_ s + 1) in
  let e_idx := get_next_slot s in
  last_config ← last_conf_entry (Z.to_nat (e_idx - s_idx)) s_idx (config_ s);
  buf ← lift (serialize_cluster_config junk last_config);
  '(last_config_cloned, _) ← lift (deserialize_cluster_config (new_serializer buf LITTLE));
  let last_config_cloned := set_log_idx (get_next_slot s) last_config_cloned in
  conf_buf ← lift (serialize_cluster_config junk last_config_cloned);
  entry ← cs_new_entry (get_term s) conf_buf conf now;
  index ← store_log_entry entry 0;
  index_at_becoming_leader_ :=! index ;;
  config_changing_ :=! true ;;
  _ ← call_cb BecomeLeader (-1);
  write_paused_ :=! false ;;
  next_leader_candidate_ :=! -1 ;;
  initialized_ :=! true ;;
  pre_vote_ ::=! (λ v, v <| pv_quorum_reject_count_ := 0 |> <| pv_failure_count_ := 0 |>) ;;
  data_fresh_ :=! true ;;
  request_append_entries ;;
  s ← get;
  if decide (my_priority_ s = 0 ∧ get_num_voting_members s > 1) then yield_leadership false (-1)
  else mret tt.

(** ** Voting *)

(** The loop of [request_vote] over the peers. *)
Definition send_vote_request (force_vote : bool) (p : positive) : M unit :=
  s ← get; junk ← asks junk_; pr ← get_peer p;
  if negb (is_regular_member s pr) then mret tt
  else
    last_log_term ← term_for_log (get_last_log_idx s);
    log_entries ←
      (if force_vote then
         buf ← lift (serialize_force_vote junk); le ← cs_new_entry 0 buf custom 0; mret [le]
       else mret []);
    send_if_free p (ReqMsg (get_term s) request_vote_request (id_ s) (get_id pr) last_log_term
                      (get_last_log_idx s) (quick_commit_index_ s) log_entries) resp_handler_.

Definition request_vote (force_vote : bool) : M unit :=
  s ← get;
  state_ ::=! set_voted_for (id_ s) ;;
  save_state ;;
  votes_granted_ ::=! Z.succ ;;
  votes_responded_ ::=! Z.succ ;;
  s ← get;
  if decide (votes_granted_ s > get_quorum_for_election s) then
    election_completed_ :=! true ;;
    become_leader
  else for_each (peer_ptrs s) (send_vote_request force_vote).

(** Whether the grace period of a lagging state machine holds the vote back. *)
Definition in_grace_period (force_vote : bool) : M bool :=
  s ← get; now ← asks now_;
  let grace_period := grace_period_of_lagging_state_machine_ (params_ s) in
  let cur_term := get_term s in
  if negb force_vote
     && bool_decide (grace_period ≠ 0 ∧ sm_commit_index_ s < lagging_sm_target_index_ s) then
    when (bool_decide (vote_init_timer_term_ s ≠ cur_term))
      (vote_init_timer_ ::=! (λ t, reset_timer now (set_duration_ms grace_period t)) ;;
       vote_init_timer_term_ :=! cur_term) ;;
    s ← get;
    mret (bool_decide (vote_init_timer_term_ s = cur_term)
          && negb (timed_out now (vote_init_timer_ s)))
  else mret false.

Definition initiate_vote (force_vote : bool) : M unit :=
  grace ← in_grace_period force_vote;
  if (grace : bool) then mret tt
  else
    s ← get; now ← asks now_;
    when (bool_decide (target_priority_ s ≤ my_priority_ s) || force_vote
          || check_cond_for_zp_election now s
          || bool_decide (get_quorum_for_election s = 0 ∧ my_priority_ s > 0))
      (state ← lift (inc_term (state_ s));
       state_ :=! state ;;
       state_ ::=! set_voted_for (-1) ;;
       role_ :=! candidate ;;
       index_at_becoming_leader_ :=! 0 ;;
       votes_granted_ :=! 0 ;;
       votes_responded_ :=! 0 ;;
       election_completed_ :=! false ;;
       request_vote force_vote) ;;
    s ← get;
    when (bool_decide (role_ s ≠ leader)) (hb_alive_ :=! false ;; leader_ :=! -1).

(** Whether the priority of [src] keeps this server from voting for it. *)
Definition priority_denies (s : server) (src : Z) : bool :=
  existsb (λ c, bool_decide (RaftTypes.id_ c = src ∧ priority_ c ≠ 0 ∧ priority_ c < target_priority_ s))
    (servers_ (config_ s)).

Definition log_okay (s : server) (my_last_log_term : Z) (req : req_msg) : bool :=
  bool_decide (rq_last_log_term req > my_last_log_term
    ∨ (rq_last_log_term req = my_last_log_term ∧ get_last_log_idx s ≤ rq_last_log_idx req)).

Definition handle_vote_req (req : req_msg) : M resp_msg :=
  s ← get;
  last ← log_read last_entry;
  let resp := new_resp (get_term s) request_vote_response (id_ s) (rq_src req) 0 in
  let grant :=
    bool_decide (rq_term req = get_term s)
    && log_okay s (LogEntry.term_ last) req
    && bool_decide (get_voted_for s = rq_src req ∨ get_voted_for s = -1) in
  let ignore_priority := bool_decide (rq_log_entries req ≠ []) || catching_up_ s in
  if grant then
    if negb ignore_priority && priority_denies s (rq_src req) then mret resp
    else
      state_ ::=! set_voted_for (rq_src req) ;;
      save_state ;;
      mret (accept (get_next_slot s) resp)
  else mret resp.

Definition handle_vote_resp (resp : resp_msg) : M unit :=
  s ← get;
  if election_completed_ s then mret tt
  else if decide (rs_term resp ≠ get_term s) then mret tt
  else
    votes_responded_ ::=! Z.succ ;;
    when (rs_accepted resp) (votes_granted_ ::=! Z.succ) ;;
    s ← get;
    when (bool_decide (get_num_voting_members s ≤ votes_responded_ s)) (election_completed_ :=! true) ;;
    let election_quorum_size := get_quorum_for_election s + 1 in
    if decide (election_quorum_size ≤ votes_granted_ s) then
      election_completed_ :=! true ;;
      become_leader
    else mret tt.

(** ** Pre-vote *)
Definition ulong_max : Z := 2 ^ 64 - 1.

(** The first loop of [request_prevote]: dead connections are made anew. *)
Definition recreate_for_prevote (p : positive) : M unit :=
  s ← get; now ← asks now_; lim ← asks raft_limits_; pr ← get_peer p;
  if negb (is_regular_member s pr) then mret tt
  else
    match get_server (get_id pr) (RaftServer.config_ s) with
    | None => mret tt
    | Some _ =>
        let last_active_time_ms := i32 (RaftParams.get_us now (last_active_timer_ pr) `quot` 1000) in
        let recreate :=
          hb_alive_ s || need_to_reconnect now pr
          || bool_decide (last_active_time_ms > heart_beat_interval_ (params_ s) * reconnect_limit_ lim) in
        when recreate (_ ← recreate_rpc_for p; mret tt)
    end.

(** The count of pre-votes that failed, and the quorum of a cluster of two
    whose other server stays away. *)
Definition count_prevote_failure : M unit :=
  s ← get;
  let responded := pv_live_ (pre_vote_ s) + pv_dead_ (pre_vote_ s) in
  if decide (responded > 0) then
    if decide (responded < get_quorum_for_election s + 1)
    then pre_vote_ ::=! (λ v, v <| pv_failure_count_ ::= Z.succ |>)
    else pre_vote_ ::=! (λ v, v <| pv_failure_count_ := 0 |>)
  else mret tt.

Definition adjust_quorum_for_prevote : M unit :=
  s ← get; lim ← asks raft_limits_;
  if auto_adjust_quorum_for_small_cluster_ (params_ s)
     && bool_decide (get_num_voting_members s = 2)
     && bool_decide (pv_failure_count_ (pre_vote_ s) > vote_limit_ lim) then
    rc ← call_cb AutoAdjustQuorum (-1);
    when (bool_decide (rc ≠ ReturnNull)) (params_ ::=! quorum_of_one)
  else mret tt.

Definition send_prevote_request (p : positive) : M unit :=
  s ← get; pr ← get_peer p;
  if negb (is_regular_member s pr) then mret tt
  else
    last_log_term ← term_for_log (get_last_log_idx s);
    send_if_free p (ReqMsg (get_term s) pre_vote_request (id_ s) (get_id pr) last_log_term
                      (get_last_log_idx s) (quick_commit_index_ s) []) resp_handler_.

Definition request_prevote : M unit :=
  s ← get;
  for_each (peer_ptrs s) recreate_for_prevote ;;
  count_prevote_failure ;;
  adjust_quorum_for_prevote ;;
  hb_alive_ :=! false ;;
  leader_ :=! -1 ;;
  role_ :=! candidate ;;
  index_at_becoming_leader_ :=! 0 ;;
  pre_vote_ ::=! reset_pre_vote (get_term s) ;;
  pre_vote_ ::=! (λ v, v <| pv_dead_ ::= Z.succ |>) ;;
  s ← get; now ← asks now_;
  if bool_decide (my_priority_ s < target_priority_ s) && negb (check_cond_for_zp_election now s) then
    restart_election_timer
  else for_each (peer_ptrs s) send_prevote_request.

Definition handle_prevote_req (req : req_msg) : M resp_msg :=
  s ← get;
  _ ← log_read last_entry;
  let next_idx_for_resp :=
    match find_peer (rq_src req) (peers_ s) with None => ulong_max | Some _ => 0 end in
  let resp := new_resp (rq_term req) pre_vote_response (id_ s) (rq_src req) next_idx_for_resp in
  mret (if negb (hb_alive_ s) || catching_up_ s then accept (get_next_slot s) resp else resp).

Definition send_reconnect_request : M unit :=
  s ← get;
  if decide (leader_ s = id_ s) then mret tt
  else
    match find_peer (leader_ s) (peers_ s) with
    | Some p =>
        send_if_free p (ReqMsg (get_term s) reconnect_request (id_ s) (leader_ s) 0 0 0 [])
          ex_resp_handler_
    | None => system_exit N22_unrecoverable_isolation
    end.

Definition handle_reconnect_req (req : req_msg) : M resp_msg :=
  s ← get; now ← asks now_;
  let resp := new_resp (get_term s) reconnect_response (id_ s) (rq_src req) 0 in
  if decide (role_ s ≠ leader) then mret resp
  else
    match find_peer (rq_src req) (peers_ s) with
    | None => mret resp
    | Some p => upd_peer p (schedule_reconnection now) ;; mret (accept (get_next_slot s) resp)
    end.

(** What a response counts for. *)
Definition count_prevote (resp : resp_msg) (v : pre_vote_status_t) : pre_vote_status_t :=
  if rs_accepted resp then v <| pv_dead_ ::= Z.succ |>
  else if decide (rs_next_idx resp ≠ ulong_max) then v <| pv_live_ ::= Z.succ |>
  else v <| pv_abandoned_ ::= Z.succ |>.

Definition handle_prevote_resp (resp : resp_msg) : M unit :=
  s ← get; lim ← asks raft_limits_;
  if decide (rs_term resp ≠ pv_term_ (pre_vote_ s)) then mret tt
  else
    pre_vote_ ::=! count_prevote resp ;;
    s ← get;
    let election_quorum_size := get_quorum_for_election s + 1 in
    (if decide (election_quorum_size ≤ pv_dead_ (pre_vote_ s)) then
       if pv_done_ (pre_vote_ s) then mret tt
       else
         pre_vote_ ::=! (λ v, v <| pv_done_ := true |>) ;;
         initiate_vote false ;;
         s ← get;
         if decide (role_ s ≠ leader) then restart_election_timer else mret tt
     else mret tt) ;;
    s ← get;
    (if decide (election_quorum_size ≤ pv_live_ (pre_vote_ s)) then
       pre_vote_ ::=! (λ v, v <| pv_quorum_reject_count_ ::= Z.succ |>) ;;
       s ← get;
       if decide (pre_vote_rejection_limit_ lim ≤ pv_quorum_reject_count_ (pre_vote_ s))
       then send_reconnect_request else mret tt
     else mret tt) ;;
    s ← get;
    if decide (election_quorum_size ≤ pv_abandoned_ (pre_vote_ s)) then
      _ ← call_cb RemovedFromCluster (-1);
      steps_to_down_ :=! 2
    else mret tt.

(** ** The election timer *)
Definition cancel_schedulers : M unit :=
  s ← get;
  if negb (scheduler_ s) then mret tt
  else
    (if election_task_ s then cancel_task ElectionTask else mret tt) ;;
    for_each (peer_ptrs s) (λ p,
      pr ← get_peer p;
      when (negb (abandoned_ pr)) (cancel_task (HbTask p)) ;;
      upd_peer p shutdown ;;
      clear_snapshot_sync_ctx p) ;;
    scheduler_ :=! false.

(** The part of [handle_election_timeout] in which a voting member asks for
    votes. *)
Definition start_election : M unit :=
  s ← get;
  (if hb_alive_ s then mret tt else decay_target_priority) ;;
  _ ← log_read last_entry;
  s ← get;
  when (bool_decide (pv_term_ (pre_vote_ s) ≠ get_term s)) (pre_vote_ ::=! reset_pre_vote (get_term s)) ;;
  s ← get;
  if bool_decide (length (peers_ s) = 0%nat) || pv_done_ (pre_vote_ s)
     || bool_decide (get_quorum_for_election s = 0)
  then initiate_vote false
  else request_prevote.

Definition handle_election_timeout : M unit :=
  s ← get; now ← asks now_;
  if stopping_ s then mret tt
  else if decide (steps_to_down_ s > 0) then
    steps_to_down_ ::=! Z.pred ;;
    if decide (steps_to_down_ s = 1) then
      state_ ::=! allow_election_timer false ;;
      save_state ;;
      cancel_schedulers
    else restart_election_timer
  else if catching_up_ s then restart_election_timer
  else if out_of_log_range_ s then mret tt
  else if receiving_snapshot_ s && bool_decide (et_cnt_receiving_snapshot_ s < 20) then
    et_cnt_receiving_snapshot_ ::=! Z.succ ;;
    restart_election_timer
  else
    let time_ms := i32 (RaftParams.get_us now (last_election_timer_reset_ s) `quot` 1000) in
    if serving_req_ s || bool_decide (time_ms < election_timeout_lower_bound_ (params_ s)) then
      restart_election_timer
    else if decide (role_ s = leader) then mret tt
    else
      when (negb (im_learner_ s)) start_election ;;
      s ← get;
      if decide (role_ s ≠ leader) then restart_election_timer else mret tt.
