(* ===== verification/RaftAppend.v ===== *)
(** * Receiving the log: src/handle_append_entries.cxx

    [handle_append_entries] on a follower, [handle_append_entries_resp] and the
    commit index of a leader.  Where a parallel append waits for the disk, each
    wait lets the log store's disk thread take a turn one heartbeat later. *)
From S2P Require Import Prelude Bytes Buffer BufferSpec BufferSerializer Wire RaftTypes.
From S2P Require Import LogEntry LogStore SrvState StateMgr RaftParams RaftMsg Peer RaftServer.
From S2P Require Import RaftRoles RaftReplicate.
Local Open Scope Z_scope.

(** ** handle_append_entries *)

(** [!= nullptr] and [get_buf()] with its cursor at the start. *)
Definition entry_buf (le : log_entry) : M buffer :=
  b ← lift (or_ub NullPointer (buff_ le)); lift (set_pos 0 b).

(** Skipping the entries that are there with the same term: the index and the
    entries left. *)
Fixpoint skip_existing (log_idx : Z) (entries : list log_entry) (s : log_store) :
    outcome (Z * list log_entry) :=
  match entries with
  | [] => Ok (log_idx, [])
  | le :: rest =>
      if decide (log_idx < next_slot s) then
        term ← term_at log_idx s;
        if decide (term = LogEntry.term_ le) then skip_existing (u64 (log_idx + 1)) rest s
        else Ok (log_idx, entries)
      else Ok (log_idx, entries)
  end.

(** Rolling back [n] entries, from [idx] downwards. *)
Fixpoint rollback_entries (n : nat) (idx : Z) : M unit :=
  match n with
  | O => mret tt
  | S n =>
      old_entry ← log_read (λ junk, entry_at junk idx);
      (if decide (value_type_ old_entry = app_log) then
         buf ← entry_buf old_entry; tell (SmRollback idx buf)
       else if decide (value_type_ old_entry = conf) then
         buf ← lift (or_ub NullPointer (buff_ old_entry));
         '(c, _) ← lift (deserialize_cluster_config (new_serializer buf LITTLE));
         tell (SmRollbackConfig idx c) ;;
         config_changing_ :=! false
       else mret tt) ;;
      rollback_entries n (u64 (idx - 1))
  end.

Definition rollback (log_idx : Z) : M unit :=
  s ← get;
  let my_last_log_idx := get_last_log_idx s in
  when (bool_decide (log_idx ≤ quick_commit_index_ s)) (quick_commit_index_ :=! u64 (log_idx - 1)) ;;
  when (bool_decide (log_idx ≤ sm_commit_index_ s)) (sm_commit_index_ :=! u64 (log_idx - 1)) ;;
  rollback_entries (Z.to_nat (my_last_log_idx - log_idx + 1)) my_last_log_idx.

(** What follows the storing of an entry at [idx]. *)
Definition after_store (idx : Z) (entry : log_entry) : M unit :=
  if decide (value_type_ entry = app_log) then
    buf ← entry_buf entry; tell (SmPreCommit idx buf)
  else if decide (value_type_ entry = conf) then config_changing_ :=! true
  else mret tt.

(** The two loops that store entries.  [None] is the early return of a server
    that stops. *)
Fixpoint overwrite_entries (log_idx : Z) (entries : list log_entry) : M (option (list log_entry)) :=
  match entries with
  | [] => mret (Some [])
  | entry :: rest =>
      s ← get;
      if decide (log_idx < get_next_slot s) then
        _ ← store_log_entry entry log_idx;
        after_store log_idx entry ;;
        s ← get;
        if stopping_ s then mret None else overwrite_entries (u64 (log_idx + 1)) rest
      else mret (Some entries)
  end.

Fixpoint append_entries (entries : list log_entry) : M (option unit) :=
  match entries with
  | [] => mret (Some tt)
  | entry :: rest =>
      idx ← store_log_entry entry 0;
      after_store idx entry ;;
      s ← get;
      if stopping_ s then mret None else append_entries rest
  end.

(** The wait for the entries up to [target] to be durable. *)
Fixpoint wait_durable (fuel : nat) (waited : Z) (target : Z) : M unit :=
  s ← get;
  if decide (last_durable_index (log_store_ s) < target) then
    match fuel with
    | O => lift (Fault OutOfFuel)
    | S fuel =>
        now ← asks now_;
        let waited := waited + heart_beat_interval_ (params_ s) * 1000 in
        tell WaitForDurable ;;
        set_log_store (disk_emul_turn (now + waited) (log_store_ s)).1.1 ;;
        wait_durable fuel waited target
    end
  else mret tt.

(** Enough turns for the delay of the disk to pass. *)
Definition durable_turns (s : server) : nat :=
  Z.to_nat (disk_emul_delay (log_store_ s) `quot` heart_beat_interval_ (params_ s) + 2).

Definition write_entries (req : req_msg) : M (option unit) :=
  let n := Z.of_nat (length (rq_log_entries req)) in
  s ← get;
  '(log_idx, entries) ←
    lift (skip_existing (u64 (rq_last_log_idx req + 1)) (rq_log_entries req) (log_store_ s));
  when (bool_decide (log_idx ≤ get_last_log_idx s ∧ entries ≠ [])) (rollback log_idx) ;;
  entries ← overwrite_entries log_idx entries;
  match entries with
  | None => mret None
  | Some entries =>
      r ← append_entries entries;
      match r with
      | None => mret None
      | Some _ =>
          tell (EndOfAppendBatch (u64 (rq_last_log_idx req + 1)) n) ;;
          s ← get;
          when (parallel_log_appending_ (params_ s))
            (wait_durable (durable_turns s) 0 (u64 (rq_last_log_idx req + n))) ;;
          mret (Some tt)
      end
  end.

(** Whether the entry before the first one matches. *)
Definition append_log_okay (s : server) (log_term : Z) (req : req_msg) : bool :=
  bool_decide (rq_last_log_idx req = 0)
  || bool_decide (log_term ≠ 0 ∧ rq_last_log_term req = log_term)
  || match last_snapshot_ s with
     | Some snp => bool_decide (last_log_idx_ snp = rq_last_log_idx req ∧
                                last_log_term_ snp = rq_last_log_term req)
     | None => false
     end.

Definition handle_append_entries_body (req : req_msg) : M (option resp_msg) :=
  s ← get;
  same_term ←
    (if decide (rq_term req = get_term s) then
       match role_ s with
       | candidate => become_follower ;; mret true
       | leader => mret false
       | follower => update_target_priority ;; mret true
       end
     else mret true);
  if negb (same_term : bool) then mret None
  else
    s ← get; junk ← asks junk_; hint ← asks (λ e, sm_get_next_batch_size_hint_in_bytes (state_machine_ e));
    let resp := new_resp (get_term s) append_entries_response (id_ s) (rq_src req) (get_next_slot s) in
    log_term ← (if decide (rq_last_log_idx req < get_next_slot s) then term_for_log (rq_last_log_idx req)
                else mret 0);
    if bool_decide (rq_term req < get_term s) || negb (append_log_okay s log_term req) then
      mret (Some (resp <| rs_next_batch_size_hint_in_bytes := hint |>))
    else
      initialized_ :=! true ;;
      rc ← call_cb GotAppendEntryReqFromLeader (-1);
      if decide (rc ≠ CbOk) then
        appendix ← lift (serialize_appendix junk DO_NOT_REWIND);
        restart_election_timer ;;
        mret (Some (resp <| rs_ctx := Some appendix |> <| rs_next_batch_size_hint_in_bytes := -1 |>))
      else
        written ← (if decide (rq_log_entries req = []) then mret (Some tt) else write_entries req);
        match written with
        | None => mret (Some resp)
        | Some _ =>
            leader_ :=! rq_src req ;;
            leader_commit_index_ :=! rq_commit_idx req ;;
            let target_precommit_index :=
              u64 (rq_last_log_idx req + Z.of_nat (length (rq_log_entries req))) in
            pc_updated ← try_update_precommit_index target_precommit_index;
            when pc_updated (commit (rq_commit_idx req `min` target_precommit_index)) ;;
            let resp := accept (u64 (target_precommit_index + 1)) resp in
            s ← get;
            when (bool_decide (rq_term req = get_term s ∧ role_ s = follower)) restart_election_timer ;;
            out_of_log_range_ :=! false ;;
            mret (Some (resp <| rs_next_batch_size_hint_in_bytes := hint |>))
        end.

(** [serving_req_] is set until the function returns. *)
Definition handle_append_entries (req : req_msg) : M (option resp_msg) :=
  s ← get;
  when (catching_up_ s && bool_decide (get_server (id_ s) (RaftServer.config_ s) ≠ None))
    (catching_up_ :=! false) ;;
  serving_req_ :=! true ;;
  resp ← handle_append_entries_body req;
  serving_req_ :=! false ;;
  mret resp.

(** ** The commit index of a leader *)

(** [std::sort] with [std::greater]. *)
Definition sort_descending (l : list Z) : list Z :=
  @merge_sort Z (λ x y, y ≤ x) (λ x y, decide (y ≤ x)) l.

Definition matched_indexes (s : server) : list Z :=
  get_current_leader_index s ::
  omap (λ p, pr ← peer_heap_ s !! p; if is_regular_member s pr then Some (matched_idx_ pr) else None)
    (peer_ptrs s).

Definition peer_index_map (s : server) : list (Z * Z) :=
  (id_ s, get_current_leader_index s) ::
  omap (λ p, pr ← peer_heap_ s !! p; Some (get_id pr, matched_idx_ pr)) (peer_ptrs s).

Definition commit_quorum_idx (now : Z) (lim : limits) (s : server) : Z :=
  let quorum_idx := get_quorum_for_commit s in
  let voting_members := get_num_voting_members s in
  if use_full_consensus_among_healthy_members_ (params_ s) then
    let not_responding_peers := get_not_responding_peers now lim s in
    if decide (not_responding_peers < u64 (voting_members - quorum_idx))
    then u64 (voting_members - not_responding_peers - 1) else quorum_idx
  else quorum_idx.

Definition get_expected_committed_log_idx : M Z :=
  s ← get; now ← asks now_; lim ← asks raft_limits_; sm ← asks state_machine_;
  let matched := matched_indexes s in
  if decide (Z.of_nat (length matched) ≠ get_num_voting_members s) then lift (throw assertion_failed)
  else
    expected ← lift (or_ub OutOfBounds
                       (sort_descending matched !! Z.to_nat (commit_quorum_idx now lim s)));
    mret (sm_adjust_commit_index sm (quick_commit_index_ s) expected (peer_index_map s)).

(** ** handle_append_entries_resp *)

(** The leader hands over to [p]: it follows, keeps out of the next election
    and asks [p] to take over. *)
Definition resign_to (p : positive) : M unit :=
  leader_ :=! -1 ;;
  rand_timeout_ :=! LongestTimeout ;;
  become_follower ;;
  update_rand_timeout ;;
  hb_alive_ :=! false ;;
  s ← get; pr ← get_peer p;
  last_log_term ← term_for_log (get_last_log_idx s);
  req ← custom_notification_req (get_id pr) leadership_takeover None last_log_term
          (get_last_log_idx s) (get_term s) (quick_commit_index_ s);
  send_req p req resp_handler_.

Definition accepted_append (p : positive) (resp : resp_msg) : M bool :=
  let new_matched_idx := u64 (rs_next_idx resp - 1) in
  upd_peer p (λ pr, pr <| next_log_idx_ := rs_next_idx resp |> <| matched_idx_ := new_matched_idx |>
                       <| last_accepted_log_idx_ := new_matched_idx |>) ;;
  pr ← get_peer p;
  _ ← call_cb GotAppendEntryRespFromPeer (get_id pr);
  committed_index ← get_expected_committed_log_idx;
  commit committed_index ;;
  pending ← with_peer p clear_pending_commit;
  s ← get;
  mret ((pending : bool) || bool_decide (rs_next_idx resp < get_next_slot s)).

Definition declined_append (p : positive) (resp : resp_msg) : M unit :=
  pr ← get_peer p;
  let prev_next_log := next_log_idx_ pr in
  (if decide (rs_next_idx resp > 0 ∧ prev_next_log > rs_next_idx resp) then
     upd_peer p (λ pr, pr <| next_log_idx_ := rs_next_idx resp |>)
   else
     do_log_rewind ←
       match rs_ctx resp with
       | Some ctx =>
           extra_order ← lift (deserialize_appendix ctx);
           mret (negb (bool_decide (extra_order = DO_NOT_REWIND)))
       | None => mret true
       end;
     when ((do_log_rewind : bool) && bool_decide (prev_next_log ≠ 0))
       (upd_peer p (λ pr, pr <| next_log_idx_ := prev_next_log - 1 |>))) ;;
  _ ← with_peer p need_to_suppress_error; mret tt.

Definition handle_append_entries_resp (resp : resp_msg) : M unit :=
  s ← get;
  match find_peer (rs_src resp) (peers_ s) with
  | None => mret tt
  | Some p =>
      check_srv_to_leave_timeout ;;
      s ← get;
      caught_up ←
        match srv_to_leave_ s with
        | Some l =>
            lv ← get_peer l;
            mret (bool_decide (get_id lv = rs_src resp) && stepping_down_ lv
                  && bool_decide (rs_next_idx resp > srv_to_leave_target_idx_ s))
        | None => mret false
        end;
      match srv_to_leave_ s with
      | Some l =>
          if (caught_up : bool) then remove_peer_from_peers l ;; reset_srv_to_leave
          else mret tt
      | None => mret tt
      end ;;
      if (caught_up : bool) then mret tt
      else
        let bs_hint := rs_next_batch_size_hint_in_bytes resp in
        upd_peer p (λ pr, pr <| next_batch_size_hint_in_bytes_ := bs_hint |>) ;;
        need_to_catchup ←
          (if rs_accepted resp then accepted_append p resp
           else declined_append p resp ;; mret true);
        s ← get; pr ← get_peer p;
        ready ←
          (if write_paused_ s && bool_decide (get_id pr = next_leader_candidate_ s)
              && bool_decide (matched_idx_ pr ≠ 0 ∧ matched_idx_ pr = get_last_log_idx s)
           then with_peer p make_busy else mret false);
        if (ready : bool) then resign_to p
        else
          let need_to_catchup := if decide (bs_hint < 0) then false else need_to_catchup in
          if decide (role_ s = leader) then
            when need_to_catchup (_ ← request_append_entries_to p; mret tt) ;;
            s ← get; now ← asks now_;
            let '(fired, t) := timeout_and_reset now (status_check_timer_ s) in
            status_check_timer_ :=! t ;;
            when fired check_overall_status
          else mret tt
  end.

Definition notify_log_append_completion (ok : bool) : M unit :=
  s ← get;
  if decide (role_ s = leader) then
    if negb ok then leader_ :=! -1 ;; become_follower ;; hb_alive_ :=! false
    else
      let prev_committed_index := quick_commit_index_ s in
      committed_index ← get_expected_committed_log_idx;
      commit committed_index ;;
      s ← get;
      when (bool_decide (quick_commit_index_ s > prev_committed_index)) request_append_entries_for_all
  else if negb ok then system_exit N21_log_flush_failed
  else tell InvokeFollowerAppend.
