(* ===== verification/RaftCommit.v ===== *)
(** * Committing: src/handle_commit.cxx

    The background commit of log entries, reconfiguration and snapshots.  The
    time a commit may take is cut off by [fired], which says whether the timer
    has fired at the given turn of the loop. *)
From S2P Require Import Prelude Bytes Buffer BufferSpec BufferSerializer Wire RaftTypes.
From S2P Require Import LogEntry LogStore SrvState StateMgr RaftParams RaftMsg Peer RaftServer.
From S2P Require Import RaftRoles RaftReplicate RaftAppend.
Local Open Scope Z_scope.

(** ** Results for the clients *)
Definition cs_new_elem (el : commit_ret_elem) : M positive :=
  s ← get;
  let p := fresh (dom (elem_heap_ s)) in
  elem_heap_ ::=! <[p := el]> ;;
  mret p.

Definition get_elem (p : positive) : M commit_ret_elem :=
  s ← get; lift (or_ub DanglingPointer (elem_heap_ s !! p)).
Definition upd_elem (p : positive) (f : commit_ret_elem → commit_ret_elem) : M unit :=
  elem_heap_ ::=! alter f p.

(** The element that waits for [sm_idx] gets the result.  The elements whose
    handler is to be called are returned, and whether one waited. *)
Definition notify_elem (sm_idx : Z) (ret_value : option buffer) : M (list positive * bool) :=
  s ← get;
  match commit_ret_elems_ s !! sm_idx with
  | Some p =>
      el ← get_elem p;
      if decide (cr_idx_ el = sm_idx) then
        upd_elem p (λ el, el <| cr_result_code_ := OK |> <| cr_ret_value_ := ret_value |>) ;;
        match return_method_ (params_ s) with
        | blocking =>
            (if cr_callback_invoked_ el then commit_ret_elems_ ::=! delete sm_idx
             else upd_elem p (λ el, el <| cr_invoked_ := true |>)) ;;
            mret ([], true)
        | async_handler =>
            commit_ret_elems_ ::=! delete sm_idx ;;
            mret ([p], true)
        end
      else mret ([], false)
  | None => mret ([], false)
  end.

(** The element made when the commit comes before the client's thread. *)
Definition early_elem (sm_idx : Z) (ret_value : option buffer) : M unit :=
  s ← get;
  let m := return_method_ (params_ s) in
  p ← cs_new_elem (CommitRetElem sm_idx ret_value (bool_decide (m = blocking)) OK
                     (bool_decide (m = async_handler)) false);
  commit_ret_elems_ ::=! (λ l, if decide (l !! sm_idx = None) then <[sm_idx := p]> l else l).

Definition set_async_result (p : positive) : M unit :=
  el ← get_elem p;
  when (cr_async_result_ el)
    (tell (AsyncResult p (cr_ret_value_ el) OK) ;;
     upd_elem p (λ el, el <| cr_ret_value_ := None |> <| cr_async_result_ := false |>)).

Definition commit_app_log (idx_to_commit : Z) (le : log_entry) (need_to_handle_commit_elem : bool) :
    M unit :=
  buf ← entry_buf le;
  s ← get; sm ← asks state_machine_;
  let sm_idx := idx_to_commit in
  let pc_idx := precommit_index_ s in
  if decide (pc_idx < sm_idx) then system_exit N23_precommit_order_inversion ;; exit
  else
    tell (SmCommit sm_idx buf) ;;
    ret_value ← (match sm_commit_ext sm sm_idx buf with
                 | Some b => b ← lift (set_pos 0 b); mret (Some b)
                 | None => mret None
                 end);
    if need_to_handle_commit_elem then
      '(async_elems, found) ← notify_elem sm_idx ret_value;
      when (negb found && bool_decide (sm_idx = pc_idx)) (early_elem sm_idx ret_value) ;;
      for_each async_elems set_async_result
    else mret tt.

(** ** Reconfiguration *)

(** The first loop of [reconfigure]: what a configuration says of this
    server. *)
Definition note_own_config (c : srv_config) : M unit :=
  s ← get;
  if decide (RaftTypes.id_ c = id_ s) then
    my_priority_ :=! priority_ c ;;
    steps_to_down_ :=! 0 ;;
    if bool_decide (role_ s = follower) && catching_up_ s then
      catching_up_ :=! false ;;
      restart_election_timer
    else mret tt
  else mret tt.

Definition add_server (c : srv_config) : M unit :=
  p ← cs_new_peer c;
  s ← get; bucket ← asks bucket_;
  upd_peer p (λ pr, pr <| next_log_idx_ := get_next_slot s |>) ;;
  peers_ ::=! insert_peer bucket (RaftTypes.id_ c) p ;;
  if decide (role_ s = leader) then
    upd_peer p (λ pr, pr <| suppress_following_error_ := true |>) ;;
    enable_hb_for_peer p ;;
    match srv_to_join_ s with
    | Some j =>
        jn ← get_peer j; pr ← get_peer p;
        when (bool_decide (get_id jn = get_id pr))
          (upd_peer p (λ pr, pr <| next_log_idx_ := next_log_idx_ jn |>) ;;
           srv_to_join_ :=! None)
    | None => mret tt
    end
  else mret tt.

Definition remove_server (srv_removed : Z) : M unit :=
  s ← get;
  (if bool_decide (srv_removed = id_ s) && negb (catching_up_ s) then
     _ ← call_cb RemovedFromCluster (-1);
     steps_to_down_ :=! 2
   else mret tt) ;;
  match find_peer srv_removed (peers_ s) with
  | None => mret tt
  | Some p =>
      match srv_to_leave_ s with
      | Some l =>
          if decide (role_ s = leader) then
            lv ← get_peer l;
            when (bool_decide (snp_sync_ctx_ lv ≠ None)) (clear_snapshot_sync_ctx l)
          else remove_peer_from_peers p
      | None => remove_peer_from_peers p
      end
  end.

(** The last loop: every peer gets its new configuration. *)
Definition set_peer_configs (new_config : cluster_config) : M unit :=
  s ← get;
  for_each (servers_ new_config) (λ c,
    for_each (peer_ptrs s) (λ p,
      pr ← get_peer p;
      when (bool_decide (get_id pr = RaftTypes.id_ c))
        (upd_peer p (λ pr, pr <| Peer.config_ := c |>)))).

Definition reconfigure (new_config : cluster_config) : M unit :=
  s ← get;
  let cur_config := RaftServer.config_ s in
  let invoke_join_cb := bool_decide (get_server (id_ s) cur_config = None ∧
                                     get_server (id_ s) new_config ≠ None) in
  let srvs_added := filter (λ c, find_peer (RaftTypes.id_ c) (peers_ s) = None ∧
                                 id_ s ≠ RaftTypes.id_ c) (servers_ new_config) in
  for_each (servers_ new_config) note_own_config ;;
  let srvs_removed :=
    filter (λ i, get_server i new_config = None) (peers_ s).*1
    ++ (if decide (get_server (id_ s) new_config = None) then [id_ s] else []) in
  for_each srvs_added add_server ;;
  for_each srvs_removed remove_server ;;
  set_config new_config ;;
  s ← get;
  when (bool_decide (log_idx_ <$> uncommitted_config_ s = Some (log_idx_ new_config)))
    (uncommitted_config_ :=! None) ;;
  when invoke_join_cb (_ ← call_cb JoinedCluster (-1); mret tt) ;;
  set_peer_configs new_config ;;
  update_target_priority.

Definition commit_conf (idx_to_commit : Z) (le : log_entry) : M unit :=
  b ← lift (get_buf le);
  '(new_conf, _) ← lift (deserialize_cluster_config (new_serializer b LITTLE));
  s ← get;
  config_changing_ :=! false ;;
  (if decide (log_idx_ (RaftServer.config_ s) < log_idx_ new_conf) then
     save_config new_conf ;;
     reconfigure new_conf
   else mret tt) ;;
  _ ← call_cb NewConfig (-1);
  tell (SmCommitConfig idx_to_commit new_conf).

(** ** Snapshots *)

(** A computation in a [try] block: [None] when it throws. *)
Definition try_ {A} (o : outcome A) : M (option A) :=
  match o with
  | Ok a => mret (Some a)
  | Fault (Exn _) => mret None
  | Fault f => lift (Fault f)
  end.

(** The configuration of [committed_idx], back through the log: every
    configuration gives the index of the one before. *)
Fixpoint config_before (junk : nat → byte) (fuel : nat) (committed_idx : Z) (l : log_store)
    (c : cluster_config) : outcome cluster_config :=
  if decide (log_idx_ c > committed_idx ∧ start_index l ≤ prev_log_idx_ c) then
    match fuel with
    | O => Fault OutOfFuel
    | S fuel =>
        conf_log ← entry_at junk (prev_log_idx_ c) l;
        b ← get_buf conf_log;
        '(c, _) ← deserialize_cluster_config (new_serializer b LITTLE);
        config_before junk fuel committed_idx l c
    end
  else Ok c.

Definition snapshot_distance (s : server) : Z :=
  if enable_randomized_snapshot_creation_ (params_ s) && negb (snp_in_progress_ s)
     && bool_decide (last_snapshot_ s = None ∧ snapshot_distance_ (params_ s) ≠ 0)
  then first_snapshot_distance_ s else u64 (snapshot_distance_ (params_ s)).

(** The body of the [try] block once the snapshot is to be made. *)
Definition make_snapshot (committed_idx : Z) : M bool :=
  s ← get; junk ← asks junk_;
  snp_in_progress_ :=! true ;;
  c ← try_ (config_before junk (Z.to_nat (get_next_slot s)) committed_idx (log_store_ s)
              (RaftServer.config_ s));
  match c with
  | None => snp_in_progress_ :=! false ;; mret false
  | Some c =>
      c ← (if decide (log_idx_ c > committed_idx ∧ prev_log_idx_ c > 0 ∧
                      prev_log_idx_ c < start_index (log_store_ s)) then
             match last_snapshot_ s with
             | None => system_exit N6_no_snapshot_found ;; exit
             | Some local_snp => mret (last_config_ local_snp)
             end
           else mret c);
      term ← try_ (term_at committed_idx (log_store_ s));
      match term with
      | None => snp_in_progress_ :=! false ;; mret false
      | Some log_term_to_compact =>
          tell (SmCreateSnapshot (Snapshot committed_idx log_term_to_compact 0 c logical_object)) ;;
          mret true
      end
  end.

Definition snapshot_and_compact (committed_idx : Z) (forced_creation : bool) : M bool :=
  s ← get; sm ← asks state_machine_;
  let distance := snapshot_distance s in
  if decide (get_next_slot s ≤ prev_log_idx_ (RaftServer.config_ s)) then mret false
  else if negb forced_creation
       && bool_decide (snapshot_distance_ (params_ s) = 0 ∨
            u64 (committed_idx - start_index (log_store_ s) + 1) < distance) then mret false
  else if negb forced_creation && negb (sm_chk_create_snapshot sm) then mret false
  else
    let due :=
      forced_creation ||
      match last_snapshot_ s with
      | None => true
      | Some local_snp => bool_decide (distance ≤ u64 (committed_idx - last_log_idx_ local_snp))
      end in
    if due && negb (snp_in_progress_ s) then make_snapshot committed_idx else mret false.

Definition create_snapshot : M Z :=
  s ← get;
  let committed_idx := sm_commit_index_ s in
  created ← snapshot_and_compact committed_idx true;
  mret (if (created : bool) then committed_idx else 0).

(** What the state machine calls when the snapshot is done. *)
Definition on_snapshot_completed (result err : bool) : M unit :=
  (if err || negb result then mret tt
   else
     new_snp ← asks (λ e, sm_last_snapshot (state_machine_ e));
     last_snapshot_ :=! new_snp ;;
     s ← get;
     new_snp ← lift (or_ub NullPointer new_snp);
     let reserved := u64 (reserved_log_items_ (params_ s)) in
     if decide (last_log_idx_ new_snp > reserved) then
       let compact_upto := last_log_idx_ new_snp - reserved in
       l ← lift (compact (S (S (Z.to_nat (compact_upto - start_index (log_store_ s))))) compact_upto
                   (log_store_ s));
       set_log_store l
     else mret tt) ;;
  snp_in_progress_ :=! false.

(** ** commit_in_bg_exec *)

(** Whether a follower is as fresh as its leader, after the loop. *)
Definition check_freshness : M unit :=
  s ← get;
  if decide (role_ s = follower) then
    let leader_idx := leader_commit_index_ s in
    let local_idx := sm_commit_index_ s in
    if data_fresh_ s && bool_decide (leader_idx > u64 (local_idx + stale_log_gap_ (params_ s))) then
      data_fresh_ :=! false ;; _ ← call_cb BecomeStale (-1); mret tt
    else if negb (data_fresh_ s)
            && bool_decide (leader_idx < u64 (local_idx + fresh_log_gap_ (params_ s))) then
      data_fresh_ :=! true ;; _ ← call_cb BecomeFresh (-1); mret tt
    else mret tt
  else mret tt.

(** One turn of the loop. *)
Definition commit_one (need_to_handle_commit_elem : bool) : M unit :=
  s ← get;
  let index_to_commit := u64 (sm_commit_index_ s + 1) in
  le ← log_read (λ junk, entry_at junk index_to_commit);
  if decide (LogEntry.term_ le = 0) then system_exit N19_bad_log_idx_for_term ;; exit
  else
    (if decide (value_type_ le = app_log) then
       commit_app_log index_to_commit le need_to_handle_commit_elem
     else if decide (value_type_ le = conf) then commit_conf index_to_commit le
     else mret tt) ;;
    s ← get;
    if decide (sm_commit_index_ s = u64 (index_to_commit - 1)) then
      sm_commit_index_ :=! index_to_commit ;;
      _ ← snapshot_and_compact index_to_commit false;
      _ ← call_cb StateMachineExecution (-1); mret tt
    else mret tt.

(** The loop, and whether it finished in time. *)
Fixpoint commit_loop (fuel : nat) (turn : nat) (fired : nat → bool) (need : bool) : M bool :=
  s ← get;
  if decide (sm_commit_index_ s < quick_commit_index_ s ∧ sm_commit_index_ s < get_last_log_idx s) then
    match fuel with
    | O => lift (Fault OutOfFuel)
    | S fuel =>
        if bool_decide (turn ≠ O) && fired turn then mret false
        else if sm_commit_paused_ s then mret true
        else
          commit_one need ;;
          commit_loop fuel (S turn) fired need
    end
  else mret true.

Definition commit_in_bg_exec (fired : nat → bool) : M bool :=
  s ← get;
  let log_start_idx := start_index (log_store_ s) in
  when (bool_decide (log_start_idx ≠ 0 ∧ sm_commit_index_ s < log_start_idx - 1))
    (sm_commit_index_ :=! log_start_idx - 1) ;;
  s ← get;
  let need := is_leader s && negb (async_replication_ (RaftServer.config_ s)) in
  finished_in_time ←
    commit_loop (Z.to_nat (quick_commit_index_ s - sm_commit_index_ s)) 0 fired need;
  check_freshness ;;
  mret finished_in_time.
