(* ===== verification/RaftClient.v ===== *)
(** * Requests of clients and of other servers

    src/handle_client_request.cxx, src/handle_priority.cxx and the handlers of
    src/handle_custom_notification.cxx.  The objects a configuration points to
    are shared by the peers and, in part, by the uncommitted configuration:
    [set_srv_priority] changes a priority wherever it shows.  The configuration
    the state manager handed out at the start is taken to be a copy. *)
From S2P Require Import Prelude Bytes Buffer BufferSpec BufferSerializer Wire RaftTypes.
From S2P Require Import LogEntry LogStore SrvState StateMgr RaftParams RaftMsg Peer RaftServer.
From S2P Require Import RaftRoles RaftReplicate RaftVote RaftAppend RaftCommit.
Local Open Scope Z_scope.

(** ** handle_cli_req *)

(** One turn of the loop: the entry gets the term and the time, is stored and
    pre-committed. *)
Definition append_client_entry (cur_term timestamp_us : Z) (entry : log_entry) :
    M (Z * option buffer) :=
  let entry := LogEntry cur_term (value_type_ entry) (buff_ entry) timestamp_us (has_crc32_ entry)
                 (crc32_ entry) in
  last_idx ← store_log_entry entry 0;
  buf ← entry_buf entry; sm ← asks state_machine_;
  tell (SmPreCommit last_idx buf) ;;
  mret (last_idx, sm_pre_commit_ext sm last_idx buf).

Fixpoint append_client_entries (cur_term timestamp_us : Z) (entries : list log_entry)
    (last_idx : Z) (ret_value : option buffer) : M (Z * option buffer) :=
  match entries with
  | [] => mret (last_idx, ret_value)
  | entry :: rest =>
      '(last_idx, ret_value) ← append_client_entry cur_term timestamp_us entry;
      append_client_entries cur_term timestamp_us rest last_idx ret_value
  end.

(** The element for the result at [last_idx]: the commit's, if it was faster. *)
Definition wait_for_commit (last_idx : Z) : M positive :=
  s ← get;
  match commit_ret_elems_ s !! last_idx with
  | Some p => mret p
  | None =>
      p ← cs_new_elem (CommitRetElem last_idx None false TIMEOUT false false);
      commit_ret_elems_ ::=! <[last_idx := p]> ;;
      mret p
  end.

Definition handle_cli_req (req : req_msg) (expected_term timestamp_us : Z) : M (option resp_msg) :=
  s ← get;
  let cur_term := get_term s in
  let resp := new_resp cur_term append_entries_response (id_ s) (leader_ s) 0 in
  if bool_decide (role_ s ≠ leader) || write_paused_ s then
    mret (Some (resp <| rs_result_code := NOT_LEADER |>))
  else if decide (expected_term ≠ 0 ∧ expected_term ≠ cur_term) then
    mret (Some (resp <| rs_result_code := TERM_MISMATCH |>))
  else
    let entries := rq_log_entries req in
    let num_entries := Z.of_nat (length entries) in
    '(last_idx, ret_value) ← append_client_entries cur_term timestamp_us entries 0 None;
    when (bool_decide (num_entries ≠ 0))
      (tell (EndOfAppendBatch (u64 (last_idx - num_entries)) num_entries)) ;;
    _ ← try_update_precommit_index last_idx;
    s ← get;
    let resp_idx := get_next_slot s in
    rc ← call_cb AppendLogs (-1);
    if decide (rc = ReturnNull) then mret None
    else
      resp ←
        (if negb (async_replication_ (RaftServer.config_ s)) then
           p ← wait_for_commit last_idx;
           match return_method_ (params_ s) with
           | blocking => mret (resp <| rs_cb := Some p |>)
           | async_handler =>
               upd_elem p (λ el, el <| cr_async_result_ := true |>) ;;
               mret (resp <| rs_async_cb := Some p |>)
           end
         else mret (resp <| rs_ctx := ret_value |>));
      mret (Some (accept resp_idx resp)).

Definition handle_cli_req_prelock (req : req_msg) (expected_term : Z) : M (option resp_msg) :=
  timestamp_us ← asks now_;
  resp ← handle_cli_req req expected_term timestamp_us;
  request_append_entries_for_all ;;
  mret resp.

(** What follows the wait of a blocking request, after it was woken or timed
    out. *)
Definition handle_cli_req_callback (p : positive) (resp : resp_msg) : M resp_msg :=
  upd_elem p (λ el, el <| cr_callback_invoked_ := true |>) ;;
  el ← get_elem p;
  when (bool_decide (cr_result_code_ el ≠ TIMEOUT)) (commit_ret_elems_ ::=! delete (cr_idx_ el)) ;;
  when (bool_decide (cr_result_code_ el ≠ OK)) (_ ← check_leadership_validity; mret tt) ;;
  mret (resp <| rs_ctx := cr_ret_value_ el |> <| rs_result_code := cr_result_code_ el |>).

(** ** Priorities *)
Definition with_priority (srv_id priority : Z) (c : srv_config) : srv_config :=
  if decide (RaftTypes.id_ c = srv_id)
  then SrvConfig (RaftTypes.id_ c) (dc_id_ c) (endpoint_ c) (aux_ c) (learner_ c) priority else c.

Definition with_priorities (srv_id priority : Z) (c : cluster_config) : cluster_config :=
  ClusterConfig (log_idx_ c) (prev_log_idx_ c) (async_replication_ c) (user_ctx_ c)
    (map (with_priority srv_id priority) (servers_ c)).

Definition set_srv_priority (srv_id priority : Z) : M unit :=
  s ← get;
  match get_server srv_id (RaftServer.config_ s) with
  | None => mret tt
  | Some _ =>
      RaftServer.config_ ::=! with_priorities srv_id priority ;;
      when (uncommitted_shares_ s)
        (uncommitted_config_ ::=! fmap (with_priorities srv_id priority)) ;;
      for_each (peer_ptrs s) (λ p,
        upd_peer p (λ pr, pr <| Peer.config_ ::= with_priority srv_id priority |>))
  end.

Definition send_priority_change (srv_id new_priority : Z) (p : positive) : M unit :=
  s ← get; junk ← asks junk_; pr ← get_peer p;
  last_log_term ← term_for_log (get_last_log_idx s);
  buf ← lift (alloc junk (sz_int * 2));
  ss ← lift (put_i32 srv_id (new_serializer buf LITTLE));
  ss ← lift (put_i32 new_priority ss);
  le ← cs_new_entry (get_term s) (buf_ ss) custom 0;
  send_if_free p (ReqMsg (get_term s) priority_change_request (id_ s) (get_id pr) last_log_term
                    (get_last_log_idx s) (quick_commit_index_ s) [le]) resp_handler_.

Definition broadcast_priority_change (srv_id new_priority : Z) : M unit :=
  s ← get;
  when (bool_decide (srv_id = id_ s)) (my_priority_ :=! new_priority) ;;
  set_srv_priority srv_id new_priority ;;
  for_each (peer_ptrs s) (send_priority_change srv_id new_priority).

Inductive PrioritySetResult := SET | BROADCAST | IGNORED.

(** A configuration appended to the log, not yet committed. *)
Definition append_config (c : cluster_config) (shares : bool) : M unit :=
  s ← get; now ← asks now_; junk ← asks junk_;
  buf ← lift (serialize_cluster_config junk c);
  entry ← cs_new_entry (get_term s) buf conf now;
  config_changing_ :=! true ;;
  uncommitted_config_ :=! Some c ;;
  uncommitted_shares_ :=! shares ;;
  _ ← store_log_entry entry 0; mret tt.

(** [cluster_config::deserialize( *c->serialize())] *)
Definition clone_config (c : cluster_config) : M cluster_config :=
  junk ← asks junk_;
  buf ← lift (serialize_cluster_config junk c);
  '(c, _) ← lift (deserialize_cluster_config (new_serializer buf LITTLE));
  mret c.

Definition set_priority (srv_id new_priority : Z) (broadcast_when_leader_exists : bool) :
    M PrioritySetResult :=
  s ← get;
  if decide (id_ s ≠ leader_ s) then
    let is_leader_alive := negb (bool_decide (leader_ s = -1) || negb (hb_alive_ s)) in
    if negb is_leader_alive || broadcast_when_leader_exists then
      broadcast_priority_change srv_id new_priority ;; mret BROADCAST
    else mret IGNORED
  else if decide (id_ s = srv_id ∧ new_priority = 0) then
    broadcast_priority_change srv_id new_priority ;; mret BROADCAST
  else
    cloned_config ← clone_config (default (RaftServer.config_ s) (uncommitted_config_ s));
    let cloned_config :=
      set_log_idx (get_next_slot s) (with_priorities srv_id new_priority cloned_config) in
    append_config cloned_config false ;;
    request_append_entries ;;
    mret SET.

Definition handle_priority_change_req (req : req_msg) : M resp_msg :=
  s ← get;
  let resp := new_resp (rq_term req) priority_change_response (id_ s) (rq_src req) 0 in
  match rq_log_entries req with
  | [] => mret resp
  | le :: _ =>
      match buff_ le with
      | None => mret resp
      | Some buf =>
          buf ← lift (set_pos 0 buf);
          sz ← lift (size buf);
          if decide (sz < sz_int * 2) then mret resp
          else
            '(t_id, buf) ← lift (get_int buf);
            '(t_priority, _) ← lift (get_int buf);
            when (bool_decide (t_id = id_ s)) (my_priority_ :=! t_priority) ;;
            match get_server t_id (RaftServer.config_ s) with
            | Some _ => set_srv_priority t_id t_priority ;; mret (accept (get_next_slot s) resp)
            | None => mret resp
            end
      end
  end.

(** ** Notifications *)
Definition handle_out_of_log_msg (req : req_msg) (msg : custom_notification_msg) (resp : resp_msg) :
    M resp_msg :=
  _ ← update_term (rq_term req);
  out_of_log_range_ :=! true ;;
  ctx ← lift (or_ub NullPointer (cn_ctx msg));
  _ ← lift (deserialize_out_of_log ctx);
  s ← get;
  when (bool_decide (rq_term req = get_term s ∧ role_ s = follower)) restart_election_timer ;;
  _ ← call_cb OutOfLogRangeWarning (-1);
  mret resp.

Definition handle_leadership_takeover (resp : resp_msg) : M resp_msg :=
  s ← get;
  if is_leader s then mret resp
  else
    initiate_vote true ;;
    s ← get;
    when (bool_decide (role_ s ≠ leader)) restart_election_timer ;;
    mret resp.

Definition handle_resignation_request (req : req_msg) (resp : resp_msg) : M resp_msg :=
  s ← get;
  if negb (is_leader s) then mret resp
  else yield_leadership false (rq_src req) ;; mret resp.

Definition handle_custom_notification_req (req : req_msg) : M resp_msg :=
  s ← get; junk ← asks junk_;
  let resp := accept (get_next_slot s)
    (new_resp (get_term s) custom_notification_response (id_ s) (rq_src req) (get_next_slot s)) in
  match rq_log_entries req with
  | [] => mret resp
  | msg_le :: _ =>
      match buff_ msg_le with
      | None => mret resp
      | Some buf =>
          msg ← lift (deserialize_custom_notification junk buf);
          if decide (cn_type msg = out_of_log_range_warning) then handle_out_of_log_msg req msg resp
          else if decide (cn_type msg = leadership_takeover) then handle_leadership_takeover resp
          else if decide (cn_type msg = request_resignation) then handle_resignation_request req resp
          else mret resp
      end
  end.

Definition handle_custom_notification_resp (resp : resp_msg) : M unit :=
  s ← get;
  if negb (rs_accepted resp) then mret tt
  else
    match find_peer (rs_src resp) (peers_ s) with
    | None => mret tt
    | Some p => upd_peer p (λ pr, pr <| next_log_idx_ := rs_next_idx resp |>)
    end.
