(* ===== verification/RaftMember.v ===== *)
(** * Servers that join and leave, and snapshots they install

    src/handle_join_leave.cxx and the receiving side of
    src/handle_snapshot_sync.cxx.  The last object of a snapshot is handled in
    two parts, with [lock_] released in between: [others] is what the rest of
    the process does to the server meanwhile. *)
From S2P Require Import Prelude Bytes Buffer BufferSpec BufferSerializer Wire RaftTypes.
From S2P Require Import LogEntry LogStore SrvState StateMgr RaftParams RaftMsg Peer RaftServer.
From S2P Require Import RaftRoles RaftReplicate RaftVote RaftAppend RaftCommit RaftClient.
Local Open Scope Z_scope.

(** ** Joining: the leader's side *)
Definition invite_srv_to_join_cluster : M unit :=
  s ← get; junk ← asks junk_;
  j ← lift (or_ub NullPointer (srv_to_join_ s));
  jn ← get_peer j;
  buf ← lift (serialize_cluster_config junk (RaftServer.config_ s));
  le ← cs_new_entry (get_term s) buf conf 0;
  send_req j (ReqMsg (get_term s) join_cluster_request (id_ s) (get_id jn) 0 (get_last_log_idx s)
                (quick_commit_index_ s) [le]) ex_resp_handler_.

(** The new configuration, built on the uncommitted one where there is one. *)
Definition extend_config (index : Z) (cur_conf : cluster_config) (servers : list srv_config) :
    cluster_config :=
  ClusterConfig index (log_idx_ cur_conf) (async_replication_ cur_conf) (user_ctx_ cur_conf) servers.

Definition sync_log_to_new_srv (start_idx : Z) : M unit :=
  s ← get; junk ← asks junk_;
  j ← lift (or_ub NullPointer (srv_to_join_ s));
  jn ← get_peer j;
  let gap := if decide (quick_commit_index_ s > start_idx) then quick_commit_index_ s - start_idx
             else 0 in
  let stop := log_sync_stop_gap_ (params_ s) in
  if decide ((stop > 0 ∧ gap < u64 stop) ∨ stop = 0) then
    let cur_conf := default (RaftServer.config_ s) (uncommitted_config_ s) in
    new_srv ← lift (or_ub NullPointer (conf_to_add_ s));
    let new_conf := extend_config (get_next_slot s) cur_conf (servers_ cur_conf ++ [new_srv]) in
    append_config new_conf
      (match uncommitted_config_ s with None => true | Some _ => uncommitted_shares_ s end) ;;
    request_append_entries
  else if decide (start_idx < start_index (log_store_ s)) then
    srv_to_join_snp_retry_required_ :=! false ;;
    '(req, succeeded_out) ←
      create_sync_snapshot_req j start_idx (get_term s) (quick_commit_index_ s);
    if negb succeeded_out then
      srv_to_join_snp_retry_required_ :=! true ;;
      enable_hb_for_peer j
    else if use_bg_thread_for_snapshot_io_ (params_ s) then tell InvokeSnapshotIo
    else match req with Some req => send_req j req ex_resp_handler_ | None => mret tt end
  else
    let size_to_sync := i32 (gap `min` u64 (log_sync_batch_size_ (params_ s))) in
    '(log_pack_buf, l) ← lift (pack junk start_idx size_to_sync (log_store_ s));
    set_log_store l ;;
    le ← cs_new_entry (get_term s) log_pack_buf log_pack 0;
    if use_bg_thread_for_snapshot_io_ (params_ s) then tell InvokeSnapshotIo
    else
      send_req j (ReqMsg (get_term s) sync_log_request (id_ s) (get_id jn) 0 (u64 (start_idx - 1))
                    (quick_commit_index_ s) [le]) ex_resp_handler_.

Definition handle_add_srv_req (req : req_msg) : M resp_msg :=
  s ← get; now ← asks now_; lim ← asks raft_limits_;
  let resp := new_resp (get_term s) add_server_response (id_ s) (leader_ s) 0 in
  match rq_log_entries req with
  | [le] =>
      if decide (value_type_ le ≠ cluster_server) then
        mret (resp <| rs_result_code := BAD_REQUEST |>)
      else if bool_decide (role_ s ≠ leader) || write_paused_ s then
        mret (resp <| rs_result_code := NOT_LEADER |>)
      else
        check_srv_to_leave_timeout ;;
        buf ← lift (get_buf le);
        '(srv_conf, _) ← lift (deserialize_srv_config (new_serializer buf LITTLE));
        s ← get;
        if bool_decide (find_peer (RaftTypes.id_ srv_conf) (peers_ s) ≠ None)
           || bool_decide (id_ s = RaftTypes.id_ srv_conf) then
          mret (resp <| rs_result_code := SERVER_ALREADY_EXISTS |>)
        else if config_changing_ s then mret (resp <| rs_result_code := CONFIG_CHANGING |>)
        else
          joining ←
            match srv_to_join_ s with
            | None => mret false
            | Some j =>
                jn ← get_peer j;
                if decide (RaftParams.get_us now (last_active_timer_ jn) `quot` 1000
                             ≤ u64 (response_limit_ lim * heart_beat_interval_ (params_ s))) then
                  mret true
                else
                  _ ← call_cb ServerJoinFailed (get_id jn);
                  reset_srv_to_join ;;
                  mret false
            end;
          if (joining : bool) then mret (resp <| rs_result_code := SERVER_IS_JOINING |>)
          else
            conf_to_add_ :=! Some srv_conf ;;
            j ← cs_new_peer srv_conf;
            srv_to_join_ :=! Some j ;;
            invite_srv_to_join_cluster ;;
            s ← get;
            mret (accept (get_next_slot s) resp)
  | _ => mret (resp <| rs_result_code := BAD_REQUEST |>)
  end.

Definition handle_join_cluster_resp (resp : resp_msg) : M unit :=
  s ← get;
  if bool_decide (srv_to_join_ s ≠ None) && bool_decide (srv_to_join_ s = rs_peer resp) then
    when (rs_accepted resp) (sync_log_to_new_srv (rs_next_idx resp))
  else mret tt.

Definition handle_log_sync_resp (resp : resp_msg) : M unit :=
  s ← get;
  match srv_to_join_ s with
  | None => mret tt
  | Some j =>
      upd_peer j (λ pr, resume_hb_speed pr <| next_log_idx_ := rs_next_idx resp |>
                                           <| matched_idx_ := u64 (rs_next_idx resp - 1) |>) ;;
      sync_log_to_new_srv (rs_next_idx resp)
  end.

(** ** Joining: the new server's side *)
Definition handle_join_cluster_req (req : req_msg) : M resp_msg :=
  s ← get;
  let resp := new_resp (get_term s) join_cluster_response (id_ s) (rq_src req) 0 in
  match rq_log_entries req with
  | [le] =>
      if decide (value_type_ le ≠ conf) then mret resp
      else
        let reset_commit_idx := negb (catching_up_ s) in
        catching_up_ :=! true ;;
        role_ :=! follower ;;
        index_at_becoming_leader_ :=! 0 ;;
        leader_ :=! rq_src req ;;
        when reset_commit_idx
          (sm_commit_index_ :=! initial_commit_index_ s ;;
           quick_commit_index_ :=! initial_commit_index_ s) ;;
        state_ ::=! set_voted_for (-1) ;;
        state_ ::=! set_term (rq_term req) ;;
        save_state ;;
        _ ← call_cb BecomeFollower (-1);
        buf ← lift (get_buf le);
        '(c_config, _) ← lift (deserialize_cluster_config (new_serializer buf LITTLE));
        save_config c_config ;;
        reconfigure c_config ;;
        s ← get;
        mret (accept (u64 (quick_commit_index_ s + 1)) resp)
  | _ => mret resp
  end.

Definition handle_log_sync_req (req : req_msg) : M resp_msg :=
  s ← get; junk ← asks junk_;
  let resp := new_resp (get_term s) sync_log_response (id_ s) (rq_src req) (get_next_slot s) in
  match rq_log_entries req with
  | [le] =>
      if decide (value_type_ le ≠ log_pack) then mret resp
      else if negb (catching_up_ s) then mret resp
      else
        buf ← lift (get_buf le);
        '(_, l) ← lift (apply_pack junk (u64 (rq_last_log_idx req + 1)) buf (log_store_ s));
        set_log_store l ;;
        s ← get;
        precommit_index_ :=! get_last_log_idx s ;;
        commit (get_last_log_idx s) ;;
        s ← get;
        mret (accept (get_next_slot s) resp)
  | _ => mret resp
  end.

(** ** Leaving *)
Definition rm_srv_from_cluster (srv_id : Z) : M unit :=
  s ← get;
  if bool_decide (srv_to_leave_ s ≠ None) then mret tt
  else
    let cur_conf := default (RaftServer.config_ s) (uncommitted_config_ s) in
    let new_conf :=
      extend_config (get_next_slot s) cur_conf
        (filter (λ c, RaftTypes.id_ c ≠ srv_id) (servers_ cur_conf)) in
    append_config new_conf
      (match uncommitted_config_ s with None => true | Some _ => uncommitted_shares_ s end) ;;
    s ← get;
    match find_peer srv_id (peers_ s) with
    | Some p =>
        srv_to_leave_ :=! Some p ;;
        srv_to_leave_target_idx_ :=! log_idx_ new_conf
    | None => mret tt
    end ;;
    request_append_entries.

Definition handle_rm_srv_req (req : req_msg) : M resp_msg :=
  s ← get;
  let resp := new_resp (get_term s) remove_server_response (id_ s) (leader_ s) 0 in
  match rq_log_entries req with
  | [le] =>
      buf ← lift (get_buf le);
      sz ← lift (size buf);
      if decide (sz ≠ sz_int) then mret (resp <| rs_result_code := BAD_REQUEST |>)
      else if bool_decide (role_ s ≠ leader) || write_paused_ s then
        mret (resp <| rs_result_code := NOT_LEADER |>)
      else
        check_srv_to_leave_timeout ;;
        s ← get;
        if bool_decide (srv_to_leave_ s ≠ None)
           || existsb (λ p, match peer_heap_ s !! p with Some pr => leave_requested_ pr | None => false end)
                (peer_ptrs s) then
          mret (resp <| rs_result_code := SERVER_IS_LEAVING |>)
        else if config_changing_ s then mret (resp <| rs_result_code := CONFIG_CHANGING |>)
        else
          '(srv_id, _) ← lift (get_int buf);
          if decide (srv_id = id_ s) then mret (resp <| rs_result_code := CANNOT_REMOVE_LEADER |>)
          else
            match find_peer srv_id (peers_ s) with
            | None => mret (resp <| rs_result_code := SERVER_NOT_FOUND |>)
            | Some p =>
                let leave_req := ReqMsg (get_term s) leave_cluster_request (id_ s) srv_id 0
                                   (get_last_log_idx s) (quick_commit_index_ s) [] in
                upd_peer p (λ pr, pr <| leave_requested_ := true |>) ;;
                free ← with_peer p make_busy;
                (if (free : bool) then send_req p leave_req ex_resp_handler_
                 else upd_peer p (λ pr, pr <| rsv_msg_ := Some (leave_req, ex_resp_handler_) |>)) ;;
                mret (accept (get_next_slot s) resp)
            end
  | _ => mret (resp <| rs_result_code := BAD_REQUEST |>)
  end.

Definition handle_leave_cluster_req (req : req_msg) : M resp_msg :=
  s ← get;
  let resp := new_resp (get_term s) leave_cluster_response (id_ s) (rq_src req) 0 in
  if config_changing_ s then mret resp
  else steps_to_down_ :=! 2 ;; mret (accept (get_next_slot s) resp).

Definition handle_leave_cluster_resp (resp : resp_msg) : M unit :=
  if negb (rs_accepted resp) then mret tt else rm_srv_from_cluster (rs_src resp).

Definition handle_join_leave_rpc_err (t_msg : msg_type) (p : positive) : M unit :=
  s ← get; pr ← get_peer p;
  if decide (t_msg = leave_cluster_request) then
    when (bool_decide (length (peers_ s) = 1%nat))
      (match find_peer (get_id pr) (peers_ s) with
       | Some q => remove_peer_from_peers q
       | None => mret tt
       end ;;
       if bool_decide (srv_to_leave_ s ≠ None) then reset_srv_to_leave else mret tt) ;;
    s ← get;
    match srv_to_leave_ s with
    | Some l => remove_peer_from_peers l ;; reset_srv_to_leave
    | None => rm_srv_from_cluster (get_id pr)
    end
  else
    config_changing_ :=! false ;;
    reset_srv_to_join ;;
    _ ← call_cb ServerJoinFailed (get_id pr); mret tt.

(** ** Installing a snapshot *)

(** [catch (...)]: the server exits. *)
Definition exit_on_exception {A} (m : M A) : M A := λ e s,
  match m e s with
  | Fault (Exn _) => Fault (Exited (-1))
  | r => r
  end.

Definition resume_state_machine_execution : M unit :=
  sm_commit_paused_ :=! false ;; tell NotifyCommit.

(** The last object came: the snapshot takes the place of the log. *)
Definition apply_received_snapshot (snp : snapshot) : M bool :=
  s ← get; sm ← asks state_machine_;
  receiving_snapshot_ :=! false ;;
  if decide (role_ s ≠ follower) then
    system_exit N11_not_follower_for_snapshot ;; exit
  else
    let idx := last_log_idx_ snp in
    l ← lift (compact (S (S (Z.to_nat (idx - start_index (log_store_ s))))) idx (log_store_ s));
    set_log_store l ;;
    stop_election_timer ;;
    if negb (sm_apply_snapshot sm snp) then system_exit N12_apply_snapshot_failed ;; exit
    else
      reconfigure (last_config_ snp) ;;
      s ← get;
      let c_conf := RaftServer.config_ s in
      save_config c_conf ;;
      precommit_index_ :=! idx ;;
      sm_commit_index_ :=! idx ;;
      quick_commit_index_ :=! idx ;;
      lagging_sm_target_index_ :=! idx ;;
      save_state ;;
      last_snapshot_ :=! Some (Snapshot idx (last_log_term_ snp) (size_ snp) c_conf (type_ snp)) ;;
      restart_election_timer ;;
      mret true.

Definition handle_snapshot_sync_req (others : M unit) (req : snapshot_sync_req) : M bool :=
  exit_on_exception (
    let is_first_obj := bool_decide (offset_ req = 0) in
    let is_last_obj := done_ req in
    rc ← call_cb SaveSnapshot (-1);
    if decide (rc = ReturnNull) then mret false
    else
      receiving_snapshot_ :=! true ;;
      et_cnt_receiving_snapshot_ :=! 0 ;;
      initialized_ :=! true ;;
      (if decide (type_ (snapshot_ req) = raw_binary) then
         tell (SmSaveSnapshotData (snapshot_ req) (offset_ req) (data_ req))
       else
         buf ← lift (set_pos 0 (data_ req));
         tell (SmSaveLogicalObj (snapshot_ req) (offset_ req) buf is_first_obj is_last_obj)) ;;
      if is_last_obj then
        sm_commit_paused_ :=! true ;;
        others ;;
        r ← apply_received_snapshot (snapshot_ req);
        resume_state_machine_execution ;;
        mret r
      else mret true).

(** The context that says the installation is done: one zero byte. *)
Definition done_ctx : M buffer :=
  junk ← asks junk_;
  b ← lift (alloc junk 1);
  b ← lift (set_pos 0 b);
  b ← lift (put_byte Byte.x00 b);
  lift (set_pos 0 b).

(** [next_obj] is the object the state machine asks for next, which
    [save_logical_snp_obj] writes to the offset. *)
Definition handle_install_snapshot_req (others : M unit) (next_obj : Z) (req : req_msg) :
    M resp_msg :=
  s ← get; junk ← asks junk_;
  (if bool_decide (rq_term req = get_term s) && negb (catching_up_ s) then
     match role_ s with
     | candidate => become_follower
     | leader => system_exit N10_leader_receive_InstallSnapshotRequest ;; exit
     | follower => restart_election_timer
     end
   else mret tt) ;;
  s ← get;
  let resp := new_resp (get_term s) install_snapshot_response (id_ s) (rq_src req) (get_next_slot s) in
  if negb (catching_up_ s) && bool_decide (rq_term req < get_term s) then mret resp
  else
    match rq_log_entries req with
    | [le] =>
        if decide (value_type_ le ≠ snp_sync_req) then mret resp
        else
          buf ← lift (get_buf le);
          sync_req ← lift (deserialize_snapshot_sync_req junk (new_serializer buf LITTLE));
          if decide (last_log_idx_ (snapshot_ sync_req) ≤ quick_commit_index_ s) then
            ctx ← done_ctx;
            mret (resp <| rs_ctx := Some ctx |>)
          else
            handled ← handle_snapshot_sync_req others sync_req;
            if negb (handled : bool) then mret resp
            else if decide (type_ (snapshot_ sync_req) = raw_binary) then
              sz ← lift (size (data_ sync_req));
              mret (accept (u64 (offset_ sync_req + sz)) resp)
            else
              let resp := accept next_obj resp in
              if done_ sync_req then ctx ← done_ctx; mret (resp <| rs_ctx := Some ctx |>)
              else mret resp
    | _ => mret resp
    end.

(** Whether the response says that the whole snapshot is there. *)
Definition snp_install_done (snp : snapshot) (resp : resp_msg) : bool :=
  bool_decide (type_ snp = raw_binary ∧ size_ snp ≤ rs_next_idx resp)
  || bool_decide (type_ snp = logical_object ∧ rs_ctx resp ≠ None).

Definition snapshot_installed (p : positive) (snp : snapshot) : M unit :=
  upd_peer p (λ pr, pr <| next_log_idx_ := u64 (last_log_idx_ snp + 1) |>
                       <| matched_idx_ := last_log_idx_ snp |>) ;;
  clear_snapshot_sync_ctx p.

Definition set_sync_offset (p : positive) (offset : Z) : M unit :=
  now ← asks now_;
  upd_peer p (λ pr, pr <| snp_sync_ctx_ ::= fmap (set_offset now offset) |>).

Definition handle_install_snapshot_resp (resp : resp_msg) : M unit :=
  s ← get;
  match find_peer (rs_src resp) (peers_ s) with
  | None => mret tt
  | Some p =>
      pr ← get_peer p;
      need_to_catchup ←
        (if rs_accepted resp then
           match snp_sync_ctx_ pr with
           | None => mret false
           | Some sync_ctx =>
               if snp_install_done (sc_snapshot_ sync_ctx) resp then
                 snapshot_installed p (sc_snapshot_ sync_ctx) ;;
                 pending ← with_peer p clear_pending_commit;
                 pr ← get_peer p;
                 mret ((pending : bool) || bool_decide (next_log_idx_ pr < get_next_slot s))
               else set_sync_offset p (rs_next_idx resp) ;; mret true
           end
         else
           upd_peer p (λ pr, pr <| next_log_idx_ := rs_next_idx resp |>) ;;
           clear_snapshot_sync_ctx p ;;
           mret (bool_decide (rs_next_idx resp < get_next_slot s)));
      s ← get;
      when (bool_decide (role_ s = leader) && need_to_catchup)
        (_ ← request_append_entries_to p; mret tt)
  end.

Definition handle_install_snapshot_resp_new_member (resp : resp_msg) : M unit :=
  s ← get; now ← asks now_;
  match srv_to_join_ s with
  | None => mret tt
  | Some j =>
      when (negb (rs_accepted resp))
        (upd_peer j (λ pr, pr <| next_log_idx_ := rs_next_idx resp |>)) ;;
      upd_peer j (λ pr, pr <| last_resp_timer_ ::= reset_timer now |>) ;;
      jn ← get_peer j;
      match snp_sync_ctx_ jn with
      | None => mret tt
      | Some sync_ctx =>
          (if snp_install_done (sc_snapshot_ sync_ctx) resp
           then snapshot_installed j (sc_snapshot_ sync_ctx)
           else set_sync_offset j (rs_next_idx resp)) ;;
          jn ← get_peer j;
          sync_log_to_new_srv (next_log_idx_ jn)
      end
  end.
