(* ===== verification/RaftDispatch.v ===== *)
(** * The entry points of a Raft server

    [process_req], [handle_peer_resp], [handle_ext_resp] and the other entry
    points of src/raft_server.cxx, [peer::handle_rpc_result] of src/peer.cxx,
    [handle_hb_timeout] of src/handle_timeout.cxx, and the constructor. *)
From S2P Require Import Prelude Bytes Buffer BufferSpec BufferSerializer Wire RaftTypes.
From S2P Require Import LogEntry LogStore SrvState StateMgr RaftParams RaftMsg Peer RaftServer.
From S2P Require Import RaftRoles RaftReplicate RaftVote RaftAppend RaftCommit RaftClient RaftMember.
Local Open Scope Z_scope.

(** ** Requests *)

(** What the handlers of a snapshot take from outside: see [RaftMember]. *)
Record ext_args := ExtArgs {
  ea_others : M unit;
  ea_next_obj : Z;
  ea_expected_term : Z
}.

Definition handle_ext_msg (x : ext_args) (req : req_msg) : M (option resp_msg) :=
  match rq_type req with
  | add_server_request => Some <$> handle_add_srv_req req
  | remove_server_request => Some <$> handle_rm_srv_req req
  | sync_log_request => Some <$> handle_log_sync_req req
  | join_cluster_request => Some <$> handle_join_cluster_req req
  | leave_cluster_request => Some <$> handle_leave_cluster_req req
  | install_snapshot_request => Some <$> handle_install_snapshot_req (ea_others x) (ea_next_obj x) req
  | reconnect_request => Some <$> handle_reconnect_req req
  | custom_notification_request => Some <$> handle_custom_notification_req req
  | _ => mret None
  end.

(** The term of a request, and the signs of life it gives. *)
Definition note_request (req : req_msg) : M unit :=
  if bool_decide (rq_type req = append_entries_request)
     || bool_decide (rq_type req = request_vote_request)
     || bool_decide (rq_type req = install_snapshot_request) then
    term_updated ← update_term (rq_term req);
    s ← get;
    when (negb (im_learner_ s) && negb (hb_alive_ s) && (term_updated : bool)
          && bool_decide (rq_type req = request_vote_request)) decay_target_priority ;;
    s ← get;
    when (bool_decide (steps_to_down_ s > 0)) (steps_to_down_ :=! 2)
  else mret tt.

Definition process_req (x : ext_args) (req : req_msg) : M (option resp_msg) :=
  rc ← call_cb ProcessReq (-1);
  s ← get;
  if decide (rc = ReturnNull) then mret None
  else if stopping_ s then mret None
  else if decide (rq_type req = client_request) then handle_cli_req_prelock req (ea_expected_term x)
  else
    note_request req ;;
    match rq_type req with
    | append_entries_request =>
        _ ← call_cb ReceivedAppendEntriesReq (rq_src req);
        resp ← handle_append_entries req;
        _ ← call_cb SentAppendEntriesResp (rq_src req);
        mret resp
    | request_vote_request => Some <$> handle_vote_req req
    | pre_vote_request => Some <$> handle_prevote_req req
    | ping_request =>
        s ← get; mret (Some (new_resp (get_term s) ping_response (id_ s) (rq_src req) 0))
    | priority_change_request => Some <$> handle_priority_change_req req
    | _ => handle_ext_msg x req
    end.

(** ** Responses *)

(** An error in place of the response to [req]. *)
Definition handle_peer_err (req : req_msg) : M unit :=
  s ← get;
  match find_peer (rq_dst req) (peers_ s) with
  | None => mret tt
  | Some p =>
      upd_peer p (λ pr, pr <| rpc_errs_ ::= Z.succ |>) ;;
      _ ← check_snapshot_timeout p;
      pr ← get_peer p;
      if leave_requested_ pr then handle_join_leave_rpc_err leave_cluster_request p else mret tt
  end.

Definition handle_peer_resp (resp : resp_msg) : M unit :=
  s ← get; now ← asks now_;
  (if rs_accepted resp then
     match find_peer (rs_src resp) (peers_ s) with
     | Some p => upd_peer p (λ pr, pr <| rpc_errs_ := 0 |> <| last_resp_timer_ ::= reset_timer now |>)
     | None => mret tt
     end
   else mret tt) ;;
  update_term_succ ←
    (if is_valid_msg (rs_type resp) then update_term (rs_term resp) else mret false);
  if (update_term_succ : bool) then mret tt
  else
    match rs_type resp with
    | pre_vote_response => handle_prevote_resp resp
    | request_vote_response => handle_vote_resp resp
    | append_entries_response =>
        _ ← call_cb ReceivedAppendEntriesResp (rs_src resp);
        handle_append_entries_resp resp
    | install_snapshot_response => handle_install_snapshot_resp resp
    | custom_notification_response => handle_custom_notification_resp resp
    | _ => mret tt
    end.

Definition handle_ext_resp_err (req : req_msg) : M unit :=
  s ← get;
  match srv_to_join_ s with
  | Some j =>
      jn ← get_peer j;
      if decide (rq_type req = install_snapshot_request ∧ get_id jn = rq_dst req) then
        timed_out ← check_snapshot_timeout j;
        if (timed_out : bool) then mret tt
        else srv_to_join_snp_retry_required_ :=! true ;; enable_hb_for_peer j
      else mret tt
  | None => mret tt
  end ;;
  if bool_decide (rq_type req ≠ sync_log_request) && bool_decide (rq_type req ≠ join_cluster_request)
     && bool_decide (rq_type req ≠ leave_cluster_request) then mret tt
  else
    s ← get;
    match (if decide (rq_type req = leave_cluster_request) then find_peer (rq_dst req) (peers_ s)
           else srv_to_join_ s) with
    | None => mret tt
    | Some p =>
        pr ← get_peer p;
        if decide (max_hb_interval (params_ s) ≤ current_hb_interval_ pr) then
          handle_join_leave_rpc_err (rq_type req) p
        else
          upd_peer p slow_down_hb ;;
          pr ← get_peer p;
          schedule_task (RetryTask p req) (current_hb_interval_ pr)
    end.

Definition on_retryable_req_err (p : positive) (req : req_msg) : M unit :=
  send_if_free p req ex_resp_handler_.

Definition handle_ext_resp (resp : resp_msg) : M unit :=
  match rs_type resp with
  | sync_log_response => handle_log_sync_resp resp
  | join_cluster_response => handle_join_cluster_resp resp
  | leave_cluster_response => handle_leave_cluster_resp resp
  | install_snapshot_response => handle_install_snapshot_resp_new_member resp
  | _ => mret tt
  end.

(** ** peer::handle_rpc_result *)

(** [msg_types_to_free] *)
Definition frees_peer (t : msg_type) : bool :=
  match t with
  | append_entries_request | install_snapshot_request | request_vote_request | pre_vote_request
  | leave_cluster_request | custom_notification_request | reconnect_request
  | priority_change_request => true
  | _ => false
  end.

Definition same_rpc (rpc : Z) (pr : peer) : bool := bool_decide (default 0 (rpc_ pr) = rpc).

(** The result of [req], which was sent to [p] through the client [rpc]: a
    response, or an error. *)
Definition handle_rpc_result (p : positive) (rpc : Z) (req : req_msg) (handler : rpc_handler)
    (result : option resp_msg) : M unit :=
  pr ← get_peer p; now ← asks now_;
  if abandoned_ pr then mret tt
  else
    match result with
    | Some resp =>
        if negb (same_rpc rpc pr) then mret tt
        else
          when (frees_peer (rq_type req)) (upd_peer p set_free) ;;
          upd_peer p (λ pr, resume_hb_speed (pr <| last_active_timer_ ::= reset_timer now |>)) ;;
          let resp := resp <| rs_peer := Some p |> in
          match handler with
          | resp_handler_ => handle_peer_resp resp
          | ex_resp_handler_ => handle_ext_resp resp
          end ;;
          upd_peer p (λ pr, pr <| reconn_backoff_ ::= λ t, set_duration_ms 1 (reset_timer now t) |>)
    | None =>
        upd_peer p (λ pr, slow_down_hb (pr <| last_active_timer_ ::= reset_timer now |>)) ;;
        match handler with
        | resp_handler_ => handle_peer_err req
        | ex_resp_handler_ => handle_ext_resp_err req
        end ;;
        pr ← get_peer p;
        if same_rpc rpc pr then
          upd_peer p (λ pr, pr <| rpc_ := None |>) ;;
          when (frees_peer (rq_type req)) (upd_peer p set_free)
        else mret tt
    end.

(** ** The heartbeat timer *)
Definition retry_snapshot (j : positive) : M unit :=
  s ← get; now ← asks now_; lim ← asks raft_limits_;
  jn ← get_peer j;
  if need_to_reconnect now jn then
    if decide (u64 (heart_beat_interval_ (params_ s)) * response_limit_ lim
                 ≤ RaftParams.get_us now (last_resp_timer_ jn) `quot` 1000) then
      clear_snapshot_sync_ctx j
    else
      succ ← recreate_rpc_for j;
      if (succ : bool) then sync_log_to_new_srv 0 else clear_snapshot_sync_ctx j
  else sync_log_to_new_srv 0.

(** The heartbeat of a peer. *)
Definition heartbeat (p : positive) : M unit :=
  s ← get; pr ← get_peer p; lim ← asks raft_limits_;
  when (leave_requested_ pr) (upd_peer p (λ pr, pr <| hb_cnt_since_leave_ ::= Z.succ |>)) ;;
  if leave_requested_ pr && bool_decide (leave_limit_ lim ≤ hb_cnt_since_leave_ pr + 1) then
    handle_join_leave_rpc_err leave_cluster_request p
  else
    _ ← call_cb HeartBeat (get_id pr);
    if stopping_ s then mret tt
    else
      valid ← check_leadership_validity;
      if negb (valid : bool) then mret tt
      else
        s ← get;
        if decide (role_ s = leader) then
          update_target_priority ;;
          _ ← request_append_entries_to p;
          pr ← get_peer p;
          when (hb_enabled_ pr) (schedule_task (HbTask p) (current_hb_interval_ pr))
        else mret tt.

Definition handle_hb_timeout (srv_id : Z) : M unit :=
  check_srv_to_leave_timeout ;;
  s ← get; now ← asks now_;
  if write_paused_ s && timed_out now (reelection_timer_ s) then
    leader_ :=! -1 ;;
    become_follower ;;
    hb_alive_ :=! false
  else
    let retried :=
      j ← srv_to_join_ s; jn ← peer_heap_ s !! j;
      if srv_to_join_snp_retry_required_ s && bool_decide (get_id jn = srv_id) then Some j else None in
    match retried with
    | Some j => retry_snapshot j
    | None =>
        match find_peer srv_id (peers_ s) with
        | None => mret tt
        | Some p => heartbeat p
        end
    end.

(** ** Parameters *)
Definition fix_params (test_mode : bool) (p : raft_params) : raft_params :=
  if test_mode then p
  else
    let p :=
      if decide (election_timeout_lower_bound_ p ≤ heart_beat_interval_ p)
      then p <| election_timeout_lower_bound_ := heart_beat_interval_ p * 2 |> else p in
    if decide (election_timeout_upper_bound_ p ≤ election_timeout_lower_bound_ p)
    then p <| election_timeout_upper_bound_ := election_timeout_lower_bound_ p * 2 |> else p.

Definition apply_and_log_current_params : M unit :=
  s ← get; now ← asks now_;
  params_ ::=! fix_params (test_mode_flag_ s) ;;
  s ← get;
  status_check_timer_ ::=!
    (λ t, reset_timer now (set_duration_ms (heart_beat_interval_ (params_ s)) t)) ;;
  leadership_transfer_timer_ ::=! set_duration_ms (leadership_transfer_min_wait_time_ (params_ s)).

Definition update_params (new_params : raft_params) : M unit :=
  params_ :=! new_params ;;
  apply_and_log_current_params ;;
  update_rand_timeout ;;
  s ← get;
  when (bool_decide (role_ s ≠ leader)) restart_election_timer ;;
  s ← get;
  for_each (peer_ptrs s) (λ p,
    upd_peer p (λ pr, resume_hb_speed (pr <| hb_interval_ := heart_beat_interval_ (params_ s) |>))).

(** ** The constructor and start_server *)

(** The members before the body of the constructor runs; [my_priority_], which
    has no initialiser, is 0 here until the configuration sets it. *)
Definition init_server (now commit_index : Z) (mgr : state_mgr) (params : raft_params)
    (last_snapshot : option snapshot) (test_mode : bool) : server :=
  let t := new_timer now 0 false in
  Server (server_id mgr) (-1) follower
    (match read_state mgr with Some st => st | None => set_voted_for (-1) (set_term 0 new_srv_state) end)
    0 INIT_PRIORITY t 0 0 true new_pre_vote false
    (u64 (next_slot (load_log_store mgr) - 1)) 0 commit_index commit_index
    (u64 (next_slot (load_log_store mgr) - 1)) 0 commit_index false false false false false false false
    false (-1) t false false 0 false params true false t [] mgr false 0 0 (UniformTimeout 0 0)
    (load_config mgr) None false None false None 0 None ∅ last_snapshot t t t 0 test_mode
    (new_timer now (1000 * 1000) false) ∅ ∅ 1.

(** Whether an entry from [ii] on, of [n], is a configuration. *)
Fixpoint has_conf (junk : nat → byte) (n : nat) (ii : Z) (l : log_store) : outcome bool :=
  match n with
  | O => Ok false
  | S n =>
      entry ← entry_at junk ii l;
      if decide (value_type_ entry = conf) then Ok true else has_conf junk n (u64 (ii + 1)) l
  end.

Definition add_initial_peer (cur_srv : srv_config) : M unit :=
  s ← get; bucket ← asks bucket_;
  if decide (RaftTypes.id_ cur_srv ≠ id_ s) then
    p ← cs_new_peer cur_srv;
    peers_ ::=! insert_peer bucket (RaftTypes.id_ cur_srv) p
  else
    im_learner_ :=! learner_ cur_srv ;;
    my_priority_ :=! priority_ cur_srv.

(** The body of the constructor, without the start of the server. *)
Definition construct : M unit :=
  s ← get; junk ← asks junk_; rnd ← asks uniform_int_;
  when (bool_decide (stale_log_gap_ (params_ s) < fresh_log_gap_ (params_ s)))
    (params_ ::=! (λ p, p <| stale_log_gap_ := fresh_log_gap_ p |>)) ;;
  let distance := snapshot_distance_ (params_ s) in
  when (enable_randomized_snapshot_creation_ (params_ s)
        && bool_decide (last_snapshot_ s = None ∧ distance > 1))
    (first_snapshot_distance_ :=!
       u32 (rnd (distance `quot` 2) ((distance `quot` 2) `max` (distance - 1)))) ;;
  apply_and_log_current_params ;;
  update_rand_timeout ;;
  s ← get;
  vote_init_timer_term_ :=! get_term s ;;
  let from := (sm_commit_index_ s + 1) `max` start_index (log_store_ s) in
  changing ← lift (has_conf junk (Z.to_nat (get_next_slot s - from)) from (log_store_ s));
  when changing (config_changing_ :=! true) ;;
  for_each (servers_ (RaftServer.config_ s)) add_initial_peer.

Definition start_server (skip_initial_election_timeout : bool) : M unit :=
  s ← get; now ← asks now_;
  (if skip_initial_election_timeout then
     state_ ::=! allow_election_timer false ;; save_state
   else if negb (election_timer_allowed_ (state_ s)) then mret tt
   else restart_election_timer) ;;
  priority_change_timer_ ::=! reset_timer now ;;
  vote_init_timer_ ::=!
    (λ t, reset_timer now (set_duration_ms (grace_period_of_lagging_state_machine_ (params_ s)) t)).

Definition stop_server : M unit :=
  stopping_ :=! true ;;
  drop_all_pending_commit_elems.

(** ** The rest of the interface *)
Definition set_user_ctx (ctx : string) : M unit :=
  s ← get; now ← asks now_; junk ← asks junk_;
  c ← clone_config (RaftServer.config_ s);
  let c := set_log_idx (get_next_slot s) c in
  let c := ClusterConfig (log_idx_ c) (prev_log_idx_ c) (async_replication_ c) ctx (servers_ c) in
  buf ← lift (serialize_cluster_config junk c);
  entry ← cs_new_entry (get_term s) buf conf now;
  _ ← store_log_entry entry 0;
  request_append_entries.

Definition reset_peer_info : M unit :=
  s ← get; now ← asks now_; junk ← asks junk_;
  let c_config := RaftServer.config_ s in
  if decide (1 < length (servers_ c_config))%nat then
    match get_server (id_ s) c_config with
    | None => mret tt
    | Some my_srv_config =>
        let my_next_config := ClusterConfig (log_idx_ c_config) (prev_log_idx_ c_config)
          (async_replication_ c_config) (user_ctx_ c_config) [my_srv_config] in
        set_config my_next_config ;;
        save_config my_next_config ;;
        buf ← lift (serialize_cluster_config junk my_next_config);
        entry ← cs_new_entry (get_term s) buf conf now;
        _ ← store_log_entry entry (get_last_log_idx s); mret tt
    end
  else mret tt.

Definition get_dc_id (srv_id : Z) (s : server) : Z :=
  match get_server srv_id (RaftServer.config_ s) with Some c => dc_id_ c | None => -1 end.
Definition get_aux (srv_id : Z) (s : server) : string :=
  match get_server srv_id (RaftServer.config_ s) with Some c => aux_ c | None => "" end.
Definition get_user_ctx (s : server) : string := user_ctx_ (RaftServer.config_ s).

(** [peer_info]: the identity, the last accepted index and the time since the
    last response. *)
Definition peer_info_of (now : Z) (pr : peer) : Z * Z * Z :=
  (get_id pr, last_accepted_log_idx_ pr, RaftParams.get_us now (last_resp_timer_ pr)).

Definition get_peer_info (now srv_id : Z) (s : server) : option (Z * Z * Z) :=
  if negb (is_leader s) then None
  else p ← find_peer srv_id (peers_ s); peer_info_of now <$> peer_heap_ s !! p.

Definition get_peer_info_all (now : Z) (s : server) : list (Z * Z * Z) :=
  if negb (is_leader s) then []
  else omap (λ p, peer_info_of now <$> peer_heap_ s !! p) (peer_ptrs s).
