(* ===== verification/RaftRun.v ===== *)
(** * Running the handlers

    What a sequence of steps of the handlers' monad does, step by step. *)
From S2P Require Import Prelude Peer RaftServer.

(** Names are unfolded before the monad. *)
#[global] Strategy 100 [M_bind].

Lemma M_bind_Ok {A B} (m : M A) (f : A → M B) e s b s'' o'' :
  (m ≫= f) e s = Ok (b, s'', o'') ↔
  ∃ a s' o o', m e s = Ok (a, s', o) ∧ f a e s' = Ok (b, s'', o') ∧ o'' = o ++ o'.
Proof.
  unfold mbind at 1, M_bind. rewrite bind_Ok. split.
  - intros ([[a s'] o] & Hm & H). apply bind_Ok in H as ([[b' t] o'] & Hf & [= <- <- <-]).
    by exists a, s', o, o'.
  - intros (a & s' & o & o' & Hm & Hf & ->). exists (a, s', o). split; [done|]. cbn beta iota.
    by rewrite Hf.
Qed.

Section runs.
Context {A B : Type} (e : env) (s : server).

Lemma run_bind (m : M A) (f : A → M B) a s' o :
  m e s = Ok (a, s', o) → (m ≫= f) e s = '(b, t, o') ← f a e s'; Ok (b, t, o ++ o').
Proof. intros Hm. unfold mbind at 1, M_bind. by rewrite Hm. Qed.

(** A step without output passes its result on. *)
Lemma run_silent (m : M A) (f : A → M B) a s' :
  m e s = Ok (a, s', []) → (m ≫= f) e s = f a e s'.
Proof. intros Hm. rewrite (run_bind m f a s' []) by done. by destruct (f a e s') as [[[]]|]. Qed.

Lemma run_ret (a : A) (f : A → M B) : (mret a ≫= f) e s = f a e s.
Proof. by apply run_silent. Qed.
Lemma run_get (f : server → M B) : (get ≫= f) e s = f s e s.
Proof. unfold mbind, M_bind, get. cbn. by destruct (f s e s) as [[[]]|]. Qed.
Lemma run_asks (g : env → A) (f : A → M B) : (asks g ≫= f) e s = f (g e) e s.
Proof. by apply run_silent. Qed.
Lemma run_modify (g : server → server) (f : unit → M B) : (modify g ≫= f) e s = f tt e (g s).
Proof. unfold mbind, M_bind, modify. cbn. by destruct (f tt e (g s)) as [[[]]|]. Qed.
Lemma run_lift (a : A) (f : A → M B) : (lift (Ok a) ≫= f) e s = f a e s.
Proof. by apply run_silent. Qed.
Lemma run_tell x (f : unit → M B) :
  (tell x ≫= f) e s = '(b, t, o) ← f tt e s; Ok (b, t, x :: o).
Proof. done. Qed.
Lemma run_assoc {C} (m : M C) (g : C → M A) (f : A → M B) :
  ((m ≫= g) ≫= f) e s = (m ≫= λ c, g c ≫= f) e s.
Proof.
  unfold mbind, M_bind. destruct (m e s) as [[[c t] o]|]; cbn; [|done].
  destruct (g c e t) as [[[a t'] o']|]; cbn; [|done].
  destruct (f a e t') as [[[b t''] o'']|]; cbn; [|done]. by rewrite (assoc (++)).
Qed.
End runs.

(** [run_steps] runs the steps at the head of the goal. *)
Ltac run_step :=
  first [rewrite run_get | rewrite run_asks | rewrite run_modify | rewrite run_ret | rewrite run_lift
        | rewrite run_assoc]; cbv beta.
Ltac run_steps := repeat run_step.

(** ** Reading and changing a peer *)
Section peers.
Context (e : env) (p : positive).
Implicit Types (s : server) (pr : peer).

Lemma peer_read_run s pr : peer_heap_ s !! p = Some pr → get_peer p e s = Ok (pr, s, []).
Proof. intros Hp. unfold get_peer. run_steps. by rewrite Hp. Qed.

(** The state with another value of the peer. *)
Definition with_peer_at (pr : peer) (s : server) : server :=
  s <| peer_heap_ := <[p := pr]> (peer_heap_ s) |>.

Lemma with_peer_at_idem pr pr' s : with_peer_at pr (with_peer_at pr' s) = with_peer_at pr s.
Proof. unfold with_peer_at. cbn. by rewrite insert_insert_eq. Qed.

Lemma alter_Some {A} (f : A → A) (m : gmap positive A) x : m !! p = Some x → alter f p m = <[p := f x]> m.
Proof.
  intros Hp. apply map_eq. intros q. destruct (decide (q = p)) as [->|].
  - by rewrite lookup_alter_eq, lookup_insert_eq, Hp.
  - by rewrite lookup_alter_ne, lookup_insert_ne.
Qed.

Lemma upd_peer_run f s pr :
  peer_heap_ s !! p = Some pr → upd_peer p f e s = Ok (tt, with_peer_at (f pr) s, []).
Proof.
  intros Hp. unfold upd_peer, modify, with_peer_at. rewrite <- (alter_Some f _ _ Hp). done.
Qed.

Lemma with_peer_run {A} (f : peer → A * peer) s pr :
  peer_heap_ s !! p = Some pr → with_peer p f e s = Ok ((f pr).1, with_peer_at (f pr).2 s, []).
Proof.
  intros Hp. unfold with_peer. rewrite (run_silent _ _ _ _ _ _ (peer_read_run _ _ Hp)).
  by rewrite (run_silent _ _ _ _ _ _ (upd_peer_run _ _ _ Hp)).
Qed.
End peers.
