(* ===== verification/Election.v ===== *)
(** * What an election promises: the abstract protocol

    The votes of a cluster as a protocol of its own: every server has a term, a
    vote, a count of the votes it was granted and whether it leads; a ballot is
    a vote request on its way or its answer, and what was cast and who has led
    is remembered.  Every step of the servers is a sequence of these
    ([RaftElection]), and no two servers ever lead in one term. *)
From S2P Require Import Prelude.
Local Open Scope Z_scope.

Record vote_state := VoteState {
  v_term : Z;
  v_voted : Z;
  v_granted : Z;
  v_leader : bool
}.

(** A ballot is asked for, or answered. *)
Inductive ballot_state := Asked | Answered (granted : bool).
#[export] Instance ballot_state_eq_dec : EqDecision ballot_state.
Proof. solve_decision. Defined.
Record ballot := Ballot { b_cand : Z; b_term : Z; b_voter : Z; b_state : ballot_state }.
#[export] Instance ballot_eq_dec : EqDecision ballot.
Proof. solve_decision. Defined.
Definition b_key (b : ballot) : Z * Z * Z := (b_cand b, b_term b, b_voter b).

Record election := Election {
  nodes : gmap Z vote_state;
  ballots : list ballot;
  cast : list (Z * Z * Z);
  led : list (Z * Z)
}.
#[export] Instance election_rebuild : Rebuild election := λ e,
  Election (nodes e) (ballots e) (cast e) (led e).

Section protocol.
(** The servers that may vote. *)
Context (V : gset Z).

Definition asked (c t : Z) (ws : list Z) : list ballot := (λ w, Ballot c t w Asked) <$> ws.

Inductive vote_step (e : election) : election → Prop :=
  | step_follow i v :
      nodes e !! i = Some v →
      vote_step e (e <| nodes ::= <[i := VoteState (v_term v) (v_voted v) (v_granted v) false]> |>)
  | step_raise i v t :
      nodes e !! i = Some v → v_term v < t →
      vote_step e (e <| nodes ::= <[i := VoteState t (-1) 0 false]> |>)
  | step_campaign i v t ws :
      nodes e !! i = Some v → v_term v < t → i ≠ -1 → NoDup (i :: ws) → Forall (.∈ V) (i :: ws) →
      vote_step e (e <| nodes ::= <[i := VoteState t i 1 false]> |>
                     <| ballots ::= λ bs, asked i t ws ++ bs |>
                     <| cast ::= cons (t, i, i) |>)
  | step_win i v :
      nodes e !! i = Some v → Z.of_nat (size V) < 2 * v_granted v →
      vote_step e (e <| nodes ::= <[i := VoteState (v_term v) (v_voted v) (v_granted v) true]> |>
                     <| led ::= cons (v_term v, i) |>)
  | step_grant i v c bs :
      nodes e !! i = Some v → ballots e ≡ₚ Ballot c (v_term v) i Asked :: bs →
      v_voted v = c ∨ v_voted v = -1 →
      vote_step e (e <| nodes ::= <[i := VoteState (v_term v) c (v_granted v) (v_leader v)]> |>
                     <| ballots := Ballot c (v_term v) i (Answered true) :: bs |>
                     <| cast ::= cons (v_term v, i, c) |>)
  | step_refuse c t i bs :
      ballots e ≡ₚ Ballot c t i Asked :: bs →
      vote_step e (e <| ballots := Ballot c t i (Answered false) :: bs |>)
  | step_count i v w bs :
      nodes e !! i = Some v → ballots e ≡ₚ Ballot i (v_term v) w (Answered true) :: bs →
      vote_step e (e <| nodes ::= <[i := VoteState (v_term v) (v_voted v) (v_granted v + 1) (v_leader v)]> |>
                     <| ballots := bs |>)
  | step_lose b bs :
      ballots e ≡ₚ b :: bs → vote_step e (e <| ballots := bs |>)
  | step_restart i v :
      nodes e !! i = Some v →
      vote_step e (e <| nodes ::= <[i := VoteState (v_term v) (v_voted v) 0 false]> |>).

(** ** The invariant *)
Record election_ok (e : election) : Prop := {
  ok_cast : ∀ t w c c', (t, w, c) ∈ cast e → (t, w, c') ∈ cast e → c = c';
  ok_current : ∀ t w c, (t, w, c) ∈ cast e →
    c ≠ -1 ∧ ∃ v, nodes e !! w = Some v ∧ (t < v_term v ∨ t = v_term v ∧ v_voted v = c);
  ok_keys : NoDup (b_key <$> ballots e);
  ok_ballot : ∀ b, b ∈ ballots e →
    b_cand b ≠ -1 ∧ b_voter b ∈ V ∧
    (∃ v, nodes e !! b_cand b = Some v ∧ b_term b ≤ v_term v) ∧
    (b_state b = Answered true → (b_term b, b_voter b, b_cand b) ∈ cast e);
  ok_count : ∀ i v, nodes e !! i = Some v →
    ∃ ws, NoDup ws ∧ Z.of_nat (length ws) = v_granted v ∧
      ∀ w, w ∈ ws → w ∈ V ∧ (v_term v, w, i) ∈ cast e ∧ (i, v_term v, w) ∉ b_key <$> ballots e;
  ok_led : ∀ t i, (t, i) ∈ led e →
    ∃ ws, NoDup ws ∧ Z.of_nat (size V) < 2 * Z.of_nat (length ws) ∧
      ∀ w, w ∈ ws → w ∈ V ∧ (t, w, i) ∈ cast e;
  ok_leader : ∀ i v, nodes e !! i = Some v → v_leader v = true → (v_term v, i) ∈ led e
}.

(** Two majorities have a member in common. *)
Lemma majorities_meet (ws ws' : list Z) :
  NoDup ws → NoDup ws' → (∀ w, w ∈ ws → w ∈ V) → (∀ w, w ∈ ws' → w ∈ V) →
  Z.of_nat (size V) < 2 * Z.of_nat (length ws) → Z.of_nat (size V) < 2 * Z.of_nat (length ws') →
  ∃ w, w ∈ ws ∧ w ∈ ws'.
Proof.
  intros Hn Hn' Hs Hs' Hl Hl'.
  destruct (decide (Exists (.∈ ws') ws)) as [(w & ? & ?)%Exists_exists|Hno]; [by exists w|].
  assert (size (list_to_set ws ∪ list_to_set ws' : gset Z) ≤ size V)%nat as Hsz
    by (apply subseteq_size; set_solver).
  rewrite size_union, !size_list_to_set in Hsz by (rewrite ?Exists_exists in Hno; set_solver). lia.
Qed.

Lemma one_leader_per_term_led e t i j :
  election_ok e → (t, i) ∈ led e → (t, j) ∈ led e → i = j.
Proof.
  intros Hok (ws & Hn & Hl & Hw)%(ok_led _ Hok) (ws' & Hn' & Hl' & Hw')%(ok_led _ Hok).
  destruct (majorities_meet ws ws') as (w & H1 & H2); try done.
  - intros w Hin. by apply Hw.
  - intros w Hin. by apply Hw'.
  - eapply (ok_cast _ Hok t w); [by apply Hw|by apply Hw'].
Qed.

(** ** The steps preserve the invariant *)

(** A node may fall back to no votes, lose its leadership or raise its term. *)
Lemma ok_set_node e i v v' :
  election_ok e → nodes e !! i = Some v →
  v_term v < v_term v' ∧ v_granted v' = 0 ∧ v_leader v' = false ∨
  v_term v' = v_term v ∧ v_voted v' = v_voted v ∧ (v_granted v' = v_granted v ∨ v_granted v' = 0) ∧
    (v_leader v' = true → (v_term v, i) ∈ led e) →
  election_ok (e <| nodes ::= <[i := v']> |>).
Proof.
  intros [Hcast Hcur Hkeys Hbal Hcnt Hled Hldr] Hv Hc.
  assert (v_term v ≤ v_term v') as Hle by (destruct Hc as [?|[-> _]]; lia).
  split; cbn; try done.
  - intros t w c Hin. destruct (Hcur t w c Hin) as (Hne & u & Hu & Ht). split; [done|].
    destruct (decide (w = i)) as [->|Hwi]; [|exists u; by rewrite lookup_insert_ne].
    exists v'. rewrite lookup_insert_eq. split; [done|]. replace u with v in Ht by congruence.
    destruct Ht as [?|[-> Hvote]]; [left; lia|].
    destruct Hc as [(? & _)|(-> & -> & _)]; [left; lia|by right].
  - intros b Hb. destruct (Hbal b Hb) as (? & ? & (u & Hu & Ht) & ?). split_and!; [done..| |done].
    destruct (decide (b_cand b = i)) as [<-|Hbi]; [|exists u; by rewrite lookup_insert_ne].
    exists v'. rewrite lookup_insert_eq. split; [done|]. replace u with v in Ht by congruence. lia.
  - intros j u [[<- <-]|[Hne Hu]]%lookup_insert_Some; [|by apply Hcnt].
    assert (v_granted v' = 0 ∨ v_term v' = v_term v ∧ v_granted v' = v_granted v) as [Hg|[Ht Hg]]
      by (destruct Hc as [(? & ? & ?)|(? & ? & [?|?] & ?)]; auto).
    + exists []. split_and!; [constructor|by rewrite Hg|]. intros w Hw. by apply elem_of_nil in Hw.
    + rewrite Ht, Hg. by apply Hcnt.
  - intros j u [[<- <-]|[Hne Hu]]%lookup_insert_Some Hl; [|by apply Hldr].
    destruct Hc as [(? & ? & ?)|(-> & ? & ? & Hc)]; [congruence|by apply Hc].
Qed.

(** A ballot may be lost, or refused. *)
Lemma ok_set_ballots e b bs bs' :
  election_ok e → ballots e ≡ₚ b :: bs → bs' = bs ∨ bs' = Ballot (b_cand b) (b_term b) (b_voter b) (Answered false) :: bs →
  election_ok (e <| ballots := bs' |>).
Proof.
  intros [Hcast Hcur Hkeys Hbal Hcnt Hled Hldr] Hp Hbs.
  assert (b_key <$> bs' ⊆ b_key <$> ballots e) as Hsub.
  { rewrite Hp. destruct Hbs as [->| ->]; set_solver. }
  split; cbn; try done.
  - rewrite Hp in Hkeys. destruct Hbs as [->| ->]; [|done].
    by apply NoDup_cons in Hkeys as [_ ?].
  - intros b' Hb'. destruct (decide (b' ∈ ballots e)) as [?|Hn]; [by apply Hbal|].
    assert (b' = Ballot (b_cand b) (b_term b) (b_voter b) (Answered false)) as ->.
    { rewrite Hp in Hn. destruct Hbs as [->| ->]; set_solver. }
    destruct (Hbal b) as (? & ? & ? & _); [rewrite Hp; by left|]. by split_and!.
  - intros i v Hv. destruct (Hcnt i v Hv) as (ws & ? & ? & Hw). exists ws. split_and!; [done..|].
    intros w Hin. destruct (Hw w Hin) as (? & ? & Hout). split_and!; [done..|]. set_solver.
Qed.

(** A vote is cast. *)
Lemma ok_cast_vote e i v c :
  election_ok e → nodes e !! i = Some v → c ≠ -1 → v_voted v = c ∨ v_voted v = -1 →
  election_ok (e <| nodes ::= <[i := VoteState (v_term v) c (v_granted v) (v_leader v)]> |>
                 <| cast ::= cons (v_term v, i, c) |>).
Proof.
  intros [Hcast Hcur Hkeys Hbal Hcnt Hled Hldr] Hv Hc Hvote.
  assert (∀ c', (v_term v, i, c') ∈ cast e → c' = c) as Hsame.
  { intros c' (? & u & Hu & Ht)%Hcur. replace u with v in Ht by congruence. intuition (congruence || lia). }
  split; cbn; try done.
  - intros t w c1 c2 [E1|H1]%elem_of_cons [E2|H2]%elem_of_cons; simplify_eq; try done.
    + symmetry. by apply Hsame.
    + by apply Hsame.
    + by eapply Hcast.
  - intros t w c1 [E|Hin]%elem_of_cons.
    + simplify_eq. split; [done|]. eexists. rewrite lookup_insert_eq. split; [done|]. by right.
    + destruct (Hcur t w c1 Hin) as (Hne & u & Hu & Ht). split; [done|].
      destruct (decide (w = i)) as [->|Hwi]; [|exists u; by rewrite lookup_insert_ne].
      eexists. rewrite lookup_insert_eq. split; [done|]. cbn.
      replace u with v in Ht by congruence. destruct Ht as [?|[-> ?]]; [by left|right].
      split; [done|]. symmetry. by apply Hsame.
  - intros b Hb. destruct (Hbal b Hb) as (? & ? & (u & Hu & Ht) & Hy). split_and!; [done..| |].
    + destruct (decide (b_cand b = i)) as [<-|Hbi]; [|exists u; by rewrite lookup_insert_ne].
      eexists. rewrite lookup_insert_eq. split; [done|]. cbn. by replace u with v in Ht by congruence.
    + intros Hs. right. by apply Hy.
  - intros j u [[<- <-]|[Hne Hu]]%lookup_insert_Some;
      [destruct (Hcnt i v Hv) as (ws & ? & ? & Hw)|destruct (Hcnt j u Hu) as (ws & ? & ? & Hw)];
      exists ws; (split_and!; [done..|]); intros w (? & ? & ?)%Hw; (split_and!; [done| |done]); by right.
  - intros t j (ws & ? & ? & Hw)%Hled. exists ws. split_and!; [done..|].
    intros w (? & ?)%Hw. split; [done|]. by right.
  - intros j u [[<- <-]|[Hne Hu]]%lookup_insert_Some Hl; [by apply (Hldr i v)|by apply Hldr].
Qed.

(** The count of a node does not matter to its vote. *)
Lemma same_vote (m : gmap Z vote_state) i v v' w (P : vote_state → Prop) :
  (P v → P v') → (∃ u, <[i := v]> m !! w = Some u ∧ P u) → ∃ u, <[i := v']> m !! w = Some u ∧ P u.
Proof.
  intros HP (u & [[<- <-]|[Hne Hu]]%lookup_insert_Some & Hu').
  - exists v'. rewrite lookup_insert_eq. auto.
  - exists u. by rewrite lookup_insert_ne.
Qed.

Lemma ok_campaign e i v t ws :
  election_ok e → nodes e !! i = Some v → v_term v < t → i ≠ -1 → NoDup (i :: ws) →
  Forall (.∈ V) (i :: ws) →
  election_ok (e <| nodes ::= <[i := VoteState t i 1 false]> |>
                 <| ballots ::= λ bs, asked i t ws ++ bs |> <| cast ::= cons (t, i, i) |>).
Proof.
  intros Hok Hv Ht Hi [Hiw Hn]%NoDup_cons [HiV HV]%Forall_cons.
  pose proof (ok_set_node e i v (VoteState t (-1) 0 false) Hok Hv (or_introl (conj Ht (conj eq_refl eq_refl)))) as Hok1.
  assert (nodes (e <| nodes ::= <[i:=VoteState t (-1) 0 false]> |>) !! i = Some (VoteState t (-1) 0 false)) as Hv1
    by apply lookup_insert_eq.
  pose proof (ok_cast_vote _ i _ i Hok1 Hv1 Hi (or_intror eq_refl)) as [Hcast Hcur _ Hbal Hcnt Hled Hldr].
  cbn in *. rewrite insert_insert_eq in *.
  assert (∀ b, b ∈ ballots e → b_cand b = i → b_term b < t) as Hold.
  { intros b (_ & _ & (u & Hu & Hle) & _)%(ok_ballot _ Hok) Hb. rewrite Hb in Hu.
    replace u with v in Hle by congruence. lia. }
  assert (∀ w, (i, t, w) ∉ b_key <$> ballots e) as Hfresh.
  { intros w (b & Hkey & Hb)%list_elem_of_fmap. unfold b_key in Hkey. simplify_eq.
    specialize (Hold b Hb eq_refl). lia. }
  assert (b_key <$> asked i t ws = (λ w, (i, t, w)) <$> ws) as Hkeys.
  { unfold asked. by rewrite <- list_fmap_compose. }
  split; cbn; try done.
  - intros t' w c (Hne & Hu)%Hcur. split; [done|]. by eapply same_vote, Hu.
  - rewrite fmap_app, Hkeys. apply NoDup_app. split_and!.
    + apply NoDup_fmap_2; [|done]. by intros ? ? [= ->].
    + intros k (w & -> & Hw)%list_elem_of_fmap. apply Hfresh.
    + apply (ok_keys _ Hok).
  - intros b [(w & -> & Hw)%list_elem_of_fmap|Hb]%elem_of_app; cbn;
      [|destruct (Hbal b Hb) as (? & ? & Hu & ?); split_and!; [done..|by eapply same_vote, Hu|done]].
    split_and!; [done|by eapply Forall_forall in HV|eexists; by rewrite lookup_insert_eq|done].
  - intros j u [[<- <-]|[Hne Hu]]%lookup_insert_Some.
    + exists [i]. split_and!; [apply NoDup_singleton|done|]. intros w ->%list_elem_of_singleton.
      split_and!; [done|by left|]. rewrite fmap_app, Hkeys, not_elem_of_app. split; [|apply Hfresh].
      intros (w & [= ->] & Hw)%list_elem_of_fmap. done.
    + destruct (Hcnt j u) as (vs & ? & ? & Hw); [by rewrite lookup_insert_ne|].
      exists vs. split_and!; [done..|]. intros w (? & ? & ?)%Hw. split_and!; [done..|].
      rewrite fmap_app, Hkeys, not_elem_of_app. split; [|done].
      intros (w' & [= ? ?] & ?)%list_elem_of_fmap. congruence.
  - intros j u [[<- <-]|[Hne Hu]]%lookup_insert_Some Hl; [done|].
    apply Hldr; [by rewrite lookup_insert_ne|done].
Qed.

Lemma vote_step_ok e e' : election_ok e → vote_step e e' → election_ok e'.
Proof.
  intros Hok [i v Hv|i v t Hv Ht|i v t ws Hv Ht Hi Hn HV|i v Hv Hq|i v c bs Hv Hp Hc|c t i bs Hp
             |i v w bs Hv Hp|b bs Hp|i v Hv].
  - eapply ok_set_node; [done..|]. right. cbn. by split_and!; [..|auto|].
  - eapply ok_set_node; [done..|]. by left.
  - by eapply ok_campaign.
  - assert (election_ok (e <| led ::= cons (v_term v, i) |>)) as Hok'.
    { destruct Hok as [Hcast Hcur Hkeys Hbal Hcnt Hled Hldr]. split; cbn; try done.
      - intros t j [E|Hin]%elem_of_cons; [|by apply Hled]. simplify_eq.
        destruct (Hcnt i v Hv) as (ws & ? & Hl & Hw). exists ws. rewrite Hl. split_and!; [done..|].
        intros w Hin. by destruct (Hw w Hin) as (? & ? & _).
      - intros j u Hu Hl. right. by apply Hldr. }
    apply (ok_set_node _ i v (VoteState (v_term v) (v_voted v) (v_granted v) true) Hok' Hv).
    right. split_and!; [done..|by left|]. intros _. by left.
  - assert (Ballot c (v_term v) i Asked ∈ ballots e) as Hb by (rewrite Hp; by left).
    pose proof (ok_ballot _ Hok _ Hb) as (Hne & HV & Hnode & _). cbn in *.
    pose proof (ok_cast_vote e i v c Hok Hv Hne Hc) as [Hcast Hcur Hkeys Hbal Hcnt Hled Hldr].
    cbn in *. rewrite Hp in Hkeys.
    assert (∀ k, k ∈ b_key <$> (Ballot c (v_term v) i (Answered true) :: bs) → k ∈ b_key <$> ballots e) as Hsub
      by (intros k; by rewrite Hp).
    split; cbn; try done.
    + intros b [->|Hin]%elem_of_cons; [|apply Hbal; rewrite Hp; by right].
      cbn. destruct (Hbal _ Hb) as (? & ? & ? & _). split_and!; [done..|]. intros _. by left.
    + intros j u (ws & ? & ? & Hw)%Hcnt. exists ws. split_and!; [done..|].
      intros w (? & ? & Hout)%Hw. split_and!; [done..|]. intros Hk. apply Hout, Hsub, Hk.
  - apply (ok_set_ballots e _ bs _ Hok Hp). by right.
  - assert (Ballot i (v_term v) w (Answered true) ∈ ballots e) as Hb by (rewrite Hp; by left).
    pose proof (ok_ballot _ Hok _ Hb) as (Hne & HV & _ & Hcast'). cbn in *.
    pose proof (ok_set_ballots e _ bs bs Hok Hp (or_introl eq_refl)) as Hok'.
    pose proof (ok_keys _ Hok) as Hkeys. rewrite Hp in Hkeys.
    apply NoDup_cons in Hkeys as [Hnot Hkeys]. cbn in Hnot.
    destruct (ok_count _ Hok i v Hv) as (ws & Hn & Hl & Hw).
    destruct Hok' as [Hcast Hcur Hkeys' Hbal Hcnt Hled Hldr]. cbn in *. split; cbn; try done.
    + intros t x c Hin. destruct (Hcur t x c Hin) as (? & u & Hu & ?). split; [done|].
      destruct (decide (x = i)) as [->|Hx]; [|exists u; by rewrite lookup_insert_ne].
      eexists. rewrite lookup_insert_eq. split; [done|]. by replace u with v in * by congruence.
    + intros b Hin. destruct (Hbal b Hin) as (? & ? & (u & Hu & ?) & ?). split_and!; [done..| |done].
      destruct (decide (b_cand b = i)) as [<-|Hx]; [|exists u; by rewrite lookup_insert_ne].
      eexists. rewrite lookup_insert_eq. split; [done|]. by replace u with v in * by congruence.
    + intros j u [[<- <-]|[Hne' Hu]]%lookup_insert_Some; [|by apply Hcnt]. cbn.
      exists (w :: ws). split_and!.
      * apply NoDup_cons. split; [|done]. intros Hin. destruct (Hw w Hin) as (_ & _ & Hout).
        apply Hout. rewrite Hp. by left.
      * cbn [length]. lia.
      * intros x [->|Hin]%elem_of_cons; [split_and!; [done|by apply Hcast'|done]|].
        destruct (Hw x Hin) as (? & ? & Hout). split_and!; [done..|]. rewrite Hp in Hout. set_solver.
    + intros j u [[<- <-]|[Hne' Hu]]%lookup_insert_Some Hl'; [by apply (Hldr i v)|by apply Hldr].
  - apply (ok_set_ballots e _ bs _ Hok Hp). by left.
  - eapply ok_set_node; [done..|]. right. cbn. by split_and!; [..|auto|].
Qed.

Lemma vote_steps_ok e e' : election_ok e → rtc vote_step e e' → election_ok e'.
Proof. intros Hok. induction 1; [done|]. eauto using vote_step_ok. Qed.

(** Who has led is never forgotten. *)
Lemma vote_steps_led e e' : rtc vote_step e e' → led e ⊆ led e'.
Proof.
  induction 1 as [|e e' e'' Hs _ IH]; [done|].
  assert (led e ⊆ led e') by (destruct Hs; cbn; set_solver). set_solver.
Qed.

(** A later term, or the same one with the vote that was cast. *)
Definition keeps_vote (v v' : vote_state) : Prop :=
  v_term v < v_term v' ∨ v_term v' = v_term v ∧ (v_voted v = -1 ∨ v_voted v' = v_voted v).

Lemma vote_step_keeps e e' i v :
  vote_step e e' → nodes e !! i = Some v → ∃ v', nodes e' !! i = Some v' ∧ keeps_vote v v'.
Proof.
  assert (keeps_vote v v) as Hv by (right; auto).
  intros Hs Hi. destruct Hs as [j u Hj|j u t Hj Ht|j u t ws Hj Ht ? ? ?|j u Hj ?|j u c bs Hj ? Hc|c t j bs ?
    |j u w bs Hj ?|b bs ?|j u Hj]; cbn; try (by exists v);
    (destruct (decide (i = j)) as [<-|Hne]; [|exists v; by rewrite lookup_insert_ne]);
    rewrite lookup_insert_eq; (eexists; split; [done|]); rewrite Hi in Hj; injection Hj as <-;
    unfold keeps_vote; cbn; auto.
  right. split; [done|]. destruct Hc; auto.
Qed.

Lemma keeps_vote_trans v1 v2 v3 : keeps_vote v1 v2 → keeps_vote v2 v3 → keeps_vote v1 v3.
Proof. unfold keeps_vote. intuition (lia || congruence || (right; split; [lia|]; intuition congruence)). Qed.

Lemma vote_steps_keep e e' i v :
  rtc vote_step e e' → nodes e !! i = Some v → ∃ v', nodes e' !! i = Some v' ∧ keeps_vote v v'.
Proof.
  intros Hr. revert v. induction Hr as [e|e e1 e' Hs _ IH]; intros v Hv.
  - exists v. split; [done|]. right. auto.
  - destruct (vote_step_keeps _ _ _ _ Hs Hv) as (v1 & Hv1 & H1).
    destruct (IH v1 Hv1) as (v' & Hv' & H'). exists v'. split; [done|]. by eapply keeps_vote_trans.
Qed.

(** A cluster in which no vote is under way. *)
Lemma election_start (ns : gmap Z vote_state) :
  map_Forall (λ _ v, v_granted v = 0 ∧ v_leader v = false) ns → election_ok (Election ns [] [] []).
Proof.
  intros Hns. split; cbn; try (intros; set_solver).
  - constructor.
  - intros i v [Hg _]%Hns. exists []. split_and!; [constructor|by rewrite Hg|set_solver].
  - intros i v [_ ->]%Hns. done.
Qed.
End protocol.
