(* ===== verification/RaftQuiet.v ===== *)
(** * What an election depends on, and the operations that leave it alone

    The vote of a server is its term and [voted_for_]; what decides an election
    beside it is the number of votes and the members that vote.  A step is
    [quiet] when it keeps all of that, asks no one for a vote, and makes no
    leader.  Most operations are, and their lemmas make the hint database
    [quiet].  Commits, the installation of a snapshot and the start of a server
    may change the members: they are only [calm], they keep the vote and its count
    but not the electorate.  [RaftVoteSpec] says what the others do. *)
From S2P Require Import Prelude Bytes Buffer BufferSpec BufferSerializer Wire RaftTypes.
From S2P Require Import LogEntry LogStore SrvState StateMgr RaftParams RaftMsg Peer RaftServer.
From S2P Require Import RaftRoles RaftReplicate RaftVote RaftAppend RaftCommit RaftClient RaftMember.
From S2P Require Import RaftDispatch RaftRun.
Local Open Scope Z_scope.

(** ** The electorate *)
Definition electors (s : server) : list Z :=
  id_ s :: omap (λ p, pr ← peer_heap_ s !! p; if is_regular s p then Some (get_id pr) else None)
             (peer_ptrs s).

(** What the electorate and the quorum are computed from. *)
Definition membership (s : server) : list (Z * positive) * gmap positive (Z * bool) * bool * Z :=
  (peers_ s, (λ pr, (get_id pr, is_learner pr)) <$> peer_heap_ s, im_learner_ s,
   custom_election_quorum_size_ (params_ s)).

(** A peer that no one has asked to leave. *)
Definition stays (pr : peer) : Prop := leave_requested_ pr = false ∧ rsv_msg_ pr = None.

(** No server leaves, quorums are not adjusted, terms grow by one, and the
    integers are in range. *)
Record static (s : server) : Prop := {
  static_adjust : auto_adjust_quorum_for_small_cluster_ (params_ s) = false;
  static_leave : srv_to_leave_ s = None;
  static_flags : map_Forall (λ _ pr, stays pr) (peer_heap_ s);
  static_inc : inc_term_cb_ (state_ s) = None;
  static_state : srv_state_ok (state_ s);
  static_id : in_s 32 (id_ s)
}.

(** What a restart reads: the saved state, or that of a server that never saved
    one. *)
Definition saved_of (m : state_mgr) : srv_state :=
  match saved_state_ m with
  | Some st => st
  | None => set_voted_for (-1) (set_term 0 new_srv_state)
  end.
Definition saved_vote (s : server) : srv_state := saved_of (state_mgr_ s).

(** The saved state has the vote of the server. *)
Definition synced (s : server) : Prop :=
  SrvState.term_ (saved_vote s) = get_term s ∧ voted_for_ (saved_vote s) = get_voted_for s ∧
  inc_term_cb_ (saved_vote s) = None.

Definition vote_view (s : server) := (id_ s, get_term s, get_voted_for s, votes_granted_ s, membership s).

(** The votes asked for, as the peer and the request. *)
Definition vote_reqs (o : list effect) : list (positive * req_msg) :=
  omap (λ x, match x with
             | SendReq p _ req _ => if decide (rq_type req = request_vote_request) then Some (p, req) else None
             | _ => None
             end) o.

Record quiet_step (s s' : server) (o : list effect) : Prop := {
  quiet_static : static s';
  quiet_view : vote_view s' = vote_view s;
  quiet_role : role_ s' = leader → role_ s = leader;
  quiet_synced : synced s → synced s';
  quiet_out : vote_reqs o = []
}.

Definition quiet {A} (m : M A) : Prop :=
  ∀ e s a s' o, static s → m e s = Ok (a, s', o) → quiet_step s s' o.

Lemma quiet_step_refl s : static s → quiet_step s s [].
Proof. by split. Qed.

Lemma quiet_step_trans s s' s'' o o' :
  quiet_step s s' o → quiet_step s' s'' o' → quiet_step s s'' (o ++ o').
Proof.
  intros [? Hv ? ? Ho] [? Hv' ? ? Ho']. split; [done| |auto|auto|].
  - by rewrite Hv'.
  - unfold vote_reqs. rewrite omap_app. unfold vote_reqs in Ho, Ho'. by rewrite Ho, Ho'.
Qed.

(** ** The rules *)
Lemma quiet_ret {A} (a : A) : quiet (mret a).
Proof. intros e s ? ? ? Hs [= <- <- <-]. by apply quiet_step_refl. Qed.

Lemma quiet_bind {A B} (m : M A) (f : A → M B) : quiet m → (∀ a, quiet (f a)) → quiet (m ≫= f).
Proof.
  intros Hm Hf e s b s'' o Hs H. apply M_bind_Ok in H as (a & s' & o1 & o2 & H1 & H2 & ->).
  pose proof (Hm _ _ _ _ _ Hs H1) as Q. eapply quiet_step_trans; [exact Q|].
  eapply Hf, H2. apply Q.
Qed.

Lemma quiet_get {B} (f : server → M B) : (∀ s, static s → quiet (f s)) → quiet (get ≫= f).
Proof.
  intros Hf e s b s'' o Hs H. apply M_bind_Ok in H as (a & s' & o1 & o2 & H1 & H2 & ->).
  injection H1 as <- <- <-. by eapply Hf.
Qed.

Lemma quiet_asks {A} (f : env → A) : quiet (asks f).
Proof. intros e s ? ? ? Hs [= <- <- <-]. by apply quiet_step_refl. Qed.

Lemma quiet_lift {A} (o : outcome A) : quiet (lift o).
Proof.
  intros e s ? ? ? Hs H. unfold lift in H. apply bind_Ok in H as (? & ? & [= <- <- <-]).
  by apply quiet_step_refl.
Qed.

Lemma quiet_tell x : vote_reqs [x] = [] → quiet (tell x).
Proof. intros Hx e s ? ? ? Hs [= <- <- <-]. by split. Qed.

Lemma quiet_when b m : quiet m → quiet (when b m).
Proof. destruct b; [done|]. intros _. apply quiet_ret. Qed.

Lemma quiet_for_each {A} (l : list A) (f : A → M unit) : (∀ x, quiet (f x)) → quiet (for_each l f).
Proof.
  intros Hf. induction l as [|x l IH]; simpl; [apply quiet_ret|]. apply quiet_bind; [apply Hf|]. done.
Qed.

(** A change of anything else. *)
Definition rest_of (s : server) :=
  (id_ s, role_ s, state_ s, votes_granted_ s, peers_ s, peer_heap_ s, im_learner_ s, params_ s,
   srv_to_leave_ s, saved_state_ (state_mgr_ s)).

Lemma quiet_same s s' o : rest_of s' = rest_of s → vote_reqs o = [] → static s → quiet_step s s' o.
Proof.
  unfold rest_of. intros [= H1 H2 H3 H4 H5 H6 H7 H8 H9 H10] Ho [].
  split; [split| | | |done].
  - by rewrite H8.
  - by rewrite H9.
  - by rewrite H6.
  - by rewrite H3.
  - by rewrite H3.
  - by rewrite H1.
  - unfold vote_view, get_term, get_voted_for, membership. by rewrite H1, H3, H4, H5, H6, H7, H8.
  - by rewrite H2.
  - unfold synced, saved_vote, saved_of, get_term, get_voted_for. by rewrite H3, H10.
Qed.

Lemma quiet_modify f : (∀ s, rest_of (f s) = rest_of s) → quiet (modify f).
Proof. intros Hf e s ? ? ? Hs [= <- <- <-]. by apply quiet_same. Qed.

Lemma quiet_role_to r : r ≠ leader → quiet (role_ :=! r).
Proof.
  intros Hr e s ? ? ? Hs [= <- <- <-]. destruct Hs. split; [by split|done|done|done|done].
Qed.

Lemma fmap_alter_keep {A B} (g : A → B) (f : A → A) (i : positive) (m : gmap positive A) :
  (∀ x, g (f x) = g x) → g <$> alter f i m = g <$> m.
Proof.
  intros Hg. apply map_eq. intros j. rewrite !lookup_fmap, lookup_alter. case_decide; [|done].
  subst j. destruct (m !! i); simpl; [|done]. by rewrite Hg.
Qed.

(** A change of a peer that keeps who it is. *)
Lemma quiet_upd_peer p f :
  (∀ pr, get_id (f pr) = get_id pr ∧ is_learner (f pr) = is_learner pr) →
  (∀ pr, stays pr → stays (f pr)) →
  quiet (upd_peer p f).
Proof.
  intros Hf Hl e s ? ? ? Hs [= <- <- <-]. destruct Hs as [? ? Hflag ? ? ?].
  split; [split| | | |]; try done.
  - cbn. intros q pr Hq. apply lookup_alter_Some in Hq as [(-> & pr' & Hq & ->)|[? Hq]].
    + apply Hl, (Hflag _ _ Hq).
    + apply (Hflag _ _ Hq).
  - unfold vote_view, membership. cbn. by rewrite fmap_alter_keep by (intros pr; by destruct (Hf pr) as [-> ->]).
Qed.

Lemma quiet_get_peer {B} p (k : peer → M B) :
  (∀ pr, stays pr → quiet (k pr)) → quiet (get_peer p ≫= k).
Proof.
  intros Hk e s b s'' o Hs H. apply M_bind_Ok in H as (pr & s' & o1 & o2 & H1 & H2 & ->).
  unfold get_peer in H1. apply M_bind_Ok in H1 as (? & ? & ? & ? & [= <- <- <-] & H1 & ->).
  unfold lift in H1. apply bind_Ok in H1 as (pr' & Hp & [= <- <- <-]).
  apply or_ub_Ok in Hp. eapply (Hk pr'), H2; [|done]. by apply (static_flags _ Hs _ _ Hp).
Qed.

(** Saving the state makes it synced. *)
Lemma synced_intro s st :
  state_ s = st → saved_state_ (state_mgr_ s) = Some (saved_form st) → synced s.
Proof. unfold synced, saved_vote, saved_of, get_term, get_voted_for. by intros -> ->. Qed.

Lemma save_state_run e s a s' o :
  srv_state_ok (state_ s) → save_state e s = Ok (a, s', o) →
  o = [] ∧ ∃ m, s' = s <| state_mgr_ := m |> ∧ saved_state_ m = Some (saved_form (state_ s)).
Proof.
  intros Hok H. unfold save_state in H.
  apply M_bind_Ok in H as (? & ? & ? & ? & [= <- <- <-] & H & ->).
  apply M_bind_Ok in H as (? & ? & ? & ? & [= <- <- <-] & H & ->).
  apply M_bind_Ok in H as (m & ? & ? & ? & H1 & [= <- <- <-] & ->).
  unfold lift in H1. apply bind_Ok in H1 as (m' & Hm & [= <- <- <-]).
  split; [done|]. exists m'. split; [done|]. rewrite save_state_ok in Hm by done.
  by injection Hm as <-.
Qed.

(** What a computation returns. *)
Definition returns {A} (P : A → Prop) (m : M A) : Prop := ∀ e s a s' o, m e s = Ok (a, s', o) → P a.

Lemma returns_ret {A} (P : A → Prop) a : P a → returns P (mret a).
Proof. by intros Ha e s ? ? ? [= <- <- <-]. Qed.
Lemma returns_bind {A B} (P : B → Prop) (m : M A) f : (∀ a, returns P (f a)) → returns P (m ≫= f).
Proof. intros Hf e s b s' o H. apply M_bind_Ok in H as (? & ? & ? & ? & _ & H & _). by eapply Hf. Qed.
Lemma returns_bind_with {A B} (Q : A → Prop) (P : B → Prop) (m : M A) f :
  returns Q m → (∀ a, Q a → returns P (f a)) → returns P (m ≫= f).
Proof.
  intros Hm Hf e s b s' o H. apply M_bind_Ok in H as (a & ? & ? & ? & H1 & H2 & _).
  eapply Hf, H2. by eapply Hm.
Qed.
Lemma returns_lift_fault {A} (P : A → Prop) f : returns P (lift (Fault f)).
Proof. by intros e s ? ? ?. Qed.
Lemma quiet_bind_returns {A B} (P : A → Prop) (m : M A) (f : A → M B) :
  quiet m → returns P m → (∀ a, P a → quiet (f a)) → quiet (m ≫= f).
Proof.
  intros Hm HP Hf e s b s'' o Hs H. apply M_bind_Ok in H as (a & s' & o1 & o2 & H1 & H2 & ->).
  pose proof (Hm _ _ _ _ _ Hs H1) as Q. eapply quiet_step_trans; [exact Q|].
  eapply Hf, H2; [by eapply HP|apply Q].
Qed.

Ltac returns :=
  repeat (cbv beta; lazymatch goal with
  | |- returns _ (mret _) => apply returns_ret; cbn; try done
  | |- returns _ (_ ≫= _) => apply returns_bind; intros ?
  | |- returns _ (lift (Fault _)) => apply returns_lift_fault
  | |- returns _ exit => apply returns_lift_fault
  | |- returns _ (let '_ := ?x in _) => destruct x
  | |- returns _ (if ?b then _ else _) => destruct b
  | |- returns _ (match ?x with _ => _ end) => destruct x
  end).

(** ** The quiet operations *)
Create HintDb quiet discriminated.
#[export] Hint Constants Opaque : quiet.

(** One step of a proof that a sequence is quiet.  What is known of a state
    that is read stays among the hypotheses. *)
Ltac quiet_step_tac :=
  cbv beta;
  lazymatch goal with
  | H : static ?s, E : srv_to_leave_ ?s = Some _ |- _ => by rewrite (static_leave _ H) in E
  | |- quiet (mret _) => apply quiet_ret
  | |- quiet (get ≫= _) => apply quiet_get; intros ? ?
  | |- quiet (get_peer _ ≫= _) => apply quiet_get_peer; intros ? ?
  | |- quiet (_ ≫= _) => apply quiet_bind; [|intros ?]
  | |- quiet (when _ _) => apply quiet_when
  | |- quiet (for_each _ _) => apply quiet_for_each; intros ?
  | |- quiet (asks _) => apply quiet_asks
  | |- quiet (lift _) => apply quiet_lift
  | |- quiet (tell _) => apply quiet_tell; reflexivity
  | |- quiet (modify _) =>
      first [apply quiet_role_to; discriminate | apply quiet_modify; reflexivity
            | solve [eauto 3 with quiet nocore]]
  | |- quiet (upd_peer _ _) => first [apply quiet_upd_peer; [by intros|by intros] | solve [eauto 3 with quiet nocore]]
  | |- quiet (let '_ := ?x in _) => destruct x eqn:?
  | |- quiet (if ?b then _ else _) => destruct b eqn:?
  | |- quiet (match ?x with _ => _ end) => destruct x eqn:?
  | |- quiet _ => solve [eauto 3 with quiet nocore]
  end.
Ltac quiet := repeat quiet_step_tac.

Lemma q_save_state : quiet save_state.
Proof.
  intros e s a s' o Hs H. pose proof Hs as [? ? ? ? Hok ?].
  apply save_state_run in H as (-> & m & -> & Hsync); [|done].
  split; [by split|done|done| |done]. intros _. by eapply synced_intro.
Qed.
#[export] Hint Resolve q_save_state : quiet.

(** What the state manager does to the saved configuration. *)
Lemma q_save_config c : quiet (save_config c).
Proof.
  intros e s a s' o Hs H. unfold save_config in H.
  apply M_bind_Ok in H as (? & ? & ? & ? & [= <- <- <-] & H & ->).
  apply M_bind_Ok in H as (? & ? & ? & ? & [= <- <- <-] & H & ->).
  apply M_bind_Ok in H as (m & ? & ? & ? & H1 & [= <- <- <-] & ->).
  unfold lift in H1. apply bind_Ok in H1 as (m' & Hm & [= <- <- <-]).
  apply quiet_same; [|done|done]. unfold StateMgr.save_config in Hm. run_ok. done.
Qed.
Lemma q_set_election_timer b : quiet (state_ ::=! allow_election_timer b).
Proof.
  intros e s ? ? ? Hs [= <- <- <-]. destruct Hs as [? ? ? ? [] ?].
  split; [by split|done|done|done|done].
Qed.
Lemma q_log_read {A} (f : (nat → byte) → log_store → outcome A) : quiet (log_read f).
Proof. unfold log_read. quiet. Qed.
Lemma q_call_cb t p : quiet (call_cb t p).
Proof. unfold call_cb. quiet. Qed.
Lemma q_system_exit c : quiet (system_exit c).
Proof. unfold system_exit. quiet. Qed.
Lemma q_exit {A} : quiet (@exit A).
Proof. unfold exit. quiet. Qed.
Lemma q_set_log_store l : quiet (set_log_store l).
Proof. unfold set_log_store. quiet. Qed.
Lemma q_set_config c : quiet (set_config c).
Proof. unfold set_config. quiet. Qed.
Lemma q_get_peer p : quiet (get_peer p).
Proof. unfold get_peer. quiet. Qed.
#[export] Hint Resolve q_save_config q_set_election_timer q_log_read q_call_cb q_system_exit q_exit
  q_set_log_store q_set_config q_get_peer : quiet.

Lemma q_with_peer {A} p (f : peer → A * peer) :
  (∀ pr, get_id (f pr).2 = get_id pr ∧ is_learner (f pr).2 = is_learner pr) →
  (∀ pr, stays pr → stays (f pr).2) →
  quiet (with_peer p f).
Proof. intros. unfold with_peer. quiet. by apply quiet_upd_peer. Qed.

Lemma q_make_busy p : quiet (with_peer p make_busy).
Proof. apply q_with_peer; intros pr; unfold make_busy; by destruct (busy_flag_ pr). Qed.
Lemma q_clear_pending_commit p : quiet (with_peer p clear_pending_commit).
Proof. apply q_with_peer; intros pr; unfold clear_pending_commit; by destruct (pending_commit_flag_ pr). Qed.
Lemma q_need_to_suppress_error p : quiet (with_peer p need_to_suppress_error).
Proof. apply q_with_peer; intros pr; unfold need_to_suppress_error; by destruct (suppress_following_error_ pr). Qed.
Lemma q_recreate_rpc p now b rpc : quiet (with_peer p (recreate_rpc now b rpc)).
Proof.
  apply q_with_peer; intros pr; unfold recreate_rpc; destruct (abandoned_ pr); try done;
    by destruct (b || _).
Qed.
#[export] Hint Resolve q_make_busy q_clear_pending_commit q_need_to_suppress_error q_recreate_rpc : quiet.

(** Timers and requests. *)
Lemma q_schedule_task t ms : quiet (schedule_task t ms).
Proof. unfold schedule_task. quiet. Qed.
Lemma q_cancel_task t : quiet (cancel_task t).
Proof. unfold cancel_task. quiet. Qed.
Lemma q_call_rand_timeout : quiet call_rand_timeout.
Proof. unfold call_rand_timeout. quiet. Qed.
Lemma q_update_rand_timeout : quiet update_rand_timeout.
Proof. unfold update_rand_timeout. quiet. Qed.
#[export] Hint Resolve q_schedule_task q_cancel_task q_call_rand_timeout q_update_rand_timeout : quiet.
Lemma q_restart_election_timer : quiet restart_election_timer.
Proof. unfold restart_election_timer. quiet. Qed.
Lemma q_stop_election_timer : quiet stop_election_timer.
Proof. unfold stop_election_timer. quiet. Qed.
Lemma q_enable_hb p b : quiet (enable_hb p b).
Proof. unfold enable_hb. quiet. Qed.
#[export] Hint Resolve q_restart_election_timer q_stop_election_timer q_enable_hb : quiet.
Lemma q_enable_hb_for_peer p : quiet (enable_hb_for_peer p).
Proof. unfold enable_hb_for_peer. quiet. Qed.
Lemma q_send_req p req h : rq_type req ≠ request_vote_request → quiet (send_req p req h).
Proof.
  intros Hr. unfold send_req. quiet. apply quiet_tell. simpl. by rewrite decide_False.
Qed.
#[export] Hint Resolve q_enable_hb_for_peer : quiet.
#[export] Hint Extern 2 (quiet (send_req _ _ _)) => apply q_send_req; try done; cbn; discriminate : quiet.
Lemma q_recreate_rpc_for p : quiet (recreate_rpc_for p).
Proof. unfold recreate_rpc_for. quiet. Qed.
Lemma q_send_if_free p req h : rq_type req ≠ request_vote_request → quiet (send_if_free p req h).
Proof. intros. unfold send_if_free. quiet. Qed.
Lemma q_term_for_log i : quiet (term_for_log i).
Proof. unfold term_for_log. quiet. Qed.
#[export] Hint Extern 2 (quiet (send_if_free _ _ _)) => apply q_send_if_free; try done; cbn; discriminate : quiet.
#[export] Hint Resolve q_recreate_rpc_for q_term_for_log : quiet.

(** Roles. *)
Lemma q_decay_target_priority : quiet decay_target_priority.
Proof. unfold decay_target_priority. quiet. Qed.
Lemma q_update_target_priority : quiet update_target_priority.
Proof. unfold update_target_priority. quiet. Qed.
Lemma q_destroy_user_snp_ctx c : quiet (destroy_user_snp_ctx c).
Proof. unfold destroy_user_snp_ctx. quiet. Qed.
#[export] Hint Resolve q_decay_target_priority q_update_target_priority q_destroy_user_snp_ctx : quiet.
Lemma q_clear_snapshot_sync_ctx p : quiet (clear_snapshot_sync_ctx p).
Proof. unfold clear_snapshot_sync_ctx. quiet. Qed.
#[export] Hint Resolve q_clear_snapshot_sync_ctx : quiet.
Lemma q_check_snapshot_timeout p : quiet (check_snapshot_timeout p).
Proof. unfold check_snapshot_timeout. quiet. Qed.
Lemma q_reset_srv_to_join : quiet reset_srv_to_join.
Proof. unfold reset_srv_to_join. quiet. Qed.
Lemma q_check_srv_to_leave_timeout : quiet check_srv_to_leave_timeout.
Proof.
  unfold check_srv_to_leave_timeout. apply quiet_get. intros s Hs.
  rewrite (static_leave _ Hs). quiet.
Qed.
Lemma q_cancel_elem p : quiet (cancel_elem p).
Proof. unfold cancel_elem. quiet. Qed.
Lemma q_cancel_async_elem p : quiet (cancel_async_elem p).
Proof. unfold cancel_async_elem. quiet. Qed.
#[export] Hint Resolve q_check_snapshot_timeout q_reset_srv_to_join q_check_srv_to_leave_timeout
  q_cancel_elem q_cancel_async_elem : quiet.
Lemma q_drop_all_pending_commit_elems : quiet drop_all_pending_commit_elems.
Proof. unfold drop_all_pending_commit_elems. quiet. Qed.
#[export] Hint Resolve q_drop_all_pending_commit_elems : quiet.
Lemma q_become_follower : quiet become_follower.
Proof.
  unfold become_follower. repeat (quiet_step_tac; try match goal with
    | H : static ?s |- quiet (when (auto_adjust_quorum_for_small_cluster_ (params_ ?s) && _ && _) _) =>
        rewrite (static_adjust _ H); apply quiet_ret
    end).
Qed.
#[export] Hint Resolve q_become_follower : quiet.
Lemma q_yield_leadership b i : quiet (yield_leadership b i).
Proof. unfold yield_leadership. quiet. Qed.
#[export] Hint Resolve q_yield_leadership : quiet.
Lemma q_check_leadership_validity : quiet check_leadership_validity.
Proof. unfold check_leadership_validity. quiet. Qed.
Lemma q_check_leadership_transfer : quiet check_leadership_transfer.
Proof. unfold check_leadership_transfer. quiet. Qed.
#[export] Hint Resolve q_check_leadership_validity q_check_leadership_transfer : quiet.
Lemma q_check_overall_status : quiet check_overall_status.
Proof. unfold check_overall_status. quiet. Qed.
Lemma q_cs_new_entry t b ty ts : quiet (cs_new_entry t b ty ts).
Proof. unfold cs_new_entry. quiet. Qed.
Lemma q_try_update_precommit_index i : quiet (try_update_precommit_index i).
Proof. unfold try_update_precommit_index. quiet. Qed.
#[export] Hint Resolve q_check_overall_status q_cs_new_entry q_try_update_precommit_index : quiet.
Lemma q_store_log_entry le i : quiet (store_log_entry le i).
Proof. unfold store_log_entry. quiet. Qed.
Lemma q_custom_notification_req d t c lt li tm ci : quiet (custom_notification_req d t c lt li tm ci).
Proof. unfold custom_notification_req. quiet. Qed.
#[export] Hint Resolve q_store_log_entry q_custom_notification_req : quiet.

(** Replication. *)
Lemma q_read_snapshot_object p snp : quiet (read_snapshot_object p snp).
Proof. unfold read_snapshot_object. quiet. Qed.
Lemma q_choose_snapshot p i : quiet (choose_snapshot p i).
Proof. unfold choose_snapshot. quiet. Qed.
#[export] Hint Resolve q_read_snapshot_object q_choose_snapshot : quiet.
Lemma q_create_sync_snapshot_req p i t c : quiet (create_sync_snapshot_req p i t c).
Proof. unfold create_sync_snapshot_req. quiet. Qed.
Lemma q_batch_end p i c : quiet (batch_end p i c).
Proof. unfold batch_end. quiet. Qed.
#[export] Hint Resolve q_create_sync_snapshot_req q_batch_end : quiet.
Lemma q_create_missing_log_req p i st t c : quiet (create_missing_log_req p i st t c).
Proof. unfold create_missing_log_req. quiet. Qed.
#[export] Hint Resolve q_create_missing_log_req : quiet.
Lemma q_create_append_entries_req p : quiet (create_append_entries_req p).
Proof. unfold create_append_entries_req. quiet. Qed.
Lemma q_reconnect_client p : quiet (reconnect_client p).
Proof. unfold reconnect_client. quiet. Qed.
#[export] Hint Resolve q_create_append_entries_req q_reconnect_client : quiet.
Lemma q_reconnect_if_needed p : quiet (reconnect_if_needed p).
Proof. unfold reconnect_if_needed. quiet. Qed.
Lemma q_adjust_quorum_of_two p : quiet (adjust_quorum_of_two p).
Proof.
  unfold adjust_quorum_of_two. apply quiet_get. intros s Hs.
  rewrite (static_adjust _ Hs). cbn [andb]. quiet.
Qed.
#[export] Hint Resolve q_reconnect_if_needed q_adjust_quorum_of_two : quiet.

Definition no_vote (r : option req_msg) : Prop := ∀ m, r = Some m → rq_type m ≠ request_vote_request.
Lemma create_sync_snapshot_req_no_vote p i t c :
  returns (λ x, no_vote x.1) (create_sync_snapshot_req p i t c).
Proof. unfold create_sync_snapshot_req. returns; intros m [= <-]; done. Qed.
Lemma custom_notification_req_no_vote d t c lt li tm ci :
  returns (λ m, rq_type m ≠ request_vote_request) (custom_notification_req d t c lt li tm ci).
Proof. unfold custom_notification_req. returns. Qed.

Lemma create_append_entries_req_no_vote p : returns no_vote (create_append_entries_req p).
Proof.
  assert (Hm : ∀ p i st t c, returns no_vote (create_missing_log_req p i st t c)).
  { intros q i st t c. unfold create_missing_log_req. do 3 (apply returns_bind; intros ?). cbv zeta.
    assert (returns no_vote (buf ← lift (serialize_out_of_log a0 st);
      req ← custom_notification_req (get_id a1) out_of_log_range_warning (Some buf) 0 i t c;
      mret (Some req))).
    { apply returns_bind. intros buf. eapply returns_bind_with; [apply custom_notification_req_no_vote|]. intros req Hreq.
      apply returns_ret. by intros m [= <-]. }
    destruct (last_snapshot_ _) as [snp|]; [|done]. case_decide; [|done].
    eapply returns_bind_with; [apply create_sync_snapshot_req_no_vote|]. intros [m b] Hmb. by apply returns_ret. }
  unfold create_append_entries_req. returns; try apply Hm; intros m [= <-]; done.
Qed.

(** A request that is built, then sent. *)
Lemma quiet_custom_req {B} d t c lt li tm ci (k : req_msg → M B) :
  (∀ m, rq_type m ≠ request_vote_request → quiet (k m)) →
  quiet (custom_notification_req d t c lt li tm ci ≫= k).
Proof. apply quiet_bind_returns; [quiet|apply custom_notification_req_no_vote]. Qed.
Lemma quiet_sync_req {B} p i t c (k : option req_msg * bool → M B) :
  (∀ x, no_vote x.1 → quiet (k x)) → quiet (create_sync_snapshot_req p i t c ≫= k).
Proof. apply quiet_bind_returns; [quiet|apply create_sync_snapshot_req_no_vote]. Qed.

Lemma q_send_to_free_peer p : quiet (send_to_free_peer p).
Proof.
  unfold send_to_free_peer. apply quiet_get_peer. intros pr [_ ->].
  eapply (quiet_bind_returns (λ r, ∀ m h, r = Some (m, h) → rq_type m ≠ request_vote_request)).
  - quiet. 
  - eapply returns_bind_with; [apply create_append_entries_req_no_vote|]. intros m Hm.
    apply returns_ret. destruct m as [m|]; [|done]. intros m' h [= <- <-]. by apply Hm.
  - intros [[m h]|] Hm; [|quiet]. assert (rq_type m ≠ request_vote_request) by by eapply Hm.
    apply quiet_get. intros s Hs. rewrite (static_leave _ Hs). quiet.
Qed.
#[export] Hint Resolve q_send_to_free_peer : quiet.
Lemma q_request_append_entries_to p : quiet (request_append_entries_to p).
Proof. unfold request_append_entries_to. quiet. Qed.
#[export] Hint Resolve q_request_append_entries_to : quiet.
Lemma q_commit i : quiet (commit i).
Proof. unfold commit. quiet. Qed.
#[export] Hint Resolve q_commit : quiet.
Lemma q_request_append_entries : quiet request_append_entries.
Proof. unfold request_append_entries. quiet. Qed.
#[export] Hint Resolve q_request_append_entries : quiet.
Lemma q_request_append_entries_for_all : quiet request_append_entries_for_all.
Proof. unfold request_append_entries_for_all. quiet. Qed.
#[export] Hint Resolve q_request_append_entries_for_all : quiet.

(** ** Votes, pre-votes, reconnection *)
Lemma q_last_conf_entry n ii c : quiet (last_conf_entry n ii c).
Proof. revert ii c. induction n; intros; simpl; quiet. Qed.
Lemma q_in_grace_period b : quiet (in_grace_period b).
Proof. unfold in_grace_period. quiet. Qed.
Lemma q_recreate_for_prevote p : quiet (recreate_for_prevote p).
Proof. unfold recreate_for_prevote. quiet. Qed.
Lemma q_count_prevote_failure : quiet count_prevote_failure.
Proof. unfold count_prevote_failure. quiet. Qed.
Lemma q_adjust_quorum_for_prevote : quiet adjust_quorum_for_prevote.
Proof.
  unfold adjust_quorum_for_prevote. apply quiet_get. intros s Hs.
  rewrite (static_adjust _ Hs). cbn [andb]. quiet.
Qed.
Lemma q_send_prevote_request p : quiet (send_prevote_request p).
Proof. unfold send_prevote_request. quiet. Qed.
#[export] Hint Resolve q_last_conf_entry q_in_grace_period q_recreate_for_prevote
  q_count_prevote_failure q_adjust_quorum_for_prevote q_send_prevote_request : quiet.
Lemma q_request_prevote : quiet request_prevote.
Proof. unfold request_prevote. quiet. Qed.
Lemma q_handle_prevote_req req : quiet (handle_prevote_req req).
Proof. unfold handle_prevote_req. quiet. Qed.
Lemma q_send_reconnect_request : quiet send_reconnect_request.
Proof. unfold send_reconnect_request. quiet. Qed.
Lemma q_handle_reconnect_req req : quiet (handle_reconnect_req req).
Proof. unfold handle_reconnect_req. quiet. Qed.
Lemma q_cancel_schedulers : quiet cancel_schedulers.
Proof. unfold cancel_schedulers. quiet. Qed.
#[export] Hint Resolve q_request_prevote q_handle_prevote_req q_send_reconnect_request
  q_handle_reconnect_req q_cancel_schedulers : quiet.

(** ** Appending *)
Lemma q_entry_buf le : quiet (entry_buf le).
Proof. unfold entry_buf. quiet. Qed.
#[export] Hint Resolve q_entry_buf : quiet.
Lemma q_rollback_entries n idx : quiet (rollback_entries n idx).
Proof. revert idx. induction n; intros; simpl; quiet. Qed.
#[export] Hint Resolve q_rollback_entries : quiet.
Lemma q_rollback i : quiet (rollback i).
Proof. unfold rollback. quiet. Qed.
Lemma q_after_store i le : quiet (after_store i le).
Proof. unfold after_store. quiet. Qed.
#[export] Hint Resolve q_rollback q_after_store : quiet.
Lemma q_overwrite_entries i l : quiet (overwrite_entries i l).
Proof. revert i. induction l; intros; simpl; quiet. Qed.
Lemma q_append_entries l : quiet (append_entries l).
Proof. induction l; simpl; quiet. Qed.
Lemma q_wait_durable n w t : quiet (wait_durable n w t).
Proof. revert w. induction n; intros; simpl; quiet. Qed.
#[export] Hint Resolve q_overwrite_entries q_append_entries q_wait_durable : quiet.
Lemma q_write_entries req : quiet (write_entries req).
Proof. unfold write_entries. quiet. Qed.
#[export] Hint Resolve q_write_entries : quiet.
Lemma q_handle_append_entries_body req : quiet (handle_append_entries_body req).
Proof. unfold handle_append_entries_body. quiet. Qed.
#[export] Hint Resolve q_handle_append_entries_body : quiet.
Lemma q_handle_append_entries req : quiet (handle_append_entries req).
Proof. unfold handle_append_entries. quiet. Qed.
Lemma q_get_expected_committed_log_idx : quiet get_expected_committed_log_idx.
Proof. unfold get_expected_committed_log_idx. quiet. Qed.
Lemma q_resign_to p : quiet (resign_to p).
Proof. unfold resign_to. repeat first [apply quiet_custom_req; intros|quiet_step_tac]. Qed.
#[export] Hint Resolve q_handle_append_entries q_get_expected_committed_log_idx q_resign_to : quiet.
Lemma q_accepted_append p r : quiet (accepted_append p r).
Proof. unfold accepted_append. quiet. Qed.
Lemma q_declined_append p r : quiet (declined_append p r).
Proof. unfold declined_append. quiet. Qed.
#[export] Hint Resolve q_accepted_append q_declined_append : quiet.

Lemma q_handle_append_entries_resp r : quiet (handle_append_entries_resp r).
Proof. unfold handle_append_entries_resp. quiet. Qed.
Lemma q_notify_log_append_completion b : quiet (notify_log_append_completion b).
Proof. unfold notify_log_append_completion. quiet. Qed.
#[export] Hint Resolve q_handle_append_entries_resp q_notify_log_append_completion : quiet.

(** ** Snapshots *)
Lemma q_try {A} (o : outcome A) : quiet (try_ o).
Proof. unfold try_. quiet. Qed.
#[export] Hint Resolve q_try : quiet.
Lemma q_make_snapshot i : quiet (make_snapshot i).
Proof. unfold make_snapshot. quiet. Qed.
#[export] Hint Resolve q_make_snapshot : quiet.
Lemma q_snapshot_and_compact i b : quiet (snapshot_and_compact i b).
Proof. unfold snapshot_and_compact. quiet. Qed.
#[export] Hint Resolve q_snapshot_and_compact : quiet.
Lemma q_create_snapshot : quiet create_snapshot.
Proof. unfold create_snapshot. quiet. Qed.
Lemma q_on_snapshot_completed r b : quiet (on_snapshot_completed r b).
Proof. unfold on_snapshot_completed. quiet. Qed.
Lemma q_snapshot_installed p snp : quiet (snapshot_installed p snp).
Proof. unfold snapshot_installed. quiet. Qed.
Lemma q_set_sync_offset p i : quiet (set_sync_offset p i).
Proof. unfold set_sync_offset. quiet. Qed.
#[export] Hint Resolve q_create_snapshot q_on_snapshot_completed q_snapshot_installed
  q_set_sync_offset : quiet.
Lemma q_handle_install_snapshot_resp r : quiet (handle_install_snapshot_resp r).
Proof. unfold handle_install_snapshot_resp. quiet. Qed.
#[export] Hint Resolve q_handle_install_snapshot_resp : quiet.

(** ** Clients and priorities *)
Lemma q_append_client_entry t ts le : quiet (append_client_entry t ts le).
Proof. unfold append_client_entry. quiet. Qed.
#[export] Hint Resolve q_append_client_entry : quiet.
Lemma q_append_client_entries t ts l i r : quiet (append_client_entries t ts l i r).
Proof. revert i r. induction l; intros; simpl; quiet. Qed.
Lemma q_cs_new_elem el : quiet (cs_new_elem el).
Proof. unfold cs_new_elem. quiet. Qed.
Lemma q_upd_elem p f : quiet (upd_elem p f).
Proof. unfold upd_elem. quiet. Qed.
Lemma q_get_elem p : quiet (get_elem p).
Proof. unfold get_elem. quiet. Qed.
#[export] Hint Resolve q_append_client_entries q_cs_new_elem q_upd_elem q_get_elem : quiet.
Lemma q_wait_for_commit i : quiet (wait_for_commit i).
Proof. unfold wait_for_commit. quiet. Qed.
#[export] Hint Resolve q_wait_for_commit : quiet.
Lemma q_handle_cli_req req t ts : quiet (handle_cli_req req t ts).
Proof. unfold handle_cli_req. quiet. Qed.
#[export] Hint Resolve q_handle_cli_req : quiet.
Lemma q_handle_cli_req_prelock req t : quiet (handle_cli_req_prelock req t).
Proof. unfold handle_cli_req_prelock. quiet. Qed.
Lemma q_handle_cli_req_callback p r : quiet (handle_cli_req_callback p r).
Proof. unfold handle_cli_req_callback. quiet. Qed.
#[export] Hint Resolve q_handle_cli_req_prelock q_handle_cli_req_callback : quiet.
Lemma q_peer_priority p i n : quiet (upd_peer p (λ pr, pr <| Peer.config_ ::= with_priority i n |>)).
Proof.
  apply quiet_upd_peer; intros pr; [|done]. unfold get_id, is_learner, with_priority. cbn.
  by case_decide.
Qed.
#[export] Hint Resolve q_peer_priority : quiet.
Lemma q_set_srv_priority i n : quiet (set_srv_priority i n).
Proof. unfold set_srv_priority. quiet. Qed.
Lemma q_send_priority_change i n p : quiet (send_priority_change i n p).
Proof. unfold send_priority_change. quiet. Qed.
#[export] Hint Resolve q_set_srv_priority q_send_priority_change : quiet.
Lemma q_broadcast_priority_change i n : quiet (broadcast_priority_change i n).
Proof. unfold broadcast_priority_change. quiet. Qed.
Lemma q_append_config c b : quiet (append_config c b).
Proof. unfold append_config. quiet. Qed.
Lemma q_clone_config c : quiet (clone_config c).
Proof. unfold clone_config. quiet. Qed.
#[export] Hint Resolve q_broadcast_priority_change q_append_config q_clone_config : quiet.
Lemma q_set_priority i n b : quiet (set_priority i n b).
Proof. unfold set_priority. quiet. Qed.
Lemma q_handle_priority_change_req req : quiet (handle_priority_change_req req).
Proof. unfold handle_priority_change_req. quiet. Qed.
Lemma q_handle_resignation_request req r : quiet (handle_resignation_request req r).
Proof. unfold handle_resignation_request. quiet. Qed.
Lemma q_handle_custom_notification_resp r : quiet (handle_custom_notification_resp r).
Proof. unfold handle_custom_notification_resp. quiet. Qed.
Lemma q_request_leadership : quiet request_leadership.
Proof.
  unfold request_leadership. repeat first [apply quiet_custom_req; intros|quiet_step_tac].
Qed.
#[export] Hint Resolve q_set_priority q_handle_priority_change_req q_handle_resignation_request
  q_handle_custom_notification_resp q_request_leadership : quiet.

(** ** The operations that may change the members

    They adopt a configuration, or build the peers from one. *)
Definition vote_of (s : server) : Z * Z * Z * Z :=
  (id_ s, get_term s, get_voted_for s, votes_granted_ s).

Record calm_step (s s' : server) (o : list effect) : Prop := {
  calm_static : static s';
  calm_vote : vote_of s' = vote_of s;
  calm_role : role_ s' = leader → role_ s = leader;
  calm_synced : synced s → synced s';
  calm_out : vote_reqs o = []
}.

Definition calm {A} (m : M A) : Prop :=
  ∀ e s a s' o, static s → m e s = Ok (a, s', o) → calm_step s s' o.

Lemma quiet_step_calm s s' o : quiet_step s s' o → calm_step s s' o.
Proof. intros [? Hv ? ? ?]. split; try done. unfold vote_view in Hv. unfold vote_of. congruence. Qed.

Lemma quiet_calm {A} (m : M A) : quiet m → calm m.
Proof. intros Hm e s a s' o Hs H. eapply quiet_step_calm, Hm; done. Qed.

Lemma calm_step_trans s s' s'' o o' :
  calm_step s s' o → calm_step s' s'' o' → calm_step s s'' (o ++ o').
Proof.
  intros [? Hv ? ? Ho] [? Hv' ? ? Ho']. split; [done| |auto|auto|].
  - by rewrite Hv'.
  - unfold vote_reqs. rewrite omap_app. unfold vote_reqs in Ho, Ho'. by rewrite Ho, Ho'.
Qed.

Lemma calm_bind {A B} (m : M A) (f : A → M B) : calm m → (∀ a, calm (f a)) → calm (m ≫= f).
Proof.
  intros Hm Hf e s b s'' o Hs H. apply M_bind_Ok in H as (a & s' & o1 & o2 & H1 & H2 & ->).
  pose proof (Hm _ _ _ _ _ Hs H1) as Q. eapply calm_step_trans; [exact Q|].
  eapply Hf, H2. apply Q.
Qed.

Lemma calm_get {B} (f : server → M B) : (∀ s, static s → calm (f s)) → calm (get ≫= f).
Proof.
  intros Hf e s b s'' o Hs H. apply M_bind_Ok in H as (a & s' & o1 & o2 & H1 & H2 & ->).
  injection H1 as <- <- <-. by eapply Hf.
Qed.

Lemma calm_for_each {A} (l : list A) (f : A → M unit) : (∀ x, calm (f x)) → calm (for_each l f).
Proof.
  intros Hf. induction l as [|x l IH]; simpl; [apply quiet_calm, quiet_ret|].
  apply calm_bind; [apply Hf|]. done.
Qed.

Definition core_of (s : server) :=
  (id_ s, role_ s, state_ s, votes_granted_ s, auto_adjust_quorum_for_small_cluster_ (params_ s),
   srv_to_leave_ s, saved_state_ (state_mgr_ s)).

Lemma calm_modify f :
  (∀ s, core_of (f s) = core_of s) →
  (∀ s, static s → map_Forall (λ _ pr, stays pr) (peer_heap_ (f s))) →
  calm (modify f).
Proof.
  intros Hf Hp e s ? ? ? Hs [= <- <- <-]. specialize (Hf s). specialize (Hp s Hs).
  destruct Hs. unfold core_of in Hf. injection Hf as H1 H2 H3 H4 H5 H6 H7.
  split; [split; first [done|congruence|by rewrite H3]| |congruence| |done].
  - unfold vote_of, get_term, get_voted_for. by rewrite H1, H3, H4.
  - unfold synced, saved_vote, saved_of, get_term, get_voted_for. by rewrite H3, H7.
Qed.

Lemma calm_upd_peer p f : (∀ pr, stays pr → stays (f pr)) → calm (upd_peer p f).
Proof.
  intros Hf. apply calm_modify; [done|]. intros s Hs. cbn.
  intros q pr [(-> & pr' & Hq & ->)|[? Hq]]%lookup_alter_Some; [apply Hf|]; by apply (static_flags _ Hs _ _ Hq).
Qed.

Ltac calm_step_tac :=
  cbv beta;
  lazymatch goal with
  | H : static ?s, E : srv_to_leave_ ?s = Some _ |- _ => by rewrite (static_leave _ H) in E
  | |- calm (mret _) => apply quiet_calm, quiet_ret
  | |- calm (get ≫= _) => apply calm_get; intros ? ?
  | |- calm (_ ≫= _) => apply calm_bind; [|intros ?]
  | |- calm (for_each _ _) => apply calm_for_each; intros ?
  | |- calm (when ?b _) => destruct b eqn:?; unfold when
  | |- calm (modify _) =>
      first [apply calm_modify; [reflexivity|by intros ? []]
            |apply quiet_calm; quiet_step_tac]
  | |- calm (upd_peer _ _) => apply calm_upd_peer; by intros
  | |- calm (let '_ := ?x in _) => destruct x eqn:?
  | |- calm (if ?b then _ else _) => destruct b eqn:?
  | |- calm (match ?x with _ => _ end) => destruct x eqn:?
  | |- calm _ => first [solve [eauto 3 with calm nocore] | apply quiet_calm; solve [quiet]]
  end.
Ltac calm := repeat first [assumption|calm_step_tac].
Create HintDb calm discriminated.
#[export] Hint Constants Opaque : calm.

(** ** Reconfiguration *)
Lemma c_cs_new_peer c : calm (cs_new_peer c).
Proof.
  unfold cs_new_peer. do 2 calm_step_tac. apply calm_bind; [|intros; calm].
  apply calm_modify; [done|]. intros t Ht. cbn.
  by apply map_Forall_insert_2; [|apply Ht].
Qed.
Lemma c_remove_peer_from_peers p : calm (remove_peer_from_peers p).
Proof. unfold remove_peer_from_peers. calm. Qed.
Lemma c_note_own_config c : calm (note_own_config c).
Proof. unfold note_own_config. calm. Qed.
#[export] Hint Resolve c_cs_new_peer c_remove_peer_from_peers c_note_own_config : calm.
Lemma c_add_server c : calm (add_server c).
Proof. unfold add_server. calm. Qed.
Lemma c_remove_server i : calm (remove_server i).
Proof. unfold remove_server. calm. Qed.
Lemma c_set_peer_configs c : calm (set_peer_configs c).
Proof. unfold set_peer_configs. calm. Qed.
#[export] Hint Resolve c_add_server c_remove_server c_set_peer_configs : calm.
Lemma c_reconfigure c : calm (reconfigure c).
Proof. unfold reconfigure. calm. Qed.
#[export] Hint Resolve c_reconfigure : calm.

(** ** Committing *)
Lemma c_commit_conf i le : calm (commit_conf i le).
Proof. unfold commit_conf. calm. Qed.
Lemma q_notify_elem i r : quiet (notify_elem i r).
Proof. unfold notify_elem. quiet. Qed.
Lemma q_early_elem i r : quiet (early_elem i r).
Proof. unfold early_elem. quiet. Qed.
Lemma q_set_async_result p : quiet (set_async_result p).
Proof. unfold set_async_result. quiet. Qed.
#[export] Hint Resolve q_notify_elem q_early_elem q_set_async_result : quiet.
Lemma q_commit_app_log i le b : quiet (commit_app_log i le b).
Proof. unfold commit_app_log. quiet. Qed.
Lemma q_check_freshness : quiet check_freshness.
Proof. unfold check_freshness. quiet. Qed.
#[export] Hint Resolve q_commit_app_log q_check_freshness : quiet.
#[export] Hint Resolve c_commit_conf : calm.
Lemma c_commit_one b : calm (commit_one b).
Proof. unfold commit_one. calm. Qed.
#[export] Hint Resolve c_commit_one : calm.
Lemma c_commit_loop n k f b : calm (commit_loop n k f b).
Proof. revert k. induction n; intros; simpl; calm. Qed.
#[export] Hint Resolve c_commit_loop : calm.
Lemma c_commit_in_bg_exec f : calm (commit_in_bg_exec f).
Proof. unfold commit_in_bg_exec. calm. Qed.
#[export] Hint Resolve c_commit_in_bg_exec : calm.

(** ** Installing a snapshot *)
Lemma c_apply_received_snapshot snp : calm (apply_received_snapshot snp).
Proof. unfold apply_received_snapshot. calm. Qed.
#[export] Hint Resolve c_apply_received_snapshot : calm.
Lemma q_resume_state_machine_execution : quiet resume_state_machine_execution.
Proof. unfold resume_state_machine_execution. quiet. Qed.
#[export] Hint Resolve q_resume_state_machine_execution : quiet.
Lemma c_exit_on_exception {A} (m : M A) : calm m → calm (exit_on_exception m).
Proof.
  intros Hm e s a s' o Hs H. apply (Hm e s a s' o Hs). unfold exit_on_exception in H.
  destruct (m e s) as [?|[]]; done.
Qed.
Lemma c_handle_snapshot_sync_req others req : calm others → calm (handle_snapshot_sync_req others req).
Proof.
  intros Ho. unfold handle_snapshot_sync_req. apply c_exit_on_exception. calm.
Qed.
#[export] Hint Resolve c_handle_snapshot_sync_req : calm.
Lemma q_done_ctx : quiet done_ctx.
Proof. unfold done_ctx. quiet. Qed.
#[export] Hint Resolve q_done_ctx : quiet.
Lemma c_handle_install_snapshot_req others i req :
  calm others → calm (handle_install_snapshot_req others i req).
Proof. intros Ho. unfold handle_install_snapshot_req. calm. Qed.
#[export] Hint Resolve c_handle_install_snapshot_req : calm.

(** ** Starting *)
Lemma fix_params_adjust b p :
  auto_adjust_quorum_for_small_cluster_ (fix_params b p) = auto_adjust_quorum_for_small_cluster_ p.
Proof. unfold fix_params. destruct b; [done|]. by repeat case_decide. Qed.
Lemma c_apply_and_log_current_params : calm apply_and_log_current_params.
Proof.
  unfold apply_and_log_current_params. calm. apply calm_modify; [|by intros ? []].
  intros s'. unfold core_of. cbn. by rewrite fix_params_adjust.
Qed.
#[export] Hint Resolve c_apply_and_log_current_params : calm.
Lemma c_add_initial_peer c : calm (add_initial_peer c).
Proof. unfold add_initial_peer. calm. Qed.
#[export] Hint Resolve c_add_initial_peer : calm.
Lemma c_construct : calm construct.
Proof. unfold construct. calm. Qed.
Lemma q_start_server b : quiet (start_server b).
Proof. unfold start_server. quiet. Qed.
#[export] Hint Resolve c_construct : calm.
#[export] Hint Resolve q_start_server : quiet.

(** ** Heartbeats, errors and other responses *)
Lemma q_sync_log_to_new_srv i : quiet (sync_log_to_new_srv i).
Proof.
  unfold sync_log_to_new_srv. repeat first [apply quiet_sync_req; intros [? ?] Hm|quiet_step_tac].
  simplify_eq. apply q_send_req. by apply Hm.
Qed.
#[export] Hint Resolve q_sync_log_to_new_srv : quiet.
Lemma q_retry_snapshot j : quiet (retry_snapshot j).
Proof. unfold retry_snapshot. quiet. Qed.
Lemma q_heartbeat p : quiet (heartbeat p).
Proof.
  unfold heartbeat. repeat (quiet_step_tac; try match goal with
    | H : stays ?pr |- context [leave_requested_ ?pr] => rewrite (proj1 H); cbn [andb when]
    end).
Qed.
#[export] Hint Resolve q_retry_snapshot q_heartbeat : quiet.
Lemma q_handle_hb_timeout i : quiet (handle_hb_timeout i).
Proof. unfold handle_hb_timeout. quiet. Qed.
Lemma q_handle_peer_err req : quiet (handle_peer_err req).
Proof.
  unfold handle_peer_err. repeat (quiet_step_tac; try match goal with
    | H : stays ?pr |- context [leave_requested_ ?pr] => rewrite (proj1 H); cbn [andb when]
    end).
Qed.
Lemma q_handle_join_cluster_resp r : quiet (handle_join_cluster_resp r).
Proof. unfold handle_join_cluster_resp. quiet. Qed.
Lemma q_handle_log_sync_resp r : quiet (handle_log_sync_resp r).
Proof. unfold handle_log_sync_resp. quiet. Qed.
Lemma q_handle_install_snapshot_resp_new_member r : quiet (handle_install_snapshot_resp_new_member r).
Proof. unfold handle_install_snapshot_resp_new_member. quiet. Qed.
#[export] Hint Resolve q_handle_hb_timeout q_handle_peer_err q_handle_join_cluster_resp
  q_handle_log_sync_resp q_handle_install_snapshot_resp_new_member : quiet.
