(* ===== verification/RaftVoteSpec.v ===== *)
(** * What the handlers do to an election

    A handler leaves the vote of its server alone ([calm]), moves it to a higher
    term, or starts a campaign: the next term, a vote for itself and a request
    to every other elector.  A vote request may get the vote, a response may be
    counted and make a leader. *)
From S2P Require Import Prelude Bytes Buffer BufferSpec BufferSerializer Wire RaftTypes.
From S2P Require Import LogEntry LogStore SrvState StateMgr RaftParams RaftMsg Peer RaftServer.
From S2P Require Import RaftRoles RaftReplicate RaftVote RaftAppend RaftCommit RaftClient RaftMember.
From S2P Require Import RaftDispatch RaftRun RaftQuiet.
Local Open Scope Z_scope.

(** The votes asked for: the candidate, the term and the voter. *)
Definition asked_of (o : list effect) : list (Z * Z * Z) :=
  (λ x, (rq_src x.2, rq_term x.2, rq_dst x.2)) <$> vote_reqs o.

Lemma vote_reqs_app o o' : vote_reqs (o ++ o') = vote_reqs o ++ vote_reqs o'.
Proof. apply omap_app. Qed.
Lemma asked_of_app o o' : asked_of (o ++ o') = asked_of o ++ asked_of o'.
Proof. unfold asked_of. by rewrite vote_reqs_app, fmap_app. Qed.
Lemma asked_of_none o : vote_reqs o = [] → asked_of o = [].
Proof. unfold asked_of. by intros ->. Qed.

(** ** The kinds of steps *)

(** To a higher term, with no vote cast in it. *)
Record raise_step (s s' : server) (o : list effect) : Prop := {
  raise_static : static s';
  raise_id : id_ s' = id_ s;
  raise_term : get_term s < get_term s';
  raise_vote : get_voted_for s' = -1;
  raise_granted : votes_granted_ s' = 0;
  raise_role : role_ s' ≠ leader;
  raise_synced : synced s';
  raise_out : vote_reqs o = []
}.

(** A campaign, which a server that is the quorum alone wins at once. *)
Record campaign_step (s s' : server) (o : list effect) : Prop := {
  campaign_static : static s';
  campaign_id : id_ s' = id_ s;
  campaign_term : get_term s' = u64 (get_term s + 1);
  campaign_vote : get_voted_for s' = id_ s;
  campaign_granted : votes_granted_ s' = 1;
  campaign_role : role_ s' = leader → get_quorum_for_election s < 1;
  campaign_synced : synced s';
  campaign_out : ∃ ws, ws `sublist_of` tail (electors s) ∧
    asked_of o = (λ w, (id_ s, get_term s', w)) <$> ws
}.

Inductive act (s s' : server) (o : list effect) : Prop :=
  | act_calm : calm_step s s' o → act s s' o
  | act_raise : raise_step s s' o → act s s' o
  | act_campaign : campaign_step s s' o → act s s' o.

(** A vote request was answered. *)
Record grant_step (req : req_msg) (resp : resp_msg) (s s' : server) (o : list effect) : Prop := {
  grant_static : static s';
  grant_core : (id_ s', get_term s', votes_granted_ s') = (id_ s, get_term s, votes_granted_ s);
  grant_role : role_ s' = leader → role_ s = leader;
  grant_out : vote_reqs o = [];
  grant_synced : synced s → synced s';
  grant_vote :
    if rs_accepted resp then
      rs_term resp = get_term s ∧ rq_term req = get_term s ∧ get_voted_for s' = rq_src req ∧
      (get_voted_for s = rq_src req ∨ get_voted_for s = -1)
    else get_voted_for s' = get_voted_for s
}.

(** A response was counted, or not: [n] votes more. *)
Record count_step (resp : resp_msg) (s s' : server) (o : list effect) : Prop := {
  count_static : static s';
  count_core : (id_ s', get_term s', get_voted_for s') = (id_ s, get_term s, get_voted_for s);
  count_granted : votes_granted_ s' = votes_granted_ s ∨
    votes_granted_ s' = votes_granted_ s + 1 ∧ rs_accepted resp = true ∧ rs_term resp = get_term s;
  count_role : role_ s' = leader → role_ s = leader ∨ get_quorum_for_election s < votes_granted_ s';
  count_synced : synced s → synced s';
  count_out : vote_reqs o = []
}.

(** ** What the membership determines *)
Lemma is_regular_member_static s pr : static s → is_regular_member s pr = negb (is_learner pr).
Proof. intros Hs. unfold is_regular_member. by rewrite (static_leave _ Hs). Qed.

Definition regular_ids (s : server) (l : list positive) : list Z :=
  omap (λ p, pr ← peer_heap_ s !! p; if is_regular s p then Some (get_id pr) else None) l.

Lemma is_regular_membership s s' p :
  static s → static s' → membership s' = membership s → is_regular s' p = is_regular s p.
Proof.
  unfold membership. intros Hs Hs' [= _ Hheap _ _]. apply (f_equal (.!! p)) in Hheap.
  rewrite !lookup_fmap in Hheap. unfold is_regular.
  destruct (peer_heap_ s' !! p) as [pr'|], (peer_heap_ s !! p) as [pr|]; try done.
  rewrite !is_regular_member_static by done. injection Hheap as _ Hl. by rewrite Hl.
Qed.

Lemma vote_view_parts s i t v g m :
  vote_view s = (i, t, v, g, m) →
  id_ s = i ∧ get_term s = t ∧ get_voted_for s = v ∧ votes_granted_ s = g ∧ membership s = m.
Proof. unfold vote_view. generalize (membership s). intros m' [=]. by subst. Qed.

Lemma regular_ids_membership s s' l :
  static s → static s' → membership s' = membership s → regular_ids s' l = regular_ids s l.
Proof.
  intros Hs Hs' Hm. unfold regular_ids. induction l as [|p l IH]; [done|]. cbn.
  rewrite (is_regular_membership s s' p) by done. unfold membership in Hm.
  injection Hm as _ Hheap _ _. apply (f_equal (.!! p)) in Hheap. rewrite !lookup_fmap in Hheap.
  destruct (peer_heap_ s' !! p) as [pr'|], (peer_heap_ s !! p) as [pr|]; try done.
  - injection Hheap as Hid _. cbn. rewrite Hid. by rewrite IH.
Qed.

Lemma membership_parts s s' :
  membership s' = membership s →
  peer_ptrs s' = peer_ptrs s ∧ im_learner_ s' = im_learner_ s ∧
  custom_election_quorum_size_ (params_ s') = custom_election_quorum_size_ (params_ s).
Proof. unfold membership, peer_ptrs. by intros [= -> _ -> ->]. Qed.

Lemma electors_membership s s' :
  static s → static s' → id_ s' = id_ s → membership s' = membership s → electors s' = electors s.
Proof.
  intros Hs Hs' Hi Hm. unfold electors. rewrite Hi. f_equal.
  destruct (membership_parts s s' Hm) as (-> & _). by apply regular_ids_membership.
Qed.

Lemma quorum_membership s s' :
  static s → static s' → membership s' = membership s →
  get_quorum_for_election s' = get_quorum_for_election s.
Proof.
  intros Hs Hs' Hm. destruct (membership_parts s s' Hm) as (Hp & Hl & Hc).
  unfold get_quorum_for_election. rewrite Hc.
  assert (get_num_voting_members s' = get_num_voting_members s) as ->; [|done].
  unfold get_num_voting_members. rewrite Hp, Hl. do 3 f_equal. apply list_filter_iff. intros p.
  by rewrite (is_regular_membership s s' p).
Qed.

(** ** Composition with quiet steps *)
Lemma quiet_step_members s s' o : quiet_step s s' o → membership s' = membership s.
Proof. intros [? Hv ? ? ?]. unfold vote_view in Hv. congruence. Qed.

Lemma act_calm_after s s1 s' o1 o2 : act s s1 o1 → calm_step s1 s' o2 → act s s' (o1 ++ o2).
Proof.
  intros [H|[]|[]] Hq.
  - apply act_calm. by eapply calm_step_trans.
  - pose proof Hq as [? Hv ? ? Ho]. unfold vote_of in Hv. injection Hv as ? ? ? ?.
    apply act_raise. split; try congruence; [naive_solver|auto|].
    rewrite vote_reqs_app. by rewrite raise_out0, Ho.
  - pose proof Hq as [? Hv ? ? Ho]. unfold vote_of in Hv. injection Hv as ? ? ? ?.
    apply act_campaign. split; try congruence; [naive_solver|auto|].
    destruct campaign_out0 as (ws & ? & Hws). exists ws. split; [done|].
    rewrite asked_of_app, (asked_of_none o2), Hws, app_nil_r by done.
    by replace (get_term s') with (get_term s1) by congruence.
Qed.

Lemma act_quiet_before s s1 s' o1 o2 :
  static s → quiet_step s s1 o1 → act s1 s' o2 → act s s' (o1 ++ o2).
Proof.
  intros Hs Hq Ha. pose proof (quiet_step_members _ _ _ Hq) as Hm.
  pose proof Hq as [? Hv ? ? Ho]. unfold vote_view in Hv. injection Hv as ? ? ? ? _ _ _ _.
  destruct Ha as [Hc|[]|[]].
  - apply act_calm. eapply calm_step_trans; [by apply quiet_step_calm|done].
  - apply act_raise. split; try congruence. rewrite vote_reqs_app. by rewrite Ho.
  - apply act_campaign. split; try congruence.
    + rewrite <- (quorum_membership s s1) by done. auto.
    + destruct campaign_out0 as (ws & Hsub & Hws). exists ws.
      rewrite (electors_membership s s1) in Hsub by done. split; [done|].
      rewrite asked_of_app, (asked_of_none o1), Hws by done.
      by replace (id_ s1) with (id_ s) by congruence.
Qed.

(** ** Asking for votes *)
Lemma send_req_run p req h e s a s' o :
  static s → send_req p req h e s = Ok (a, s', o) →
  quiet_step s s' [] ∧ (o = [] ∨ ∃ rpc, o = [SendReq p rpc req h]).
Proof.
  intros Hs H. unfold send_req in H.
  apply M_bind_Ok in H as (pr & s1 & o1 & o2 & H1 & H2 & ->).
  assert (s1 = s ∧ o1 = []) as [-> ->].
  { unfold get_peer in H1. apply M_bind_Ok in H1 as (? & ? & ? & ? & [= <- <- <-] & H1 & ->).
    unfold lift in H1. by apply bind_Ok in H1 as (? & _ & [= <- <- <-]). }
  destruct (abandoned_ pr).
  { injection H2 as <- <- <-. split; [by apply quiet_step_refl|]. by left. }
  destruct (rpc_ pr) as [rpc|].
  - injection H2 as <- <- <-. split; [by apply quiet_step_refl|]. right. by exists rpc.
  - assert (quiet (upd_peer p set_free)) as Hq by quiet.
    pose proof (Hq _ _ _ _ _ Hs H2) as Q. injection H2 as <- <- <-. split; [done|]. by left.
Qed.

Lemma quiet_step_drop s s' o : quiet_step s s' o → quiet_step s s' [].
Proof. by intros [? ? ? ? ?]. Qed.

(** A step quiet but for the votes it asks for. *)
Definition asks_votes {A} (P : list (Z * Z * Z) → Prop) (m : M A) : Prop :=
  ∀ e s a s' o, static s → m e s = Ok (a, s', o) → quiet_step s s' [] ∧ P (asked_of o).

Lemma asks_votes_bind {A B} P (m : M A) (f : A → M B) :
  quiet m → (∀ a, asks_votes P (f a)) → asks_votes P (m ≫= f).
Proof.
  intros Hm Hf e s b s'' o Hs H. apply M_bind_Ok in H as (a & s' & o1 & o2 & H1 & H2 & ->).
  pose proof (Hm _ _ _ _ _ Hs H1) as Q.
  destruct (Hf a e s' b s'' o2) as [Q2 HP]; [apply Q|done|].
  split; [apply (quiet_step_trans _ s' _ [] []); [by eapply quiet_step_drop|done]|].
  by rewrite asked_of_app, (asked_of_none o1) by apply Q.
Qed.

Lemma asks_votes_quiet {A} (P : list (Z * Z * Z) → Prop) (m : M A) : P [] → quiet m → asks_votes P m.
Proof.
  intros HP Hm e s a s' o Hs H. pose proof (Hm _ _ _ _ _ Hs H) as Q.
  split; [by eapply quiet_step_drop|]. by rewrite asked_of_none by apply Q.
Qed.

Lemma asks_votes_send P p req h :
  P [] → P [(rq_src req, rq_term req, rq_dst req)] → asks_votes P (send_req p req h).
Proof.
  intros H0 H1 e s a s' o Hs H. apply send_req_run in H as [Hq [->|(rpc & ->)]]; [done| |done].
  split; [done|]. unfold asked_of, vote_reqs. cbn. by case_decide.
Qed.

Lemma asks_votes_send_if_free P p req h :
  P [] → P [(rq_src req, rq_term req, rq_dst req)] → asks_votes P (send_if_free p req h).
Proof.
  intros H0 H1. unfold send_if_free. apply asks_votes_bind; [quiet|]. intros []; unfold when.
  - by apply asks_votes_send.
  - apply asks_votes_quiet; [done|quiet].
Qed.

Lemma get_peer_run {A} p (k : peer → M A) e s a s' o :
  (get_peer p ≫= k) e s = Ok (a, s', o) →
  ∃ pr, peer_heap_ s !! p = Some pr ∧ k pr e s = Ok (a, s', o).
Proof.
  intros (pr & s1 & o1 & o2 & H1 & H2 & ->)%M_bind_Ok. unfold get_peer in H1.
  apply M_bind_Ok in H1 as (? & ? & ? & ? & [= <- <- <-] & H1 & ->).
  unfold lift in H1. apply bind_Ok in H1 as (? & Hp%or_ub_Ok & [= <- <- <-]). by eexists.
Qed.

Lemma send_vote_request_run b p e s a s' o :
  static s → send_vote_request b p e s = Ok (a, s', o) →
  quiet_step s s' [] ∧ ∃ ws, ws `sublist_of` regular_ids s [p] ∧
    asked_of o = (λ w, (id_ s, get_term s, w)) <$> ws.
Proof.
  intros Hs H. unfold send_vote_request in H.
  apply M_bind_Ok in H as (? & ? & ? & ? & [= <- <- <-] & H & ->).
  apply M_bind_Ok in H as (? & ? & ? & ? & [= <- <- <-] & H & ->).
  apply get_peer_run in H as (pr & Hpr & H). cbn [regular_ids omap list_omap app].
  unfold is_regular. rewrite Hpr. cbn [mbind option_bind].
  destruct (is_regular_member s pr); cbn [negb] in H.
  - eapply (asks_votes_bind (λ l, ∃ ws, ws `sublist_of` [get_id pr] ∧
      l = (λ w, (id_ s, get_term s, w)) <$> ws)), H; [quiet| |done].
    intros t. apply asks_votes_bind; [quiet|]. intros les.
    apply asks_votes_send_if_free; [by exists []; split; [apply sublist_nil_l|]|].
    by exists [get_id pr].
  - injection H as <- <- <-. split; [by apply quiet_step_refl|]. by exists [].
Qed.

Lemma request_votes_run b l e s a s' o :
  static s → for_each l (send_vote_request b) e s = Ok (a, s', o) →
  quiet_step s s' [] ∧ ∃ ws, ws `sublist_of` regular_ids s l ∧
    asked_of o = (λ w, (id_ s, get_term s, w)) <$> ws.
Proof.
  revert s o. induction l as [|p l IH]; intros s o Hs H; cbn [for_each] in H.
  { injection H as <- <- <-. split; [by apply quiet_step_refl|]. by exists []. }
  apply M_bind_Ok in H as (? & s1 & o1 & o2 & H1 & H2 & ->).
  apply send_vote_request_run in H1 as (Q1 & ws1 & Hsub1 & Hws1); [|done].
  apply IH in H2 as (Q2 & ws2 & Hsub2 & Hws2); [|apply Q1].
  split; [by apply (quiet_step_trans _ _ _ [] [] Q1 Q2)|]. exists (ws1 ++ ws2).
  pose proof (quiet_step_members _ _ _ Q1) as Hm.
  pose proof Q1 as [? Hv ? ? ?]. unfold vote_view in Hv. injection Hv as Hi Ht _ _ _ _ _ _.
  rewrite (regular_ids_membership s s1) in Hsub2 by done. split.
  - change (regular_ids s (p :: l)) with (regular_ids s ([p] ++ l)).
    unfold regular_ids at 1. rewrite omap_app. by apply sublist_app.
  - rewrite asked_of_app, fmap_app, Hws1, Hws2. by rewrite Hi, Ht.
Qed.

(** ** Winning *)

(** Quiet but for the role. *)
Record hush_step (s s' : server) (o : list effect) : Prop := {
  hush_static : static s';
  hush_view : vote_view s' = vote_view s;
  hush_synced : synced s → synced s';
  hush_out : vote_reqs o = []
}.

Lemma quiet_step_hush s s' o : quiet_step s s' o → hush_step s s' o.
Proof. by intros []. Qed.
Lemma hush_step_trans s s' s'' o o' :
  hush_step s s' o → hush_step s' s'' o' → hush_step s s'' (o ++ o').
Proof.
  intros [? Hv ? Ho] [? Hv' ? Ho']. split; [done| |auto|].
  - by rewrite Hv'.
  - by rewrite vote_reqs_app, Ho, Ho'.
Qed.

Lemma become_leader_run e s a s' o :
  static s → become_leader e s = Ok (a, s', o) → hush_step s s' o.
Proof.
  intros Hs H. unfold become_leader in H.
  apply M_bind_Ok in H as (? & s1 & o1 & ? & H1 & H & ->).
  apply (q_stop_election_timer _ _ _ _ _ Hs) in H1.
  do 3 (apply M_bind_Ok in H as (? & ? & ? & ? & [= <- <- <-] & H & ->)).
  apply M_bind_Ok in H as (? & ? & ? & o2 & [= <- <- <-] & H & ->).
  eapply hush_step_trans; [by apply quiet_step_hush|].
  assert (static (s1 <| role_ := leader |>)) as Hs2 by (destruct (quiet_static _ _ _ H1); by split).
  apply (hush_step_trans _ (s1 <| role_ := leader |>) _ [] o2); [by split|].
  apply quiet_step_hush. revert Hs2 H. generalize (s1 <| role_ := leader |>) as s2. intros s2 Hs2 H.
  assert (∀ {A} (m : M A) e s a s' o, quiet m → static s → m e s = Ok (a, s', o) → quiet_step s s' o)
    as Hrun by (intros ? m ? ? ? ? ? Hm; apply Hm).
  eapply Hrun; [|exact Hs2|exact H]. quiet.
Qed.

(** ** Campaigns *)
Lemma static_state_upd s f :
  static s → inc_term_cb_ (f (state_ s)) = None → srv_state_ok (f (state_ s)) →
  static (s <| state_ ::= f |>).
Proof. intros [? ? ? ? ? ?] Hi Hok. split; [assumption..|exact Hi|exact Hok|assumption]. Qed.

(** The server after its vote for itself. *)
Definition voted_self (s : server) (m : state_mgr) : server :=
  s <| state_ ::= set_voted_for (id_ s) |> <| state_mgr_ := m |>
    <| votes_granted_ ::= Z.succ |> <| votes_responded_ ::= Z.succ |>.

Lemma voted_self_static s m : static s → static (voted_self s m).
Proof.
  intros Hs. assert (static (s <| state_ ::= set_voted_for (id_ s) |>)) as [? ? ? ? ? ?].
  { apply static_state_upd; [done|apply (static_inc _ Hs)|].
    split; [apply (static_state _ Hs)|apply (static_id _ Hs)]. }
  by split.
Qed.

Lemma voted_self_view s m :
  votes_granted_ s = 0 → vote_view (voted_self s m) = (id_ s, get_term s, id_ s, 1, membership s).
Proof. intros Hg. unfold vote_view. cbn. by rewrite Hg. Qed.

Lemma request_vote_unfold b e s a s' o :
  static s → request_vote b e s = Ok (a, s', o) →
  ∃ m t, voted_self s m = t ∧ synced t ∧
    (if decide (votes_granted_ t > get_quorum_for_election t) then
       election_completed_ :=! true ;; become_leader
     else for_each (peer_ptrs t) (send_vote_request b)) e t = Ok (a, s', o).
Proof.
  intros Hs H. unfold request_vote in H.
  do 2 (apply M_bind_Ok in H as (? & ? & ? & ? & [= <- <- <-] & H & ->)).
  apply M_bind_Ok in H as (? & s2 & o1 & o2 & H1 & H & ->).
  apply save_state_run in H1 as (-> & m & -> & Hsync);
    [|split; [apply (static_state _ Hs)|apply (static_id _ Hs)]].
  do 3 (apply M_bind_Ok in H as (? & ? & ? & ? & [= <- <- <-] & H & ->)).
  exists m. eexists. split; [reflexivity|]. split; [|exact H].
  eapply synced_intro; cbn; [reflexivity|exact Hsync].
Qed.

Lemma request_vote_run b e s a s' o :
  static s → votes_granted_ s = 0 → role_ s ≠ leader → request_vote b e s = Ok (a, s', o) →
  static s' ∧
  vote_view s' = (id_ s, get_term s, id_ s, 1, membership s) ∧
  synced s' ∧ (role_ s' = leader → get_quorum_for_election s < 1) ∧
  ∃ ws, ws `sublist_of` tail (electors s) ∧ asked_of o = (λ w, (id_ s, get_term s, w)) <$> ws.
Proof.
  intros Hs Hg Hr H. apply request_vote_unfold in H as (m & s3 & Es3 & Hsync & H); [|done].
  pose proof (voted_self_static s m Hs) as Hs3. pose proof (voted_self_view s m Hg) as Hv3.
  assert (role_ (voted_self s m) = role_ s) as Hr3 by reflexivity.
  rewrite Es3 in Hs3, Hv3, Hr3. clear Es3.
  pose proof Hv3 as Hview. apply vote_view_parts in Hv3 as (Hi3 & Ht3 & _ & Hg3 & Hm).
  rewrite (quorum_membership s s3), Hg3 in H by done.
  case_decide as Hw.
  - apply M_bind_Ok in H as (? & s4 & o1 & o2 & H1 & H & ->).
    assert (quiet (election_completed_ :=! true)) as Hq by quiet.
    apply (Hq _ _ _ _ _ Hs3) in H1 as [? Hv ? ? Ho].
    apply become_leader_run in H as [? Hv' ? Ho']; [|done].
    split_and!; [done|by rewrite Hv', Hv|auto|intros; lia|].
    exists []. split; [apply sublist_nil_l|]. by rewrite asked_of_app, !asked_of_none.
  - apply request_votes_run in H as ([? Hv Hrole Hsy _] & ws & Hsub & Hws); [|done].
    split_and!; [done|by rewrite Hv|auto| |].
    + intros Hl%Hrole. congruence.
    + exists ws. split; [|by rewrite Hws, Hi3, Ht3].
      rewrite <- (electors_membership s s3) by done. exact Hsub.
Qed.

(** An election step that also keeps the members. *)
Record act_m (s s' : server) (o : list effect) : Prop := {
  am_act : act s s' o;
  am_members : membership s' = membership s
}.

Definition acts {A} (m : M A) : Prop := ∀ e s a s' o, static s → m e s = Ok (a, s', o) → act_m s s' o.

Lemma acts_quiet {A} (m : M A) : quiet m → acts m.
Proof.
  intros Hm e s a s' o Hs H. pose proof (Hm _ _ _ _ _ Hs H) as Q.
  split; [apply act_calm; by apply quiet_step_calm|by eapply quiet_step_members].
Qed.

Lemma act_static s s' o : act s s' o → static s'.
Proof. by intros [[]|[]|[]]. Qed.

Lemma act_m_before s s1 s' o1 o2 :
  static s → quiet_step s s1 o1 → act_m s1 s' o2 → act_m s s' (o1 ++ o2).
Proof.
  intros Hs Hq [Ha Hm]. split; [by eapply act_quiet_before|].
  rewrite Hm. by eapply quiet_step_members.
Qed.
Lemma act_m_after s s1 s' o1 o2 : act_m s s1 o1 → quiet_step s1 s' o2 → act_m s s' (o1 ++ o2).
Proof.
  intros [Ha Hm] Hq. split; [by eapply act_calm_after, quiet_step_calm|].
  rewrite <- Hm. by eapply quiet_step_members.
Qed.

Lemma acts_before {A B} (m : M A) (f : A → M B) : quiet m → (∀ a, acts (f a)) → acts (m ≫= f).
Proof.
  intros Hm Hf e s b s'' o Hs H. apply M_bind_Ok in H as (a & s' & o1 & o2 & H1 & H2 & ->).
  pose proof (Hm _ _ _ _ _ Hs H1) as Q. eapply act_m_before; [done|exact Q|].
  eapply Hf, H2. apply Q.
Qed.
Lemma acts_after {A B} (m : M A) (f : A → M B) : acts m → (∀ a, quiet (f a)) → acts (m ≫= f).
Proof.
  intros Hm Hf e s b s'' o Hs H. apply M_bind_Ok in H as (a & s' & o1 & o2 & H1 & H2 & ->).
  pose proof (Hm _ _ _ _ _ Hs H1) as Q. eapply act_m_after; [exact Q|].
  eapply Hf, H2. eapply act_static, Q.
Qed.
Lemma acts_get {B} (f : server → M B) : (∀ s, static s → acts (f s)) → acts (get ≫= f).
Proof.
  intros Hf e s b s'' o Hs H. apply M_bind_Ok in H as (a & s' & o1 & o2 & H1 & H2 & ->).
  injection H1 as <- <- <-. by eapply Hf.
Qed.

(** The server when it asks for votes: the next term, no vote yet. *)
Definition campaign_start (s : server) : server :=
  s <| state_ := set_term (u64 (get_term s + 1)) (state_ s) |> <| state_ ::= set_voted_for (-1) |>
    <| role_ := candidate |> <| index_at_becoming_leader_ := 0 |> <| votes_granted_ := 0 |>
    <| votes_responded_ := 0 |> <| election_completed_ := false |>.

Lemma campaign_start_static s : static s → static (campaign_start s).
Proof.
  intros [? ? ? Hinc [Ht Hv] ?]. split; cbn; try done. split; cbn; [by apply wrap_u_range|].
  unfold in_s. lia.
Qed.

Lemma campaign_unfold b (s : server) e a s' o :
  static s →
  (state ← lift (inc_term (state_ s));
   state_ :=! state ;;
   state_ ::=! set_voted_for (-1) ;;
   role_ :=! candidate ;;
   index_at_becoming_leader_ :=! 0 ;;
   votes_granted_ :=! 0 ;;
   votes_responded_ :=! 0 ;;
   election_completed_ :=! false ;;
   request_vote b) e s = Ok (a, s', o) →
  ∃ t, campaign_start s = t ∧ request_vote b e t = Ok (a, s', o).
Proof.
  intros Hs H. apply M_bind_Ok in H as (st & ? & ? & ? & H1 & H & ->).
  unfold lift, inc_term in H1. rewrite (static_inc _ Hs) in H1. cbn in H1. injection H1 as <- <- <-.
  do 7 (apply M_bind_Ok in H as (? & ? & ? & ? & [= <- <- <-] & H & ->)). cbn [app].
  eexists. split; [reflexivity|exact H].
Qed.

Lemma campaign_run b (s : server) e a s' o :
  static s →
  (state ← lift (inc_term (state_ s));
   state_ :=! state ;;
   state_ ::=! set_voted_for (-1) ;;
   role_ :=! candidate ;;
   index_at_becoming_leader_ :=! 0 ;;
   votes_granted_ :=! 0 ;;
   votes_responded_ :=! 0 ;;
   election_completed_ :=! false ;;
   request_vote b) e s = Ok (a, s', o) → act_m s s' o.
Proof.
  intros Hs H. apply campaign_unfold in H as (t & Et & H); [|done].
  pose proof (campaign_start_static s Hs) as Ht.
  assert (vote_view (campaign_start s) = (id_ s, u64 (get_term s + 1), -1, 0, membership s)) as Hvt
    by reflexivity.
  assert (role_ (campaign_start s) = candidate) as Hrt by reflexivity.
  rewrite Et in Ht, Hvt, Hrt. clear Et. apply vote_view_parts in Hvt as (Hi & Htm & _ & Hg & Hm).
  apply request_vote_run in H as (Hs' & Hv & Hsync & Hrole & ws & Hsub & Hws); [|done..|by rewrite Hrt].
  rewrite (quorum_membership s t) in Hrole by done. rewrite (electors_membership s t) in Hsub by done.
  apply vote_view_parts in Hv as (Hi' & Htm' & Hv' & Hg' & Hm'). split; [|congruence].
  apply act_campaign. split; try congruence; [done..|].
  exists ws. split; [done|]. by rewrite Hws, Hi, Htm'.
Qed.

Lemma acts_initiate_vote b : acts (initiate_vote b).
Proof.
  unfold initiate_vote. apply acts_before; [quiet|]. intros []; [apply acts_quiet; quiet|].
  intros e s a s' o Hs H.
  do 2 (apply M_bind_Ok in H as (? & ? & ? & ? & [= <- <- <-] & H & ->)). cbn [app].
  apply M_bind_Ok in H as (? & s1 & o1 & o2 & H1 & H2 & ->).
  assert (act_m s s1 o1) as Ha.
  { unfold when in H1. destruct (_ || _) in H1; [by eapply campaign_run|].
    by apply (acts_quiet _ (quiet_ret tt)) in H1. }
  eapply act_m_after; [exact Ha|].
  match type of H2 with ?m e s1 = _ => assert (quiet m) as Hq by quiet end.
  eapply Hq, H2. eapply act_static, Ha.
Qed.

Lemma acts_when b m : acts m → acts (when b m).
Proof. destruct b; [done|]. intros _. apply acts_quiet, quiet_ret. Qed.

(** [acts] passes over the quiet steps before and after the one that matters. *)
Ltac acts_step :=
  cbv beta;
  lazymatch goal with
  | |- acts (get ≫= _) => apply acts_get; intros ? ?
  | |- acts (_ ≫= _) => first [apply acts_before; [solve [quiet]|intros ?]|apply acts_after; [|intros ?; solve [quiet]]]
  | |- acts (when _ _) => apply acts_when
  | |- acts (if ?b then _ else _) => destruct b eqn:?
  | |- acts (match ?x with _ => _ end) => destruct x eqn:?
  | |- acts (initiate_vote _) => apply acts_initiate_vote
  | |- acts _ => apply acts_quiet; solve [quiet]
  end.
Ltac acts := repeat acts_step.

Lemma acts_handle_prevote_resp r : acts (handle_prevote_resp r).
Proof. unfold handle_prevote_resp. acts. Qed.
Lemma acts_start_election : acts start_election.
Proof. unfold start_election. acts. Qed.
Lemma acts_handle_election_timeout : acts handle_election_timeout.
Proof. unfold handle_election_timeout. acts. apply acts_start_election. Qed.
Lemma acts_handle_leadership_takeover r : acts (handle_leadership_takeover r).
Proof. unfold handle_leadership_takeover. acts. Qed.

(** ** A higher term *)

(** The server in the new term, before the state is saved. *)
Definition raised (s : server) (term : Z) : server :=
  s <| role_ := follower |> <| state_ ::= set_term term |> <| state_ ::= set_voted_for (-1) |>
    <| state_ ::= allow_election_timer true |> <| election_completed_ := false |>
    <| votes_granted_ := 0 |> <| votes_responded_ := 0 |>.

Lemma raised_static s term : static s → in_u 64 term → static (raised s term).
Proof. intros [? ? ? Hinc [Ht Hv] ?] Hterm. split; cbn; try done. Qed.

Lemma update_term_unfold term e s a s' o :
  update_term term e s = Ok (a, s', o) →
  if decide (term > get_term s) then
    a = true ∧ ∃ t, raised s term = t ∧ (save_state ;; become_follower) e t = Ok (tt, s', o)
  else a = false ∧ s' = s ∧ o = [].
Proof.
  intros H. unfold update_term in H.
  apply M_bind_Ok in H as (? & ? & ? & ? & [= <- <- <-] & H & ->). cbn [app].
  case_decide; [|by injection H as <- <- <-].
  do 7 (apply M_bind_Ok in H as (? & ? & ? & ? & [= <- <- <-] & H & ->)). cbn [app].
  apply M_bind_Ok in H as ([] & s1 & o1 & ? & H1 & H & ->).
  apply M_bind_Ok in H as ([] & s2 & o2 & ? & H2 & [= <- <- <-] & ->).
  split; [done|]. eexists. split; cycle 1.
  - apply M_bind_Ok. exists tt, s1, o1, o2. split; [exact H1|]. split; [exact H2|].
    by rewrite app_nil_r.
  - reflexivity.
Qed.

Lemma save_state_synced e s a s' o :
  static s → save_state e s = Ok (a, s', o) → quiet_step s s' o ∧ synced s'.
Proof.
  intros Hs H. split; [by eapply q_save_state|].
  apply save_state_run in H as (_ & m & -> & Hm); [|apply Hs]. by eapply synced_intro.
Qed.

Lemma synced_save e s a s' o :
  static s → (save_state ;; become_follower) e s = Ok (a, s', o) → quiet_step s s' o ∧ synced s'.
Proof.
  intros Hs H. apply M_bind_Ok in H as ([] & s1 & o1 & o2 & H1 & H & ->).
  apply save_state_synced in H1 as [Q1 Hsync]; [|done].
  apply (q_become_follower _ _ _ _ _ (quiet_static _ _ _ Q1)) in H as Q2.
  split; [by eapply quiet_step_trans|]. by apply Q2.
Qed.

(** Whether the term was raised is what is returned. *)
Lemma update_term_run term e s a s' o :
  static s → in_u 64 term → update_term term e s = Ok (a, s', o) →
  (if a then raise_step s s' o else quiet_step s s' o) ∧ membership s' = membership s ∧
  term ≤ get_term s'.
Proof.
  intros Hs Hterm H. apply update_term_unfold in H. case_decide as Hlt.
  - destruct H as (-> & t & Et & H). pose proof (raised_static s term Hs Hterm) as Ht.
    assert (vote_view (raised s term) = (id_ s, term, -1, 0, membership s)) as Hvt by reflexivity.
    assert (role_ (raised s term) = follower) as Hrt by reflexivity.
    rewrite Et in Ht, Hvt, Hrt. clear Et. apply synced_save in H as [[? Hv Hr ? ?] Hsync]; [|done].
    rewrite Hvt in Hv. apply vote_view_parts in Hv as (? & Hterm' & ? & ? & ?). split_and!.
    + split; try done; [by rewrite Hterm'; lia|]. intros Hl%Hr. by rewrite Hrt in Hl.
    + done.
    + rewrite Hterm'. lia.
  - destruct H as (-> & -> & ->). split_and!; [by apply quiet_step_refl|done|lia].
Qed.
