(* ===== verification/RaftHandlerSpec.v ===== *)
(** * What a request, a response and an error do to an election

    [process_req] and [handle_rpc_result] in the terms of [RaftVoteSpec], for
    the requests of a cluster whose members stay. *)
From S2P Require Import Prelude Bytes Buffer BufferSpec BufferSerializer Wire RaftTypes.
From S2P Require Import LogEntry LogStore SrvState StateMgr RaftParams RaftMsg Peer RaftServer.
From S2P Require Import RaftRoles RaftReplicate RaftVote RaftAppend RaftCommit RaftClient RaftMember.
From S2P Require Import RaftDispatch RaftRun RaftQuiet RaftVoteSpec.
Local Open Scope Z_scope.

(** ** A vote request *)

(** The server after it voted. *)
Definition voted (s : server) (c : Z) : server := s <| state_ ::= set_voted_for c |>.

Lemma voted_static s c : static s → in_s 32 c → static (voted s c).
Proof. intros [? ? ? Hinc [Ht Hv] ?] Hc. split; cbn; try done. Qed.

Lemma handle_vote_req_run req e s resp s' o :
  static s → in_s 32 (rq_src req) → handle_vote_req req e s = Ok (resp, s', o) →
  grant_step req resp s s' o ∧ membership s' = membership s ∧ rs_type resp = request_vote_response.
Proof.
  intros Hs Hsrc H. unfold handle_vote_req in H.
  apply M_bind_Ok in H as (? & ? & ? & ? & [= <- <- <-] & H & ->).
  apply M_bind_Ok in H as (last & s1 & o1 & o2 & H1 & H & ->).
  apply q_log_read in H1 as Q; [|done].
  assert (s1 = s ∧ o1 = []) as [-> ->].
  { unfold log_read in H1.
    do 2 (apply M_bind_Ok in H1 as (? & ? & ? & ? & [= <- <- <-] & H1 & ->)).
    unfold lift in H1. by apply bind_Ok in H1 as (? & _ & [= <- <- <-]). }
  cbn [app] in *.
  assert (∀ resp, rs_accepted resp = false → grant_step req resp s s []) as Hno.
  { intros r Hr. split; try done. by rewrite Hr. }
  destruct (_ && _) eqn:Hgrant in H; [|injection H as <- <- <-; by split_and!; [apply Hno|..]].
  destruct (negb _ && _) in H; [injection H as <- <- <-; by split_and!; [apply Hno|..]|].
  apply M_bind_Ok in H as (? & ? & ? & ? & [= <- <- <-] & H & ->).
  apply M_bind_Ok in H as ([] & s3 & o3 & ? & H3 & [= <- <- <-] & ->).
  assert (∃ t, voted s (rq_src req) = t ∧ save_state e t = Ok (tt, s3, o3)) as (t & Et & Hsave).
  { eexists. split; [|exact H3]. reflexivity. }
  pose proof (voted_static s _ Hs Hsrc) as Ht.
  assert (vote_view (voted s (rq_src req)) = (id_ s, get_term s, rq_src req, votes_granted_ s, membership s))
    as Hvt by reflexivity.
  assert (role_ (voted s (rq_src req)) = role_ s) as Hrt by reflexivity.
  rewrite Et in Ht, Hvt, Hrt. clear Et H3.
  apply save_state_synced in Hsave as [[? Hv Hr _ Ho] Hsync]; [|done].
  rewrite Hvt in Hv. apply vote_view_parts in Hv as (? & ? & ? & ? & ?).
  apply andb_prop in Hgrant as [[Hterm%bool_decide_eq_true _]%andb_prop Hvote%bool_decide_eq_true].
  split_and!; [split|done|done]; cbn [rs_accepted accept new_resp rs_term]; try done.
  - congruence.
  - by rewrite <- Hrt.
  - by rewrite app_nil_r.
Qed.

(** ** A vote response *)
Definition counts {A} (resp : resp_msg) (m : M A) : Prop :=
  ∀ e s a s' o, static s → m e s = Ok (a, s', o) → count_step resp s s' o ∧ membership s' = membership s.

Lemma quiet_count resp s s' o : quiet_step s s' o → count_step resp s s' o ∧ membership s' = membership s.
Proof.
  intros [? Hv ? ? ?]. apply vote_view_parts in Hv as (? & ? & ? & ? & ?).
  split; [split|]; try done; [congruence|by left|auto].
Qed.

Lemma counts_quiet {A} resp (m : M A) : quiet m → counts resp m.
Proof. intros Hm e s a s' o Hs H. eapply quiet_count, Hm; done. Qed.

Lemma count_after_quiet resp s s1 s' o1 o2 :
  static s → quiet_step s s1 o1 →
  count_step resp s1 s' o2 ∧ membership s' = membership s1 →
  count_step resp s s' (o1 ++ o2) ∧ membership s' = membership s.
Proof.
  intros Hs Hq [[? Hc Hg Hr ? Ho] Hm]. pose proof (quiet_step_members _ _ _ Hq) as Hm1.
  pose proof Hq as [? Hv Hr1 ? Ho1]. apply vote_view_parts in Hv as (? & Ht & ? & Hg1 & _).
  split; [|congruence]. split; [done|congruence| | |auto|by rewrite vote_reqs_app, Ho1, Ho].
  - by rewrite <- Hg1, <- Ht.
  - rewrite <- (quorum_membership s s1) by done. intros [?|?]%Hr; auto.
Qed.

Lemma count_before_quiet resp s s1 s' o1 o2 :
  count_step resp s s1 o1 ∧ membership s1 = membership s → quiet_step s1 s' o2 →
  count_step resp s s' (o1 ++ o2) ∧ membership s' = membership s.
Proof.
  intros [[? Hc Hg Hr ? Ho] Hm] Hq. pose proof (quiet_step_members _ _ _ Hq) as Hm1.
  pose proof Hq as [? Hv Hr1 ? Ho1]. apply vote_view_parts in Hv as (? & Ht & ? & Hg1 & _).
  split; [|congruence]. split; [done|congruence| | |auto|by rewrite vote_reqs_app, Ho1, Ho].
  - by rewrite Hg1.
  - rewrite Hg1. auto.
Qed.

(** One vote more. *)
Definition counted (s : server) : server := s <| votes_granted_ ::= Z.succ |>.

Lemma counted_static s : static s → static (counted s).
Proof. by intros []. Qed.

(** Quiet, but for a role that the votes are enough for. *)
Definition won_step (s s' : server) (o : list effect) : Prop :=
  hush_step s s' o ∧ (role_ s' = leader → role_ s = leader ∨ get_quorum_for_election s < votes_granted_ s).

Lemma count_intro resp s s1 s2 s' o1 o2 :
  static s → quiet_step s s1 o1 →
  s2 = s1 ∨ counted s1 = s2 ∧ rs_accepted resp = true ∧ rs_term resp = get_term s →
  won_step s2 s' o2 → count_step resp s s' (o1 ++ o2) ∧ membership s' = membership s.
Proof.
  intros Hs Hq H2 Hw. apply count_after_quiet with s1; [done..|].
  pose proof Hq as [Hs1 Hv1 _ _ _]. apply vote_view_parts in Hv1 as (_ & Ht1 & _).
  destruct Hw as [[? Hv ? ?] Hr].
  destruct H2 as [->|(E & Ha & Ht)].
  - apply vote_view_parts in Hv as (? & ? & ? & Hg & ?). split; [|done].
    split; try done; [congruence|by left|]. by rewrite Hg.
  - assert (vote_view (counted s1) =
      (id_ s1, get_term s1, get_voted_for s1, votes_granted_ s1 + 1, membership s1)) as Hc by reflexivity.
    assert (role_ (counted s1) = role_ s1) as Hr1 by reflexivity.
    assert (synced s1 → synced (counted s1)) as Hsy by by intros [].
    pose proof (counted_static _ Hs1) as Hs2. rewrite E in Hc, Hr1, Hsy, Hs2.
    apply vote_view_parts in Hv as (? & ? & ? & Hg & ?).
    apply vote_view_parts in Hc as (? & ? & ? & Hg2 & Hm2). split; [|congruence].
    split; [done|congruence|right; split_and!; [congruence|done|congruence]| |auto|done].
    rewrite Hg, <- Hr1, <- (quorum_membership s1 s2) by done. done.
Qed.

Lemma handle_vote_resp_run resp e s a s' o :
  static s → handle_vote_resp resp e s = Ok (a, s', o) →
  count_step resp s s' o ∧ membership s' = membership s.
Proof.
  intros Hs H. unfold handle_vote_resp in H.
  apply M_bind_Ok in H as (? & ? & ? & ? & [= <- <- <-] & H & ->). cbn [app].
  assert (quiet_step s s []) as Hrefl by by apply quiet_step_refl.
  destruct (election_completed_ s); [injection H as <- <- <-; by apply quiet_count|].
  case_decide as Hterm; [injection H as <- <- <-; by apply quiet_count|].
  apply M_bind_Ok in H as ([] & s1 & o1 & o2 & H1 & H & ->).
  assert (quiet (votes_responded_ ::=! Z.succ)) as Hq by quiet.
  apply (Hq _ _ _ _ _ Hs) in H1. clear Hq.
  apply M_bind_Ok in H as ([] & s2 & o3 & o4 & H2 & H & ->).
  assert (o3 = [] ∧ (s2 = s1 ∨ counted s1 = s2 ∧ rs_accepted resp = true ∧ rs_term resp = get_term s))
    as [-> Hc].
  { destruct (rs_accepted resp); cbn [when] in H2; injection H2 as <- <-; [|by split; [|left]].
    split; [done|]. right. split_and!; [reflexivity|done|lia]. }
  assert (static s2) as Hs2.
  { destruct Hc as [->|[<- _]]; [|apply counted_static]; apply H1. }
  cbn [app]. eapply count_intro; [done|exact H1|exact Hc|].
  clear dependent s1 s. revert H. generalize s2 o4 Hs2. clear. intros s o Hs H.
  apply M_bind_Ok in H as (? & ? & ? & ? & [= <- <- <-] & H & ->).
  apply M_bind_Ok in H as ([] & s1 & o1 & o2 & H1 & H & ->).
  match type of H1 with ?m e _ = _ => assert (quiet m) as Hq by quiet end.
  apply (Hq _ _ _ _ _ Hs) in H1 as Q. cbn [app].
  case_decide as Hw; [|injection H as <- <- <-; split; [rewrite app_nil_r; by apply quiet_step_hush|]].
  - apply M_bind_Ok in H as ([] & s3 & o3 & o4 & H3 & H & ->).
    assert (quiet (election_completed_ :=! true)) as Hq' by quiet.
    apply (Hq' _ _ _ _ _ (quiet_static _ _ _ Q)) in H3 as Q3.
    apply become_leader_run in H; [|apply Q3].
    split; [|intros _; right; lia].
    eapply hush_step_trans; [by apply quiet_step_hush|].
    eapply hush_step_trans; [by apply quiet_step_hush|done].
  - intros Hl. left. by apply Q.
Qed.

(** ** Requests *)

(** What does not change the members by itself. *)
Definition keeps_members (t : msg_type) : bool :=
  match t with
  | add_server_request | remove_server_request | sync_log_request | join_cluster_request
  | leave_cluster_request => false
  | _ => true
  end.

(** The fields of a request as they come off the wire. *)
Record req_ok (req : req_msg) : Prop := {
  req_term_ok : in_u 64 (rq_term req);
  req_src_ok : in_s 32 (rq_src req);
  req_keeps : keeps_members (rq_type req) = true
}.

(** A response that no vote request had, and that does not end a membership. *)
Definition plain (resp : option resp_msg) : Prop :=
  ∀ r, resp = Some r → rs_type r ≠ request_vote_response ∧ rs_type r ≠ leave_cluster_response.

Lemma plain_some_returns (m : M resp_msg) :
  returns (λ r, rs_type r ≠ request_vote_response ∧ rs_type r ≠ leave_cluster_response) m →
  returns plain (Some <$> m).
Proof.
  intros Hm. unfold fmap, M_fmap. eapply returns_bind_with; [exact Hm|].
  intros r Hr. apply returns_ret. by intros r' [= <-].
Qed.

Lemma handle_append_entries_plain req : returns plain (handle_append_entries req).
Proof.
  unfold handle_append_entries. do 3 (apply returns_bind; intros ?).
  apply returns_bind_with with (Q := plain).
  - unfold handle_append_entries_body. returns; intros r [= <-]; by split.
  - intros r Hr. apply returns_bind. intros ?. by apply returns_ret.
Qed.

Lemma handle_cli_req_prelock_plain req t : returns plain (handle_cli_req_prelock req t).
Proof.
  unfold handle_cli_req_prelock. apply returns_bind. intros ts.
  apply returns_bind_with with (Q := plain).
  - unfold handle_cli_req. apply returns_bind. intros s. cbv zeta. destruct (_ || _).
    { apply returns_ret. intros r [= <-]. by split. }
    case_decide; [apply returns_ret; intros r [= <-]; by split|].
    apply returns_bind. intros [i ret]. do 4 (apply returns_bind; intros ?).
    case_decide; [by apply returns_ret|].
    eapply (returns_bind_with (λ r, rs_type r = append_entries_response)).
    + returns.
    + intros r Hr. apply returns_ret. intros r' [= <-]. cbn. by rewrite Hr.
  - intros r Hr. apply returns_bind. intros ?. by apply returns_ret.
Qed.

Lemma update_priority_plain req : returns plain (Some <$> handle_priority_change_req req).
Proof. apply plain_some_returns. unfold handle_priority_change_req. returns. Qed.

Lemma acts_update_term t : in_u 64 t → acts (update_term t).
Proof.
  intros Ht e s a s' o Hs H. apply update_term_run in H as (Hstep & Hm & _); [|done..].
  split; [|done]. destruct a; [by apply act_raise|]. apply act_calm. by apply quiet_step_calm.
Qed.

Lemma acts_note_request req : in_u 64 (rq_term req) → acts (note_request req).
Proof.
  intros Ht. unfold note_request. destruct (_ || _); [|apply acts_quiet; quiet].
  apply acts_after; [by apply acts_update_term|intros; quiet].
Qed.

Lemma note_request_other req :
  rq_type req ≠ append_entries_request → rq_type req ≠ request_vote_request →
  rq_type req ≠ install_snapshot_request → note_request req = mret tt.
Proof. intros. unfold note_request. by rewrite !bool_decide_false. Qed.

Lemma acts_fmap_some {A} (m : M A) : acts m → acts (Some <$> m).
Proof. intros Hm. unfold fmap, M_fmap. apply acts_after; [done|]. intros. apply quiet_ret. Qed.
Lemma quiet_fmap_some {A} (m : M A) : quiet m → quiet (Some <$> m).
Proof. intros Hm. unfold fmap, M_fmap. apply quiet_bind; [done|]. intros. apply quiet_ret. Qed.
Lemma calm_fmap_some {A} (m : M A) : calm m → calm (Some <$> m).
Proof. intros Hm. unfold fmap, M_fmap. apply calm_bind; [done|]. intros. apply quiet_calm, quiet_ret. Qed.

Lemma acts_handle_custom_notification_req req :
  in_u 64 (rq_term req) → acts (handle_custom_notification_req req).
Proof.
  intros Ht. unfold handle_custom_notification_req. acts.
  - unfold handle_out_of_log_msg. apply acts_after; [by apply acts_update_term|intros; quiet].
  - apply acts_handle_leadership_takeover.
Qed.

Lemma acts_handle_ext_msg x req :
  req_ok req → rq_type req ≠ install_snapshot_request → acts (handle_ext_msg x req).
Proof.
  intros [Ht Hsrc Hk] Hi. unfold handle_ext_msg.
  destruct (rq_type req); try done; try (apply acts_quiet; solve [quiet]).
  - apply acts_quiet, quiet_fmap_some. quiet.
  - by apply acts_fmap_some, acts_handle_custom_notification_req.
Qed.

Lemma calm_handle_ext_msg x req :
  rq_type req = install_snapshot_request → calm (ea_others x) → calm (handle_ext_msg x req).
Proof.
  intros Ht Hx. unfold handle_ext_msg. rewrite Ht.
  by apply calm_fmap_some, c_handle_install_snapshot_req.
Qed.

Lemma handle_ext_msg_plain x req : keeps_members (rq_type req) = true → returns plain (handle_ext_msg x req).
Proof.
  intros Hk. unfold handle_ext_msg. destruct (rq_type req); try done; try by apply returns_ret.
  - apply plain_some_returns. unfold handle_install_snapshot_req.
    do 3 (apply returns_bind; intros ?). apply returns_bind. intros ?. cbv zeta. returns.
  - apply plain_some_returns. unfold handle_reconnect_req. returns.
  - apply plain_some_returns. unfold handle_custom_notification_req.
    do 2 (apply returns_bind; intros ?). cbv zeta. destruct (rq_log_entries req) as [|le les];
      [by apply returns_ret|]. destruct (buff_ le); [|by apply returns_ret].
    apply returns_bind. intros msg.
    case_decide; [unfold handle_out_of_log_msg; returns|].
    case_decide; [unfold handle_leadership_takeover; returns|].
    case_decide; [unfold handle_resignation_request; returns|]. by apply returns_ret.
Qed.

(** What [process_req] does: another request than a vote request is one step of
    an election; a vote request is one, then the vote. *)
Record process_step (req : req_msg) (r : option resp_msg) (s s' : server) (o : list effect) : Prop := {
  process_members : rq_type req ≠ install_snapshot_request → membership s' = membership s;
  process_act :
    act s s' o ∧ plain r ∨
    rq_type req = request_vote_request ∧
    ∃ s1 o1 o2 resp, r = Some resp ∧ rs_type resp = request_vote_response ∧ o = o1 ++ o2 ∧
      act_m s s1 o1 ∧ grant_step req resp s1 s' o2
}.

Lemma process_step_acts req r s s' o : act_m s s' o → plain r → process_step req r s s' o.
Proof. intros [Ha Hm] Hp. split; [by intros _|by left]. Qed.

Lemma process_req_run x req e s r s' o :
  static s → req_ok req → calm (ea_others x) → process_req x req e s = Ok (r, s', o) →
  process_step req r s s' o.
Proof.
  intros Hs Hok Hx H. unfold process_req in H.
  apply M_bind_Ok in H as (rc & s1 & o1 & o2 & H1 & H & ->).
  apply (q_call_cb _ _ _ _ _ _ _ Hs) in H1 as Q. pose proof (quiet_static _ _ _ Q) as Hs1.
  apply M_bind_Ok in H as (? & ? & ? & o3 & [= <- <- <-] & H & ->). cbn [app].
  assert (∀ (m : M (option resp_msg)), acts m → returns plain m → m e s1 = Ok (r, s', o3) →
    process_step req r s s' (o1 ++ o3)) as Hact.
  { intros m Hm Hp Hr. apply process_step_acts; [|by eapply Hp].
    eapply act_m_before; [done|exact Q|]. by eapply Hm. }
  case_decide; [eapply Hact, H; [apply acts_quiet; quiet|by apply returns_ret]|].
  destruct (stopping_ s1); [eapply Hact, H; [apply acts_quiet; quiet|by apply returns_ret]|].
  case_decide as Hcli.
  { eapply Hact, H; [apply acts_quiet; quiet|apply handle_cli_req_prelock_plain]. }
  pose proof (acts_note_request req (req_term_ok _ Hok)) as Hnote.
  destruct (decide (rq_type req = request_vote_request)) as [Ht|Ht].
  { apply M_bind_Ok in H as (? & s2 & o4 & o5 & H2 & H & ->). apply Hnote in H2; [|done].
    rewrite Ht in H. unfold fmap, M_fmap in H.
    apply M_bind_Ok in H as (resp & s3 & o6 & o7 & H3 & [= <- <- <-] & ->). rewrite app_nil_r.
    apply handle_vote_req_run in H3 as (Hg & Hm & Hty); [|eapply act_static, H2|apply Hok].
    pose proof (act_m_before _ _ _ _ _ Hs Q H2) as Ha. split.
    - intros _. rewrite Hm. apply Ha.
    - right. split; [done|]. exists s2, (o1 ++ o4), o6, resp. by rewrite app_assoc. }
  destruct (decide (rq_type req = install_snapshot_request)) as [Hi|Hi].
  { apply M_bind_Ok in H as (? & s2 & o4 & o5 & H2 & H & ->). apply Hnote in H2; [|done].
    rewrite Hi in H. pose proof H as Hr. apply calm_handle_ext_msg in H; [|done..|eapply act_static, H2].
    apply handle_ext_msg_plain in Hr; [|apply Hok]. split; [done|]. left. split; [|done].
    rewrite app_assoc. eapply act_calm_after, H. by eapply act_quiet_before, H2. }
  eapply Hact, H.
  - pose proof (req_keeps _ Hok) as Hk. pose proof (note_request_other req) as Hother.
    destruct (rq_type req) eqn:Ety; try done;
      first [apply acts_after; [done|intros ?; first [apply quiet_fmap_some; solve [quiet]|solve [quiet]]]
            |rewrite Hother by done; apply acts_before; [apply quiet_ret|intros _];
             by apply acts_handle_ext_msg; rewrite ?Ety].
  - apply returns_bind. intros _. destruct (rq_type req) eqn:Ety; try done;
      try (apply handle_ext_msg_plain, Hok).
    + apply returns_bind. intros _. eapply returns_bind_with; [apply handle_append_entries_plain|].
      intros r' Hr'. apply returns_bind. intros _. by apply returns_ret.
    + apply returns_bind. intros t. apply returns_ret. by intros r' [= <-].
    + apply plain_some_returns. unfold handle_prevote_req. returns. by destruct (_ || _).
    + apply update_priority_plain.
Qed.

(** ** Results *)
Lemma acts_handle_ext_resp r : rs_type r ≠ leave_cluster_response → acts (handle_ext_resp r).
Proof. intros Ht. unfold handle_ext_resp. apply acts_quiet. destruct (rs_type r); done || quiet. Qed.

Lemma acts_handle_ext_resp_err req : keeps_members (rq_type req) = true → acts (handle_ext_resp_err req).
Proof.
  intros Hk. unfold handle_ext_resp_err. apply acts_quiet. repeat quiet_step_tac;
    exfalso; destruct (rq_type req); done.
Qed.

(** What a response does: a step of an election, or the count of a vote. *)
Definition respond_step (resp : resp_msg) (s s' : server) (o : list effect) : Prop :=
  act_m s s' o ∨
  rs_type resp = request_vote_response ∧ count_step resp s s' o ∧ membership s' = membership s.

Definition responds {A} (resp : resp_msg) (m : M A) : Prop :=
  ∀ e s a s' o, static s → m e s = Ok (a, s', o) → respond_step resp s s' o.

Lemma responds_acts {A} resp (m : M A) : acts m → responds resp m.
Proof. intros Hm e s a s' o Hs H. left. by eapply Hm. Qed.

Lemma respond_static resp s s' o : respond_step resp s s' o → static s'.
Proof. intros [[Ha _]|(_ & [] & _)]; [by eapply act_static|done]. Qed.

Lemma respond_before resp s s1 s' o1 o2 :
  static s → quiet_step s s1 o1 → respond_step resp s1 s' o2 → respond_step resp s s' (o1 ++ o2).
Proof.
  intros Hs Q [Ha|(Ht & Hc)]; [left; by eapply act_m_before|].
  right. split; [done|]. by eapply count_after_quiet.
Qed.

Lemma responds_before {A B} resp (m : M A) (f : A → M B) :
  quiet m → (∀ a, responds resp (f a)) → responds resp (m ≫= f).
Proof.
  intros Hm Hf e s b s'' o Hs H. apply M_bind_Ok in H as (a & s' & o1 & o2 & H1 & H2 & ->).
  pose proof (Hm _ _ _ _ _ Hs H1) as Q. eapply respond_before; [done|exact Q|].
  eapply Hf, H2. apply Q.
Qed.

Lemma responds_after {A B} resp (m : M A) (f : A → M B) :
  responds resp m → (∀ a, quiet (f a)) → responds resp (m ≫= f).
Proof.
  intros Hm Hf e s b s'' o Hs H. apply M_bind_Ok in H as (a & s' & o1 & o2 & H1 & H2 & ->).
  pose proof (Hm _ _ _ _ _ Hs H1) as Q.
  pose proof (Hf a e s' b s'' o2 (respond_static _ _ _ _ Q) H2) as Q2.
  destruct Q as [Ha|(Ht & Hc)]; [left; by eapply act_m_after|].
  right. split; [done|]. by eapply count_before_quiet.
Qed.

Lemma q_get : quiet get.
Proof. intros e s ? ? ? Hs [= <- <- <-]. by apply quiet_step_refl. Qed.
#[export] Hint Resolve q_get : quiet.

Lemma responds_by_type resp :
  responds resp (match rs_type resp with
    | pre_vote_response => handle_prevote_resp resp
    | request_vote_response => handle_vote_resp resp
    | append_entries_response =>
        _ ← call_cb ReceivedAppendEntriesResp (rs_src resp); handle_append_entries_resp resp
    | install_snapshot_response => handle_install_snapshot_resp resp
    | custom_notification_response => handle_custom_notification_resp resp
    | _ => mret tt
    end).
Proof.
  destruct (rs_type resp) eqn:Ety; try (apply responds_acts, acts_quiet; solve [quiet]).
  - intros e' t a' t' o' Hst Hrun. right. split; [done|]. by eapply handle_vote_resp_run.
  - apply responds_acts, acts_handle_prevote_resp.
Qed.

Lemma responds_handle_peer_resp resp : in_u 64 (rs_term resp) → responds resp (handle_peer_resp resp).
Proof.
  intros Ht. unfold handle_peer_resp.
  apply responds_before; [quiet|intros s]. apply responds_before; [quiet|intros now].
  apply responds_before; [destruct (rs_accepted resp); [destruct (find_peer _ _)|]; quiet|intros _].
  intros e s1 a s' o Hs H. apply M_bind_Ok in H as (b & s2 & o1 & o2 & H1 & H2 & ->).
  assert (if (b : bool) then act_m s1 s2 o1 else quiet_step s1 s2 o1) as Hup.
  { destruct (is_valid_msg (rs_type resp)).
    - apply update_term_run in H1 as (Hup & Hm & _); [|done..].
      destruct b; [|done]. split; [by apply act_raise|done].
    - injection H1 as <- <- <-. by apply quiet_step_refl. }
  destruct b.
  - injection H2 as <- <- <-. rewrite app_nil_r. by left.
  - eapply respond_before; [done|exact Hup|]. eapply responds_by_type, H2. apply Hup.
Qed.

(** The term and the type of a response as they come off the wire. *)
Record resp_ok (resp : resp_msg) : Prop := {
  resp_term_ok : in_u 64 (rs_term resp);
  resp_type_ok : rs_type resp ≠ leave_cluster_response
}.

Lemma handle_rpc_result_run p rpc req handler resp e s a s' o :
  static s → keeps_members (rq_type req) = true → resp_ok resp →
  handle_rpc_result p rpc req handler (Some resp) e s = Ok (a, s', o) → respond_step resp s s' o.
Proof.
  intros Hs Hk [Ht Hty] H. unfold handle_rpc_result in H.
  assert (responds (resp <| rs_peer := Some p |>) (handle_rpc_result p rpc req handler (Some resp))) as Hr.
  { unfold handle_rpc_result. apply responds_before; [quiet|intros pr].
    apply responds_before; [quiet|intros now].
    destruct (abandoned_ pr); [apply responds_acts, acts_quiet; quiet|].
    destruct (negb _); [apply responds_acts, acts_quiet; quiet|].
    do 2 (apply responds_before; [quiet|intros _]). apply responds_after; [|intros; quiet].
    destruct handler; [by apply responds_handle_peer_resp|].
    by apply responds_acts, acts_handle_ext_resp. }
  destruct (Hr e s a s' o Hs H) as [Ha|(E & [? ? ? ? ? ?] & Hm)]; [by left|].
  right. by split_and!.
Qed.

Lemma acts_handle_rpc_error p rpc req handler :
  keeps_members (rq_type req) = true → acts (handle_rpc_result p rpc req handler None).
Proof.
  intros Hk. unfold handle_rpc_result. apply acts_before; [quiet|intros pr].
  apply acts_before; [quiet|intros now].
  destruct (abandoned_ pr); [apply acts_quiet; quiet|].
  apply acts_before; [quiet|intros _]. apply acts_after; [|intros; quiet].
  destruct handler; [apply acts_quiet; quiet|by apply acts_handle_ext_resp_err].
Qed.
