(* ===== verification/RaftNet.v ===== *)
(** * A cluster of servers

    The servers of a cluster and the messages between them.  A request is
    delivered at most once and answered at most once, as the RPC layer does; it
    may be lost, its answer may be lost, and messages overtake each other.  A
    server may act at any time: timers, clients, commits, restarts.  The members
    stay, and the requests that would change them are not delivered.  A step is
    a handler of the code, run on the server's state; a snapshot is installed
    with no other step in between. *)
From S2P Require Import Prelude Bytes Buffer BufferSpec BufferSerializer Wire RaftTypes.
From S2P Require Import LogEntry LogStore SrvState StateMgr RaftParams RaftMsg Peer RaftServer.
From S2P Require Import RaftRoles RaftReplicate RaftVote RaftAppend RaftCommit RaftClient RaftMember.
From S2P Require Import RaftDispatch RaftRun RaftQuiet RaftVoteSpec.
From S2P Require Import RaftHandlerSpec.
Local Open Scope Z_scope.

(** ** The network *)

(** A request on its way, with who waits for the result, and a result: a
    response or an error. *)
Inductive packet :=
  | Request (from : Z) (p : positive) (rpc : Z) (req : req_msg) (handler : rpc_handler)
  | Result (to : Z) (p : positive) (rpc : Z) (req : req_msg) (handler : rpc_handler)
      (result : option resp_msg).

Record net := Net { servers : gmap Z server; flights : list packet }.

(** What a step of server [i] sends. *)
Definition sent (i : Z) (o : list effect) : list packet :=
  omap (λ x, match x with SendReq p rpc req h => Some (Request i p rpc req h) | _ => None end) o.

(** What a server does by itself, or for its user. *)
Inductive local_op : M unit → Prop :=
  | op_election_timeout : local_op handle_election_timeout
  | op_hb_timeout i : local_op (handle_hb_timeout i)
  | op_append : local_op request_append_entries
  | op_append_done ok : local_op (notify_log_append_completion ok)
  | op_yield b i : local_op (yield_leadership b i)
  | op_request_leadership : local_op (_ ← request_leadership; mret tt)
  | op_set_priority i n b : local_op (_ ← set_priority i n b; mret tt)
  | op_create_snapshot : local_op (_ ← create_snapshot; mret tt)
  | op_snapshot_done r b : local_op (on_snapshot_completed r b)
  | op_client_woken p resp : local_op (_ ← handle_cli_req_callback p resp; mret tt)
  | op_retry p req : rq_type req ≠ request_vote_request → local_op (on_retryable_req_err p req)
  | op_stop : local_op stop_server.

(** A server that starts again with what it saved. *)
Definition restart (commit_index : Z) (params : raft_params) (snp : option snapshot)
    (test_mode skip : bool) (e : env) (mgr : state_mgr) : outcome (unit * server * list effect) :=
  (construct ;; start_server skip) e (init_server (now_ e) commit_index mgr params snp test_mode).

Section cluster.
(** The servers that may vote. *)
Context (V : gset Z).

(** The electors of a server are distinct, and its quorum is more than half of
    [V]. *)
Record agrees (s : server) : Prop := {
  agrees_distinct : NoDup (electors s);
  agrees_voters : Forall (.∈ V) (electors s);
  agrees_id : id_ s ≠ -1;
  agrees_quorum : Z.of_nat (base.size V) < 2 * (get_quorum_for_election s + 1)
}.

Definition not_last_term (s : server) : Prop := get_term s < 2 ^ 64 - 1.

Inductive net_step (n : net) : net → Prop :=
  | net_local i s m e a s' o :
      servers n !! i = Some s → not_last_term s → local_op m → m e s = Ok (a, s', o) →
      net_step n (Net (<[i := s']> (servers n)) (sent i o ++ flights n))
  | net_commit i s fired e b s' o :
      servers n !! i = Some s → commit_in_bg_exec fired e s = Ok (b, s', o) → agrees s' →
      net_step n (Net (<[i := s']> (servers n)) (sent i o ++ flights n))
  | net_request from p rpc req h fs s next_obj term e r s' o :
      flights n ≡ₚ Request from p rpc req h :: fs →
      servers n !! rq_dst req = Some s → not_last_term s → req_ok req →
      process_req (ExtArgs (mret tt) next_obj term) req e s = Ok (r, s', o) →
      (rq_type req = install_snapshot_request → agrees s') →
      net_step n (Net (<[rq_dst req := s']> (servers n))
                    (Result from p rpc req h r :: sent (rq_dst req) o ++ fs))
  | net_response to p rpc req h resp fs s e a s' o :
      flights n ≡ₚ Result to p rpc req h (Some resp) :: fs →
      servers n !! to = Some s → not_last_term s → keeps_members (rq_type req) = true →
      in_u 64 (rs_term resp) →
      handle_rpc_result p rpc req h (Some resp) e s = Ok (a, s', o) →
      net_step n (Net (<[to := s']> (servers n)) (sent to o ++ fs))
  | net_error to p rpc req h fs s e a s' o :
      flights n ≡ₚ Result to p rpc req h None :: fs →
      servers n !! to = Some s → not_last_term s → keeps_members (rq_type req) = true →
      handle_rpc_result p rpc req h None e s = Ok (a, s', o) →
      net_step n (Net (<[to := s']> (servers n)) (sent to o ++ fs))
  | net_lose_request from p rpc req h fs :
      flights n ≡ₚ Request from p rpc req h :: fs →
      net_step n (Net (servers n) (Result from p rpc req h None :: fs))
  | net_lose_response to p rpc req h resp fs :
      flights n ≡ₚ Result to p rpc req h (Some resp) :: fs →
      net_step n (Net (servers n) (Result to p rpc req h None :: fs))
  | net_drop f fs :
      flights n ≡ₚ f :: fs → net_step n (Net (servers n) fs)
  | net_other from p rpc req h :
      rq_type req ≠ request_vote_request →
      net_step n (Net (servers n) (Request from p rpc req h :: flights n))
  | net_restart i s commit_index params snp test_mode skip e a s' o :
      servers n !! i = Some s → server_id (state_mgr_ s) = i →
      auto_adjust_quorum_for_small_cluster_ params = false →
      restart commit_index params snp test_mode skip e (state_mgr_ s) = Ok (a, s', o) → agrees s' →
      net_step n (Net (<[i := s']> (servers n)) (sent i o ++ flights n)).

(** The cluster before the first election. *)
Record net_start (n : net) : Prop := {
  start_flights : flights n = [];
  start_servers : map_Forall (λ i s,
    static s ∧ synced s ∧ id_ s = i ∧ agrees s ∧ votes_granted_ s = 0 ∧ role_ s ≠ leader) (servers n)
}.
End cluster.

(** ** The network, executed *)
Inductive choice :=
  | ElectionTimeout (i : Z)
  | Yield (i : Z) (successor : Z)
  | Deliver (k : nat).

Definition req_ok_dec (req : req_msg) : bool :=
  bool_decide (0 ≤ rq_term req < 2 ^ 64 ∧ - 2 ^ 31 ≤ rq_src req < 2 ^ 31 ∧
               rq_type req ≠ install_snapshot_request)
  && keeps_members (rq_type req).

Definition exec_local (e : env) (n : net) (i : Z) (m : M unit) : option net :=
  s ← servers n !! i;
  if decide (get_term s < 2 ^ 64 - 1) then
    match m e s with
    | Ok (_, s', o) => Some (Net (<[i := s']> (servers n)) (sent i o ++ flights n))
    | Fault _ => None
    end
  else None.

(** One step: an election timeout, a leader told to yield, or the delivery of
    the [k]th packet. *)
Definition exec (e : env) (n : net) (c : choice) : option net :=
  match c with
  | ElectionTimeout i => exec_local e n i handle_election_timeout
  | Yield i successor => exec_local e n i (yield_leadership false successor)
  | Deliver k =>
      f ← flights n !! k;
      let fs := delete k (flights n) in
      match f with
      | Request from p rpc req h =>
          s ← servers n !! rq_dst req;
          if bool_decide (get_term s < 2 ^ 64 - 1) && req_ok_dec req then
            match process_req (ExtArgs (mret tt) 0 0) req e s with
            | Ok (r, s', o) =>
                Some (Net (<[rq_dst req := s']> (servers n))
                        (Result from p rpc req h r :: sent (rq_dst req) o ++ fs))
            | Fault _ => None
            end
          else None
      | Result to p rpc req h r =>
          s ← servers n !! to;
          if bool_decide (get_term s < 2 ^ 64 - 1) && keeps_members (rq_type req)
             && match r with Some r => bool_decide (0 ≤ rs_term r < 2 ^ 64) | None => true end then
            match handle_rpc_result p rpc req h r e s with
            | Ok (_, s', o) => Some (Net (<[to := s']> (servers n)) (sent to o ++ fs))
            | Fault _ => None
            end
          else None
      end
  end.

Definition run (cs : list (env * choice)) (n : net) : option net :=
  foldl (λ n c, n ← n; exec c.1 n c.2) (Some n) cs.

Lemma exec_local_sound V e n i m n' : local_op m → exec_local e n i m = Some n' → net_step V n n'.
Proof.
  intros Hm H. unfold exec_local in H.
  destruct (servers n !! i) as [s|] eqn:Hs; [|done]. cbn in H. case_decide; [|done].
  destruct (m e s) as [[[a s'] o]|] eqn:Hrun; [|done]. injection H as <-. by eapply net_local.
Qed.

Lemma exec_sound V e n c n' : exec e n c = Some n' → net_step V n n'.
Proof.
  destruct c as [i|i successor|k]; cbn; intros H.
  - eapply exec_local_sound, H. constructor.
  - eapply exec_local_sound, H. constructor.
  - destruct (flights n !! k) as [f|] eqn:Hf; [|done]. cbn in H.
    assert (flights n ≡ₚ f :: delete k (flights n)) as Hp by by apply delete_Permutation.
    destruct f as [from p rpc req h|to p rpc req h r].
    + destruct (servers n !! rq_dst req) as [s|] eqn:Hs; [|done]. cbn in H.
      destruct (_ && _) eqn:Hc; [|done].
      apply andb_prop in Hc as [Hterm%bool_decide_eq_true [(? & ? & ?)%bool_decide_eq_true ?]%andb_prop].
      destruct (process_req _ _ _ _) as [[[r s'] o]|] eqn:Hrun; [|done]. injection H as <-.
      by eapply net_request.
    + destruct (servers n !! to) as [s|] eqn:Hs; [|done]. cbn in H.
      destruct (_ && _ && _) eqn:Hc; [|done].
      apply andb_prop in Hc as [[Hterm%bool_decide_eq_true Hk]%andb_prop Hr].
      destruct (handle_rpc_result _ _ _ _ _ _ _) as [[[a s'] o]|] eqn:Hrun; [|done]. injection H as <-.
      destruct r as [r|]; [apply bool_decide_eq_true in Hr; by eapply net_response|by eapply net_error].
Qed.

Lemma run_sound V cs n n' : run cs n = Some n' → rtc (net_step V) n n'.
Proof.
  unfold run. revert n. induction cs as [|[e c] cs IH]; cbn; intros n H; [by injection H as <-|].
  destruct (exec e n c) as [n1|] eqn:Hc.
  - eapply rtc_l; [by eapply exec_sound|by apply IH].
  - exfalso. clear -H. induction cs; cbn in H; [done|auto].
Qed.

(** ** Clusters to run *)
Module Clusters.

(** What the process answers at a time, in microseconds. *)
Definition at_ (now : Z) : env :=
  Env now (λ _, Byte.x00) (λ _ _, CbOk) (λ lo _, lo) false default_limits false true 0 (λ _, false)
    (default_state_machine None true).

(** The servers of a configuration, just started. *)
Definition start (members : list srv_config) (i : Z) : outcome server :=
  m ← new_state_mgr (λ _, Byte.x00) i "";
  let m := m <| saved_config_ := ClusterConfig 0 0 false "" members |> in
  '(_, s, _) ← restart 0 default_params None false false (at_ 0) m;
  Ok s.

Definition cluster (members : list srv_config) : net :=
  Net (list_to_map (omap (λ c, match start members (RaftTypes.id_ c) with
                               | Ok s => Some (RaftTypes.id_ c, s)
                               | Fault _ => None
                               end) members)) [].

Definition voters : list srv_config :=
  [new_srv_config 1 "a:1"; new_srv_config 2 "b:2"; new_srv_config 3 "c:3"].
(** A learner of a higher priority. *)
Definition learner_4 : srv_config := SrvConfig 4 0 "d:4" "" true 2.
End Clusters.
