(* ===== verification/RaftElection.v ===== *)
(** * Elections refine the abstract protocol

    Every step of the network of [RaftNet] is a sequence of steps of [Election]:
    a vote request on its way and its answer are one ballot. *)
From S2P Require Import Prelude Bytes Buffer BufferSpec BufferSerializer Wire RaftTypes.
From S2P Require Import LogEntry LogStore SrvState StateMgr RaftParams RaftMsg Peer RaftServer.
From S2P Require Import RaftRoles RaftReplicate RaftVote RaftAppend RaftCommit RaftClient RaftMember.
From S2P Require Import RaftDispatch Election RaftRun RaftQuiet RaftVoteSpec.
From S2P Require Import RaftHandlerSpec RaftNet.
Local Open Scope Z_scope.

Section cluster.
(** The servers that may vote. *)
Context (V : gset Z).
#[local] Abbreviation agrees := (RaftNet.agrees V).
#[local] Abbreviation net_step := (RaftNet.net_step V).
#[local] Abbreviation net_start := (RaftNet.net_start V).

(** ** The abstraction *)
Definition vote_state_of (s : server) : vote_state :=
  VoteState (get_term s) (get_voted_for s) (votes_granted_ s) (bool_decide (role_ s = leader)).

Definition granted_by (r : resp_msg) : bool :=
  bool_decide (rs_type r = request_vote_response) && rs_accepted r.

Definition ballot_of (f : packet) : option ballot :=
  match f with
  | Request _ _ _ req _ =>
      if decide (rq_type req = request_vote_request)
      then Some (Ballot (rq_src req) (rq_term req) (rq_dst req) Asked) else None
  | Result _ _ _ req _ (Some r) =>
      if decide (rq_type req = request_vote_request)
      then Some (Ballot (rq_src req) (rq_term req) (rq_dst req) (Answered (granted_by r))) else None
  | Result _ _ _ _ _ None => None
  end.

Definition packet_ok (f : packet) : Prop :=
  match f with
  | Request from _ _ req _ => rq_type req = request_vote_request → rq_src req = from
  | Result to _ _ req _ result =>
      (rq_type req = request_vote_request → rq_src req = to) ∧
      ∀ r, result = Some r → rs_type r ≠ leave_cluster_response ∧
        (granted_by r = true → rq_type req = request_vote_request ∧ rs_term r = rq_term req)
  end.

Definition server_ok (i : Z) (s : server) : Prop :=
  static s ∧ synced s ∧ id_ s = i ∧ agrees s.

Record refines (n : net) (x : election) : Prop := {
  refines_nodes : nodes x = vote_state_of <$> servers n;
  refines_ballots : ballots x ≡ₚ omap ballot_of (flights n);
  refines_servers : map_Forall server_ok (servers n);
  refines_flights : Forall packet_ok (flights n)
}.

Lemma agrees_members s s' :
  static s → static s' → id_ s' = id_ s → membership s' = membership s → agrees s → agrees s'.
Proof.
  intros Hs Hs' Hi Hm [? ? ? ?]. split.
  - by rewrite (electors_membership s s').
  - by rewrite (electors_membership s s').
  - by rewrite Hi.
  - by rewrite (quorum_membership s s').
Qed.

(** ** What is sent *)
Lemma sent_ballots i o : omap ballot_of (sent i o) = (λ k, Ballot k.1.1 k.1.2 k.2 Asked) <$> asked_of o.
Proof.
  induction o as [|x o IH]; [done|]. unfold sent, asked_of, vote_reqs in *. cbn.
  destruct x; try done. cbn. case_decide; cbn; by rewrite IH.
Qed.

Lemma sent_app i o o' : sent i (o ++ o') = sent i o ++ sent i o'.
Proof. apply omap_app. Qed.

Lemma sent_ok i o : Forall (λ k, k.1.1 = i) (asked_of o) → Forall packet_ok (sent i o).
Proof.
  induction o as [|x o IH]; [done|]. unfold sent, asked_of, vote_reqs in *. cbn.
  destruct x; try done. cbn. case_decide as Ht; cbn.
  - intros [Hi Hl]%Forall_cons. apply Forall_cons. split; [by intros _|by apply IH].
  - intros ?. apply Forall_cons. split; [by intros ?|by apply IH].
Qed.

Lemma act_sent_ok s s' o : act s s' o → Forall packet_ok (sent (id_ s) o).
Proof.
  intros Ha. apply sent_ok. destruct Ha as [[]|[]|[]]; try by rewrite asked_of_none.
  destruct campaign_out as (ws & _ & ->). apply Forall_fmap, Forall_true. by intros w.
Qed.

(** ** Simulation of one server's steps *)

(** The votes of server [i] went from [x] to [x'], with [bs] ballots more. *)
Definition simulates (x : election) (i : Z) (s' : server) (bs : list ballot) : Prop :=
  ∃ x', rtc (vote_step V) x x' ∧ nodes x' = <[i := vote_state_of s']> (nodes x) ∧
    ballots x' ≡ₚ bs ++ ballots x.

Lemma simulates_trans x i s1 s2 bs1 bs2 :
  simulates x i s1 bs1 →
  (∀ x1, nodes x1 = <[i := vote_state_of s1]> (nodes x) → simulates x1 i s2 bs2) →
  simulates x i s2 (bs1 ++ bs2).
Proof.
  intros (x1 & Hr1 & Hn1 & Hb1) H. destruct (H x1 Hn1) as (x2 & Hr2 & Hn2 & Hb2).
  exists x2. split_and!; [by etrans|by rewrite Hn2, Hn1, insert_insert_eq|].
  rewrite Hb2, Hb1, (assoc (++)). by rewrite (Permutation_app_comm bs2).
Qed.

(** The same vote, and no new leader. *)
Lemma simulates_follow x i s s' :
  nodes x !! i = Some (vote_state_of s) →
  (get_term s', get_voted_for s', votes_granted_ s') = (get_term s, get_voted_for s, votes_granted_ s) →
  (role_ s' = leader → role_ s = leader) → simulates x i s' [].
Proof.
  intros Hx [= Ht Hv Hg] Hr.
  destruct (decide (role_ s = leader ↔ role_ s' = leader)) as [Heq|Hne].
  - exists x. split_and!; [done| |done]. rewrite insert_id; [done|]. rewrite Hx. f_equal.
    unfold vote_state_of. rewrite Ht, Hv, Hg. f_equal. by apply bool_decide_ext.
  - eexists. split; [by apply rtc_once, (step_follow V x i (vote_state_of s))|]. cbn.
    split; [|done]. f_equal. unfold vote_state_of. rewrite Ht, Hv, Hg, bool_decide_false; [done|].
    naive_solver.
Qed.

Lemma simulates_win x i s s' :
  nodes x !! i = Some (vote_state_of s) → Z.of_nat (base.size V) < 2 * votes_granted_ s →
  (get_term s', get_voted_for s', votes_granted_ s') = (get_term s, get_voted_for s, votes_granted_ s) →
  role_ s' = leader → simulates x i s' [].
Proof.
  intros Hx Hq [= Ht Hv Hg] Hr. eexists.
  split; [by apply rtc_once, (step_win V x i (vote_state_of s))|]. cbn. split; [|done].
  f_equal. unfold vote_state_of. by rewrite Ht, Hv, Hg, bool_decide_true.
Qed.

(** The same vote; a leader only with the votes. *)
Lemma simulates_role x i s s' :
  nodes x !! i = Some (vote_state_of s) →
  (get_term s', get_voted_for s', votes_granted_ s') = (get_term s, get_voted_for s, votes_granted_ s) →
  (role_ s' = leader → role_ s = leader ∨ Z.of_nat (base.size V) < 2 * votes_granted_ s) →
  simulates x i s' [].
Proof.
  intros Hx Hv Hr. destruct (decide (role_ s' = leader)) as [Hl|Hl]; [|by apply (simulates_follow x i s)].
  destruct (Hr Hl) as [?|?]; [by apply (simulates_follow x i s)|by apply (simulates_win x i s)].
Qed.

Lemma simulates_act x s s' o :
  nodes x !! id_ s = Some (vote_state_of s) → static s → agrees s → not_last_term s → act s s' o →
  simulates x (id_ s) s' (omap ballot_of (sent (id_ s) o)).
Proof.
  intros Hx Hs Hag Hlast Ha. rewrite sent_ballots. destruct Ha as [[? Hv Hr ? Ho]|[]|[]].
  - rewrite asked_of_none by done. apply (simulates_follow x _ s); [done| |done].
    unfold vote_of in Hv. congruence.
  - rewrite asked_of_none by done. eexists.
    split; [by apply rtc_once, (step_raise V x (id_ s) (vote_state_of s) (get_term s'))|].
    cbn. split; [|done]. f_equal. unfold vote_state_of. by rewrite raise_vote, raise_granted, bool_decide_false.
  - destruct campaign_out as (ws & Hsub & ->). destruct Hag as [Hd HV Hid Hq].
    assert (get_term s < get_term s') as Hlt.
    { rewrite campaign_term, wrap_u_id; [lia|]. pose proof (static_state _ Hs) as [[? ?] ?].
      unfold not_last_term, get_term, in_u in *. lia. }
    assert (NoDup (id_ s :: ws) ∧ Forall (.∈ V) (id_ s :: ws)) as [Hd' HV'].
    { assert ((id_ s :: ws) `sublist_of` electors s) as Hsub' by by apply sublist_skip. split.
      - by eapply sublist_NoDup.
      - rewrite Forall_forall in HV |- *. intros w Hw. apply HV.
        by eapply elem_of_submseteq, sublist_submseteq. }
    set (b := VoteState (get_term s') (id_ s) 1 false).
    set (x1 := x <| nodes ::= <[id_ s := b]> |>
                 <| ballots ::= λ bs, asked (id_ s) (get_term s') ws ++ bs |>
                 <| cast ::= cons (get_term s', id_ s, id_ s) |>).
    assert (vote_step V x x1) as Hstep by by apply (step_campaign V x _ (vote_state_of s)).
    assert (asked (id_ s) (get_term s') ws =
      (λ k, Ballot k.1.1 k.1.2 k.2 Asked) <$> ((λ w, (id_ s, get_term s', w)) <$> ws)) as Hbs
      by (unfold asked; by rewrite <- list_fmap_compose).
    rewrite <- Hbs.
    destruct (decide (role_ s' = leader)) as [Hl|Hl].
    + assert (nodes x1 !! id_ s = Some b) as Hx1 by apply lookup_insert_eq.
      eexists. split.
      { eapply rtc_l; [exact Hstep|]. eapply rtc_once, (step_win V x1 (id_ s) b Hx1). cbn.
        specialize (campaign_role Hl). lia. }
      cbn. split; [|done]. rewrite insert_insert_eq. f_equal. unfold vote_state_of.
      by rewrite campaign_vote, campaign_granted, bool_decide_true.
    + exists x1. split; [by apply rtc_once|]. cbn. split; [|done]. f_equal. unfold vote_state_of.
      by rewrite campaign_vote, campaign_granted, bool_decide_false.
Qed.

(** A ballot is lost, or refused. *)
Lemma lose_ballot x f fs :
  ballots x ≡ₚ omap ballot_of (f :: fs) →
  ∃ x', rtc (vote_step V) x x' ∧ nodes x' = nodes x ∧ ballots x' ≡ₚ omap ballot_of fs.
Proof.
  cbn. destruct (ballot_of f) as [b|]; intros Hp; [|by exists x].
  eexists. split; [by apply rtc_once, (step_lose V x b (omap ballot_of fs))|done].
Qed.

Lemma refuse_ballot x from p rpc req h r fs :
  ballots x ≡ₚ omap ballot_of (Request from p rpc req h :: fs) → plain r →
  ∃ x', rtc (vote_step V) x x' ∧ nodes x' = nodes x ∧
    ballots x' ≡ₚ omap ballot_of (Result from p rpc req h r :: fs).
Proof.
  intros Hp Hr. destruct r as [r|]; [|by apply lose_ballot in Hp].
  destruct (Hr r eq_refl) as [Hty _]. cbn in *. case_decide as Hv; [|by exists x].
  eexists. split; [by apply rtc_once, (step_refuse V x (rq_src req) (rq_term req) (rq_dst req) (omap ballot_of fs))|]. cbn.
  split; [done|]. unfold granted_by. by rewrite bool_decide_false.
Qed.

(** ** The invariants of a server *)
Lemma act_id s s' o : act s s' o → id_ s' = id_ s.
Proof. intros [[? Hv ? ? ?]|[]|[]]; [|done..]. unfold vote_of in Hv. congruence. Qed.

Lemma act_synced s s' o : act s s' o → synced s → synced s'.
Proof. intros [[]|[]|[]]; auto. Qed.

Lemma act_server_ok i s s' o :
  act s s' o → server_ok i s → agrees s' → server_ok i s'.
Proof.
  intros Ha (Hs & Hsy & Hi & Hag) Hag'. split_and!; [by eapply act_static|by eapply act_synced| |done].
  by rewrite (act_id s s' o).
Qed.

Lemma act_m_server_ok i s s' o : act_m s s' o → server_ok i s → server_ok i s'.
Proof.
  intros [Ha Hm] Hok. eapply act_server_ok; [done..|]. destruct Hok as (Hs & _ & _ & Hag).
  eapply agrees_members; [exact Hs|by eapply act_static|by eapply act_id|done|done].
Qed.

Lemma refines_server n x i s :
  refines n x → servers n !! i = Some s → server_ok i s ∧ nodes x !! i = Some (vote_state_of s).
Proof.
  intros [Hn _ Hok _] Hs. split; [by apply Hok|]. by rewrite Hn, lookup_fmap, Hs.
Qed.

Lemma refines_set n x x' i s' fs :
  refines n x → nodes x' = <[i := vote_state_of s']> (nodes x) → ballots x' ≡ₚ omap ballot_of fs →
  server_ok i s' → Forall packet_ok fs → refines (Net (<[i := s']> (servers n)) fs) x'.
Proof.
  intros [Hn _ Hok _] Hn' Hb Hs' Hf. split; cbn; [by rewrite Hn', Hn, fmap_insert|done| |done].
  by apply map_Forall_insert_2.
Qed.

(** A step that sends no vote request, with the packets that were there. *)
Lemma refines_quietly n x x' i s' o :
  refines n x → nodes x' = <[i := vote_state_of s']> (nodes x) → ballots x' ≡ₚ ballots x →
  vote_reqs o = [] → server_ok i s' →
  refines (Net (<[i := s']> (servers n)) (sent i o ++ flights n)) x'.
Proof.
  intros Href Hn Hb Ho Hok. apply asked_of_none in Ho. apply refines_set with x; [done|done| |done|].
  - by rewrite Hb, omap_app, sent_ballots, Ho, (refines_ballots _ _ Href).
  - apply Forall_app. split; [apply sent_ok; by rewrite Ho|apply Href].
Qed.

(** A step of the server alone, with packets that wait. *)
Lemma simulate_act n x x1 i s s' o fs :
  refines n x → servers n !! i = Some s → not_last_term s → act s s' o → server_ok i s' →
  rtc (vote_step V) x x1 → nodes x1 = nodes x → ballots x1 ≡ₚ omap ballot_of fs → Forall packet_ok fs →
  ∃ x', rtc (vote_step V) x x' ∧ refines (Net (<[i := s']> (servers n)) (sent i o ++ fs)) x'.
Proof.
  intros Hr Hs Hlast Ha Hok' Hx1 Hn1 Hb1 Hf.
  destruct (refines_server n x i s Hr Hs) as ((Hst & _ & Hi & Hag) & Hx). subst i.
  rewrite <- Hn1 in Hx.
  destruct (simulates_act x1 s s' o Hx Hst Hag Hlast Ha) as (x' & Hx' & Hn' & Hb').
  exists x'. split; [by etrans|]. eapply refines_set; [done|by rewrite Hn', Hn1| |done|].
  - by rewrite omap_app, Hb', Hb1.
  - apply Forall_app. split; [by eapply act_sent_ok|done].
Qed.

Lemma local_op_acts m : local_op m → acts m.
Proof.
  intros []; try (apply acts_quiet; solve [quiet]).
  - apply acts_handle_election_timeout.
  - apply acts_quiet. unfold on_retryable_req_err. quiet.
  - apply acts_quiet. unfold stop_server. quiet.
Qed.

Lemma simulate_grant x i from p rpc req h resp s s' o fs :
  nodes x !! i = Some (vote_state_of s) → rq_dst req = i → rq_type req = request_vote_request →
  rs_type resp = request_vote_response →
  ballots x ≡ₚ omap ballot_of (Request from p rpc req h :: fs) → grant_step req resp s s' o →
  ∃ x', rtc (vote_step V) x x' ∧ nodes x' = <[i := vote_state_of s']> (nodes x) ∧
    ballots x' ≡ₚ omap ballot_of (Result from p rpc req h (Some resp) :: fs).
Proof.
  intros Hx Hi Hty Hrty Hb [Hst [= _ Ht Hg] Hr _ _ Hv].
  assert (granted_by resp = rs_accepted resp) as Hgr by (unfold granted_by; by rewrite bool_decide_true).
  cbn in Hb |- *. rewrite decide_True, Hi in * by done. rewrite Hgr. clear Hgr.
  destruct (rs_accepted resp).
  - destruct Hv as (_ & Hterm & Hv & Hfree). rewrite Hterm in Hb |- *.
    set (x1 := x <| nodes ::= <[i := vote_state_of (voted s (rq_src req))]> |>
                 <| ballots := Ballot (rq_src req) (get_term s) i (Answered true) :: omap ballot_of fs |>
                 <| cast ::= cons (get_term s, i, rq_src req) |>).
    assert (vote_step V x x1) as Hstep by by apply (step_grant V x i (vote_state_of s)).
    destruct (simulates_role x1 i (voted s (rq_src req)) s') as (x' & Hx' & Hn' & Hb').
    { apply lookup_insert_eq. }
    { by rewrite Hv, Ht, Hg. }
    { intros Hl. left. by apply Hr. }
    exists x'. split_and!; [by eapply rtc_l|by rewrite Hn'; cbn; rewrite insert_insert_eq|by rewrite Hb'].
  - set (x1 := x <| ballots := Ballot (rq_src req) (rq_term req) i (Answered false) :: omap ballot_of fs |>).
    assert (vote_step V x x1) as Hstep by by apply step_refuse.
    destruct (simulates_role x1 i s s') as (x' & Hx' & Hn' & Hb').
    { done. }
    { by rewrite Hv, Ht, Hg. }
    { auto. }
    exists x'. split_and!; [by eapply rtc_l|by rewrite Hn'|by rewrite Hb'].
Qed.

Lemma simulate_count x i p rpc req h resp s s' o fs :
  nodes x !! i = Some (vote_state_of s) → agrees s →
  packet_ok (Result i p rpc req h (Some resp)) → rs_type resp = request_vote_response →
  ballots x ≡ₚ omap ballot_of (Result i p rpc req h (Some resp) :: fs) → count_step resp s s' o →
  ∃ x', rtc (vote_step V) x x' ∧ nodes x' = <[i := vote_state_of s']> (nodes x) ∧
    ballots x' ≡ₚ omap ballot_of fs.
Proof.
  intros Hx Hag [Hsrc Hres] Hrty Hb [Hst [= _ Ht Hv] Hgr Hr _ _].
  assert (role_ s' = leader → role_ s = leader ∨ Z.of_nat (base.size V) < 2 * votes_granted_ s') as Hr'.
  { intros [?|?]%Hr; [by left|]. right. pose proof (agrees_quorum _ _ Hag). lia. }
  destruct Hgr as [Hg|(Hg & Hacc & Hterm)].
  - apply lose_ballot in Hb as (x1 & Hx1 & Hn1 & Hb1).
    destruct (simulates_role x1 i s s') as (x' & Hx' & Hn' & Hb').
    { by rewrite Hn1. }
    { by rewrite Hv, Ht, Hg. }
    { by rewrite <- Hg. }
    exists x'. split_and!; [by etrans|by rewrite Hn', Hn1|by rewrite Hb'].
  - destruct (Hres resp eq_refl) as [_ [Hty Hterm']].
    { unfold granted_by. by rewrite bool_decide_true, Hacc. }
    cbn in Hb. rewrite decide_True, Hsrc in Hb by done. unfold granted_by in Hb.
    rewrite bool_decide_true, Hacc, <- Hterm', Hterm in Hb by done. cbn [andb] in Hb.
    set (x1 := x <| nodes ::= <[i := vote_state_of (counted s)]> |> <| ballots := omap ballot_of fs |>).
    assert (vote_step V x x1) as Hstep by by apply (step_count V x i (vote_state_of s) (rq_dst req)).
    destruct (simulates_role x1 i (counted s) s') as (x' & Hx' & Hn' & Hb').
    { apply lookup_insert_eq. }
    { by rewrite Hv, Ht, Hg. }
    { by rewrite Hg in Hr'. }
    exists x'. split_and!; [by eapply rtc_l|by rewrite Hn'; cbn; rewrite insert_insert_eq|by rewrite Hb'].
Qed.

(** A start gets the term and the vote that were saved, and nothing else. *)
Record mgr_ok (m : state_mgr) : Prop := {
  mgr_state : srv_state_ok (saved_of m);
  mgr_inc : inc_term_cb_ (saved_of m) = None;
  mgr_id : in_s 32 (server_id m)
}.

Lemma synced_mgr_ok s :
  static s → synced s → server_id (state_mgr_ s) = id_ s → mgr_ok (state_mgr_ s).
Proof.
  intros Hs (Ht & Hv & Hinc) Hid. unfold saved_vote in *. split; [|done|rewrite Hid; apply Hs].
  split; rewrite ?Ht, ?Hv; apply (static_state _ Hs).
Qed.

Lemma init_server_ok now commit_index mgr params snp test_mode :
  mgr_ok mgr → auto_adjust_quorum_for_small_cluster_ params = false →
  let s0 := init_server now commit_index mgr params snp test_mode in
  static s0 ∧ synced s0 ∧
  vote_of s0 = (server_id mgr, SrvState.term_ (saved_of mgr), voted_for_ (saved_of mgr), 0) ∧
  role_ s0 = follower.
Proof.
  intros [Hok Hinc Hid] Hp s0.
  assert (state_ s0 = saved_of mgr) as Hst by reflexivity.
  assert (saved_vote s0 = saved_of mgr) as Hsv by reflexivity.
  assert (id_ s0 = server_id mgr) as Hi by reflexivity.
  split_and!; [split| | |reflexivity].
  - exact Hp.
  - reflexivity.
  - apply map_Forall_empty.
  - by rewrite Hst.
  - by rewrite Hst.
  - by rewrite Hi.
  - unfold synced, get_term, get_voted_for. by rewrite Hsv, Hst.
  - unfold vote_of, get_term, get_voted_for. by rewrite Hst, Hi.
Qed.

Lemma start_ok commit_index params snp test_mode skip e mgr a s' o :
  mgr_ok mgr → auto_adjust_quorum_for_small_cluster_ params = false →
  restart commit_index params snp test_mode skip e mgr = Ok (a, s', o) →
  static s' ∧ synced s' ∧
  vote_of s' = (server_id mgr, SrvState.term_ (saved_of mgr), voted_for_ (saved_of mgr), 0) ∧
  role_ s' ≠ leader ∧ vote_reqs o = [].
Proof.
  intros Hm Hp H.
  destruct (init_server_ok (now_ e) commit_index mgr params snp test_mode Hm Hp) as (Hs0 & Hsy0 & Hv0 & Hr0).
  unfold restart in H. revert H Hs0 Hsy0 Hv0 Hr0.
  generalize (init_server (now_ e) commit_index mgr params snp test_mode). intros s0 H Hs0 Hsy0 Hv0 Hr0.
  assert (calm (construct ;; start_server skip)) as Hc
    by (apply calm_bind; [apply c_construct|intros _; apply quiet_calm, q_start_server]).
  destruct (Hc _ _ _ _ _ Hs0 H) as [? Hv Hr Hsync ?].
  split_and!; [done|by apply Hsync|by rewrite Hv| |done].
  intros Hl%Hr. by rewrite Hr0 in Hl.
Qed.

(** ** Every step is a sequence of steps of the protocol *)
Lemma packets_split (n : net) x f fs :
  refines n x → flights n ≡ₚ f :: fs →
  ballots x ≡ₚ omap ballot_of (f :: fs) ∧ packet_ok f ∧ Forall packet_ok fs.
Proof.
  intros [_ Hb _ Hf] Hp. rewrite Hp in Hf. apply Forall_cons in Hf as [? ?].
  split_and!; [by rewrite Hb, Hp|done..].
Qed.

Lemma refines_permute m fs fs' x : fs ≡ₚ fs' → refines (Net m fs) x → refines (Net m fs') x.
Proof.
  intros Hp [Hn Hb Hs Hf]. cbn in *. split; cbn; [done| |done|by rewrite <- Hp].
  by rewrite Hb, Hp.
Qed.

Lemma simulate_request n x from p rpc req h fs s next_obj term e r s' o :
  refines n x → flights n ≡ₚ Request from p rpc req h :: fs →
  servers n !! rq_dst req = Some s → not_last_term s → req_ok req →
  process_req (ExtArgs (mret tt) next_obj term) req e s = Ok (r, s', o) →
  (rq_type req = install_snapshot_request → agrees s') →
  ∃ x', rtc (vote_step V) x x' ∧
    refines (Net (<[rq_dst req := s']> (servers n))
               (Result from p rpc req h r :: sent (rq_dst req) o ++ fs)) x'.
Proof.
  intros Href Hp Hs Hlast Hreq H Hsnp.
  destruct (packets_split _ _ _ _ Href Hp) as (Hb & Hf & Hfs).
  destruct (refines_server _ _ _ _ Href Hs) as (Hok & Hx). pose proof Hok as (Hst & Hsy & Hi & Hag).
  apply process_req_run in H as [Hm Hstep]; [|done..|by apply quiet_calm, quiet_ret].
  destruct Hstep as [[Ha Hr]|(Hty & s1 & o1 & o2 & resp & -> & Hrty & -> & Ha & Hgr)].
  - assert (server_ok (rq_dst req) s') as Hok'.
    { eapply act_server_ok; [done..|]. destruct (decide (rq_type req = install_snapshot_request)); [auto|].
      eapply agrees_members; [exact Hst|by eapply act_static|by eapply act_id|auto|done]. }
    destruct (refuse_ballot _ _ _ _ _ _ _ _ Hb Hr) as (x1 & Hx1 & Hn1 & Hb1).
    destruct (simulate_act n x x1 (rq_dst req) s s' o (Result from p rpc req h r :: fs))
      as (x' & Hx' & Href'); try done.
    + apply Forall_cons. split; [|done]. split; [done|]. intros r' Hr'.
      destruct (Hr r' Hr') as [Hv Hl]. split; [done|]. unfold granted_by.
      by rewrite bool_decide_false.
    + exists x'. split; [done|]. eapply refines_permute, Href'. by rewrite Permutation_middle.
  - pose proof (act_m_server_ok _ _ _ _ Ha Hok) as Hok1. pose proof Hok1 as (Hst1 & Hsy1 & Hi1 & Hag1).
    destruct (simulate_act n x x (rq_dst req) s s1 o1 (Request from p rpc req h :: fs))
      as (x1 & Hx1 & Href1); [done..|apply Ha|done|done|done|done|by apply Forall_cons|].
    assert (flights (Net (<[rq_dst req := s1]> (servers n)) (sent (rq_dst req) o1 ++ Request from p rpc req h :: fs))
      ≡ₚ Request from p rpc req h :: (sent (rq_dst req) o1 ++ fs)) as Hp1 by (cbn; by rewrite Permutation_middle).
    destruct (packets_split _ _ _ _ Href1 Hp1) as (Hb1 & _ & Hf1).
    destruct (refines_server _ _ (rq_dst req) s1 Href1) as (_ & Hxs1); [apply lookup_insert_eq|].
    destruct (simulate_grant x1 (rq_dst req) from p rpc req h resp s1 s' o2 (sent (rq_dst req) o1 ++ fs))
      as (x' & Hx' & Hn' & Hb'); try done.
    exists x'. split; [by etrans|].
    assert (server_ok (rq_dst req) s') as Hok'.
    { destruct Hgr as [? [= Hi' Ht' Hg'] ? ? ? ?]. split_and!; [done|auto|congruence|].
      eapply agrees_members; [exact Hst1|done|done| |done].
      destruct Ha as [_ Hm1]. rewrite Hm, Hm1; [done|by rewrite Hty]. }
    assert (omap ballot_of (sent (rq_dst req) o2) = []) as Ho2
      by (rewrite sent_ballots, asked_of_none; [done|apply Hgr]).
    assert (Forall packet_ok (sent (rq_dst req) o2)) as Hf2
      by (apply sent_ok; rewrite asked_of_none; [done|apply Hgr]).
    pose proof (refines_set _ x1 x' (rq_dst req) s'
      (Result from p rpc req h (Some resp) :: sent (rq_dst req) (o1 ++ o2) ++ fs) Href1 Hn') as Hfin.
    cbn [servers] in Hfin. rewrite insert_insert_eq in Hfin. apply Hfin; [|done|].
    + rewrite Hb'. rewrite sent_app. cbn [omap list_omap]. rewrite !omap_app, Ho2, app_nil_r. done.
    + rewrite sent_app. apply Forall_app in Hf1 as [? ?]. repeat (apply Forall_cons || apply Forall_app; split); try done.
      split; [done|]. intros r' [= <-]. split; [by rewrite Hrty|]. intros [_ Hacc]%andb_prop.
      pose proof (grant_vote _ _ _ _ _ Hgr) as Hv. rewrite Hacc in Hv.
      split; [done|]. destruct Hv as (-> & -> & _). done.
Qed.

Lemma simulate_response n x to p rpc req h resp fs s e a s' o :
  refines n x → flights n ≡ₚ Result to p rpc req h (Some resp) :: fs →
  servers n !! to = Some s → not_last_term s → keeps_members (rq_type req) = true →
  in_u 64 (rs_term resp) →
  handle_rpc_result p rpc req h (Some resp) e s = Ok (a, s', o) →
  ∃ x', rtc (vote_step V) x x' ∧ refines (Net (<[to := s']> (servers n)) (sent to o ++ fs)) x'.
Proof.
  intros Href Hp Hs Hlast Hk Ht H.
  destruct (packets_split _ _ _ _ Href Hp) as (Hb & Hf & Hfs).
  destruct (refines_server _ _ _ _ Href Hs) as (Hok & Hx). pose proof Hok as (Hst & Hsy & Hi & Hag).
  assert (resp_ok resp) as Hresp by (split; [done|by apply (proj2 Hf resp)]).
  apply handle_rpc_result_run in H as [Ha|(Hrty & Hc & Hm)]; [| |done..].
  - apply lose_ballot in Hb as (x1 & Hx1 & Hn1 & Hb1).
    eapply simulate_act; [exact Href|exact Hs|done|apply Ha|by eapply act_m_server_ok|done..].
  - destruct (simulate_count x to p rpc req h resp s s' o fs) as (x' & Hx' & Hn' & Hb'); try done.
    exists x'. split; [done|].
    assert (asked_of o = []) as Ho by (apply asked_of_none, Hc).
    apply refines_set with x; [done|done| | |].
    + by rewrite omap_app, sent_ballots, Ho.
    + pose proof Hc as [? [= Hi' Ht' Hv'] ? ? ? ?]. split_and!; [done|auto|congruence|].
      by apply (agrees_members s).
    + apply Forall_app. split; [apply sent_ok; by rewrite Ho|done].
Qed.

Lemma simulate n n' x :
  net_step n n' → refines n x → ∃ x', rtc (vote_step V) x x' ∧ refines n' x'.
Proof.
  intros [i s m e a s' o Hs Hlast Hm H|i s fired e b s' o Hs H Hag
    |from p rpc req h fs s next_obj term e r s' o Hp Hs Hlast Hreq H Hsnp
    |to p rpc req h resp fs s e a s' o Hp Hs Hlast Hk Ht H
    |to p rpc req h fs s e a s' o Hp Hs Hlast Hk H
    |from p rpc req h fs Hp|to p rpc req h resp fs Hp|f fs Hp|from p rpc req h Hty
    |i s commit_index params snp test_mode skip e a s' o Hs Hid Hpar H Hag] Href.
  - destruct (refines_server _ _ _ _ Href Hs) as (Hok & Hx).
    apply (local_op_acts _ Hm) in H; [|apply Hok].
    eapply simulate_act; [exact Href|exact Hs|done|apply H|by eapply act_m_server_ok|done|done|apply Href..].
  - destruct (refines_server _ _ _ _ Href Hs) as (Hok & Hx). pose proof Hok as (Hst & Hsy & Hi & _).
    apply c_commit_in_bg_exec in H as [? Hv Hr ? Ho]; [|done].
    unfold vote_of in Hv. injection Hv as Hi' Ht' Hv' Hg'.
    destruct (simulates_role x i s s') as (x' & Hx' & Hn' & Hb'); [done|congruence|auto|].
    exists x'. split; [done|]. eapply refines_quietly; try done.
    split_and!; [done|auto|congruence|done].
  - by eapply simulate_request.
  - by eapply simulate_response.
  - destruct (packets_split _ _ _ _ Href Hp) as (Hb & Hf & Hfs).
    destruct (refines_server _ _ _ _ Href Hs) as (Hok & Hx).
    apply acts_handle_rpc_error in H; [|done|apply Hok].
    eapply simulate_act; [exact Href|exact Hs|done|apply H|by eapply act_m_server_ok|done|done|exact Hb|done].
  - destruct (packets_split _ _ _ _ Href Hp) as (Hb & Hf & Hfs).
    apply lose_ballot in Hb as (x1 & Hx1 & Hn1 & Hb1). exists x1. split; [done|].
    split; cbn; [by rewrite Hn1; apply Href|done|apply Href|]. apply Forall_cons. split; [|done].
    split; [done|]. by intros.
  - destruct (packets_split _ _ _ _ Href Hp) as (Hb & Hf & Hfs).
    apply lose_ballot in Hb as (x1 & Hx1 & Hn1 & Hb1). exists x1. split; [done|].
    split; cbn; [by rewrite Hn1; apply Href|done|apply Href|]. apply Forall_cons. split; [|done].
    split; [apply Hf|]. by intros.
  - destruct (packets_split _ _ _ _ Href Hp) as (Hb & Hf & Hfs).
    apply lose_ballot in Hb as (x1 & Hx1 & Hn1 & Hb1). exists x1. split; [done|].
    split; cbn; [by rewrite Hn1; apply Href|done|apply Href|done].
  - exists x. split; [done|]. destruct Href as [? Hb ? ?]. split; cbn; [done|by rewrite decide_False|done|].
    apply Forall_cons. split; [by intros ?|done].
  - destruct (refines_server _ _ _ _ Href Hs) as (Hok & Hx). pose proof Hok as (Hst & Hsy & Hi & _).
    apply start_ok in H as (? & ? & Hv & Hr & Ho); [|apply synced_mgr_ok; [done|done|congruence]|done].
    destruct Hsy as (Hts & Hvs & _). unfold vote_of in Hv. injection Hv as Hi' Ht' Hv' Hg'.
    unfold saved_vote in Hts, Hvs. rewrite Hts in Ht'. rewrite Hvs in Hv'.
    eexists. split; [by apply rtc_once, (step_restart V x i (vote_state_of s))|].
    eapply refines_quietly; try done.
    + cbn. f_equal. unfold vote_state_of. by rewrite Ht', Hv', Hg', bool_decide_false.
    + split_and!; [done|done|congruence|done].
Qed.

Lemma simulate_all n n' x :
  rtc net_step n n' → refines n x → ∃ x', rtc (vote_step V) x x' ∧ refines n' x'.
Proof.
  intros Hr. revert x. induction Hr as [n|n n1 n' Hstep _ IH]; intros x Hx; [by exists x|].
  destruct (simulate _ _ _ Hstep Hx) as (x1 & Hx1 & Href). destruct (IH _ Href) as (x' & Hx' & ?).
  exists x'. split; [by etrans|done].
Qed.

(** The protocol before the first vote. *)
Definition election_of (n : net) : election := Election (vote_state_of <$> servers n) [] [] [].

Lemma start_refines n : net_start n → refines n (election_of n) ∧ election_ok V (election_of n).
Proof.
  intros [Hf Hs]. split.
  - split; cbn; [done|by rewrite Hf| |by rewrite Hf].
    intros i s Hi. destruct (Hs i s Hi) as (? & ? & ? & ? & _). by split_and!.
  - apply election_start. intros i v (s & <- & Hi)%lookup_fmap_Some.
    destruct (Hs i s Hi) as (_ & _ & _ & _ & Hg & Hr). cbn. by rewrite bool_decide_false.
Qed.

Lemma leader_led n x i s :
  refines n x → election_ok V x → servers n !! i = Some s → role_ s = leader → (get_term s, i) ∈ led x.
Proof.
  intros Href Hok Hs Hr. destruct (refines_server _ _ _ _ Href Hs) as [_ Hx].
  apply (ok_leader V _ Hok i (vote_state_of s) Hx). cbn. by rewrite bool_decide_true.
Qed.
End cluster.
