(* ===== verification/RaftElectionThms.v ===== *)
(** * Election safety

    The theorems on elections, with an election of three servers that runs, and
    what the members have to keep for them. *)
From S2P Require Import Prelude Bytes Buffer BufferSpec BufferSerializer Wire RaftTypes.
From S2P Require Import LogEntry LogStore SrvState StateMgr RaftParams RaftMsg Peer RaftServer.
From S2P Require Import RaftRoles RaftReplicate RaftVote RaftAppend RaftCommit RaftClient RaftMember.
From S2P Require Import RaftDispatch Election RaftRun RaftQuiet RaftVoteSpec.
From S2P Require Import RaftHandlerSpec RaftNet RaftElection.
Local Open Scope Z_scope.

(** A cluster that starts is a start of the network when the servers agree. *)
Section start.
Import Clusters.
Context (V : gset Z) (members : list srv_config).

Lemma start_server_ok i s :
  start members i = Ok s → in_s 32 i →
  static s ∧ synced s ∧ id_ s = i ∧ votes_granted_ s = 0 ∧ role_ s ≠ leader.
Proof.
  intros H Hi. unfold start in H. apply bind_Ok in H as (m & Hm & H).
  assert (server_id m = i ∧ saved_state_ m = None) as [Hid Hst].
  { unfold new_state_mgr in Hm. apply bind_Ok in Hm as (l & _ & Hm). cbv zeta in Hm.
    by injection Hm as <-. }
  apply bind_Ok in H as ([[a t] o] & H & Hs). injection Hs as <-.
  apply start_ok in H as (? & ? & Hv & ? & _); [| |done].
  - change (server_id (m <| saved_config_ := _ |>)) with (server_id m) in Hv. rewrite Hid in Hv.
    unfold vote_of in Hv. injection Hv as ? _ _ ?. by split_and!.
  - assert (saved_of (m <| saved_config_ := ClusterConfig 0 0 false "" members |>) =
      set_voted_for (-1) (set_term 0 new_srv_state)) as Hsv by (unfold saved_of; cbn; by rewrite Hst).
    split; [rewrite Hsv; split; cbn; range|by rewrite Hsv|].
    change (server_id (m <| saved_config_ := _ |>)) with (server_id m). by rewrite Hid.
Qed.

Definition agrees_dec (s : server) : bool :=
  bool_decide (NoDup (electors s)) && bool_decide (Forall (.∈ V) (electors s)) && bool_decide (id_ s ≠ -1)
  && bool_decide (Z.of_nat (base.size V) < 2 * (get_quorum_for_election s + 1)).

Definition member_ok (c : srv_config) : bool :=
  bool_decide (in_s 32 (RaftTypes.id_ c)) &&
  match start members (RaftTypes.id_ c) with Ok s => agrees_dec s | Fault _ => true end.

Lemma cluster_start : forallb member_ok members = true → net_start V (cluster members).
Proof.
  intros Hall. split; [done|]. intros i s Hi. unfold cluster in Hi. cbn [servers] in Hi.
  apply elem_of_list_to_map_2, list_elem_of_omap in Hi as (c & Hc & Hs).
  destruct (start members (RaftTypes.id_ c)) as [t|] eqn:Hst; [|done]. injection Hs as <- <-.
  rewrite forallb_forall in Hall. specialize (Hall c (proj1 (list_elem_of_In _ _) Hc)).
  unfold member_ok in Hall. rewrite Hst in Hall. apply andb_prop in Hall as [Hid%bool_decide_eq_true Hag].
  apply start_server_ok in Hst as (? & ? & ? & ? & ?); [|done].
  unfold agrees_dec in Hag.
  apply andb_prop in Hag as [[[?%bool_decide_eq_true ?%bool_decide_eq_true]%andb_prop
    ?%bool_decide_eq_true]%andb_prop ?%bool_decide_eq_true]. by split_and!.
Qed.
End start.

(** ** Theorems *)

(** C1: two servers that lead in the same term are the same server, even at
    different times of a run: of a cluster that starts with no votes under way,
    whose servers keep the same electors and have quorums of more than half of
    them, with terms of 64 bits that are not used up.  Messages may be lost and
    overtake each other, servers may restart from what they saved, and every
    handler that such a cluster runs is among the steps. *)
Theorem one_leader_per_term (V : gset Z) (n0 n1 n2 : net) (i j : Z) (si sj : server) :
  net_start V n0 → rtc (net_step V) n0 n1 → rtc (net_step V) n1 n2 →
  servers n1 !! i = Some si → role_ si = leader →
  servers n2 !! j = Some sj → role_ sj = leader →
  get_term si = get_term sj → i = j.
Proof.
  intros Hstart H1 H2 Hi Hli Hj Hlj Ht.
  destruct (start_refines V n0 Hstart) as [Href0 Hok0].
  destruct (simulate_all V _ _ _ H1 Href0) as (x1 & Hx1 & Href1).
  destruct (simulate_all V _ _ _ H2 Href1) as (x2 & Hx2 & Href2).
  pose proof (vote_steps_ok V _ _ Hok0 Hx1) as Hok1. pose proof (vote_steps_ok V _ _ Hok1 Hx2) as Hok2.
  apply (one_leader_per_term_led V x2 (get_term sj)); [done| |].
  - apply (vote_steps_led V _ _ Hx2). rewrite <- Ht. by eapply leader_led.
  - by eapply leader_led.
Qed.

(** An election of server 1 with the vote of server 3, and what follows it. *)
Definition election_of_1 : list (env * choice) :=
  map (pair (Clusters.at_ 10000000))
    [ElectionTimeout 1; Deliver 0; Deliver 0; Deliver 0; Deliver 0].

Example one_leader_per_term_witness :
  let n0 := Clusters.cluster Clusters.voters in
  ∃ n1 n2 s1 s2, net_start {[1; 2; 3]} n0 ∧
    rtc (net_step {[1; 2; 3]}) n0 n1 ∧ rtc (net_step {[1; 2; 3]}) n1 n2 ∧
    servers n1 !! 1 = Some s1 ∧ role_ s1 = leader ∧ servers n2 !! 1 = Some s2 ∧ role_ s2 = leader ∧
    get_term s1 = 1 ∧ get_term s2 = 1 ∧
    ∀ j sj, servers n2 !! j = Some sj → role_ sj = leader → get_term s1 = get_term sj → 1 = j.
Proof.
  intros n0.
  assert (net_start {[1; 2; 3]} n0) as Hstart by (apply cluster_start; by vm_compute).
  destruct (run election_of_1 n0) as [n1|] eqn:H1; [|by vm_compute in H1].
  assert (∃ s1, servers n1 !! 1 = Some s1 ∧ role_ s1 = leader ∧ get_term s1 = 1) as (s1 & Hs1 & Hl1 & Ht1).
  { vm_compute in H1. injection H1 as <-. by eexists. }
  destruct (run [(Clusters.at_ 10000000, Deliver 0)] n1) as [n2|] eqn:H2;
    [|vm_compute in H1; injection H1 as <-; by vm_compute in H2].
  assert (∃ s2, servers n2 !! 1 = Some s2 ∧ role_ s2 = leader ∧ get_term s2 = 1) as (s2 & Hs2 & Hl2 & Ht2).
  { vm_compute in H1. injection H1 as <-. vm_compute in H2. injection H2 as <-. by eexists. }
  apply (run_sound {[1; 2; 3]}) in H1, H2.
  exists n1, n2, s1, s2. split_and!; try done.
  intros j sj Hj Hlj Ht. by eapply (one_leader_per_term {[1; 2; 3]} n0 n1 n2 1 j s1 sj).
Defined.

(** C2: every run of a cluster is a run of the abstract protocol: the state of
    the servers' votes is that of the protocol's nodes, the vote requests and
    responses on their way are its ballots, whatever the handlers do besides,
    and the protocol's invariant holds. *)
Theorem elections_refine_protocol (V : gset Z) (n0 n : net) :
  net_start V n0 → rtc (net_step V) n0 n →
  ∃ x, rtc (vote_step V) (election_of n0) x ∧ election_ok V x ∧
    nodes x = vote_state_of <$> servers n ∧ ballots x ≡ₚ omap ballot_of (flights n).
Proof.
  intros Hstart Hr. destruct (start_refines V n0 Hstart) as [Href0 Hok0].
  destruct (simulate_all V _ _ _ Hr Href0) as (x & Hx & [Hn Hb _ _]).
  exists x. split_and!; [done|by eapply vote_steps_ok|done|done].
Qed.

Example elections_refine_protocol_witness :
  let n0 := Clusters.cluster Clusters.voters in
  ∃ n, rtc (net_step {[1; 2; 3]}) n0 n ∧
  ∃ x, rtc (vote_step {[1; 2; 3]}) (election_of n0) x ∧ election_ok {[1; 2; 3]} x ∧
    nodes x = vote_state_of <$> servers n ∧ ballots x ≡ₚ omap ballot_of (flights n).
Proof.
  intros n0. destruct (run election_of_1 n0) as [n|] eqn:H; [|by vm_compute in H].
  apply (run_sound {[1; 2; 3]}) in H. exists n. split; [done|].
  apply (elections_refine_protocol {[1; 2; 3]} n0 n); [|done]. apply cluster_start. by vm_compute.
Defined.

(** C18: the term of a server never goes down, and while it stays, a vote that
    was cast stays, whatever the network delivers and also through a restart
    from what the server saved.  The network delivers no requests that change
    the members and no log of a joining server: [handle_join_cluster_req] sets
    the term to that of its request, however old, and clears the vote. *)
Theorem vote_is_kept (V : gset Z) (n0 n1 n2 : net) (i : Z) (s1 : server) :
  net_start V n0 → rtc (net_step V) n0 n1 → rtc (net_step V) n1 n2 → servers n1 !! i = Some s1 →
  ∃ s2, servers n2 !! i = Some s2 ∧ get_term s1 ≤ get_term s2 ∧
    (get_term s2 = get_term s1 → get_voted_for s1 ≠ -1 → get_voted_for s2 = get_voted_for s1).
Proof.
  intros Hstart H1 H2 Hi. destruct (start_refines V n0 Hstart) as [Href0 _].
  destruct (simulate_all V _ _ _ H1 Href0) as (x1 & _ & Href1).
  destruct (simulate_all V _ _ _ H2 Href1) as (x2 & Hx2 & Href2).
  destruct (refines_server V _ _ _ _ Href1 Hi) as [_ Hx].
  destruct (vote_steps_keep V _ _ _ _ Hx2 Hx) as (v2 & Hv2 & Hkeep).
  rewrite (refines_nodes V _ _ Href2) in Hv2. apply lookup_fmap_Some in Hv2 as (s2 & <- & Hs2).
  exists s2. split; [done|]. unfold keeps_vote in Hkeep. cbn in Hkeep.
  destruct Hkeep as [?|[? [?|?]]]; split; intros; lia || done.
Qed.

Example vote_is_kept_witness :
  let n0 := Clusters.cluster Clusters.voters in
  ∃ n1 n2 s1, rtc (net_step {[1; 2; 3]}) n0 n1 ∧ rtc (net_step {[1; 2; 3]}) n1 n2 ∧
  servers n1 !! 3 = Some s1 ∧ get_voted_for s1 = 1 ∧
  ∃ s2, servers n2 !! 3 = Some s2 ∧ get_term s1 ≤ get_term s2 ∧
    (get_term s2 = get_term s1 → get_voted_for s1 ≠ -1 → get_voted_for s2 = get_voted_for s1).
Proof.
  intros n0. destruct (run election_of_1 n0) as [n1|] eqn:H1; [|by vm_compute in H1].
  destruct (run [(Clusters.at_ 20000000, ElectionTimeout 3)] n1) as [n2|] eqn:H2;
    [|vm_compute in H1; injection H1 as <-; by vm_compute in H2].
  assert (∃ s1, servers n1 !! 3 = Some s1 ∧ get_voted_for s1 = 1) as (s1 & Hs1 & Hv1).
  { vm_compute in H1. injection H1 as <-. by eexists. }
  apply (run_sound {[1; 2; 3]}) in H1, H2. exists n1, n2, s1.
  do 4 (split; [assumption|]). apply (vote_is_kept {[1; 2; 3]} n0 n1 n2 3 s1); [|assumption..].
  apply cluster_start. by vm_compute.
Defined.

(** ** What goes wrong with a learner *)

(** Server 1 is elected, its log reaches 3 and the learner 4, it is told to
    yield, chooses the learner and tells it to take over; 2 votes for the
    learner.  Then 3 campaigns, with the vote of 1. *)
Definition learner_takes_over : list (env * choice) :=
  map (pair (Clusters.at_ 10000000))
    [ElectionTimeout 1; Deliver 0; Deliver 0; Deliver 0; Deliver 0; Deliver 1; Deliver 0; Deliver 1;
     Deliver 0; Deliver 0; Deliver 0; Deliver 0; Yield 1 (-1); Deliver 0; Deliver 0; Deliver 2; Deliver 0]
  ++ [(Clusters.at_ 20000000, ElectionTimeout 3); (Clusters.at_ 30000000, ElectionTimeout 3)]
  ++ map (pair (Clusters.at_ 30000000)) [Deliver 1; Deliver 0; Deliver 1; Deliver 0; Deliver 0; Deliver 0].

(** With a learner, one leader per term fails: a leader that yields may
    choose a learner for its successor, which takes over and counts its own
    vote, though no quorum counts it.  In a cluster of three voters and a
    learner of a higher priority, one run ends with the learner 4 and the voter
    3 both leading in term 2; every step of it is a step of the network. *)
Theorem learner_splits_the_term :
  ∃ n s3 s4, (∀ V, rtc (net_step V) (Clusters.cluster (Clusters.voters ++ [Clusters.learner_4])) n) ∧
    servers n !! 3 = Some s3 ∧ servers n !! 4 = Some s4 ∧ im_learner_ s4 = true ∧
    role_ s3 = leader ∧ role_ s4 = leader ∧ get_term s3 = 2 ∧ get_term s4 = 2.
Proof.
  destruct (run learner_takes_over (Clusters.cluster (Clusters.voters ++ [Clusters.learner_4])))
    as [n|] eqn:H; [|by vm_compute in H].
  assert (∃ s3 s4, servers n !! 3 = Some s3 ∧ servers n !! 4 = Some s4 ∧ im_learner_ s4 = true ∧
    role_ s3 = leader ∧ role_ s4 = leader ∧ get_term s3 = 2 ∧ get_term s4 = 2) as (s3 & s4 & Hs).
  { vm_compute in H. injection H as <-. by eexists _, _. }
  exists n, s3, s4. split; [|done]. intros V. by apply (run_sound V) in H.
Qed.
