(* ===== verification/RaftCommitThms.v ===== *)
(** * What is committed, and how it is applied

    The commit index of a leader against the number of servers that have an
    entry, and the background commit as a run over the log. *)
From S2P Require Import Prelude Bytes Buffer BufferSpec BufferSerializer Wire RaftTypes.
From S2P Require Import LogEntry LogStore LogStoreSpec LogStoreOps SrvState StateMgr RaftParams.
From S2P Require Import RaftMsg Peer RaftServer RaftRoles RaftReplicate RaftAppend RaftCommit.
From S2P Require Import RaftDispatch RaftRun RaftNet LogStoreThms.
Local Open Scope Z_scope.

(** ** Quorums *)
Definition count_from (i : Z) (l : list Z) : Z := Z.of_nat (length (filter (λ x, i ≤ x) l)).

Lemma count_from_perm i l l' : l ≡ₚ l' → count_from i l = count_from i l'.
Proof. unfold count_from. by intros ->. Qed.

Lemma filter_none {A} (P : A → Prop) `{∀ x, Decision (P x)} (l : list A) :
  (∀ x, x ∈ l → ¬ P x) → filter P l = [].
Proof.
  induction l as [|x l IH]; [done|]. intros HP. rewrite filter_cons, decide_False by (apply HP; left).
  apply IH. intros. apply HP. by right.
Qed.

(** In a list sorted downwards, the element at [q] is in at least [q + 1]
    places, and nothing greater is. *)
Lemma sorted_count (l : list Z) (q : nat) (r : Z) :
  StronglySorted (λ x y, y ≤ x) l → l !! q = Some r →
  Z.of_nat q + 1 ≤ count_from r l ∧ ∀ i, r < i → count_from i l ≤ Z.of_nat q.
Proof.
  intros Hs Hq. rewrite <- (take_drop_middle l q r Hq) in Hs |- *.
  pose proof (lookup_lt_Some _ _ _ Hq) as Hlen.
  assert (length (take q l) = q) as Ht by (rewrite length_take; lia).
  revert Hs Ht. generalize (take q l) as l1. generalize (drop (S q) l) as l2. intros l2 l1 Hs Ht.
  assert (∀ x, x ∈ l1 → r ≤ x) as H1.
  { intros x Hx. induction l1 as [|y l1 IH] in Hs, Hx |- *; [by apply elem_of_nil in Hx|].
    apply StronglySorted_inv in Hs as [Hs Hy]. apply elem_of_cons in Hx as [->|Hx]; [|by apply IH].
    eapply Forall_forall in Hy; [exact Hy|]. apply elem_of_app. right. left. }
  assert (∀ x, x ∈ l2 → x ≤ r) as H2.
  { intros x Hx. induction l1 as [|y l1 IH] in Hs |- *.
    - apply StronglySorted_inv in Hs as [_ Hr]. by eapply Forall_forall in Hr.
    - apply StronglySorted_inv in Hs as [Hs _]. by apply IH. }
  unfold count_from. split.
  - rewrite filter_app, filter_cons, decide_True by lia. rewrite (filter_true _ l1) by done.
    rewrite length_app. cbn [length]. lia.
  - intros i Hi. rewrite filter_app, filter_cons, decide_False by lia.
    rewrite (filter_none _ l2), app_nil_r by (intros x Hx%H2; lia).
    pose proof (length_filter (λ x, i ≤ x) l1). lia.
Qed.

Lemma matched_indexes_length s :
  im_learner_ s = false → Z.of_nat (length (matched_indexes s)) = get_num_voting_members s.
Proof.
  intros Hl. unfold matched_indexes, get_num_voting_members. rewrite Hl. cbn [length].
  assert (length (omap (λ p, pr ← peer_heap_ s !! p;
      if is_regular_member s pr then Some (matched_idx_ pr) else None) (peer_ptrs s)) =
    length (filter (λ p, is_regular s p = true) (peer_ptrs s))) as ->; [|lia].
  induction (peer_ptrs s) as [|p l IH]; [done|]. rewrite filter_cons. cbn [omap list_omap].
  destruct (decide (is_regular s p = true)) as [Hr|Hr]; unfold is_regular in Hr;
    destruct (peer_heap_ s !! p) as [pr|]; try done; cbn.
  - rewrite Hr. cbn. by rewrite IH.
  - destruct (is_regular_member s pr); [done|]. exact IH.
Qed.

Lemma num_voting_members_pos s : im_learner_ s = false → 1 ≤ get_num_voting_members s.
Proof. intros Hl. unfold get_num_voting_members. rewrite Hl. lia. Qed.

Lemma exclude_snp_receivers_range s l n : 0 ≤ n → 0 ≤ exclude_snp_receivers s l n ≤ n.
Proof.
  revert n. induction l as [|p l IH]; intros n Hn; cbn [exclude_snp_receivers]; [lia|].
  case_decide as Hc; [|by apply IH]. assert (0 ≤ n - 1) as Hn' by lia. specialize (IH _ Hn'). lia.
Qed.

Lemma quorum_for_commit_range s :
  im_learner_ s = false → 0 ≤ get_quorum_for_commit s < get_num_voting_members s.
Proof.
  intros Hl. pose proof (num_voting_members_pos s Hl) as Hn. unfold get_quorum_for_commit.
  set (n := if exclude_snp_receiver_from_quorum_ (params_ s) then _ else _).
  assert (0 ≤ n ≤ get_num_voting_members s) as Hn'.
  { unfold n. destruct (exclude_snp_receiver_from_quorum_ _); [|lia].
    apply exclude_snp_receivers_range. lia. }
  clearbody n. case_decide; [|lia]. rewrite Z.quot_div_nonneg by lia. 
  split; [apply Z.div_pos; lia|]. apply Z.le_lt_trans with (n `div` 2); [done|].
  destruct (decide (n = 0)) as [->|]; [rewrite Z.div_0_l; lia|].
  assert (n `div` 2 < n) by (apply Z.div_lt; lia). lia.
Qed.

(** C4: a leader that is a voting member, without the consensus of all healthy
    members, always finds a commit index.  Before the state machine adjusts it,
    it is the index of some voting member up to which more of them than the
    quorum have the log, itself included, and no greater index is: for the
    default quorum, the greatest index a majority has. *)
Theorem commit_index_is_quorum_matched (e : env) (s : server) :
  im_learner_ s = false → use_full_consensus_among_healthy_members_ (params_ s) = false →
  let q := get_quorum_for_commit s in
  0 ≤ q < get_num_voting_members s ∧
  ∃ r, r ∈ matched_indexes s ∧
    q + 1 ≤ count_from r (matched_indexes s) ∧
    (∀ i, r < i → count_from i (matched_indexes s) ≤ q) ∧
    get_expected_committed_log_idx e s =
      Ok (sm_adjust_commit_index (state_machine_ e) (quick_commit_index_ s) r (peer_index_map s), s, []).
Proof.
  intros Hl Hf q. pose proof (quorum_for_commit_range s Hl) as Hq. fold q in Hq. split; [done|].
  pose proof (matched_indexes_length s Hl) as Hlen.
  set (l := sort_descending (matched_indexes s)).
  assert (l ≡ₚ matched_indexes s) as Hp by apply merge_sort_Permutation.
  assert (length l = length (matched_indexes s)) as Hlen' by by rewrite Hp.
  destruct (lookup_lt_is_Some_2 l (Z.to_nat q)) as [r Hr]; [lia|]. exists r.
  assert (StronglySorted (λ x y, y ≤ x) l) as Hs.
  { assert (Total (λ x y, y ≤ x)) by (intros x y; lia).
    assert (Transitive (λ x y : Z, y ≤ x)) by (intros x y z; lia). by apply StronglySorted_merge_sort. }
  destruct (sorted_count l (Z.to_nat q) r Hs Hr) as [Hge Hlt]. split_and!.
  - rewrite <- Hp. by eapply list_elem_of_lookup_2.
  - rewrite <- (count_from_perm r _ _ Hp). lia.
  - intros i Hi. rewrite <- (count_from_perm i _ _ Hp). specialize (Hlt i Hi). lia.
  - unfold get_expected_committed_log_idx.
    run_steps. rewrite decide_False by lia.
    assert (commit_quorum_idx (now_ e) (raft_limits_ e) s = q) as -> by (unfold commit_quorum_idx; by rewrite Hf).
    fold l. rewrite Hr. cbn [or_ub]. by run_steps.
Qed.

(** ** Committing in the background *)

(** What the state machine got to commit. *)
Definition commits (o : list effect) : list (Z * buffer) :=
  omap (λ x, match x with SmCommit i b => Some (i, b) | _ => None end) o.

Lemma commits_app o o' : commits (o ++ o') = commits o ++ commits o'.
Proof. apply omap_app. Qed.

(** *** Around a commit

    What a turn of the loop does beside handing the entry over: it is [steady]
    when it keeps the log and the indices, and commits nothing. *)
Definition commit_view (s : server) :=
  (log_store_ s, sm_commit_index_ s, quick_commit_index_ s, precommit_index_ s, sm_commit_paused_ s, params_ s).

Definition steady {A} (m : M A) : Prop :=
  ∀ e s a s' o, m e s = Ok (a, s', o) → commit_view s' = commit_view s ∧ commits o = [].

Lemma steady_ret {A} (a : A) : steady (mret a).
Proof. by intros e s ? ? ? [= <- <- <-]. Qed.
Lemma steady_bind {A B} (m : M A) (f : A → M B) : steady m → (∀ a, steady (f a)) → steady (m ≫= f).
Proof.
  intros Hm Hf e s b s'' o H. apply M_bind_Ok in H as (a & s' & o1 & o2 & H1 & H2 & ->).
  apply Hm in H1 as [Hv1 Ho1]. apply Hf in H2 as [Hv2 Ho2].
  by rewrite Hv2, Hv1, commits_app, Ho1, Ho2.
Qed.
Lemma steady_get : steady get.
Proof. by intros e s ? ? ? [= <- <- <-]. Qed.
Lemma steady_asks {A} (f : env → A) : steady (asks f).
Proof. by intros e s ? ? ? [= <- <- <-]. Qed.
Lemma steady_lift {A} (r : outcome A) : steady (lift r).
Proof. intros e s ? ? ? H. unfold lift in H. by apply bind_Ok in H as (? & ? & [= <- <- <-]). Qed.
Lemma steady_tell x : commits [x] = [] → steady (tell x).
Proof. by intros Hx e s ? ? ? [= <- <- <-]. Qed.
Lemma steady_modify f : (∀ s, commit_view (f s) = commit_view s) → steady (modify f).
Proof. intros Hf e s ? ? ? [= <- <- <-]. by rewrite Hf. Qed.
Lemma steady_when b m : steady m → steady (when b m).
Proof. destruct b; [done|]. intros _. apply steady_ret. Qed.
Lemma steady_for_each {A} (l : list A) (f : A → M unit) : (∀ x, steady (f x)) → steady (for_each l f).
Proof.
  intros Hf. induction l as [|x l IH]; simpl; [apply steady_ret|]. by apply steady_bind; [|intros []].
Qed.

Lemma save_config_steady c : steady (save_config c).
Proof.
  intros e s a s' o H. unfold save_config in H.
  apply M_bind_Ok in H as (? & ? & ? & ? & [= <- <- <-] & H & ->).
  apply M_bind_Ok in H as (? & ? & ? & ? & [= <- <- <-] & H & ->).
  apply M_bind_Ok in H as (m & ? & ? & ? & H1 & [= <- <- <-] & ->).
  unfold lift in H1. apply bind_Ok in H1 as (m' & Hm & [= <- <- <-]).
  split; [|done]. unfold StateMgr.save_config in Hm. run_ok. done.
Qed.
Lemma save_state_steady : steady save_state.
Proof.
  intros e s a s' o H. unfold save_state in H.
  apply M_bind_Ok in H as (? & ? & ? & ? & [= <- <- <-] & H & ->).
  apply M_bind_Ok in H as (? & ? & ? & ? & [= <- <- <-] & H & ->).
  apply M_bind_Ok in H as (m & ? & ? & ? & H1 & [= <- <- <-] & ->).
  unfold lift in H1. apply bind_Ok in H1 as (m' & Hm & [= <- <- <-]).
  split; [|done]. unfold StateMgr.save_state in Hm.
  apply bind_Ok in Hm as (? & _ & Hm). by apply bind_Ok in Hm as (? & _ & [= <-]).
Qed.

(** The operations are unfolded as the proof comes to them. *)
Ltac steady_head m := match m with ?f _ => steady_head f | ?f => unfold f end.
Ltac steady_step :=
  cbv beta;
  lazymatch goal with
  | |- steady (mret _) => apply steady_ret
  | |- steady get => apply steady_get
  | |- steady (_ ≫= _) => apply steady_bind; [|intros ?]
  | |- steady (when _ _) => apply steady_when
  | |- steady (for_each _ _) => apply steady_for_each; intros ?
  | |- steady (asks _) => apply steady_asks
  | |- steady (lift _) => apply steady_lift
  | |- steady (tell _) => apply steady_tell; reflexivity
  | |- steady (modify _) => apply steady_modify; reflexivity
  | |- steady (let '_ := ?x in _) => destruct x
  | |- steady (if ?b then _ else _) => destruct b
  | |- steady (match ?x with _ => _ end) => destruct x
  | |- steady save_state => apply save_state_steady
  | |- steady (save_config _) => apply save_config_steady
  | |- steady ?m => steady_head m
  end.
Ltac steady := repeat steady_step.

Lemma reconfigure_steady c : steady (reconfigure c).
Proof. steady. Qed.
Lemma snapshot_steady i b : steady (snapshot_and_compact i b).
Proof. steady. Qed.
Lemma freshness_steady : steady check_freshness.
Proof. steady. Qed.
Lemma notify_steady i r : steady (notify_elem i r).
Proof. steady. Qed.
Lemma early_steady i r : steady (early_elem i r).
Proof. steady. Qed.
Lemma async_steady p : steady (set_async_result p).
Proof. steady. Qed.
Lemma entry_buf_steady le : steady (entry_buf le).
Proof. steady. Qed.

(** *** What the state machine gets *)

(** The entry at an index, when it is one for the state machine. *)
Definition committed_data (first : Z) (ds : list entry_data) (i : Z) : option (Z * buffer) :=
  d ← log_lookup first ds i;
  if decide (e_type d = app_log) then Some (i, cursor [] (e_payload d)) else None.

(** Those of the [n] indices from [i] on, in order. *)
Definition handed (first : Z) (ds : list entry_data) (i n : Z) : list (Z * buffer) :=
  omap (committed_data first ds) (seqZ i n).

(** How far commits can go: what is known to be committed, of what is there. *)
Definition commit_target (s : server) : Z := quick_commit_index_ s `min` get_last_log_idx s.

(** The index a call goes on from: the log may start after the commit index. *)
Definition commit_base (s : server) : Z := sm_commit_index_ s `max` (start_index (log_store_ s) - 1).

Definition at_commit (c : Z) (s : server) : server := s <| sm_commit_index_ := c |>.

Lemma view_target s s' : commit_view s' = commit_view s → commit_target s' = commit_target s.
Proof. intros [= Hl _ Hq _ _ _]. unfold commit_target, get_last_log_idx, get_next_slot. by rewrite Hl, Hq. Qed.

Lemma view_at_commit t c s x :
  commit_view t = commit_view (at_commit c s) → commit_view (at_commit x t) = commit_view (at_commit x s).
Proof. unfold commit_view, at_commit, log_store_. cbn. intros Hv. injection Hv as. congruence. Qed.

Lemma seqZ_one i : seqZ i 1 = [i].
Proof. by rewrite seqZ_cons, seqZ_nil by lia. Qed.

Lemma handed_one first ds i : handed first ds i 1 = option_list (committed_data first ds i).
Proof. unfold handed. rewrite seqZ_one. cbn. by destruct (committed_data first ds i). Qed.

Lemma handed_cons first ds i k :
  handed first ds i (Z.of_nat (S k)) = handed first ds i 1 ++ handed first ds (i + 1) (Z.of_nat k).
Proof.
  unfold handed. rewrite <- omap_app. f_equal. rewrite seqZ_one, (seqZ_cons i) by lia. cbn [app].
  by repeat (f_equal; try lia).
Qed.

Section commit.
Context (e : env) (first : Z) (ds : list entry_data).
Implicit Types s : server.

Lemma log_read_run {A} (f : (nat → byte) → log_store → outcome A) s a :
  f (junk_ e) (log_store_ s) = Ok a → log_read f e s = Ok (a, s, []).
Proof. intros Hf. unfold log_read. run_steps. by rewrite Hf. Qed.

Lemma rep_last s :
  represents (junk_ e) (log_store_ s) first ds → get_last_log_idx s = first + Z.of_nat (length ds) - 1.
Proof.
  intros Hl. unfold get_last_log_idx, get_next_slot. rewrite (rep_next_slot _ _ _ _ Hl).
  pose proof (rep_first _ _ _ _ Hl). pose proof (rep_room _ _ _ _ Hl). rewrite wrap_u_id; [done|range].
Qed.

(** The entry after the commit index, read. *)
Lemma next_entry s :
  represents (junk_ e) (log_store_ s) first ds → first - 1 ≤ sm_commit_index_ s < commit_target s →
  let i := sm_commit_index_ s + 1 in
  ∃ d, log_lookup first ds i = Some d ∧ fits (e_payload d) ∧ u64 i = i ∧ u64 (i - 1) = sm_commit_index_ s ∧
    log_read (λ junk, entry_at junk i) e s = Ok (to_entry d, s, []).
Proof.
  intros Hl Hc i. unfold commit_target in Hc. rewrite (rep_last s Hl) in Hc.
  pose proof (rep_room _ _ _ _ Hl). pose proof (rep_first _ _ _ _ Hl).
  destruct (log_lookup_in first ds i) as (d & Hd & Hin); [subst i; lia|]. exists d. split; [done|].
  pose proof (rep_payloads _ _ _ _ Hl) as Hp. eapply Forall_forall in Hp; [|exact Hin].
  split; [by apply payload_ok_fits|]. subst i. split; [apply wrap_u_id; range|].
  split; [rewrite wrap_u_id by range; lia|].
  apply log_read_run. by rewrite (entry_at_rep _ _ _ _ _ Hl), Hd.
Qed.

Lemma stored_buf_run d s : fits (e_payload d) → entry_buf (to_entry d) e s = Ok (cursor [] (e_payload d), s, []).
Proof.
  intros Hf. unfold entry_buf. cbn [to_entry buff_ or_ub]. run_steps.
  by rewrite (cursor_set_pos [] (e_payload d) [] (e_payload d)).
Qed.

(** **** Any run *)
Lemma commit_app_log_safe s s' o i d need :
  fits (e_payload d) → commit_app_log i (to_entry d) need e s = Ok (tt, s', o) →
  commit_view s' = commit_view s ∧ commits o = [(i, cursor [] (e_payload d))].
Proof.
  intros Hf. unfold commit_app_log. rewrite (run_silent _ _ _ _ _ _ (stored_buf_run d s Hf)). run_steps.
  case_decide; [intros Hex; by apply M_bind_Ok in Hex as (? & ? & ? & ? & _ & Hex & _)|].
  rewrite run_tell. intros Hrun. apply bind_Ok in Hrun as ([[[] t] o'] & Hrest & [= <- <-]).
  match type of Hrest with ?m e s = _ => assert (steady m) as Hs by steady end.
  apply Hs in Hrest as [Hv Ho]. split; [done|].
  change (commits (SmCommit i (cursor [] (e_payload d)) :: o'))
    with ((i, cursor [] (e_payload d)) :: commits o'). by rewrite Ho.
Qed.

Lemma commit_one_safe s s' o need :
  represents (junk_ e) (log_store_ s) first ds → first - 1 ≤ sm_commit_index_ s < commit_target s →
  commit_one need e s = Ok (tt, s', o) →
  commit_view s' = commit_view (at_commit (sm_commit_index_ s + 1) s) ∧
  commits o = handed first ds (sm_commit_index_ s + 1) 1.
Proof.
  intros Hl Hc. destruct (next_entry s Hl Hc) as (d & Hd & Hf & Hu & Hu' & Hread).
  set (i := sm_commit_index_ s + 1) in *.
  unfold commit_one. run_steps. fold i. rewrite Hu, (run_silent _ _ _ _ _ _ Hread).
  cbn [to_entry LogEntry.term_ value_type_]. fold (to_entry d).
  case_decide; [intros Hex; by apply M_bind_Ok in Hex as (? & ? & ? & ? & _ & Hex & _)|].
  intros Hrun. apply M_bind_Ok in Hrun as ([] & t & o1 & o2 & H1 & H2 & ->).
  assert (commit_view t = commit_view s ∧ commits o1 = handed first ds i 1) as [Hv1 Ho1].
  { rewrite handed_one. unfold committed_data. rewrite Hd. cbn. case_decide as Hty.
    - by apply commit_app_log_safe in H1.
    - revert H1. case_decide; intros H1; [|by injection H1 as <- <-].
      assert (steady (commit_conf i (to_entry d))) as Hs by steady. by apply Hs in H1. }
  clear H1. revert H2. run_steps.
  assert (sm_commit_index_ t = sm_commit_index_ s) as Hct by by injection Hv1.
  rewrite Hct, Hu', decide_True by done. run_steps. intros H2.
  match type of H2 with ?m e ?t' = _ => assert (steady m) as Hs by steady end.
  apply Hs in H2 as [Hv2 Ho2]. rewrite commits_app, Ho1, Ho2, app_nil_r. split; [|done].
  rewrite Hv2. unfold commit_view, at_commit, log_store_ in *. cbn in *. congruence.
Qed.

(** The loop makes [k] commits; it stops for its timer, or the pause, or because
    nothing is left. *)
Lemma commit_loop_safe fuel turn fired need s b s' o :
  represents (junk_ e) (log_store_ s) first ds → first - 1 ≤ sm_commit_index_ s →
  commit_loop fuel turn fired need e s = Ok (b, s', o) →
  ∃ k, commit_view s' = commit_view (at_commit (sm_commit_index_ s + Z.of_nat k) s) ∧
    commits o = handed first ds (sm_commit_index_ s + 1) (Z.of_nat k) ∧
    ((0 < k)%nat → sm_commit_index_ s + Z.of_nat k ≤ commit_target s) ∧
    (if b then commit_target s ≤ sm_commit_index_ s + Z.of_nat k ∨ sm_commit_paused_ s = true
     else sm_commit_index_ s + Z.of_nat k < commit_target s ∧ ∃ t, fired t = true) ∧
    (sm_commit_paused_ s = true → k = O) ∧
    (turn = O → sm_commit_paused_ s = false → sm_commit_index_ s < commit_target s → (0 < k)%nat).
Proof.
  assert (∀ t, at_commit (sm_commit_index_ t + Z.of_nat 0) t = t) as Hid.
  { intros t. unfold at_commit. rewrite Z.add_0_r. by destruct t. }
  revert turn s o. induction fuel as [|fuel IH]; intros turn s o Hl Hf Hrun; cbn [commit_loop] in Hrun;
    rewrite run_get in Hrun;
    (destruct (decide (sm_commit_index_ s < quick_commit_index_ s ∧ sm_commit_index_ s < get_last_log_idx s)) as [Hlt|Hge];
     [|injection Hrun as <- <- <-; exists O; rewrite Hid; split_and!;
       [done|done|lia|left; unfold commit_target; lia|done|unfold commit_target; lia]]); [done|].
  assert (sm_commit_index_ s < commit_target s) as Hlt' by (unfold commit_target; lia).
  destruct (bool_decide (turn ≠ O) && fired turn) eqn:Hfire.
  { injection Hrun as <- <- <-. exists O. rewrite Hid. apply andb_prop in Hfire as [?%bool_decide_eq_true ?].
    split_and!; [done|done|lia|lia|by exists turn|done|done]. }
  destruct (sm_commit_paused_ s) eqn:Hp.
  { injection Hrun as <- <- <-. exists O. rewrite Hid. split_and!; [done|done|lia|by right|done|done]. }
  apply M_bind_Ok in Hrun as ([] & t & o1 & o2 & H1 & H2 & ->).
  apply commit_one_safe in H1 as [Hv1 Ho1]; [|done|lia].
  pose proof (view_target _ _ Hv1) as Ht. pose proof Hv1 as Hv0. injection Hv0 as Hvl Hvc _ _ Hvp _.
  apply IH in H2 as (k & Hv2 & Ho2 & Hk & Hb & Hpz & _); [|by rewrite Hvl|rewrite Hvc; cbn; lia].
  change (commit_target (at_commit (sm_commit_index_ s + 1) s)) with (commit_target s) in Ht.
  rewrite Ht, Hvc in Hk. rewrite Ht, Hvc in Hb. rewrite Hvp in Hb. rewrite Hvc in Hv2, Ho2. cbn in Hk, Hb, Hv2, Ho2.
  rewrite Hp in Hb. exists (S k).
  replace (sm_commit_index_ s + Z.of_nat (S k)) with (sm_commit_index_ s + 1 + Z.of_nat k) by lia.
  split_and!; [|by rewrite commits_app, Ho1, Ho2, <- handed_cons|destruct k; lia|done|done|lia].
  by rewrite Hv2, (view_at_commit t (sm_commit_index_ s + 1) s).
Qed.

(** The whole call. *)
Lemma bg_exec_split fired s :
  represents (junk_ e) (log_store_ s) first ds →
  ∃ need, commit_in_bg_exec fired e s =
    (b ← commit_loop (Z.to_nat (quick_commit_index_ s - commit_base s)) 0 fired need;
     check_freshness ;; mret b) e (at_commit (commit_base s) s).
Proof.
  intros Hl. pose proof (rep_first _ _ _ _ Hl) as Hf. pose proof (rep_start _ _ _ _ Hl) as Hst.
  unfold commit_in_bg_exec, commit_base. run_steps. unfold start_index in *. rewrite Hst.
  eexists. case_bool_decide; unfold when; run_steps.
  - rewrite Z.max_r by lia. done.
  - rewrite Z.max_l by lia. unfold at_commit. by destruct s.
Qed.

Lemma bg_exec_safe fired s b s' o :
  represents (junk_ e) (log_store_ s) first ds → commit_in_bg_exec fired e s = Ok (b, s', o) →
  ∃ k, sm_commit_index_ s' = commit_base s + Z.of_nat k ∧
    commits o = handed first ds (commit_base s + 1) (Z.of_nat k) ∧
    ((0 < k)%nat → sm_commit_index_ s' ≤ commit_target s) ∧
    (if b then commit_target s ≤ sm_commit_index_ s' ∨ sm_commit_paused_ s = true
     else sm_commit_index_ s' < commit_target s ∧ ∃ t, fired t = true) ∧
    (sm_commit_paused_ s = true → k = O) ∧
    (sm_commit_paused_ s = false → commit_base s < commit_target s → (0 < k)%nat) ∧
    log_store_ s' = log_store_ s.
Proof.
  intros Hl Hrun. destruct (bg_exec_split fired s Hl) as [need Heq]. rewrite Heq in Hrun.
  apply M_bind_Ok in Hrun as (b' & t & o1 & o2 & H1 & H2 & ->).
  assert (first - 1 ≤ commit_base s) as Hb.
  { unfold commit_base, start_index. rewrite (rep_start _ _ _ _ Hl). lia. }
  apply commit_loop_safe in H1 as (k & Hv & Ho & Hk & Hr & Hp & Hpos); [|done|done].
  apply M_bind_Ok in H2 as ([] & t' & o3 & o4 & H3 & [= <- <- <-] & ->).
  assert (steady check_freshness) as Hs by steady. apply Hs in H3 as [Hv3 Ho3]. rewrite Hv in Hv3.
  injection Hv3 as Hlog Hc _ _ _ _. cbn in Hc. exists k. rewrite Hc.
  split_and!; [done| |done|done|done|by auto|by rewrite Hlog].
  by rewrite !commits_app, Ho, Ho3, app_nil_r.
Qed.

(** **** That a call returns *)

(** Every element that a client waits with is there. *)
Definition elems_there (s : server) : Prop :=
  ∀ i p, commit_ret_elems_ s !! i = Some p → is_Some (elem_heap_ s !! p).

(** A server whose log can be committed: its entries up to [commit_target] are
    pre-committed, are none of configurations, and have a term; it makes no
    snapshots, and what the state machine returns is a buffer. *)
Record commit_ready (s : server) : Prop := {
  cr_log : represents (junk_ e) (log_store_ s) first ds;
  cr_precommit : commit_target s ≤ precommit_index_ s;
  cr_entries : ∀ i d, commit_base s < i ≤ commit_target s → log_lookup first ds i = Some d →
    e_type d ≠ conf ∧ e_term d ≠ 0;
  cr_elems : elems_there s;
  cr_snapshots : snapshot_distance_ (params_ s) = 0;
  cr_results : ∀ i b r, sm_commit_ext (state_machine_ e) i b = Some r → ∃ r', set_pos 0 r = Ok r'
}.

Lemma snapshot_and_compact_off i s :
  snapshot_distance_ (params_ s) = 0 → snapshot_and_compact i false e s = Ok (false, s, []).
Proof.
  intros Hd. unfold snapshot_and_compact. run_steps. case_decide; [done|].
  rewrite bool_decide_true by (by left). done.
Qed.

Lemma elems_alter p f s : elems_there s → elems_there (s <| elem_heap_ ::= alter f p |>).
Proof. intros He i q Hq. cbn in *. rewrite lookup_alter. case_decide; [subst; apply fmap_is_Some|]; by eapply He. Qed.
Lemma elems_delete i s : elems_there s → elems_there (s <| commit_ret_elems_ ::= delete i |>).
Proof. intros He j q Hq. cbn in *. apply lookup_delete_Some in Hq as [_ Hq]. by eapply He. Qed.

Lemma get_elem_run p s el : elem_heap_ s !! p = Some el → get_elem p e s = Ok (el, s, []).
Proof. intros Hp. unfold get_elem. run_steps. by rewrite Hp. Qed.

Lemma notify_elem_returns i r s :
  elems_there s → ∃ l b s', notify_elem i r e s = Ok ((l, b), s', []) ∧ elems_there s' ∧
    Forall (λ p, is_Some (elem_heap_ s' !! p)) l.
Proof.
  intros He. unfold notify_elem. run_steps. destruct (commit_ret_elems_ s !! i) as [p|] eqn:Hi; [|by eexists _, _, _].
  destruct (He _ _ Hi) as [el Hp]. rewrite (run_silent _ _ _ _ _ _ (get_elem_run p s el Hp)).
  case_decide; [|by eexists _, _, _]. unfold upd_elem. run_steps.
  cbn [params_]. destruct (return_method_ _), (cr_callback_invoked_ el); run_steps;
    eexists _, _, _; (split; [done|]); (split; [by repeat first [apply elems_delete|apply elems_alter]|]); try done;
    (constructor; [|done]); cbn; rewrite lookup_alter_eq, Hp; by eexists.
Qed.

Lemma early_elem_returns i r s :
  elems_there s → ∃ s', early_elem i r e s = Ok (tt, s', []) ∧ elems_there s' ∧
    ∀ q, is_Some (elem_heap_ s !! q) → is_Some (elem_heap_ s' !! q).
Proof.
  intros He. unfold early_elem, cs_new_elem. run_steps. eexists. split; [done|].
  split; [|intros q Hq; cbn; rewrite lookup_insert_is_Some'; by right]. intros j q Hq. cbn in *. set (p := fresh _) in *.
  assert (∀ j, commit_ret_elems_ s !! j = Some q → is_Some (<[p := CommitRetElem i r
    (bool_decide (return_method_ (params_ s) = blocking)) OK
    (bool_decide (return_method_ (params_ s) = async_handler)) false]> (elem_heap_ s) !! q)) as Hold.
  { intros j' Hj. apply He in Hj. rewrite lookup_insert_is_Some'. by right. }
  case_decide; [|by eapply Hold]. apply lookup_insert_Some in Hq as [[_ <-]|[_ Hq]]; [|by eapply Hold].
  rewrite lookup_insert_eq. by eexists.
Qed.

Lemma set_async_result_returns p s :
  elems_there s → is_Some (elem_heap_ s !! p) →
  ∃ s' o, set_async_result p e s = Ok (tt, s', o) ∧ elems_there s' ∧
    ∀ q, is_Some (elem_heap_ s !! q) → is_Some (elem_heap_ s' !! q).
Proof.
  intros He [el Hp]. unfold set_async_result. rewrite (run_silent _ _ _ _ _ _ (get_elem_run p s el Hp)).
  unfold when, upd_elem. destruct (cr_async_result_ el); [|by eexists _, _].
  rewrite run_tell. eexists _, _. split; [done|]. split; [by apply elems_alter|].
  intros q Hq. cbn. rewrite lookup_alter. case_decide; [by apply fmap_is_Some|done].
Qed.

Lemma set_async_results_return l s :
  elems_there s → Forall (λ p, is_Some (elem_heap_ s !! p)) l →
  ∃ s' o, for_each l set_async_result e s = Ok (tt, s', o) ∧ elems_there s'.
Proof.
  revert s. induction l as [|p l IH]; intros s He Hl; [by eexists _, _|].
  apply Forall_cons in Hl as [Hp Hl]. cbn [for_each].
  destruct (set_async_result_returns p s He Hp) as (s1 & o1 & H1 & He1 & Hk).
  rewrite (run_bind _ _ _ _ _ _ _ H1).
  destruct (IH s1 He1) as (s2 & o2 & H2 & He2); [by eapply Forall_impl|].
  rewrite H2. by eexists _, _.
Qed.

Lemma commit_app_log_returns i d need s :
  fits (e_payload d) → i ≤ precommit_index_ s → elems_there s →
  (∀ i b r, sm_commit_ext (state_machine_ e) i b = Some r → ∃ r', set_pos 0 r = Ok r') →
  ∃ s' o, commit_app_log i (to_entry d) need e s = Ok (tt, s', o) ∧ elems_there s'.
Proof.
  intros Hf Hi He Hres. unfold commit_app_log. rewrite (run_silent _ _ _ _ _ _ (stored_buf_run d s Hf)). run_steps.
  rewrite decide_False by lia. rewrite run_tell.
  assert (∃ r, (match sm_commit_ext (state_machine_ e) i (cursor [] (e_payload d)) with
    | Some b => b ← lift (set_pos 0 b); mret (Some b) | None => mret None end) e s = Ok (r, s, [])) as [r Hr].
  { destruct (sm_commit_ext _ _ _) as [b|] eqn:Hb; [|by eexists].
    destruct (Hres _ _ _ Hb) as [b' ->]. by eexists. }
  rewrite (run_silent _ _ _ _ _ _ Hr). destruct need; [|by eexists _, _].
  destruct (notify_elem_returns i r s He) as (l & found & s1 & H1 & He1 & Hl).
  rewrite (run_silent _ _ _ _ _ _ H1).
  assert (∃ s2, when (negb found && bool_decide (i = precommit_index_ s)) (early_elem i r) e s1 = Ok (tt, s2, []) ∧
    elems_there s2 ∧ Forall (λ p, is_Some (elem_heap_ s2 !! p)) l) as (s2 & H2 & He2 & Hl2).
  { unfold when. destruct (_ && _); [|by eexists].
    destruct (early_elem_returns i r s1 He1) as (s2 & H2 & He2 & Hk). exists s2. split; [done|]. split; [done|].
    by eapply Forall_impl. }
  rewrite (run_silent _ _ _ _ _ _ H2).
  destruct (set_async_results_return l s2 He2 Hl2) as (s3 & o3 & H3 & He3). rewrite H3. by eexists _, _.
Qed.

Lemma commit_one_returns need s :
  commit_ready s → first - 1 ≤ sm_commit_index_ s → commit_base s ≤ sm_commit_index_ s < commit_target s →
  ∃ s' o, commit_one need e s = Ok (tt, s', o) ∧ elems_there s'.
Proof.
  intros [Hl Hp Hent He Hsn Hres] Hf Hc. destruct (next_entry s Hl ltac:(lia)) as (d & Hd & Hfit & Hu & Hu' & Hread).
  destruct (Hent (sm_commit_index_ s + 1) d ltac:(lia) Hd) as [Hty Hterm]. set (i := sm_commit_index_ s + 1) in *.
  unfold commit_one. run_steps. fold i. rewrite Hu, (run_silent _ _ _ _ _ _ Hread).
  cbn [to_entry LogEntry.term_ value_type_]. fold (to_entry d). rewrite decide_False by done.
  assert (∃ s1 o1, (if decide (e_type d = app_log) then commit_app_log i (to_entry d) need
    else if decide (e_type d = conf) then commit_conf i (to_entry d) else mret tt) e s = Ok (tt, s1, o1) ∧
    elems_there s1 ∧ commit_view s1 = commit_view s) as (s1 & o1 & H1 & He1 & Hv).
  { case_decide.
    - destruct (commit_app_log_returns i d need s Hfit ltac:(lia) He Hres) as (s1 & o1 & H1 & He1).
      exists s1, o1. split; [done|]. split; [done|]. by apply commit_app_log_safe in H1 as [? _].
    - rewrite decide_False by done. by eexists _, _. }
  rewrite (run_bind _ _ _ _ _ _ _ H1). run_steps. injection Hv as _ Hci _ _ _ Hpar.
  rewrite Hci, Hu', decide_True by done. run_steps.
  match goal with |- context [(snapshot_and_compact ?i false ≫= ?f) _ ?t] =>
    rewrite (run_silent e t _ f _ _ (snapshot_and_compact_off i t ltac:(cbn; by rewrite Hpar)))
  end.
  unfold call_cb. run_steps. rewrite run_tell. run_steps. by eexists _, _.
Qed.

Lemma ready_next s s' c :
  commit_ready s → commit_view s' = commit_view (at_commit c s) → commit_base s ≤ c → elems_there s' → commit_ready s'.
Proof.
  intros [Hl Hp Hent He Hsn Hres] Hv Hc He'. pose proof (view_target _ _ Hv) as Ht.
  injection Hv as Hlog Hci Hq Hpc _ Hpar. split; try done.
  - by rewrite Hlog.
  - rewrite Ht, Hpc. apply Hp.
  - intros i d Hi. apply Hent. rewrite Ht in Hi. change (commit_target (at_commit c s)) with (commit_target s) in Hi.
    unfold commit_base in Hi at 1. rewrite Hci in Hi. cbn in Hi. lia.
  - by rewrite Hpar.
Qed.

Lemma commit_loop_returns fuel turn fired need s :
  commit_ready s → first - 1 ≤ sm_commit_index_ s → commit_base s ≤ sm_commit_index_ s →
  (Z.to_nat (quick_commit_index_ s - sm_commit_index_ s) ≤ fuel)%nat →
  ∃ b s' o, commit_loop fuel turn fired need e s = Ok (b, s', o).
Proof.
  revert turn s. induction fuel as [|fuel IH]; intros turn s Hr Hf Hb Hfuel; cbn [commit_loop]; run_steps;
    (destruct (decide (sm_commit_index_ s < quick_commit_index_ s ∧ sm_commit_index_ s < get_last_log_idx s)) as [Hlt|_];
     [|by eexists _, _, _]); [lia|].
  destruct (_ && _); [by eexists _, _, _|]. destruct (sm_commit_paused_ s); [by eexists _, _, _|].
  assert (sm_commit_index_ s < commit_target s) as Hlt' by (unfold commit_target; lia).
  destruct (commit_one_returns need s Hr Hf ltac:(lia)) as (s1 & o1 & H1 & He1).
  rewrite (run_bind _ _ _ _ _ _ _ H1).
  apply commit_one_safe in H1 as [Hv _]; [|apply Hr|lia]. pose proof Hv as Hv0. injection Hv0 as Hlog Hci Hq _ _ _.
  cbn in Hci, Hq.
  destruct (IH (S turn) s1) as (b & s2 & o2 & H2); [by apply (ready_next s s1 (sm_commit_index_ s + 1)); [..|lia|]|lia| |lia|].
  - unfold commit_base in *. rewrite Hlog, Hci. change (log_store_ (at_commit _ s)) with (log_store_ s). lia.
  - rewrite H2. by eexists _, _, _.
Qed.

Lemma bg_exec_returns fired s : commit_ready s → ∃ b s' o, commit_in_bg_exec fired e s = Ok (b, s', o).
Proof.
  intros Hr. pose proof (cr_log _ Hr) as Hl. destruct (bg_exec_split fired s Hl) as [need ->].
  assert (first - 1 ≤ commit_base s) as Hb.
  { unfold commit_base, start_index. rewrite (rep_start _ _ _ _ Hl). lia. }
  assert (commit_base (at_commit (commit_base s) s) = commit_base s) as Hbb.
  { unfold commit_base, at_commit, log_store_. cbn. lia. }
  destruct (commit_loop_returns (Z.to_nat (quick_commit_index_ s - commit_base s)) 0 fired need (at_commit (commit_base s) s))
    as (b & s1 & o1 & H1); [by apply (ready_next s _ (commit_base s)); [..|apply Hr]|done|by rewrite Hbb|done|].
  rewrite (run_bind _ _ _ _ _ _ _ H1).
  assert (∃ t o', (check_freshness ;; mret b) e s1 = Ok (b, t, o')) as (t & o' & ->); [|by eexists _, _, _].
  unfold check_freshness, call_cb. run_steps. case_decide; [|run_steps; by eexists _, _].
  destruct (data_fresh_ s1 && _); [|destruct (negb _ && _)]; run_steps; rewrite ?run_tell; run_steps; by eexists _, _.
Qed.
End commit.

(** C5: whatever a server is and its log holds, a call of the background commit
    that returns has handed the entries after the commit index that are for the
    state machine to it, in the order of the log, each once, up to the commit
    index the server knows of and the end of its log at most, and has moved its
    commit index past them.  It stops for one of three reasons: nothing is left,
    its timer fired, or commits are paused; and unless they are paused it makes
    progress, so that calls of it come to the end.  It does return when the
    entries it comes to are pre-committed, no configurations and not those of a
    damaged log, and no snapshot is made ([commit_ready]), whatever its role is
    and whoever waits for the results. *)
Theorem commit_applies_in_order (e : env) (s : server) (first : Z) (ds : list entry_data) (fired : nat → bool) :
  represents (junk_ e) (log_store_ s) first ds →
  (∀ b s' o, commit_in_bg_exec fired e s = Ok (b, s', o) →
   ∃ k, sm_commit_index_ s' = commit_base s + Z.of_nat k ∧
     commits o = handed first ds (commit_base s + 1) (Z.of_nat k) ∧
     ((0 < k)%nat → sm_commit_index_ s' ≤ commit_target s) ∧
     (if b then commit_target s ≤ sm_commit_index_ s' ∨ sm_commit_paused_ s = true
      else sm_commit_index_ s' < commit_target s ∧ ∃ t, fired t = true) ∧
     (sm_commit_paused_ s = true → k = O) ∧
     (sm_commit_paused_ s = false → commit_base s < commit_target s → (0 < k)%nat) ∧
     log_store_ s' = log_store_ s) ∧
  (commit_ready e first ds s → ∃ b s' o, commit_in_bg_exec fired e s = Ok (b, s', o)).
Proof.
  intros Hl. split; [|by apply bg_exec_returns]. intros b s' o. by apply bg_exec_safe.
Qed.

(** ** Witnesses *)
Definition an_env : env := Clusters.at_ 0.

(** Server 2 of a cluster of three, with a log of its own. *)
Definition a_follower : server :=
  match Clusters.start Clusters.voters 2 with
  | Ok s => s <| state_mgr_ ::= (λ m, m <| cur_log_store_ := sample_store |>) |>
              <| params_ ::= (λ p, p <| snapshot_distance_ := 0 |>) |>
              <| quick_commit_index_ := 2 |> <| precommit_index_ := 3 |>
  | Fault _ => init_server 0 0 (StateMgr 0 "" sample_store (new_srv_config 0 "") new_cluster_config None)
                 default_params None false
  end.

Example commit_index_is_quorum_matched_witness :
  im_learner_ a_follower = false ∧
  let q := get_quorum_for_commit a_follower in
  q = 1 ∧ matched_indexes a_follower = [3; 0; 0] ∧
  (0 ≤ q < get_num_voting_members a_follower ∧
  ∃ r, r ∈ matched_indexes a_follower ∧
    q + 1 ≤ count_from r (matched_indexes a_follower) ∧
    (∀ i, r < i → count_from i (matched_indexes a_follower) ≤ q) ∧
    get_expected_committed_log_idx an_env a_follower =
      Ok (sm_adjust_commit_index (state_machine_ an_env) (quick_commit_index_ a_follower) r
            (peer_index_map a_follower), a_follower, [])).
Proof.
  split; [by vm_compute|]. split; [by vm_compute|]. split; [by vm_compute|].
  apply (commit_index_is_quorum_matched an_env a_follower); by vm_compute.
Defined.

Lemma a_follower_log : represents (junk_ an_env) (log_store_ a_follower) 1 sample_log.
Proof. assert (log_store_ a_follower = sample_store) as -> by (by vm_compute). apply sample_store_rep. Qed.

Lemma a_follower_ready : commit_ready an_env 1 sample_log a_follower.
Proof.
  split.
  - exact a_follower_log.
  - by vm_compute.
  - intros i d Hi Hd. assert (d ∈ sample_log) as Hin by by apply log_lookup_elem in Hd.
    unfold sample_log in Hin. rewrite !elem_of_cons in Hin. destruct Hin as [->|[->|[->|Hin]]]; [done..|].
    by apply not_elem_of_nil in Hin.
  - intros i p Hp. assert (commit_ret_elems_ a_follower = ∅) as He by by vm_compute. by rewrite He in Hp.
  - by vm_compute.
  - done.
Qed.

Example commit_applies_in_order_witness :
  commit_base a_follower = 0 ∧ commit_target a_follower = 2 ∧ sm_commit_paused_ a_follower = false ∧
  handed 1 sample_log 1 2 = [(1, cursor [] [Byte.x01; Byte.x01]); (2, cursor [] [Byte.x02; Byte.x02])] ∧
  ∃ b s' o, commit_in_bg_exec (λ _, true) an_env a_follower = Ok (b, s', o) ∧
    ∃ k, (0 < k)%nat ∧ sm_commit_index_ s' = Z.of_nat k ∧ sm_commit_index_ s' ≤ 2 ∧
      commits o = handed 1 sample_log 1 (Z.of_nat k) ∧ log_store_ s' = log_store_ a_follower.
Proof.
  assert (commit_base a_follower = 0) as Hb by by vm_compute.
  assert (commit_target a_follower = 2) as Ht by by vm_compute.
  assert (sm_commit_paused_ a_follower = false) as Hp by by vm_compute.
  split; [done|]. split; [done|]. split; [done|]. split; [by vm_compute|].
  destruct (commit_applies_in_order an_env a_follower 1 sample_log (λ _, true) a_follower_log) as [Hsafe Hret].
  destruct (Hret a_follower_ready) as (b & s' & o & Hrun). exists b, s', o. split; [done|].
  destruct (Hsafe b s' o Hrun) as (k & Hc & Ho & Hk & _ & _ & Hpos & Hlog). rewrite Hb, Ht in *.
  exists k. assert (0 < k)%nat as H0 by (by apply Hpos). split_and!; [done|lia|by apply Hk|done|done].
Defined.
