(* ===== verification/SnapshotIoThms.v ===== *)
(** * Theorems about snapshots read in the background

    At most one request per peer is under way, and what the thread sends is what
    the server would have sent itself. *)
From S2P Require Import Prelude Bytes Buffer BufferSpec BufferSerializer Wire RaftTypes.
From S2P Require Import LogEntry LogStore SrvState StateMgr RaftParams RaftMsg Peer RaftServer.
From S2P Require Import RaftRoles RaftReplicate RaftRun RaftNet RaftCommitThms SnapshotIo.
Local Open Scope Z_scope.

(** ** Peers keep their identity *)
Lemma keeps_ids_refl s : keeps_ids s s.
Proof. intros p pr Hp. by rewrite Hp. Qed.

Lemma keeps_ids_trans s s' s'' : keeps_ids s s' → keeps_ids s' s'' → keeps_ids s s''.
Proof.
  intros H H' p pr Hp. apply H in Hp. apply fmap_Some in Hp as (pr' & Hp & Hid).
  rewrite (H' _ _ Hp). by rewrite Hid.
Qed.

Definition keeping {A} (m : M A) : Prop := ∀ e s a s' o, m e s = Ok (a, s', o) → keeps_ids s s'.

Lemma keeping_ret {A} (a : A) : keeping (mret a).
Proof. intros e s ? ? ? [= <- <- <-]. apply keeps_ids_refl. Qed.
Lemma keeping_bind {A B} (m : M A) (f : A → M B) : keeping m → (∀ a, keeping (f a)) → keeping (m ≫= f).
Proof.
  intros Hm Hf e s b s'' o H. apply M_bind_Ok in H as (a & s' & ? & ? & H1 & H2 & _).
  eapply keeps_ids_trans; [by eapply Hm|by eapply Hf].
Qed.
Lemma keeping_get : keeping get.
Proof. intros e s ? ? ? [= <- <- <-]. apply keeps_ids_refl. Qed.
Lemma keeping_asks {A} (f : env → A) : keeping (asks f).
Proof. intros e s ? ? ? [= <- <- <-]. apply keeps_ids_refl. Qed.
Lemma keeping_tell x : keeping (tell x).
Proof. intros e s ? ? ? [= <- <- <-]. apply keeps_ids_refl. Qed.
Lemma keeping_lift {A} (o : outcome A) : keeping (lift o).
Proof.
  intros e s ? ? ? H. unfold lift in H. apply bind_Ok in H as (? & ? & [= <- <- <-]). apply keeps_ids_refl.
Qed.
Lemma keeping_modify f : (∀ s, peer_heap_ (f s) = peer_heap_ s) → keeping (modify f).
Proof. intros Hf e s ? ? ? [= <- <- <-] p pr Hp. by rewrite Hf, Hp. Qed.
Lemma keeping_upd_peer p f : (∀ pr, get_id (f pr) = get_id pr) → keeping (upd_peer p f).
Proof.
  intros Hf e s ? ? ? [= <- <- <-] q pr Hq. cbn. rewrite lookup_alter. case_decide as Heq; rewrite ?Heq, Hq; [|done].
  cbn. by rewrite Hf.
Qed.
Lemma keeping_get_peer p : keeping (get_peer p).
Proof. apply keeping_bind; [apply keeping_get|intros; apply keeping_lift]. Qed.
Lemma keeping_make_busy p : keeping (with_peer p make_busy).
Proof.
  apply keeping_bind; [apply keeping_get_peer|intros pr]. apply keeping_bind; [|intros; apply keeping_ret].
  apply keeping_upd_peer. intros pr'. unfold make_busy. by destruct (busy_flag_ pr').
Qed.
Lemma keeping_when b m : keeping m → keeping (when b m).
Proof. destruct b; [done|intros _; apply keeping_ret]. Qed.

Ltac keeping :=
  repeat (cbv beta; lazymatch goal with
  | |- keeping (mret _) => apply keeping_ret
  | |- keeping (with_peer _ make_busy) => apply keeping_make_busy
  | |- keeping (_ ≫= _) => apply keeping_bind; [|intros ?]
  | |- keeping get => apply keeping_get
  | |- keeping (asks _) => apply keeping_asks
  | |- keeping (tell _) => apply keeping_tell
  | |- keeping (lift _) => apply keeping_lift
  | |- keeping (modify _) => apply keeping_modify; reflexivity
  | |- keeping (upd_peer _ _) => apply keeping_upd_peer; reflexivity
  | |- keeping (get_peer _) => apply keeping_get_peer
  | |- keeping (when _ _) => apply keeping_when
  | |- keeping (if ?b then _ else _) => destruct b
  | |- keeping (match ?x with _ => _ end) => destruct x
  end).

Lemma keeping_send_object el dst_id obj_idx rc data is_last :
  keeping (send_object el dst_id obj_idx rc data is_last).
Proof.
  unfold send_object, install_snapshot_req, cs_new_entry, clear_snapshot_sync_ctx, destroy_user_snp_ctx,
    enable_hb_for_peer, enable_hb, schedule_task, send_req. keeping.
Qed.

(** ** Whom the requests are for *)
Definition stays_for (m m' : io_mgr) : Prop := ∀ i t, target_of m i = Some t → target_of m' i = Some t.

Lemma target_of_Some m i t :
  target_of m i = Some t ↔ ∃ el s pr, elems m !! i = Some el ∧ servers m !! raft_ el = Some s ∧
    peer_heap_ s !! dst_ el = Some pr ∧ t = (raft_ el, get_id pr).
Proof.
  unfold target_of. destruct (elems m !! i) as [el|]; cbn; [|naive_solver].
  destruct (servers m !! raft_ el) as [s|] eqn:Hs; cbn; [|naive_solver].
  destruct (peer_heap_ s !! dst_ el) as [pr|] eqn:Hp; cbn; [|naive_solver].
  split; [intros [= <-]; by exists el, s, pr|]. intros (? & ? & ? & [= <-] & H1 & H2 & ->).
  rewrite Hs in H1. injection H1 as <-. rewrite Hp in H2. by injection H2 as <-.
Qed.

(** The requests keep whom they are for when the servers and the elements do. *)
Lemma stays_for_intro m m' :
  (∀ i el, elems m !! i = Some el → ∃ el', elems m' !! i = Some el' ∧ raft_ el' = raft_ el ∧ dst_ el' = dst_ el) →
  (∀ x s, servers m !! x = Some s → ∃ s', servers m' !! x = Some s' ∧ keeps_ids s s') →
  stays_for m m'.
Proof.
  intros He Hs i t (el & s & pr & Hel & Hx & Hp & ->)%target_of_Some. apply target_of_Some.
  destruct (He _ _ Hel) as (el' & Hel' & Hr & Hd). destruct (Hs _ _ Hx) as (s' & Hx' & Hk).
  apply Hk, fmap_Some in Hp as (pr' & Hp' & Hid). exists el', s', pr'. by rewrite Hr, Hd, Hid.
Qed.

Lemma stays_for_set_server x s' replaced m :
  (∀ s, servers m !! x = Some s → keeps_ids s s') → stays_for m (set_server x s' replaced m).
Proof.
  intros Hk. apply stays_for_intro; cbn.
  - intros i el Hel. rewrite list_lookup_fmap, Hel. cbn. eexists. split; [done|].
    destruct (sync_ctx_ el); [|done]. destruct (_ ≫= _); [|done]. by case_decide.
  - intros y s Hy. destruct (decide (y = x)) as [->|Hne].
    + exists s'. rewrite list_lookup_insert_eq; [auto|by eapply lookup_lt_Some].
    + exists s. rewrite list_lookup_insert_ne by done. split; [done|apply keeps_ids_refl].
Qed.

Lemma stays_for_set_user_snp_ctx i ctx el m :
  elems m !! i = Some el → stays_for m (set_user_snp_ctx i ctx el m).
Proof.
  intros Hi. unfold set_user_snp_ctx. destruct (sync_ctx_ el) as [|c]; apply stays_for_intro; cbn.
  - intros j el' Hel. by exists el'.
  - intros y s Hy. rewrite list_lookup_alter. case_decide as Heq; rewrite ?Heq, Hy; cbn; eexists; (split; [done|]);
      [|apply keeps_ids_refl].
    intros q pr Hq. cbn. rewrite lookup_alter. by case_decide as Heq'; rewrite ?Heq', Hq.
  - intros j el' Hel. destruct (decide (i = j)) as [<-|Hne].
    + rewrite Hi in Hel. injection Hel as <-. rewrite list_lookup_insert_eq by (by eapply lookup_lt_Some).
      by eexists.
    + exists el'. by rewrite list_lookup_insert_ne.
  - intros y s Hy. exists s. split; [done|apply keeps_ids_refl].
Qed.

Lemma stays_for_push x p h m b m' : push x p h m = Ok (b, m') → stays_for m m'.
Proof.
  intros H. unfold push in H. run_ok. destruct (has_pending_request _ _ _); simplify_eq/=; [by intros ?|].
  apply stays_for_intro; cbn.
  - intros i el Hel. exists el. split; [|done]. by apply lookup_app_l_Some.
  - intros y s Hy. exists s. split; [done|apply keeps_ids_refl].
Qed.

(** ** The invariant *)

(** The copy of the queue the thread works on, and what of it is still to be
    handled or returned. *)
Definition copied (pc : io_pc) : list nat :=
  match pc with
  | Next reqs _ _ | Offset reqs _ _ _ | Read reqs _ _ _ _ _ | Send reqs _ _ _ _ _ _ _ _ | Finish reqs _ => reqs
  | _ => []
  end.
Definition in_hand (pc : io_pc) : list nat :=
  match pc with
  | Next _ todo back => back ++ todo
  | Offset _ i todo back | Read _ i todo back _ _ | Send _ i todo back _ _ _ _ _ => back ++ i :: todo
  | Finish _ back => back
  | _ => []
  end.

Record io_ok (m : io_mgr) : Prop := {
  io_targets : Forall (λ i, is_Some (target_of m i)) (queue_ m);
  io_distinct : NoDup (target_of m <$> queue_ m);
  io_copied : copied (io_thread_ m) `prefix_of` queue_ m;
  io_in_hand : in_hand (io_thread_ m) `sublist_of` copied (io_thread_ m)
}.

Lemma stays_for_targets m m' q :
  stays_for m m' → Forall (λ i, is_Some (target_of m i)) q → target_of m' <$> q = target_of m <$> q.
Proof.
  intros Hst Hq. apply list_fmap_ext. intros _ i Hi%list_elem_of_lookup_2.
  rewrite Forall_forall in Hq. destruct (Hq i Hi) as [t Ht]. by rewrite Ht, (Hst _ _ Ht).
Qed.

(** A step that leaves the queue alone. *)
Lemma io_ok_stays m m' :
  io_ok m → stays_for m m' → queue_ m' = queue_ m → copied (io_thread_ m') = copied (io_thread_ m) →
  in_hand (io_thread_ m') `sublist_of` in_hand (io_thread_ m) → io_ok m'.
Proof.
  intros [Ht Hd Hc Hh] Hst Hq Hc' Hh'. split.
  - rewrite Hq. eapply Forall_impl; [exact Ht|]. intros i [t Hi]. exists t. by apply Hst.
  - by rewrite Hq, (stays_for_targets m).
  - by rewrite Hc', Hq.
  - rewrite Hc'. by etrans.
Qed.

Lemma erase_prefix l l' : foldl (λ q i, erase_elem i q) (l ++ l') l = l'.
Proof. induction l as [|i l IH]; [done|]. cbn. by rewrite decide_True. Qed.

Lemma io_ok_finish m reqs back :
  io_ok m → io_thread_ m = Finish reqs back → io_ok (goto Test (update_queue reqs back m)).
Proof.
  intros [Ht Hd Hc Hh] Hpc. rewrite Hpc in *. cbn in Hc, Hh. destruct Hc as [newer Hq].
  assert (queue_ (goto Test (update_queue reqs back m)) = newer ++ back) as Hq'
    by (cbn; by rewrite Hq, erase_prefix).
  apply sublist_submseteq, submseteq_Permutation in Hh as [gone Hh].
  assert (queue_ m ≡ₚ (newer ++ back) ++ gone) as Hp
    by (by rewrite Hq, Hh, (Permutation_app_comm _ newer), (assoc_L (++))).
  rewrite Hp in Ht. rewrite Hp, fmap_app in Hd.
  change (target_of (goto _ _)) with (target_of m).
  split; change (target_of (goto _ _)) with (target_of m); rewrite ?Hq'.
  - by apply Forall_app in Ht as [? _].
  - by apply NoDup_app in Hd as [? _].
  - apply prefix_nil.
  - done.
Qed.

Lemma io_ok_thread e m m' o : io_ok m → thread_part e m = Ok (m', o) → io_ok m'.
Proof.
  intros Hok H. unfold thread_part in H.
  destruct (io_thread_ m) as [| |reqs [|i todo] back|reqs i todo back|reqs i todo back dst_id obj_idx
    |reqs i todo back dst_id obj_idx rc data last|reqs back| |] eqn:Hpc; run_ok.
  - eapply io_ok_stays; [done|by intros ?|done|cbn; by rewrite Hpc|cbn; by rewrite Hpc].
  - destruct Hok. split; cbn; [done|done| |done]. destruct (terminating_ m); [apply prefix_nil|done].
  - eapply io_ok_stays; [done|by intros ?|done|cbn; by rewrite Hpc|cbn; rewrite Hpc; cbn]. by rewrite app_nil_r.
  - destruct (terminating_ m); run_ok.
    + eapply io_ok_stays; [done|by intros ?|done|cbn; by rewrite Hpc|cbn; rewrite Hpc; cbn]. by apply sublist_inserts_r.
    + destruct (is_leader _); (eapply io_ok_stays; [done|by intros ?|done|cbn; by rewrite Hpc|cbn; rewrite Hpc; cbn]).
      * done.
      * by apply sublist_inserts_r.
  - eapply io_ok_stays; [done|by intros ?|done|cbn; by rewrite Hpc|cbn; by rewrite Hpc].
  - destruct (sm_read_logical_snp_obj _ _ _ _) as [[[rc ctx] data] last]. run_ok.
    eapply io_ok_stays; [done|by apply stays_for_set_user_snp_ctx| |cbn; by rewrite Hpc|cbn; by rewrite Hpc].
    unfold set_user_snp_ctx. by destruct (sync_ctx_ _).
  - eapply io_ok_stays; [done| |done|cbn; by rewrite Hpc|cbn; rewrite Hpc; cbn].
    + eapply stays_for_set_server. intros s' Hs'. simplify_eq. by eapply keeping_send_object.
    + match goal with |- context [if ?b then _ else _] => destruct b end.
      * by rewrite <- (assoc_L (++)).
      * apply sublist_app; [done|by apply sublist_cons].
  - by apply io_ok_finish.
  - destruct (terminating_ m); (eapply io_ok_stays; [done|by intros ?|done|cbn; by rewrite Hpc|cbn; by rewrite Hpc]).
  - done.
Qed.

Lemma has_pending_In x srv_id m :
  has_pending_request x srv_id m = true ↔ Some (x, srv_id) ∈ target_of m <$> queue_ m.
Proof.
  unfold has_pending_request. rewrite existsb_exists, list_elem_of_fmap. split.
  - intros (i & Hi & Ht%bool_decide_eq_true). exists i. by rewrite list_elem_of_In.
  - intros (i & Ht & Hi). exists i. rewrite <- list_elem_of_In. split; [done|]. by apply bool_decide_eq_true.
Qed.

Lemma io_ok_push x p h m b m' : io_ok m → push x p h m = Ok (b, m') → io_ok m'.
Proof.
  intros Hok H. pose proof (stays_for_push _ _ _ _ _ _ H) as Hst. unfold push in H. run_ok.
  destruct (has_pending_request _ _ _) eqn:Hnew; simplify_eq/=; [done|].
  destruct Hok as [Ht Hd Hc Hh].
  match goal with |- io_ok ?m' => set (m1 := m') in * end.
  match goal with H : servers m !! x = Some ?s, H' : peer_heap_ _ !! p = Some ?pr |- _ =>
    assert (target_of m1 (length (elems m)) = Some (x, get_id pr)) as Htgt
      by (apply target_of_Some; cbn; rewrite lookup_app_r, Nat.sub_diag by lia; eauto 10) end.
  split; cbn.
  - apply Forall_app. split; [|by apply Forall_singleton; eexists].
    eapply Forall_impl; [exact Ht|]. intros i [t Hi]. exists t. by apply Hst.
  - rewrite fmap_app. cbn. rewrite Htgt, (stays_for_targets m) by done. apply NoDup_app. split; [done|].
    split; [|by apply NoDup_singleton]. intros t Hin ->%list_elem_of_singleton.
    apply has_pending_In in Hin. by rewrite Hnew in Hin.
  - by apply prefix_app_r.
  - done.
Qed.

Definition no_drop (ev : io_event) : Prop := match ev with DropReqs _ => False | _ => True end.

Lemma io_ok_step m m' : io_step no_drop m m' → io_ok m → io_ok m'.
Proof.
  intros [e o H|ev Hev Hk H] Hok; [by eapply io_ok_thread|]. destruct ev as [x s' replaced|x p h|x|]; cbn in H; run_ok.
  - eapply io_ok_stays; [done|by apply stays_for_set_server|done..].
  - by eapply io_ok_push.
  - done.
  - eapply io_ok_stays; [done|by intros ?|done..].
Qed.

Lemma io_ok_reachable servers m : rtc (io_step no_drop) (new_io_mgr servers) m → io_ok m.
Proof.
  intros Hr. assert (io_ok (new_io_mgr servers)) as Hok
    by (split; cbn; [constructor|constructor|done|done]).
  induction Hr as [|m1 m2 m3 H _ IH]; [done|]. by eapply IH, io_ok_step.
Qed.

(** ** Reading in the background and reading at once *)

(** The server with the other mode. *)
Definition in_background (b : bool) (s : server) : server :=
  s <| params_ ::= (λ ps, ps <| use_bg_thread_for_snapshot_io_ := b |>) |>.

Definition flagged {A} (b : bool) (r : outcome (A * server * list effect)) : outcome (A * server * list effect) :=
  '(a, s, o) ← r; Ok (a, in_background b s, o).

Lemma choose_snapshot_flag b p last_log_idx e s :
  choose_snapshot p last_log_idx e (in_background b s) = flagged b (choose_snapshot p last_log_idx e s).
Proof.
  unfold choose_snapshot, get_peer, lift, get, asks. unfold mbind, M_bind. cbn.
  destruct (peer_heap_ s !! p) as [pr|]; [|done]. cbn.
  destruct (snp_sync_ctx_ pr) as [c|]; cbn;
    [destruct (timed_out (now_ e) (sc_timer_ c)); cbn; [|destruct (decide (sc_offset_ c = 0)); [|done]]|].
  all: destruct (last_snapshot_ s) as [snp|]; cbn; [|done]; repeat case_decide; done.
Qed.

Lemma with_peer_at_id p pr s : peer_heap_ s !! p = Some pr → with_peer_at p pr s = s.
Proof. intros Hp. unfold with_peer_at. rewrite insert_id by done. by destruct s. Qed.

(** The context that a snapshot was chosen with. *)
Lemma choose_snapshot_ctx p last_log_idx e s snp s' o :
  choose_snapshot p last_log_idx e s = Ok (snp, s', o) →
  ∃ pr c, peer_heap_ s !! p = Some pr ∧ s' = with_peer_at p (pr <| snp_sync_ctx_ := Some c |>) s ∧
    sc_snapshot_ c = snp.
Proof.
  unfold choose_snapshot, get_peer, lift, get, asks. unfold mbind, M_bind. cbn.
  destruct (peer_heap_ s !! p) as [pr|] eqn:Hp; [|done]. cbn.
  assert (∀ now snp ms, let c := new_snapshot_sync_ctx now snp (get_id pr) ms in
    s <| peer_heap_ ::= alter (set_snapshot_in_sync now (Some snp) ms) p |> =
    with_peer_at p (pr <| snp_sync_ctx_ := Some c |>) s) as Hnew.
  { intros now snp' ms c.
    transitivity (s <| peer_heap_ := alter (set_snapshot_in_sync now (Some snp') ms) p (peer_heap_ s) |>);
      [done|]. by rewrite (alter_Some p _ _ _ Hp). }
  destruct (snp_sync_ctx_ pr) as [c|] eqn:Hc; cbn;
    [destruct (timed_out (now_ e) (sc_timer_ c)); cbn; [|destruct (decide (sc_offset_ c = 0))]|].
  3: { intros [= <- <- <-]. exists pr, c. split; [done|]. split; [|done].
       rewrite with_peer_at_id; [done|]. rewrite Hp. f_equal. destruct pr. cbn in *. by subst. }
  all: destruct (last_snapshot_ s) as [snp'|]; cbn; [|done]; repeat case_decide; try done;
    intros [= <- <- <-]; exists pr; eexists; split; [done|]; (split; [apply Hnew|done]).
Qed.

(** What the blocking mode did to make a request: the object it read, and what it
    made of it. *)
Record read_and_made (e : env) (p : positive) (s : server) (pr : peer) (c : snapshot_sync_ctx) (req : req_msg)
    (rc : Z) (ctx : option positive) (data data' : buffer) (is_last : bool) : Prop := {
  rm_peer : peer_heap_ s !! p = Some pr;
  rm_read : sm_read_logical_snp_obj (state_machine_ e) (sc_snapshot_ c) (sc_user_snp_ctx_ c) (sc_offset_ c) =
    (rc, ctx, Some data, is_last);
  rm_rc : 0 ≤ rc;
  rm_data : set_pos 0 data = Ok data';
  rm_req : ∀ s', get_term s' = get_term s → id_ s' = id_ s → quick_commit_index_ s' = quick_commit_index_ s →
    install_snapshot_req (get_id pr) (sc_snapshot_ c) (sc_offset_ c) data' is_last e s' = Ok (req, s', [])
}.

Definition with_ctx (c : snapshot_sync_ctx) (pr : peer) : peer := pr <| snp_sync_ctx_ := Some c |>.
Definition with_user_ctx (ctx : option positive) (c : snapshot_sync_ctx) : snapshot_sync_ctx :=
  c <| sc_user_snp_ctx_ := ctx |>.

Lemma read_object_inv e p snp s pr c d i is_last s' o :
  peer_heap_ s !! p = Some pr → snp_sync_ctx_ pr = Some c → type_ snp ≠ raw_binary →
  read_snapshot_object p snp e s = Ok (Some (d, i, is_last), s', o) →
  ∃ rc ctx data,
    sm_read_logical_snp_obj (state_machine_ e) snp (sc_user_snp_ctx_ c) (sc_offset_ c) =
      (rc, ctx, Some data, is_last) ∧
    0 ≤ rc ∧ set_pos 0 data = Ok d ∧ i = sc_offset_ c ∧ o = [] ∧
    s' = with_peer_at p (with_ctx (with_user_ctx ctx c) pr) s.
Proof.
  intros Hp Hc Ht H. unfold read_snapshot_object in H. rewrite run_get, !run_asks in H.
  rewrite (run_silent _ _ _ _ _ _ (peer_read_run e p _ _ Hp)), Hc in H. cbn [or_ub] in H.
  rewrite run_lift, decide_False in H by done. cbv zeta in H.
  destruct (sm_read_logical_snp_obj _ _ _ _) as [[[rc ctx] data] last] eqn:Hr.
  rewrite (run_silent _ _ _ _ _ _ (upd_peer_run e p _ _ _ Hp)) in H.
  assert (pr <| snp_sync_ctx_ ::= fmap (λ c, c <| sc_user_snp_ctx_ := ctx |>) |> =
    with_ctx (with_user_ctx ctx c) pr) as Hpr by (destruct pr; cbn in *; by subst).
  rewrite Hpr in H. case_decide.
  - apply M_bind_Ok in H as (? & ? & ? & ? & _ & [=] & _).
  - destruct data as [data|]; [|done]. cbn [or_ub] in H. rewrite run_lift in H.
    destruct (set_pos 0 data) as [d'|] eqn:Hd; [|done]. rewrite run_lift in H. injection H as <- <- <- <- <-.
    exists rc, ctx, data. split_and!; [done|lia|done..].
Qed.

Lemma blocking_request_inv e s p last_log_idx req s1 o1 :
  (∀ snp s0 o0, choose_snapshot p last_log_idx e s = Ok (snp, s0, o0) → type_ snp ≠ raw_binary) →
  create_sync_snapshot_req p last_log_idx (get_term s) (quick_commit_index_ s) e (in_background false s) =
    Ok ((Some req, true), s1, o1) →
  ∃ pr c rc ctx data data' is_last,
    choose_snapshot p last_log_idx e s = Ok (sc_snapshot_ c, with_peer_at p (with_ctx c pr) s, o1) ∧
    read_and_made e p s pr c req rc ctx data data' is_last ∧
    s1 = in_background false (with_peer_at p (with_ctx (with_user_ctx ctx c) pr) s).
Proof.
  intros Hlog H. unfold create_sync_snapshot_req in H.
  apply M_bind_Ok in H as (snp & s0 & o0 & o2 & Hc & H & ->). rewrite choose_snapshot_flag in Hc.
  unfold flagged in Hc. apply bind_Ok in Hc as ([[snp' s0'] o0'] & Hc & [= <- <- <-]).
  pose proof (Hlog _ _ _ Hc) as Ht. destruct (choose_snapshot_ctx _ _ _ _ _ _ _ Hc) as (pr & c & Hp & -> & <-).
  rewrite run_get, run_asks in H. set (S1 := in_background false _) in H at 4.
  change (use_bg_thread_for_snapshot_io_ (params_ (in_background false _))) with false in H. cbv iota in H.
  assert (peer_heap_ S1 !! p = Some (with_ctx c pr)) as Hp1 by apply lookup_insert_eq.
  apply M_bind_Ok in H as (obj & s2 & o3 & o4 & Hr & H & ->).
  destruct obj as [[[d i] is_last]|]; [|done].
  destruct (read_object_inv _ _ _ _ _ c _ _ _ _ _ Hp1 eq_refl Ht Hr) as (rc & ctx & data & Hrd & Hrc & Hd & -> & -> & ->).
  rewrite (run_silent _ _ _ _ _ _ (peer_read_run e p _ _ (lookup_insert_eq _ _ _))) in H.
  destruct (serialize_snapshot_sync_req _ _) as [buf|] eqn:Hb; [|done]. rewrite run_lift in H.
  unfold cs_new_entry in H.
  destruct (new_log_entry _ _ _ _ _ _ _) as [le|] eqn:Hle; [|done]. rewrite run_lift in H. injection H as <- <- <-.
  exists pr, c, rc, ctx, data, d, is_last. rewrite app_nil_r. split; [done|]. split.
  - split; [done..|]. intros s' Ht' Hi' Hq'. unfold install_snapshot_req. run_steps. rewrite Hb. run_steps.
    unfold cs_new_entry. rewrite Ht', Hle. run_steps. by rewrite Hi', Hq'.
  - unfold S1. unfold in_background, with_peer_at. cbn. by rewrite insert_insert_eq.
Qed.

(** What the peer is after a request was sent in the background. *)
Definition sent_to (now : Z) (pr : peer) : peer :=
  pr <| busy_flag_ := true |> <| rsv_msg_ := None |> <| last_sent_timer_ ::= reset_timer now |>.

(** The request is sent to a peer that is free, whatever the role of the server
    and in its term at this time. *)
Lemma send_object_run e s el dst_id obj_idx rc data data' is_last req pr rpc :
  peer_heap_ s !! dst_ el = Some pr → busy_flag_ pr = false → abandoned_ pr = false → rpc_ pr = Some rpc →
  0 ≤ rc → set_pos 0 data = Ok data' →
  install_snapshot_req dst_id (snapshot_ el) obj_idx data' is_last e s = Ok (req, s, []) →
  send_object el dst_id obj_idx rc (Some data) is_last e s =
    Ok (false, with_peer_at (dst_ el) (sent_to (now_ e) pr) s, [SendReq (dst_ el) rpc req (handler_ el)]).
Proof.
  intros Hp Hfree Hab Hrpc Hrc Hd Hreq. unfold send_object. run_steps. rewrite decide_False by lia.
  cbn [or_ub]. run_steps. rewrite Hd. run_steps. rewrite (run_silent _ _ _ _ _ _ Hreq).
  rewrite (run_silent _ _ _ _ _ _ (with_peer_run e _ _ _ _ Hp)). unfold make_busy. rewrite Hfree. cbn [fst snd].
  rewrite (run_silent _ _ _ _ _ _ (upd_peer_run e _ _ _ _ (lookup_insert_eq _ _ _))). rewrite with_peer_at_idem.
  unfold send_req. rewrite run_assoc.
  rewrite (run_silent _ _ _ _ _ _ (peer_read_run e _ _ _ (lookup_insert_eq _ _ _))).
  change (abandoned_ (pr <| busy_flag_ := true |> <| rsv_msg_ := None |>)) with (abandoned_ pr).
  change (rpc_ (pr <| busy_flag_ := true |> <| rsv_msg_ := None |>)) with (rpc_ pr). rewrite Hab, Hrpc.
  rewrite run_tell, run_asks.
  rewrite (run_silent _ _ _ _ _ _ (upd_peer_run e _ _ _ _ (lookup_insert_eq _ _ _))).
  rewrite with_peer_at_idem. done.
Qed.

(** [n] parts of the thread with nothing in between. *)
Fixpoint thread_parts (e : env) (n : nat) (m : io_mgr) : outcome (io_mgr * list (nat * effect)) :=
  match n with
  | O => Ok (m, [])
  | S n => '(m, o) ← thread_part e m; '(m, o') ← thread_parts e n m; Ok (m, o ++ o')
  end.

(** The parts for one request. *)
Section parts.
Context (e : env) (m : io_mgr) (i : nat) (el : io_queue_elem) (s : server).
Hypotheses (Hel : elems m !! i = Some el) (Hs : servers m !! raft_ el = Some s).

Lemma part_next reqs todo back :
  io_thread_ m = Next reqs (i :: todo) back → terminating_ m = false →
  thread_part e m = Ok (goto (if is_leader s then Offset reqs i todo back else Finish reqs back) m, []).
Proof.
  intros Hpc Hterm. unfold thread_part. rewrite Hpc, Hterm, Hel. cbn [or_ub]. ok_bind. by rewrite Hs.
Qed.

Lemma part_offset reqs todo back pr c :
  io_thread_ m = Offset reqs i todo back → peer_heap_ s !! dst_ el = Some pr → elem_ctx s el = Some c →
  thread_part e m = Ok (goto (Read reqs i todo back (get_id pr) (sc_offset_ c)) m, []).
Proof.
  intros Hpc Hp Hc. unfold thread_part. rewrite Hpc, Hel. cbn [or_ub]. ok_bind. rewrite Hs. cbn [or_ub]. ok_bind.
  rewrite Hp. cbn [or_ub]. ok_bind. by rewrite Hc.
Qed.

Lemma part_read reqs todo back dst_id obj_idx c rc ctx data is_last :
  io_thread_ m = Read reqs i todo back dst_id obj_idx → elem_ctx s el = Some c →
  sm_read_logical_snp_obj (state_machine_ e) (snapshot_ el) (sc_user_snp_ctx_ c) obj_idx = (rc, ctx, data, is_last) →
  thread_part e m =
    Ok (goto (Send reqs i todo back dst_id obj_idx rc data is_last) (set_user_snp_ctx i ctx el m), []).
Proof.
  intros Hpc Hc Hr. unfold thread_part. rewrite Hpc, Hel. cbn [or_ub]. ok_bind. rewrite Hs. cbn [or_ub]. ok_bind.
  rewrite Hc. cbn [or_ub]. ok_bind. by rewrite Hr.
Qed.

Lemma part_send reqs todo back dst_id obj_idx rc data is_last s' o :
  io_thread_ m = Send reqs i todo back dst_id obj_idx rc data is_last →
  send_object el dst_id obj_idx rc data is_last e s = Ok (false, s', o) →
  thread_part e m = Ok (goto (Next reqs todo back) (set_server (raft_ el) s' [] m), pair (raft_ el) <$> o).
Proof.
  intros Hpc Hr. unfold thread_part. rewrite Hpc, Hel. cbn [or_ub]. ok_bind. rewrite Hs. cbn [or_ub]. ok_bind.
  by rewrite Hr.
Qed.
End parts.

(** One request of the queue, from when the thread gets to it until it is sent. *)
Lemma handle_request_run e s x p h pr c req rc ctx data data' is_last rpc reqs i todo back m :
  read_and_made e p s pr c req rc ctx data data' is_last →
  is_leader s = true → abandoned_ pr = false → rpc_ pr = Some rpc →
  io_thread_ m = Next reqs (i :: todo) back → terminating_ m = false →
  elems m !! i = Some (IoElem x (sc_snapshot_ c) Attached p h) →
  servers m !! x = Some (in_background true (with_peer_at p (set_free (with_ctx c pr)) s)) →
  ∃ m', thread_parts e 4 m = Ok (m', [(x, SendReq p rpc req h)]) ∧ io_thread_ m' = Next reqs todo back ∧
    queue_ m' = queue_ m ∧
    servers m' !! x =
      Some (in_background true (with_peer_at p (sent_to (now_ e) (with_ctx (with_user_ctx ctx c) pr)) s)).
Proof.
  intros [Hp Hr Hrc Hd Hreq] Hl Hab Hrpc Hpc Hterm Hel Hs.
  set (el := IoElem x (sc_snapshot_ c) Attached p h) in *.
  set (s0 := in_background true (with_peer_at p (set_free (with_ctx c pr)) s)) in *.
  assert (peer_heap_ s0 !! p = Some (set_free (with_ctx c pr))) as Hp0 by apply lookup_insert_eq.
  assert (elem_ctx s0 el = Some c) as Hctx by (cbn; unfold ctx_of; by rewrite Hp0).
  cbn [thread_parts]. rewrite (part_next e m i el s0 Hel Hs reqs todo back) by done. ok_bind.
  change (is_leader s0) with (is_leader s). rewrite Hl. cbv iota.
  rewrite (part_offset e (goto (Offset reqs i todo back) m) i el s0 Hel Hs reqs todo back _ c eq_refl Hp0 Hctx). ok_bind.
  change (get_id (set_free (with_ctx c pr))) with (get_id pr).
  rewrite (part_read e (goto (Read reqs i todo back (get_id pr) (sc_offset_ c)) (goto (Offset reqs i todo back) m)) i el s0 Hel Hs reqs todo back _ _ c rc ctx (Some data) is_last eq_refl Hctx Hr). ok_bind.
  set (pr1 := set_free (with_ctx (with_user_ctx ctx c) pr)).
  set (s1 := in_background true (with_peer_at p pr1 s)).
  match goal with |- context [goto (Send _ _ _ _ _ _ _ _ _) ?m0] => set (m1 := m0) end.
  assert (servers m1 !! x = Some s1) as Hs1.
  { unfold m1, set_user_snp_ctx. cbn. rewrite list_lookup_alter, decide_True, Hs by done. cbn. f_equal.
    transitivity (s0 <| peer_heap_ := <[p := pr1]> (peer_heap_ s) |>).
    - transitivity (s0 <| peer_heap_ := alter (λ pr, pr <| snp_sync_ctx_ ::= fmap (with_user_ctx ctx) |>) p (peer_heap_ s0) |>);
        [done|]. f_equal.
      rewrite (alter_Some p _ _ _ Hp0). unfold s0. cbn. by rewrite insert_insert_eq.
    - done. }
  assert (peer_heap_ s1 !! p = Some pr1) as Hp1 by apply lookup_insert_eq.
  assert (elems m1 !! i = Some el) as Hel1 by done.
  set (m2 := goto (Send _ _ _ _ _ _ _ _ _) m1).
  rewrite (part_send e m2 i el s1 Hel1 Hs1 reqs todo back (get_id pr) (sc_offset_ c) rc (Some data) is_last
    (with_peer_at p (sent_to (now_ e) pr1) s1) [SendReq p rpc req h] eq_refl).
  2: { apply (send_object_run e s1 el (get_id pr) (sc_offset_ c) rc data data' is_last req pr1 rpc); try done. by apply Hreq. }
  ok_bind. eexists. split; [done|]. split; [done|]. split; [by unfold m2, m1, set_user_snp_ctx|].
  cbn. rewrite list_lookup_insert_eq by (by eapply lookup_lt_Some).
  f_equal. unfold s1, in_background, with_peer_at. cbn. by rewrite insert_insert_eq.
Qed.

Lemma background_push_run e s p last_log_idx term commit_idx snp s' o :
  choose_snapshot p last_log_idx e s = Ok (snp, s', o) →
  create_sync_snapshot_req p last_log_idx term commit_idx e (in_background true s) =
    Ok ((None, true), in_background true s',
        o ++ [PushSnapshotIo p (if decide (srv_to_join_ s' = Some p) then ex_resp_handler_ else resp_handler_)]).
Proof.
  intros Hc. unfold create_sync_snapshot_req.
  rewrite (run_bind _ _ _ _ snp (in_background true s') o)
    by (by rewrite choose_snapshot_flag, Hc).
  run_steps. change (use_bg_thread_for_snapshot_io_ (params_ (in_background true s'))) with true. done.
Qed.

(** ** Theorems *)

(** C31: as long as no server drops its requests, the thread works on one request
    at a time for a peer: there are no two requests for the same peer of a server
    in the queue, and while the thread has one in hand, read or being sent or to
    be returned, the server sees it as pending and its next push changes nothing.
    This is of all else that the servers and the thread do, in any order; with a
    drop there can be two, see [dropped_request_comes_back]. *)
Theorem one_request_per_peer (servers0 : list server) (m : io_mgr) :
  rtc (io_step no_drop) (new_io_mgr servers0) m →
  NoDup (target_of m <$> queue_ m) ∧
  ∀ i, i ∈ in_hand (io_thread_ m) → ∃ x srv_id, target_of m i = Some (x, srv_id) ∧
    has_pending_request x srv_id m = true ∧
    ∀ p h b m' s pr, servers m !! x = Some s → peer_heap_ s !! p = Some pr → get_id pr = srv_id →
      push x p h m = Ok (b, m') → b = false ∧ m' = m.
Proof.
  intros Hr. pose proof (io_ok_reachable _ _ Hr) as [Ht Hd Hc Hh]. split; [done|]. intros i Hi.
  assert (i ∈ queue_ m) as Hq.
  { eapply elem_of_submseteq; [exact Hi|]. etrans; [by apply sublist_submseteq|].
    destruct Hc as [newer ->]. by apply submseteq_inserts_r. }
  rewrite Forall_forall in Ht. destruct (Ht i Hq) as [[x srv_id] Hx]. exists x, srv_id.
  assert (has_pending_request x srv_id m = true) as Hp.
  { apply has_pending_In. rewrite <- Hx. by apply list_elem_of_fmap_2. }
  split_and!; [done|done|]. intros p h b m' s pr Hs Hpr Hid H. unfold push in H.
  rewrite Hs in H. cbn [or_ub] in H. ok_bind in H. rewrite Hpr in H. cbn [or_ub] in H. ok_bind in H.
  apply bind_Ok in H as (c & _ & H). rewrite Hid, Hp in H. by injection H as <- <-.
Qed.

(** C21: what is sent in the background is what the server would send at once.
    Where a leader makes a request with an object of its snapshot for a peer, with
    [use_bg_thread_for_snapshot_io_] it pushes a request instead; and when the
    thread comes to it, wherever it is in the queue, it sends that same message to
    the peer, and the server is as after sending it itself.  The server has done
    nothing else in between, and the snapshot is one of logical objects: the
    thread reads every snapshot that way. *)
Theorem background_sends_the_same (e : env) (s s1 : server) (p : positive) (last_log_idx rpc : Z)
    (pr : peer) (req : req_msg) (o1 : list effect) :
  is_leader s = true → peer_heap_ s !! p = Some pr → abandoned_ pr = false → rpc_ pr = Some rpc →
  (∀ snp s0 o0, choose_snapshot p last_log_idx e s = Ok (snp, s0, o0) → type_ snp ≠ raw_binary) →
  create_sync_snapshot_req p last_log_idx (get_term s) (quick_commit_index_ s) e (in_background false s) =
    Ok ((Some req, true), s1, o1) →
  ∃ s2 pr2 h, create_sync_snapshot_req p last_log_idx (get_term s) (quick_commit_index_ s) e (in_background true s) =
      Ok ((None, true), s2, o1 ++ [PushSnapshotIo p h]) ∧
    peer_heap_ s2 !! p = Some pr2 ∧
    ∀ x m, servers m !! x = Some (with_peer_at p (set_free pr2) s2) →
      has_pending_request x (get_id pr2) m = false → terminating_ m = false →
      ∃ m1, push x p h m = Ok (true, m1) ∧
      ∀ reqs todo back, ∃ m2 pr1, peer_heap_ s1 !! p = Some pr1 ∧
        thread_parts e 4 (goto (Next reqs (length (elems m) :: todo) back) m1) =
          Ok (m2, [(x, SendReq p rpc req h)]) ∧
        io_thread_ m2 = Next reqs todo back ∧ queue_ m2 = queue_ m1 ∧
        servers m2 !! x = Some (in_background true (with_peer_at p (sent_to (now_ e) pr1) s1)).
Proof.
  intros Hl Hp Hab Hrpc Hlog H.
  destruct (blocking_request_inv _ _ _ _ _ _ _ Hlog H) as (pr' & c & rc & ctx & data & data' & is_last & Hc & Hm & ->).
  pose proof (rm_peer _ _ _ _ _ _ _ _ _ _ _ Hm) as Hp'. rewrite Hp in Hp'. injection Hp' as <-.
  eexists _, (with_ctx c pr), _. split; [exact (background_push_run e s p last_log_idx _ _ _ _ _ Hc)|].
  split; [apply lookup_insert_eq|]. intros x m Hx Hno Hterm.
  assert (with_peer_at p (set_free (with_ctx c pr)) (in_background true (with_peer_at p (with_ctx c pr) s)) =
    in_background true (with_peer_at p (set_free (with_ctx c pr)) s)) as Hs.
  { unfold in_background, with_peer_at. cbn. by rewrite insert_insert_eq. }
  rewrite Hs in Hx. eexists. split.
  - unfold push. rewrite Hx. cbn [or_ub]. ok_bind. cbn -[has_pending_request]. rewrite lookup_insert_eq.
    cbn [or_ub]. ok_bind. cbn -[has_pending_request].
    change (get_id (set_free (with_ctx c pr))) with (get_id (with_ctx c pr)). by rewrite Hno.
  - intros reqs todo back.
    match goal with |- context [goto _ ?m1] => set (m1' := m1) end.
    destruct (handle_request_run e s x p
      (if decide (srv_to_join_ s = Some p) then ex_resp_handler_ else resp_handler_) pr c req rc ctx data data' is_last rpc reqs (length (elems m)) todo back
      (goto (Next reqs (length (elems m) :: todo) back) m1') Hm Hl Hab Hrpc eq_refl Hterm) as (m2 & Hrun & Hpc & Hq & Hx2).
    + unfold m1'. cbn. rewrite lookup_app_r, Nat.sub_diag by done. done.
    + exact Hx.
    + exists m2, (with_ctx (with_user_ctx ctx c) pr). split; [apply lookup_insert_eq|].
      split; [exact Hrun|]. split; [done|]. split; [done|]. rewrite Hx2. f_equal.
      unfold in_background, with_peer_at. cbn. by rewrite insert_insert_eq.
Qed.

(** ** Witnesses

    A leader of term 1 with a snapshot, whose state machine gives an object of one
    byte. *)
Definition a_snapshot : snapshot := Snapshot 5 1 0 new_cluster_config logical_object.
Definition an_object : buffer := cursor [] [Byte.x2a].
Definition reading_env : env :=
  Env 0 (λ _, Byte.x00) (λ _ _, CbOk) (λ lo _, lo) false default_limits false true 0 (λ _, false)
    (StateMachine (λ _ _, None) (λ _ _, None) None 0 true true (λ _ expected _, expected) (λ _ _ _, (0, []))
       (λ _ ctx _, (0, ctx, Some an_object, true)) (λ _, true)).
Definition a_leader : server :=
  a_follower <| role_ := leader |> <| leader_ := 2 |> <| state_ ::= set_term 1 |>
             <| last_snapshot_ := Some a_snapshot |>.

(** The thread's parts and the events of a run. *)
Fixpoint io_run (e : env) (evs : list (option io_event)) (m : io_mgr) : outcome (io_mgr * list (nat * effect)) :=
  match evs with
  | [] => Ok (m, [])
  | None :: evs => '(m, o) ← thread_part e m; '(m, o') ← io_run e evs m; Ok (m, o ++ o')
  | Some ev :: evs => m ← happen ev m; io_run e evs m
  end.

Definition pushes (ev : option io_event) : Prop := match ev with None | Some (Push _ _ _) => True | _ => False end.

Lemma io_run_sound e evs m m' o : Forall pushes evs → io_run e evs m = Ok (m', o) → rtc (io_step no_drop) m m'.
Proof.
  intros Hevs. revert m o. induction Hevs as [|ev evs Hev _ IH]; intros m o H; cbn in H.
  - by injection H as <- <-.
  - destruct ev as [ev|].
    + apply bind_Ok in H as (m1 & H1 & H2). apply rtc_l with m1; [|by eapply IH].
      by destruct ev as [| |?|]; [|eapply (io_event_step _ _ _ (Push _ _ _))|..].
    + apply bind_Ok in H as ([m1 o1] & H1 & H2). apply bind_Ok in H2 as ([m2 o2] & H2 & [= <- <-]).
      apply rtc_l with m1; [|by eapply IH]. by eapply io_thread_step.
Qed.

(** The leader with the snapshot chosen for peer 1. *)
Definition syncing (s : server) : server :=
  match choose_snapshot 1 0 reading_env (in_background true s) with Ok (_, s, _) => s | Fault _ => s end.
Definition a_read : list (option io_event) := Some (Push 0 1 resp_handler_) :: replicate 4 None.

Example one_request_per_peer_witness :
  ∃ m, rtc (io_step no_drop) (new_io_mgr [syncing a_leader]) m ∧ in_hand (io_thread_ m) = [0%nat] ∧
    has_pending_request 0 1 m = true ∧
    (NoDup (target_of m <$> queue_ m) ∧
    ∀ i, i ∈ in_hand (io_thread_ m) → ∃ x srv_id, target_of m i = Some (x, srv_id) ∧
      has_pending_request x srv_id m = true ∧
      ∀ p h b m' s pr, servers m !! x = Some s → peer_heap_ s !! p = Some pr → get_id pr = srv_id →
        push x p h m = Ok (b, m') → b = false ∧ m' = m).
Proof.
  destruct (io_run reading_env a_read (new_io_mgr [syncing a_leader])) as [[m o]|] eqn:H; [|by vm_compute in H].
  assert (in_hand (io_thread_ m) = [0%nat] ∧ has_pending_request 0 1 m = true) as [Hh Hp].
  { vm_compute in H. injection H as <- <-. by vm_compute. }
  apply io_run_sound in H; [|by repeat constructor]. exists m. split_and!; [done..| |];
    apply (one_request_per_peer [syncing a_leader] m H).
Defined.

Example background_sends_the_same_witness :
  ∃ req s1 pr, peer_heap_ a_leader !! 1%positive = Some pr ∧
    create_sync_snapshot_req 1 0 (get_term a_leader) (quick_commit_index_ a_leader) reading_env
      (in_background false a_leader) = Ok ((Some req, true), s1, []) ∧ rq_last_log_idx req = 5 ∧
  ∃ s2 pr2 h, create_sync_snapshot_req 1 0 (get_term a_leader) (quick_commit_index_ a_leader) reading_env
      (in_background true a_leader) = Ok ((None, true), s2, [] ++ [PushSnapshotIo 1 h]) ∧
    peer_heap_ s2 !! 1%positive = Some pr2 ∧
    ∀ x m, servers m !! x = Some (with_peer_at 1 (set_free pr2) s2) →
      has_pending_request x (get_id pr2) m = false → terminating_ m = false →
      ∃ m1, push x 1 h m = Ok (true, m1) ∧
      ∀ reqs todo back, ∃ m2 pr1, peer_heap_ s1 !! 1%positive = Some pr1 ∧
        thread_parts reading_env 4 (goto (Next reqs (length (elems m) :: todo) back) m1) =
          Ok (m2, [(x, SendReq 1 1 req h)]) ∧
        io_thread_ m2 = Next reqs todo back ∧ queue_ m2 = queue_ m1 ∧
        servers m2 !! x = Some (in_background true (with_peer_at 1 (sent_to (now_ reading_env) pr1) s1)).
Proof.
  destruct (create_sync_snapshot_req 1 0 (get_term a_leader) (quick_commit_index_ a_leader) reading_env
    (in_background false a_leader)) as [[[[r b] s1] o]|] eqn:H; [|by vm_compute in H].
  assert (∃ req, r = Some req ∧ b = true ∧ o = [] ∧ rq_last_log_idx req = 5) as (req & -> & -> & -> & Hi).
  { clear -H. vm_compute in H. injection H as <- <- _ <-. by eexists. }
  assert (option_map (λ pr, (abandoned_ pr, rpc_ pr)) (peer_heap_ a_leader !! 1%positive) = Some (false, Some 1)) as Hr
    by by vm_compute.
  destruct (peer_heap_ a_leader !! 1%positive) as [pr|] eqn:Hp; [|done]. injection Hr as Hab Hrpc.
  exists req, s1, pr. split; [done|]. split; [done|]. split; [done|].
  apply (background_sends_the_same reading_env a_leader s1 1 0 1 pr req []); [by vm_compute|done|done|done| |done].
  intros snp s0 o0 Hc.
  assert (match choose_snapshot 1 0 reading_env a_leader with Ok (snp, _, _) => type_ snp | Fault _ => 0 end =
    logical_object) as Ht by by vm_compute. rewrite Hc in Ht. by rewrite Ht.
Defined.

(** ** What goes wrong *)
Definition deposed (s : server) : server := s <| role_ := follower |> <| leader_ := 3 |> <| state_ ::= set_term 2 |>.

(** A leader that is deposed during a read goes on to send: the thread asks only
    before it reads, and the request has the new term, in which another server
    may lead. *)
Example deposed_leader_sends_snapshot :
  let s := syncing a_leader in
  ∃ m s' req, io_run reading_env (a_read ++ [None; Some (Raft 0 (deposed s) []); None]) (new_io_mgr [s]) =
      Ok (m, [(0%nat, SendReq 1 1 req resp_handler_)]) ∧
    servers m !! 0%nat = Some s' ∧ role_ s' = follower ∧ leader_ s' = 3 ∧
    rq_type req = install_snapshot_request ∧ rq_src req = id_ s' ∧ rq_term req = 2.
Proof.
  intros s. destruct (io_run _ _ _) as [[m o]|] eqn:H; [|by vm_compute in H].
  vm_compute in H. injection H as <- <-. eexists _, _, _. by split_and!.
Qed.

(** What a server drops comes back when the thread has it in hand and the peer is
    busy. *)
Example dropped_request_comes_back :
  let s := with_peer_at 1 (new_peer 0 default_params None (new_srv_config 1 "")
                             <| snp_sync_ctx_ := Some (new_snapshot_sync_ctx 0 a_snapshot 1 0) |>
                             <| busy_flag_ := true |>) (syncing a_leader) in
  ∃ m, io_run reading_env (a_read ++ [None; None; None; Some (DropReqs 0); None]) (new_io_mgr [s]) = Ok (m, []) ∧
    has_pending_request 0 1 m = true.
Proof.
  intros s. destruct (io_run _ _ _) as [[m o]|] eqn:H; [|by vm_compute in H].
  vm_compute in H. injection H as <- <-. by eexists.
Qed.

(** A server that leads no more makes the thread forget the requests of the
    servers after it. *)
Example other_servers_requests_are_lost :
  let s := syncing a_leader in
  ∃ m, io_run reading_env ([Some (Push 0 1 resp_handler_); Some (Push 1 1 resp_handler_);
                            Some (Raft 0 (deposed s) [])] ++ replicate 4 None) (new_io_mgr [s; s]) = Ok (m, []) ∧
    option_map is_leader (servers m !! 1%nat) = Some true ∧ queue_ m = [].
Proof.
  intros s. destruct (io_run _ _ _) as [[m o]|] eqn:H; [|by vm_compute in H].
  vm_compute in H. injection H as <- <-. by eexists.
Qed.
