(* ===== verification/LogMerge.v ===== *)
(** * Merging the entries of a leader into a log

    What a follower has to do with entries that come with the index after
    which they go: keep what it has as far as the terms are the same, and from
    the first difference on have the leader's.  Logs are lists here, position
    [k] being the number of entries before it; [term] is the term of an entry.

    Two logs match when an entry of the same term at the same position makes
    them equal up to it, which is the log matching property of Raft.  Merging
    keeps it. *)
From S2P Require Import Prelude.

Section merge.
Context {A : Type} (term : A → Z).
Implicit Types (ds es L M : list A) (k : nat).

(** How many of the entries [es] are there with their term. *)
Fixpoint same_terms ds es : nat :=
  match ds, es with
  | d :: ds, e :: es => if decide (term d = term e) then S (same_terms ds es) else O
  | _, _ => O
  end.

(** The log [ds] once it has [es] after its first [k] entries. *)
Definition merge_entries k ds es : list A :=
  let j := same_terms (drop k ds) es in
  if decide (j < length es)%nat then take (k + j) ds ++ drop j es else ds.

Definition matching L M : Prop :=
  ∀ i a b, L !! i = Some a → M !! i = Some b → term a = term b → take (S i) L = take (S i) M.

Lemma same_terms_le_r ds es : (same_terms ds es ≤ length es)%nat.
Proof. revert es. induction ds as [|d ds IH]; intros [|e es]; simpl; try lia. case_decide; [|lia]. specialize (IH es). lia. Qed.
Lemma same_terms_le_l ds es : (same_terms ds es ≤ length ds)%nat.
Proof. revert es. induction ds as [|d ds IH]; intros [|e es]; simpl; try lia. case_decide; [|lia]. specialize (IH es). lia. Qed.

Lemma same_terms_lookup ds es i d e :
  (i < same_terms ds es)%nat → ds !! i = Some d → es !! i = Some e → term d = term e.
Proof.
  revert es i. induction ds as [|d' ds IH]; intros [|e' es] i; simpl; try (intros; lia).
  case_decide; [|lia]. destruct i as [|i]; simpl; [by intros _ [= <-] [= <-]|].
  intros Hi. apply IH. lia.
Qed.

(** After them the terms differ, or one of the two ends. *)
Lemma same_terms_stop ds es d e :
  ds !! same_terms ds es = Some d → es !! same_terms ds es = Some e → term d ≠ term e.
Proof.
  revert es. induction ds as [|d' ds IH]; intros [|e' es]; simpl; try done.
  case_decide; simpl; [apply IH|by intros [= <-] [= <-]].
Qed.

Lemma merge_entries_nil k ds : merge_entries k ds [] = ds.
Proof. unfold merge_entries. rewrite decide_False; [done|simpl; lia]. Qed.

Lemma length_merge_entries k ds es :
  (k ≤ length ds)%nat → (k + length es ≤ length (merge_entries k ds es))%nat.
Proof.
  intros Hk. unfold merge_entries. pose proof (same_terms_le_r (drop k ds) es).
  pose proof (same_terms_le_l (drop k ds) es) as Hl. rewrite length_drop in Hl.
  case_decide; [rewrite length_app, length_take, length_drop; lia|lia].
Qed.

(** ** Matching logs *)
Lemma matching_sym L M : matching L M → matching M L.
Proof. intros H i a b Ha Hb Ht. symmetry. by eapply H. Qed.

Lemma matching_take_l n L M : matching L M → matching (take n L) M.
Proof.
  intros H i a b Ha Hb Ht. apply lookup_take_Some in Ha as [Ha Hi].
  rewrite take_take, Nat.min_l by lia. by eapply H.
Qed.

Lemma matching_refl L : matching L L.
Proof. by intros i a b. Qed.

(** Two logs that match and have the same term at a position agree up to it. *)
Lemma matching_agree L M i :
  matching L M → (∃ a b, L !! i = Some a ∧ M !! i = Some b ∧ term a = term b) →
  take (S i) L = take (S i) M.
Proof. intros H (a & b & Ha & Hb & Ht). by eapply H. Qed.

Lemma take_eq_le n k L M : take n L = take n M → (k ≤ n)%nat → take k L = take k M.
Proof. intros H Hk. rewrite <- (Nat.min_l k n Hk), <- !take_take. by rewrite H. Qed.

(** The entries there with the same term are the leader's. *)
Lemma matching_same_terms k n ds L :
  matching ds L → take k ds = take k L → (k ≤ length ds)%nat → (k + n ≤ length L)%nat →
  let j := same_terms (drop k ds) (take n (drop k L)) in
  take (k + j) ds = take (k + j) L.
Proof.
  intros Hm Hk Hlk Hln j. destruct j as [|i] eqn:Hj; [by rewrite Nat.add_0_r|].
  pose proof (same_terms_le_l (drop k ds) (take n (drop k L))) as Hl.
  pose proof (same_terms_le_r (drop k ds) (take n (drop k L))) as Hr.
  subst j. rewrite Hj in Hl, Hr. rewrite length_drop in Hl. rewrite length_take, length_drop in Hr.
  destruct (lookup_lt_is_Some_2 ds (k + i)) as [a Ha]; [lia|].
  destruct (lookup_lt_is_Some_2 L (k + i)) as [b Hb]; [lia|].
  rewrite Nat.add_succ_r. apply matching_agree; [done|]. exists a, b. split_and!; [done..|].
  eapply (same_terms_lookup (drop k ds) (take n (drop k L)) i).
  - rewrite Hj. lia.
  - by rewrite lookup_drop.
  - rewrite lookup_take_lt by lia. by rewrite lookup_drop.
Qed.

(** Merging entries of a log that matches: the log is as it was and has them, or
    it is now the beginning of that log. *)
Lemma merge_matching k n ds L :
  matching ds L → take k ds = take k L → (k ≤ length ds)%nat → (k + n ≤ length L)%nat →
  let ds' := merge_entries k ds (take n (drop k L)) in
  ds' = ds ∧ take (k + n) ds = take (k + n) L ∨
  ds' = take (k + n) L ∧ take (k + n) ds ≠ take (k + n) L.
Proof.
  intros Hm Hk Hlk Hln ds'. pose proof (matching_same_terms k n ds L Hm Hk Hlk Hln) as Hj. simpl in Hj.
  pose proof (same_terms_le_r (drop k ds) (take n (drop k L))) as Hr. subst ds'.
  pose proof (same_terms_stop (drop k ds) (take n (drop k L))) as Hstop.
  unfold merge_entries. set (j := same_terms _ _) in *.
  assert (length (take n (drop k L)) = n) as Hlen by (rewrite length_take, length_drop; lia).
  rewrite Hlen in *. case_decide as Hjn; [right|left; replace n with j by lia; by split].
  split.
  - rewrite Hj, skipn_firstn_comm, drop_drop, take_take_drop. f_equal. lia.
  - intros Heq. destruct (lookup_lt_is_Some_2 L (k + j)) as [b Hb]; [lia|].
    assert (ds !! (k + j) = Some b)%nat as Hd.
    { rewrite <- (lookup_take_lt _ (k + n)) in Hb by lia. rewrite <- Heq in Hb.
      by rewrite lookup_take_lt in Hb by lia. }
    apply (Hstop b b); [by rewrite lookup_drop|by rewrite lookup_take_lt, lookup_drop by lia|done].
Qed.

(** Hence matching is kept, and nothing that the two logs agree on is lost. *)
Lemma merge_keeps_matching k n ds L M :
  matching ds L → take k ds = take k L → (k ≤ length ds)%nat → (k + n ≤ length L)%nat →
  matching ds M → matching L M → matching (merge_entries k ds (take n (drop k L))) M.
Proof.
  intros Hm Hk Hlk Hln HdM HLM. destruct (merge_matching k n ds L) as [[-> _]|[-> _]]; try done.
  by apply matching_take_l.
Qed.

Lemma merge_keeps_common k n ds L i :
  matching ds L → take k ds = take k L → (k ≤ length ds)%nat → (k + n ≤ length L)%nat →
  take i ds = take i L →
  take i (merge_entries k ds (take n (drop k L))) = take i ds.
Proof.
  intros Hm Hk Hlk Hln Heq. destruct (merge_matching k n ds L) as [[-> _]|[-> Hne]]; [done..|].
  assert (i ≤ k + n)%nat.
  { destruct (decide (i ≤ k + n)%nat) as [|Hgt]; [done|]. exfalso. apply Hne.
    apply (take_eq_le i); [done|lia]. }
  by rewrite take_take, Nat.min_l.
Qed.
End merge.
Arguments same_terms {A} term ds es.

Lemma same_terms_fmap {A B} (f : A → B) (t : A → Z) (t' : B → Z) ds es :
  (∀ a, t' (f a) = t a) → same_terms t' (f <$> ds) (f <$> es) = same_terms t ds es.
Proof.
  intros Ht. revert es. induction ds as [|d ds IH]; intros [|e es]; simpl; try done.
  rewrite !Ht, IH. done.
Qed.

Lemma merge_entries_fmap {A B} (f : A → B) (t : A → Z) (t' : B → Z) k ds es :
  (∀ a, t' (f a) = t a) →
  merge_entries t' k (f <$> ds) (f <$> es) = f <$> merge_entries t k ds es.
Proof.
  intros Ht. unfold merge_entries. rewrite <- fmap_drop, (same_terms_fmap f t t'), length_fmap by done.
  case_decide; [|done]. by rewrite fmap_app, fmap_take, fmap_drop.
Qed.

(** A hidden beginning of the log is no part of the merge. *)
Lemma merge_entries_app {A} (t : A → Z) k pre ds es :
  merge_entries t (length pre + k) (pre ++ ds) es = pre ++ merge_entries t k ds es.
Proof.
  unfold merge_entries. rewrite drop_app_add. case_decide; [|done].
  rewrite <- Nat.add_assoc, take_app_add. by rewrite (assoc_L (++)).
Qed.
