(* ===== verification/RaftAppendSpec.v ===== *)
(** * What receiving entries does to a follower's log

    [write_entries] of RaftAppend on a server whose log store represents a log:
    the entries there with the same term are skipped, the rest of the log is
    rolled back from its end, and the new entries are stored one by one. *)
From S2P Require Import Prelude Bytes Buffer BufferSpec BufferSerializer Wire RaftTypes.
From S2P Require Import LogEntry LogStore LogStoreSpec LogStoreOps LogMerge SrvState StateMgr.
From S2P Require Import RaftParams RaftMsg Peer RaftServer RaftRoles RaftReplicate RaftAppend RaftRun.
Local Open Scope Z_scope.

(** What receiving entries changes of a server. *)
Definition with_log_state (l : log_store) (changing : bool) (q c : Z) (s : server) : server :=
  s <| state_mgr_ ::= (λ m, m <| cur_log_store_ := l |>) |> <| config_changing_ := changing |>
    <| quick_commit_index_ := q |> <| sm_commit_index_ := c |>.

Lemma with_log_state_idem l b q c l' b' q' c' s :
  with_log_state l b q c (with_log_state l' b' q' c' s) = with_log_state l b q c s.
Proof. done. Qed.

Lemma with_log_state_id s :
  with_log_state (log_store_ s) (config_changing_ s) (quick_commit_index_ s) (sm_commit_index_ s) s = s.
Proof. unfold with_log_state, log_store_. destruct s as []. cbn. f_equal. by destruct state_mgr_. Qed.

(** ** What the state machine is told *)
Definition config_of (d : entry_data) : outcome cluster_config :=
  '(c, _) ← deserialize_cluster_config (new_serializer (cursor [] (e_payload d)) LITTLE); Ok c.

(** An entry that is rolled back, and one that is stored. *)
Definition rolled_back (i : Z) (d : entry_data) : list effect :=
  if decide (e_type d = app_log) then [SmRollback i (cursor [] (e_payload d))]
  else if decide (e_type d = conf) then
    match config_of d with Ok c => [SmRollbackConfig i c] | Fault _ => [] end
  else [].
Definition pre_committed (i : Z) (d : entry_data) : list effect :=
  if decide (e_type d = app_log) then [SmPreCommit i (cursor [] (e_payload d))] else [].

(** The entries [ds] from the index [i] on, stored one after the other, or
    rolled back from the last to the first. *)
Fixpoint stored_effects (i : Z) (ds : list entry_data) : list effect :=
  match ds with [] => [] | d :: ds => pre_committed i d ++ stored_effects (i + 1) ds end.
Fixpoint rollback_effects (i : Z) (ds : list entry_data) : list effect :=
  match ds with [] => [] | d :: ds => rollback_effects (i + 1) ds ++ rolled_back i d end.

Lemma stored_effects_app i ds ds' :
  stored_effects i (ds ++ ds') = stored_effects i ds ++ stored_effects (i + Z.of_nat (length ds)) ds'.
Proof.
  revert i. induction ds as [|d ds IH]; intros i; simpl; [by rewrite Z.add_0_r|].
  rewrite IH, (assoc_L (++)). do 2 f_equal. lia.
Qed.

Lemma rollback_effects_snoc i ds d :
  rollback_effects i (ds ++ [d]) = rolled_back (i + Z.of_nat (length ds)) d ++ rollback_effects i ds.
Proof.
  revert i. induction ds as [|d' ds IH]; intros i; simpl; [by rewrite Z.add_0_r, app_nil_r|].
  rewrite IH, (assoc_L (++)). do 3 f_equal. lia.
Qed.

Section append.
Context (e : env).
Implicit Types (s : server) (d : entry_data) (ds es : list entry_data).
Local Abbreviation junk := (junk_ e).

(** The configurations of a log can be read. *)
Definition configs_readable (ds : list entry_data) : Prop :=
  Forall (λ d, e_type d = conf → ∃ c, config_of d = Ok c) ds.

Lemma entry_buf_run le d s : entry_holds le d → entry_buf le e s = Ok (cursor [] (e_payload d), s, []).
Proof.
  intros (b & a & Hp & Hf & ->). unfold entry_buf. cbn [buff_ or_ub]. run_steps.
  rewrite Hp in *. by rewrite (cursor_set_pos b a [] (b ++ a)).
Qed.

Lemma after_store_run i le d s l b q c :
  entry_holds le d →
  ∃ b', after_store i le e (with_log_state l b q c s) =
    Ok (tt, with_log_state l b' q c s, pre_committed i d).
Proof.
  intros Hle. assert (value_type_ le = e_type d) as Hty by (by destruct Hle as (? & ? & _ & _ & ->)).
  unfold after_store, pre_committed. rewrite Hty. case_decide.
  - rewrite (run_silent _ _ _ _ _ _ (entry_buf_run _ _ _ Hle)). by eexists.
  - case_decide; by eexists.
Qed.

Lemma next_slot_of l b q c s first ds :
  represents junk l first ds → get_next_slot (with_log_state l b q c s) = first + Z.of_nat (length ds).
Proof. apply rep_next_slot. Qed.

(** Storing at an index of the log, or at its end. *)
Lemma store_at_run le d s l b q c first ds i :
  represents junk l first ds → entry_holds le d → payload_ok d → role_ s ≠ leader →
  first ≤ i ≤ first + Z.of_nat (length ds) → i + 1 < 2 ^ 64 →
  ∃ l', store_log_entry le i e (with_log_state l b q c s) = Ok (i, with_log_state l' b q c s, []) ∧
    represents junk l' first (take (Z.to_nat (i - first)) ds ++ [d]).
Proof.
  intros Hr Hle Hd Hrole Hi Hroom. pose proof (rep_first _ _ _ _ Hr).
  unfold store_log_entry. run_steps. rewrite decide_False by lia.
  destruct (write_at_rep junk (now_ e) i le d l first ds) as (l' & Hw & Hr'); [done..|].
  change (log_store_ (with_log_state l b q c s)) with l. rewrite Hw. run_steps. unfold set_log_store. run_steps.
  destruct (bool_decide (value_type_ le = conf)) eqn:Hc; unfold when; run_steps.
  - rewrite bool_decide_false by done. run_steps. eexists. split; [done|].
    by apply (represents_with_durable junk).
  - by eexists.
Qed.
Lemma store_last_run le d s l b q c first ds :
  represents junk l first ds → entry_holds le d → payload_ok d → role_ s ≠ leader →
  first + Z.of_nat (length ds) + 1 < 2 ^ 64 →
  ∃ l', store_log_entry le 0 e (with_log_state l b q c s) =
      Ok (first + Z.of_nat (length ds), with_log_state l' b q c s, []) ∧
    represents junk l' first (ds ++ [d]).
Proof.
  intros Hr Hle Hd Hrole Hroom. unfold store_log_entry. run_steps. rewrite decide_True by done.
  destruct (append_rep junk (now_ e) le d l first ds) as (l' & Hw & Hr'); [done..|].
  change (log_store_ (with_log_state l b q c s)) with l. rewrite Hw. run_steps. unfold set_log_store. run_steps.
  destruct (bool_decide (value_type_ le = conf)) eqn:Hc; unfold when; run_steps.
  - rewrite bool_decide_false by done. run_steps. eexists. split; [done|].
    by apply (represents_with_durable junk).
  - by eexists.
Qed.

(** ** The loops *)
Lemma skip_existing_run les es l first ds k :
  represents junk l first ds → Forall2 entry_holds les es → (k ≤ length ds)%nat →
  first + Z.of_nat (k + length es) < 2 ^ 64 →
  let j := same_terms e_term (drop k ds) es in
  skip_existing (first + Z.of_nat k) les l = Ok (first + Z.of_nat (k + j), drop j les).
Proof.
  intros Hr Hles. pose proof (rep_first _ _ _ _ Hr). revert k.
  induction Hles as [|le d les es Hle Hles IH]; intros k Hk Hroom; cbn [skip_existing].
  - destruct (drop k ds); simpl; rewrite Nat.add_0_r; done.
  - rewrite (rep_next_slot junk l first ds) by done. case_decide as Hlt.
    + destruct (lookup_lt_is_Some_2 ds k) as [d' Hd']; [lia|].
      rewrite (drop_S _ _ _ Hd'), (term_at_rep junk l first ds) by done. ok_bind.
      rewrite log_lookup_nat, Hd'. cbn [from_option id same_terms].
      replace (LogEntry.term_ le) with (e_term d) by (by destruct Hle as (? & ? & _ & _ & ->)).
      cbn [length] in Hroom.
      case_decide; [|by rewrite Nat.add_0_r].
      replace (u64 (first + Z.of_nat k + 1)) with (first + Z.of_nat (S k)) by (rewrite wrap_u_id by range; lia).
      rewrite IH by lia. do 3 f_equal. lia.
    + rewrite drop_ge by lia. cbn [same_terms]. by rewrite Nat.add_0_r.
Qed.

Lemma rollback_entries_run l first ds s q c n m b :
  represents junk l first ds → configs_readable ds → (n ≤ m ≤ length ds)%nat →
  ∃ b', rollback_entries n (first + Z.of_nat m - 1) e (with_log_state l b q c s) =
    Ok (tt, with_log_state l b' q c s,
        rollback_effects (first + Z.of_nat (m - n)) (take n (drop (m - n) ds))).
Proof.
  intros Hr Hconf. pose proof (rep_first _ _ _ _ Hr). pose proof (rep_room _ _ _ _ Hr).
  revert m b. induction n as [|n IH]; intros m b Hm; cbn [rollback_entries]; [by eexists|].
  destruct m as [|m]; [lia|]. destruct (lookup_lt_is_Some_2 ds m) as [d Hd]; [lia|].
  set (i := first + Z.of_nat (S m) - 1). assert (i = first + Z.of_nat m) as Hi by lia.
  assert (log_read (λ junk, entry_at junk i) e (with_log_state l b q c s) =
          Ok (to_entry d, with_log_state l b q c s, [])) as Hread.
  { unfold log_read. run_steps. change (log_store_ (with_log_state l b q c s)) with l.
    rewrite (entry_at_rep junk l first ds), Hi, log_lookup_nat by done. by rewrite Hd. }
  rewrite (run_silent _ _ _ _ _ _ Hread).
  assert (entry_holds (to_entry d) d) as Hhold.
  { apply to_entry_holds, payload_ok_fits. pose proof (rep_payloads _ _ _ _ Hr) as Hp.
    eapply Forall_lookup in Hp; done. }
  assert (∃ b1, (if decide (value_type_ (to_entry d) = app_log) then
         buf ← entry_buf (to_entry d); tell (SmRollback i buf)
       else if decide (value_type_ (to_entry d) = conf) then
         buf ← lift (or_ub NullPointer (buff_ (to_entry d)));
         '(c, _) ← lift (deserialize_cluster_config (new_serializer buf LITTLE));
         tell (SmRollbackConfig i c) ;;
         config_changing_ :=! false
       else mret tt) e (with_log_state l b q c s) = Ok (tt, with_log_state l b1 q c s, rolled_back i d))
    as (b1 & Hstep).
  { unfold rolled_back. change (value_type_ (to_entry d)) with (e_type d). case_decide.
    - rewrite (run_silent _ _ _ _ _ _ (entry_buf_run _ _ _ Hhold)). by eexists.
    - case_decide as Hty; [|by eexists]. eapply Forall_lookup in Hconf; [|exact Hd].
      destruct (Hconf Hty) as [cf Hcf]. rewrite Hcf. unfold config_of in Hcf.
      apply bind_Ok in Hcf as ([c' s'] & Hdes & [= ->]). cbn [to_entry buff_ or_ub]. run_steps.
      rewrite Hdes. run_steps. by eexists. }
  rewrite (run_bind _ _ _ _ _ _ _ Hstep).
  destruct (IH m b1) as [b2 IHm]; [lia|].
  replace (u64 (i - 1)) with (first + Z.of_nat m - 1) by (rewrite wrap_u_id by range; lia).
  rewrite IHm. ok_bind. exists b2. do 2 f_equal.
  replace (S m - S n)%nat with (m - n)%nat by lia.
  rewrite (take_S_r _ _ d), rollback_effects_snoc, length_take, length_drop.
  - f_equal. f_equal. lia.
  - rewrite lookup_drop. rewrite <- Hd. f_equal. lia.
Qed.
(** Appending at the end of the log. *)
Lemma append_entries_run les es l first ds s b q c :
  represents junk l first ds → Forall2 entry_holds les es → Forall payload_ok es →
  role_ s ≠ leader → stopping_ s = false →
  first + Z.of_nat (length ds + length es) < 2 ^ 64 →
  ∃ l' b', append_entries les e (with_log_state l b q c s) =
      Ok (Some tt, with_log_state l' b' q c s, stored_effects (first + Z.of_nat (length ds)) es) ∧
    represents junk l' first (ds ++ es).
Proof.
  intros Hr Hles Hok Hrole Hstop. revert l b ds Hr.
  induction Hles as [|le d les es Hle Hles IH]; intros l b ds Hr Hroom; cbn [append_entries].
  - exists l, b. by rewrite app_nil_r.
  - inversion_clear Hok as [|? ? Hd Hok']. cbn [length] in Hroom.
    destruct (store_last_run le d s l b q c first ds) as (l1 & Hst & Hr1); [done..|lia|].
    rewrite (run_silent _ _ _ _ _ _ Hst).
    destruct (after_store_run (first + Z.of_nat (length ds)) le d s l1 b q c Hle) as [b1 Haf].
    rewrite (run_bind _ _ _ _ _ _ _ Haf). run_steps.
    change (stopping_ (with_log_state l1 b1 q c s)) with (stopping_ s). rewrite Hstop.
    destruct (IH Hok' l1 b1 (ds ++ [d]) Hr1) as (l2 & b2 & Hrun & Hr2).
    { rewrite length_app. cbn [length]. lia. }
    rewrite Hrun. ok_bind. exists l2, b2. split; [|by rewrite <- (assoc_L (++)) in Hr2].
    cbn [stored_effects]. rewrite length_app. cbn [length]. do 4 f_equal. lia.
Qed.

(** Storing from an index inside the log: the first entry cuts the log off, and
    what is left goes to its end. *)
Lemma overwrite_entries_run les es l first ds s b q c i :
  represents junk l first ds → Forall2 entry_holds les es → Forall payload_ok es → les ≠ [] →
  role_ s ≠ leader → stopping_ s = false →
  first ≤ i ≤ first + Z.of_nat (length ds) → i + 1 < 2 ^ 64 →
  ∃ l' b' les' es1 es2, overwrite_entries i les e (with_log_state l b q c s) =
      Ok (Some les', with_log_state l' b' q c s, stored_effects i es1) ∧
    es = es1 ++ es2 ∧ Forall2 entry_holds les' es2 ∧
    represents junk l' first (take (Z.to_nat (i - first)) ds ++ es1).
Proof.
  intros Hr Hles Hok Hne Hrole Hstop Hi Hroom. pose proof (rep_first _ _ _ _ Hr).
  destruct Hles as [|le d les es Hle Hles]; [done|]. inversion_clear Hok as [|? ? Hd Hok'].
  cbn [overwrite_entries]. run_steps.
  rewrite (next_slot_of _ _ _ _ _ _ _ Hr). case_decide.
  2:{ exists l, b, (le :: les), [], (d :: es). split_and!; [done..|by constructor|].
      rewrite app_nil_r, take_ge by lia. done. }
  destruct (store_at_run le d s l b q c first ds i) as (l1 & Hst & Hr1); [done..|].
  rewrite (run_silent _ _ _ _ _ _ Hst).
  destruct (after_store_run i le d s l1 b q c Hle) as [b1 Haf].
  rewrite (run_bind _ _ _ _ _ _ _ Haf). run_steps.
  change (stopping_ (with_log_state l1 b1 q c s)) with (stopping_ s). rewrite Hstop.
  exists l1, b1, les, [d], es. split_and!; [|done..]. cbn [stored_effects].
  destruct les as [|le' les]; cbn [overwrite_entries]; [done|]. run_steps.
  rewrite (next_slot_of _ _ _ _ _ _ _ Hr1), length_app, length_take, wrap_u_id by range.
  rewrite decide_False by (cbn [length]; lia). done.
Qed.

(** ** write_entries *)

(** Where the entries of a request differ from the log, and what is stored. *)
Definition conflict (first : Z) (k : nat) ds es : Z :=
  first + Z.of_nat (k + same_terms e_term (drop k ds) es).
Definition new_entries (k : nat) ds es : list entry_data :=
  drop (same_terms e_term (drop k ds) es) es.
(** Whether something of the log has to go. *)
Definition truncates (k : nat) ds es : bool :=
  bool_decide (k + same_terms e_term (drop k ds) es < length ds ∧ new_entries k ds es ≠ [])%nat.

(** A commit index after the entries from [i] on were rolled back. *)
Definition rolled_index (t : bool) (i q : Z) : Z := if t then q `min` (i - 1) else q.

Definition merge_effects (first : Z) (k : nat) ds es : list effect :=
  let j := same_terms e_term (drop k ds) es in
  (if truncates k ds es then rollback_effects (conflict first k ds es) (drop (k + j) ds) else [])
  ++ stored_effects (conflict first k ds es) (new_entries k ds es).

Lemma rollback_run l first ds s b q c m :
  represents junk l first ds → configs_readable ds → (m ≤ length ds)%nat →
  ∃ b', rollback (first + Z.of_nat m) e (with_log_state l b q c s) =
    Ok (tt, with_log_state l b' (rolled_index true (first + Z.of_nat m) q)
              (rolled_index true (first + Z.of_nat m) c) s,
        rollback_effects (first + Z.of_nat m) (drop m ds)).
Proof.
  intros Hr Hconf Hm. pose proof (rep_first _ _ _ _ Hr). pose proof (rep_room _ _ _ _ Hr).
  unfold rollback. run_steps. unfold get_last_log_idx. rewrite (next_slot_of _ _ _ _ _ _ _ Hr).
  rewrite !wrap_u_id by range.
  change (quick_commit_index_ (with_log_state l b q c s)) with q.
  assert (∀ (f : unit → M unit),
    (when (bool_decide (first + Z.of_nat m ≤ q)) (quick_commit_index_ :=! first + Z.of_nat m - 1) ≫= f)
      e (with_log_state l b q c s) =
    f tt e (with_log_state l b (rolled_index true (first + Z.of_nat m) q) c s)) as Hq.
  { intros f. unfold when, rolled_index. case_bool_decide; run_steps.
    - by rewrite Z.min_r by lia.
    - by rewrite Z.min_l by lia. }
  rewrite Hq. clear Hq. change (sm_commit_index_ (with_log_state l b q c s)) with c.
  set (q' := rolled_index true (first + Z.of_nat m) q).
  assert (∀ (f : unit → M unit),
    (when (bool_decide (first + Z.of_nat m ≤ c)) (sm_commit_index_ :=! first + Z.of_nat m - 1) ≫= f)
      e (with_log_state l b q' c s) =
    f tt e (with_log_state l b q' (rolled_index true (first + Z.of_nat m) c) s)) as Hc.
  { intros f. unfold when, rolled_index. case_bool_decide; run_steps.
    - by rewrite Z.min_r by lia.
    - by rewrite Z.min_l by lia. }
  rewrite Hc. clear Hc.
  replace (Z.to_nat (first + Z.of_nat (length ds) - 1 - (first + Z.of_nat m) + 1))
    with (length ds - m)%nat by lia.
  destruct (rollback_entries_run l first ds s q' (rolled_index true (first + Z.of_nat m) c)
              (length ds - m) (length ds) b) as [b' Hrun]; [done..|lia|].
  rewrite Hrun. exists b'. replace (length ds - (length ds - m))%nat with m by lia.
  rewrite take_ge; [done|]. rewrite length_drop. lia.
Qed.
(** The two storing loops, one after the other, from index [i] on. *)
Definition store_entries (i : Z) (les : list log_entry) : M (option unit) :=
  entries ← overwrite_entries i les;
  match entries with
  | None => mret None
  | Some entries => append_entries entries
  end.

Lemma store_entries_run les es l first ds s b q c i :
  represents junk l first ds → Forall2 entry_holds les es → Forall payload_ok es →
  role_ s ≠ leader → stopping_ s = false →
  first ≤ i ≤ first + Z.of_nat (length ds) → i + Z.of_nat (length es) < 2 ^ 64 →
  ∃ l' b', store_entries i les e (with_log_state l b q c s) =
      Ok (Some tt, with_log_state l' b' q c s, stored_effects i es) ∧
    represents junk l' first (if decide (es = []) then ds else take (Z.to_nat (i - first)) ds ++ es).
Proof.
  intros Hr Hles Hok Hrole Hstop Hi Hroom. unfold store_entries. destruct (decide (es = [])) as [->|Hne].
  { apply Forall2_nil_inv_r in Hles as ->. cbn [overwrite_entries]. run_steps. cbn [append_entries].
    by eexists _, _. }
  destruct (overwrite_entries_run les es l first ds s b q c i) as (l1 & b1 & les' & es1 & es2 & Hrun & -> & Hles' & Hr1);
    try done.
  { intros ->. apply Forall2_nil_inv_l in Hles. done. }
  { destruct es as [|d es]; [done|]. cbn [length] in Hroom. lia. }
  rewrite (run_bind _ _ _ _ _ _ _ Hrun). apply Forall_app in Hok as [_ Hok].
  rewrite length_app in Hroom.
  destruct (append_entries_run les' es2 l1 first (take (Z.to_nat (i - first)) ds ++ es1) s b1 q c)
    as (l2 & b2 & Hrun2 & Hr2); [done..| |].
  { rewrite length_app, length_take. lia. }
  rewrite Hrun2. ok_bind. exists l2, b2. rewrite <- (assoc_L (++)) in Hr2. split; [|done].
  rewrite length_app, length_take, stored_effects_app. do 4 f_equal. lia.
Qed.

Lemma write_entries_split req s :
  write_entries req e s =
    ('(log_idx, entries) ← lift (skip_existing (u64 (rq_last_log_idx req + 1)) (rq_log_entries req) (log_store_ s));
     when (bool_decide (log_idx ≤ get_last_log_idx s ∧ entries ≠ [])) (rollback log_idx) ;;
     r ← store_entries log_idx entries;
     match r with
     | None => mret None
     | Some _ =>
         tell (EndOfAppendBatch (u64 (rq_last_log_idx req + 1)) (Z.of_nat (length (rq_log_entries req)))) ;;
         s ← get;
         when (parallel_log_appending_ (params_ s))
           (wait_durable (durable_turns s) 0 (u64 (rq_last_log_idx req + Z.of_nat (length (rq_log_entries req))))) ;;
         mret (Some tt)
     end) e s.
Proof.
  unfold write_entries. rewrite run_get. unfold store_entries.
  destruct (skip_existing _ _ _) as [[i les]|]; [|done]. run_steps.
  match goal with |- context [when ?b (rollback i)] => set (m := when b (rollback i)) end.
  destruct (m e s) as [[[[] s1] o1]|] eqn:E.
  2:{ unfold mbind, M_bind. by rewrite E. }
  rewrite !(run_bind _ _ _ _ _ _ _ E), run_assoc.
  destruct (overwrite_entries i les e s1) as [[[les' s2] o2]|] eqn:E2.
  2:{ unfold mbind, M_bind. by rewrite E2. }
  rewrite !(run_bind _ _ _ _ _ _ _ E2). by destruct les'.
Qed.

Lemma write_entries_run req les es l first ds k s b q c :
  rq_log_entries req = les → rq_last_log_idx req + 1 = first + Z.of_nat k →
  represents junk l first ds → Forall2 entry_holds les es → Forall payload_ok es →
  configs_readable ds → role_ s ≠ leader → stopping_ s = false → parallel_log_appending_ (params_ s) = false →
  (k ≤ length ds)%nat → first + Z.of_nat (k + length es) < 2 ^ 64 →
  let t := truncates k ds es in
  let p := conflict first k ds es in
  ∃ l' b', write_entries req e (with_log_state l b q c s) =
      Ok (Some tt, with_log_state l' b' (rolled_index t p q) (rolled_index t p c) s,
          merge_effects first k ds es ++ [EndOfAppendBatch (first + Z.of_nat k) (Z.of_nat (length es))]) ∧
    represents junk l' first (merge_entries e_term k ds es).
Proof.
  intros Hreq Hlast Hr Hles Hok Hconf Hrole Hstop Hpar Hk Hroom t p.
  pose proof (rep_first _ _ _ _ Hr). pose proof (rep_room _ _ _ _ Hr).
  pose proof (Forall2_length _ _ _ Hles) as Hlen.
  rewrite write_entries_split, Hreq, Hlen, Hlast, (wrap_u_id _ (first + Z.of_nat k)) by range.
  change (log_store_ (with_log_state l b q c s)) with l.
  rewrite (skip_existing_run les es l first ds k) by done. rewrite run_lift.
  set (j := same_terms e_term (drop k ds) es) in *.
  pose proof (same_terms_le_l e_term (drop k ds) es) as Hjl. rewrite length_drop in Hjl.
  pose proof (same_terms_le_r e_term (drop k ds) es) as Hjr. fold j in Hjl, Hjr.
  unfold get_last_log_idx. rewrite (next_slot_of _ _ _ _ _ _ _ Hr), (wrap_u_id _ (_ - 1)) by range.
  assert (Forall2 entry_holds (drop j les) (new_entries k ds es)) as Hnew by by apply Forall2_drop.
  assert (bool_decide (first + Z.of_nat (k + j) ≤ first + Z.of_nat (length ds) - 1 ∧ drop j les ≠ []) = t) as ->.
  { unfold t, truncates. fold j. apply bool_decide_ext.
    assert (drop j les = [] ↔ new_entries k ds es = []) as Hnil.
    { split; intros Hx; rewrite Hx in Hnew; [by apply Forall2_nil_inv_l in Hnew|by apply Forall2_nil_inv_r in Hnew]. }
    rewrite Hnil. split; intros [? ?]; (split; [lia|done]). }
  change (first + Z.of_nat (k + j)) with p.
  assert (∃ b1, when t (rollback p) e (with_log_state l b q c s) =
    Ok (tt, with_log_state l b1 (rolled_index t p q) (rolled_index t p c) s,
        if t then rollback_effects p (drop (k + j) ds) else [])) as [b1 Hroll].
  { destruct t; [|by eexists]. apply rollback_run; [done|done|lia]. }
  rewrite (run_bind _ _ _ _ _ _ _ Hroll).
  destruct (store_entries_run (drop j les) (new_entries k ds es) l first ds s b1 (rolled_index t p q)
    (rolled_index t p c) p) as (l' & b' & Hst & Hr'); [done..|by apply Forall_drop|done|done| | |].
  { unfold p, conflict. fold j. lia. }
  { unfold p, conflict, new_entries. fold j. rewrite length_drop. lia. }
  rewrite (run_bind _ _ _ _ _ _ _ Hst). rewrite run_tell. run_steps.
  change (params_ (with_log_state _ _ _ _ _)) with (params_ s). rewrite Hpar. unfold when. run_steps.
  exists l', b'. split.
  - ok_bind. unfold merge_effects. fold j. by rewrite <- (assoc_L (++)).
  - unfold merge_entries. fold j. unfold new_entries in Hr'. fold j in Hr'.
    replace (Z.to_nat (p - first)) with (k + j)%nat in Hr' by (unfold p, conflict; fold j; lia).
    case_decide as Hd1; case_decide as Hd2; try done; exfalso.
    + apply (f_equal length) in Hd1. rewrite length_drop in Hd1. cbn in Hd1. lia.
    + apply Hd1. apply drop_ge. lia.
Qed.
End append.
