(* ===== verification/RaftAppendRun.v ===== *)
(** * Running handle_append_entries on a follower

    The whole handler of RaftAppend, accepting and declining, on a server whose
    log store represents a log. *)
From S2P Require Import Prelude Bytes Buffer BufferSpec BufferSerializer Wire RaftTypes.
From S2P Require Import LogEntry LogStore LogStoreSpec LogStoreOps LogMerge SrvState StateMgr.
From S2P Require Import RaftParams RaftMsg Peer RaftServer RaftRoles RaftReplicate RaftAppend RaftRun.
From S2P Require Import RaftAppendSpec.
Local Open Scope Z_scope.

(** What the state machine learns of the log. *)
Definition is_log_effect (x : effect) : bool :=
  match x with
  | SmPreCommit _ _ | SmRollback _ _ | SmRollbackConfig _ _ | SmCommit _ _ => true
  | _ => false
  end.
Definition log_effects (o : list effect) : list effect := filter (λ x, is_log_effect x = true) o.

(** The parts of a server that say what it has and may do with its log. *)
Definition log_view (s : server) :=
  (log_store_ s, quick_commit_index_ s, sm_commit_index_ s, precommit_index_ s, role_ s, get_term s,
   last_snapshot_ s, stopping_ s, parallel_log_appending_ (params_ s)).

Lemma log_effects_app o o' : log_effects (o ++ o') = log_effects o ++ log_effects o'.
Proof. apply filter_app. Qed.

Lemma log_effects_stored i ds : log_effects (stored_effects i ds) = stored_effects i ds.
Proof.
  revert i. induction ds as [|d ds IH]; intros i; [done|]. cbn [stored_effects].
  rewrite log_effects_app, IH. f_equal. unfold pre_committed. by case_decide.
Qed.

Lemma log_effects_rollback i ds : log_effects (rollback_effects i ds) = rollback_effects i ds.
Proof.
  revert i. induction ds as [|d ds IH]; intros i; [done|]. cbn [rollback_effects].
  rewrite log_effects_app, IH. f_equal. unfold rolled_back. repeat case_decide; try done.
  by destruct (config_of d).
Qed.

Lemma log_effects_merge first k ds es :
  log_effects (merge_effects first k ds es) = merge_effects first k ds es.
Proof.
  unfold merge_effects. rewrite log_effects_app, log_effects_stored.
  destruct (truncates k ds es); [by rewrite log_effects_rollback|done].
Qed.

Section run.
Context (e : env).
Implicit Types s : server.

(** A part of a handler that leaves the log alone, and never fails. *)
Definition neutral {A} (m : M A) : Prop :=
  ∀ s, srv_state_ok (state_ s) → ∃ a s' o, m e s = Ok (a, s', o) ∧ log_view s' = log_view s ∧
    log_effects o = [] ∧ srv_state_ok (state_ s').

Lemma neutral_ret {A} (a : A) : neutral (mret a).
Proof. intros s Hs. by eexists _, _, _. Qed.

Lemma neutral_bind {A B} (m : M A) (f : A → M B) : neutral m → (∀ a, neutral (f a)) → neutral (m ≫= f).
Proof.
  intros Hm Hf s Hs. destruct (Hm s Hs) as (a & s1 & o1 & H1 & Hv1 & Ho1 & Hs1).
  destruct (Hf a s1 Hs1) as (b & s2 & o2 & H2 & Hv2 & Ho2 & Hs2).
  exists b, s2, (o1 ++ o2). rewrite (run_bind _ _ _ _ _ _ _ H1), H2. ok_bind.
  split_and!; [done|by rewrite Hv2|by rewrite log_effects_app, Ho1, Ho2|done].
Qed.

Lemma neutral_get : neutral get.
Proof. intros s Hs. by eexists _, _, _. Qed.
Lemma neutral_asks {A} (f : env → A) : neutral (asks f).
Proof. intros s Hs. by eexists _, _, _. Qed.
Lemma neutral_tell x : is_log_effect x = false → neutral (tell x).
Proof.
  intros Hx s Hs. eexists _, _, _. split_and!; [done|done| |done].
  unfold log_effects. by rewrite filter_cons_False by by rewrite Hx.
Qed.
Lemma neutral_when b m : neutral m → neutral (when b m).
Proof. intros Hm. by destruct b; [|apply neutral_ret]. Qed.

(** A change of fields that the log has nothing to do with. *)
Lemma neutral_modify f :
  (∀ s, log_view (f s) = log_view s) →
  (∀ s, srv_state_ok (state_ s) → srv_state_ok (state_ (f s))) → neutral (modify f).
Proof. intros Hf Hs s Hok. eexists _, _, _. split_and!; [done|apply Hf|done|by apply Hs]. Qed.

Lemma neutral_save_state : neutral save_state.
Proof.
  intros s Hs. unfold save_state. run_steps. rewrite save_state_ok by done. run_steps.
  by eexists _, _, _.
Qed.
End run.

Ltac neutral_step :=
  match goal with
  | |- neutral _ (mret _) => apply neutral_ret
  | |- neutral _ (get ≫= _) => apply neutral_bind; [apply neutral_get|intros ?]
  | |- neutral _ (asks _ ≫= _) => apply neutral_bind; [apply neutral_asks|intros ?]
  | |- neutral _ (_ ≫= _) => apply neutral_bind; [|intros ?]
  | |- neutral _ (tell _) => by apply neutral_tell
  | |- neutral _ (modify _) => apply neutral_modify; [done|done]
  | |- neutral _ (when _ _) => apply neutral_when
  | |- neutral _ (asks _) => apply neutral_asks
  | |- neutral _ save_state => apply neutral_save_state
  | |- neutral _ (if ?b then _ else _) => destruct b
  end.
Ltac neutral := repeat (cbv beta; neutral_step).

Section run.
Context (e : env).
Implicit Types s : server.

Lemma n_call_cb t i : neutral e (call_cb t i).
Proof. unfold call_cb. neutral. Qed.
Lemma n_schedule_task t ms : neutral e (schedule_task t ms).
Proof. unfold schedule_task. neutral. Qed.
Lemma n_cancel_task t : neutral e (cancel_task t).
Proof. unfold cancel_task. neutral. Qed.
Lemma n_call_rand_timeout : neutral e call_rand_timeout.
Proof. unfold call_rand_timeout. neutral. Qed.
Lemma n_update_target_priority : neutral e update_target_priority.
Proof. unfold update_target_priority. neutral. Qed.
Lemma n_restart_election_timer : neutral e restart_election_timer.
Proof.
  unfold restart_election_timer. neutral;
    first [apply n_cancel_task|apply n_call_rand_timeout|apply n_schedule_task].
Qed.

(** The commit index a follower learns. *)
Lemma commit_follower_run i s :
  srv_state_ok (state_ s) → role_ s = follower →
  ∃ s' o, commit i e s = Ok (tt, s', o) ∧
    log_view s' = log_view (s <| quick_commit_index_ := quick_commit_index_ s `max` i |>) ∧
    log_effects o = [] ∧ srv_state_ok (state_ s').
Proof.
  intros Hs Hrole. unfold commit. rewrite run_get, Hrole.
  set (s1 := if decide (i > quick_commit_index_ s)
             then s <| quick_commit_index_ := i |> <| lagging_sm_target_index_ := i |> else s).
  assert (∀ f : unit → M unit,
    ((if decide (i > quick_commit_index_ s) then
        quick_commit_index_ :=! i ;; lagging_sm_target_index_ :=! i ;;
        if decide (follower = leader) then
          for_each (peer_ptrs s) (λ p,
            sent ← request_append_entries_to p;
            when (negb sent) (upd_peer p (λ pr, pr <| pending_commit_flag_ := true |>)))
        else mret tt
      else mret tt) ≫= f) e s = f tt e s1) as ->.
  { intros f. unfold s1. rewrite (decide_False (P := follower = leader)) by done. case_decide; by run_steps. }
  assert (log_view s1 = log_view (s <| quick_commit_index_ := quick_commit_index_ s `max` i |>)) as Hv.
  { unfold s1. case_decide.
    - by rewrite Z.max_r by lia.
    - rewrite Z.max_l by lia. done. }
  assert (srv_state_ok (state_ s1)) as Hs1 by (unfold s1; by case_decide).
  clearbody s1. run_steps.
  assert (neutral e (if decide (get_last_log_idx s1 > sm_commit_index_ s1 ∧ quick_commit_index_ s1 > sm_commit_index_ s1)
    then tell NotifyCommit
    else if decide (role_ s1 = follower) then
      when (negb (data_fresh_ s1) && bool_decide (leader_commit_index_ s1 < u64 (sm_commit_index_ s1 + fresh_log_gap_ (params_ s1))))
        (data_fresh_ :=! true ;; _ ← call_cb BecomeFresh (-1); mret tt)
    else mret tt)) as Hn.
  { neutral. apply n_call_cb. }
  destruct (Hn s1 Hs1) as ([] & s2 & o & H2 & Hv2 & Ho & Hs2). rewrite H2.
  exists s2, o. split_and!; [done|by rewrite Hv2|done|done].
Qed.

(** ** What the follower knows of the entry before the first one *)
Definition known_term (first : Z) ds (i : Z) : Z :=
  if decide (i = 0) then 0
  else if decide (first ≤ i) then match log_lookup first ds i with Some d => e_term d | None => 0 end
  else match sm_last_snapshot (state_machine_ e) with
       | Some snp => if decide (i ≠ last_log_idx_ snp) then 0 else last_log_term_ snp
       | None => 0
       end.

(** Whether a request is accepted. *)
Definition accepts (first : Z) ds s (req : req_msg) : bool :=
  bool_decide (get_term s ≤ rq_term req)
  && append_log_okay s (known_term first ds (rq_last_log_idx req)) req.

Lemma known_term_run s first ds i :
  represents (junk_ e) (log_store_ s) first ds →
  (if decide (i < get_next_slot s) then term_for_log i else mret 0) e s = Ok (known_term first ds i, s, []).
Proof.
  intros Hr. unfold get_next_slot. rewrite (rep_next_slot _ _ _ _ Hr). unfold known_term.
  pose proof (rep_first _ _ _ _ Hr). case_decide.
  - unfold term_for_log. case_decide; [done|]. run_steps. unfold start_index.
    rewrite (rep_start _ _ _ _ Hr). case_decide.
    + rewrite (term_at_rep _ _ _ _ _ Hr).
      destruct (log_lookup_in first ds i) as (d & Hd & _); [lia|]. by rewrite Hd.
    + by run_steps.
  - rewrite decide_False, decide_True, log_lookup_ge by lia. done.
Qed.

(** ** The parts of the handler *)

(** Once the request is found good. *)
Definition append_finish (req : req_msg) (resp : resp_msg) (hint : Z) : M (option resp_msg) :=
  leader_ :=! rq_src req ;;
  leader_commit_index_ :=! rq_commit_idx req ;;
  let target_precommit_index := u64 (rq_last_log_idx req + Z.of_nat (length (rq_log_entries req))) in
  pc_updated ← try_update_precommit_index target_precommit_index;
  when pc_updated (commit (rq_commit_idx req `min` target_precommit_index)) ;;
  let resp := accept (u64 (target_precommit_index + 1)) resp in
  s ← get;
  when (bool_decide (rq_term req = get_term s ∧ role_ s = follower)) restart_election_timer ;;
  out_of_log_range_ :=! false ;;
  mret (Some (resp <| rs_next_batch_size_hint_in_bytes := hint |>)).

Lemma append_finish_run req resp hint s :
  srv_state_ok (state_ s) → role_ s = follower →
  let target := u64 (rq_last_log_idx req + Z.of_nat (length (rq_log_entries req))) in
  ∃ s' o, append_finish req resp hint e s =
      Ok (Some (accept (u64 (target + 1)) resp <| rs_next_batch_size_hint_in_bytes := hint |>), s', o) ∧
    log_view s' = log_view (s <| precommit_index_ := precommit_index_ s `max` target |>
        <| quick_commit_index_ := quick_commit_index_ s `max` (rq_commit_idx req `min` target) |>) ∧
    log_effects o = [].
Proof.
  intros Hs Hrole target. unfold append_finish. run_steps.
  unfold try_update_precommit_index. run_steps. fold target.
  set (s0 := s <| leader_ := rq_src req |> <| leader_commit_index_ := rq_commit_idx req |>).
  set (s1 := s0 <| precommit_index_ := precommit_index_ s0 `max` target |>).
  assert (∀ f : unit → M (option resp_msg),
    (when (bool_decide (precommit_index_ s0 < target)) (precommit_index_ :=! target) ≫= f) e s0 = f tt e s1) as ->.
  { intros f. unfold when, s1. case_bool_decide; run_steps.
    - by rewrite Z.max_r by lia.
    - rewrite Z.max_l by lia. done. }
  run_steps. unfold when at 1.
  destruct (commit_follower_run (rq_commit_idx req `min` target) s1) as (s2 & o & Hc & Hv & Ho & Hs2); [done..|].
  rewrite (run_bind _ _ _ _ _ _ _ Hc). run_steps.
  assert (neutral e (when (bool_decide (rq_term req = get_term s2 ∧ role_ s2 = follower)) restart_election_timer ;;
    out_of_log_range_ :=! false)) as Hn.
  { neutral. apply n_restart_election_timer. }
  destruct (Hn s2 Hs2) as ([] & s3 & o3 & H3 & Hv3 & Ho3 & _).
  exists s3, (o ++ o3). split_and!; [|by rewrite Hv3, Hv|by rewrite log_effects_app, Ho, Ho3].
  apply M_bind_Ok in H3 as ([] & s4 & o4 & o5 & H4 & H5 & ->). rewrite (run_bind _ _ _ _ _ _ _ H4).
  run_steps. injection H5 as <- <-. done.
Qed.

(** A follower that may take the entries [es] of a request: it is not stopping,
    it does not append in parallel with the disk, and the callback of the user
    lets the request through. *)
Record append_ready (s : server) (first : Z) (ds : list entry_data) (req : req_msg)
    (es : list entry_data) : Prop := {
  ar_log : represents (junk_ e) (log_store_ s) first ds;
  ar_configs : configs_readable ds;
  ar_role : role_ s = follower;
  ar_state : srv_state_ok (state_ s);
  ar_running : stopping_ s = false;
  ar_serial : parallel_log_appending_ (params_ s) = false;
  ar_callback : cb_func_ e GotAppendEntryReqFromLeader (-1) = CbOk;
  ar_entries : Forall2 entry_holds (rq_log_entries req) es;
  ar_payloads : Forall payload_ok es;
  ar_index : 0 ≤ rq_last_log_idx req;
  ar_room : rq_last_log_idx req + Z.of_nat (length es) + 1 < 2 ^ 64
}.

Definition note_leader (req : req_msg) (s : server) : M bool :=
  if decide (rq_term req = get_term s) then
    match role_ s with
    | candidate => become_follower ;; mret true
    | leader => mret false
    | follower => update_target_priority ;; mret true
    end
  else mret true.

Lemma note_leader_run req s :
  srv_state_ok (state_ s) → role_ s = follower →
  ∃ s' o, note_leader req s e s = Ok (true, s', o) ∧ log_view s' = log_view s ∧ log_effects o = [] ∧
    srv_state_ok (state_ s').
Proof.
  intros Hs Hrole. unfold note_leader. rewrite Hrole. case_decide; [|by eexists _, _].
  destruct (n_update_target_priority s Hs) as ([] & s' & o & H' & Hv & Ho & Hs').
  rewrite (run_bind _ _ _ _ _ _ _ H'). exists s', o. split_and!; [|done..]. cbn. by rewrite app_nil_r.
Qed.

(** The second half of the handler, after the sender is noted. *)
Definition append_entries_rest (req : req_msg) : M (option resp_msg) :=
  s ← get; junk ← asks junk_; hint ← asks (λ e, sm_get_next_batch_size_hint_in_bytes (state_machine_ e));
  let resp := new_resp (get_term s) append_entries_response (id_ s) (rq_src req) (get_next_slot s) in
  log_term ← (if decide (rq_last_log_idx req < get_next_slot s) then term_for_log (rq_last_log_idx req)
              else mret 0);
  if bool_decide (rq_term req < get_term s) || negb (append_log_okay s log_term req) then
    mret (Some (resp <| rs_next_batch_size_hint_in_bytes := hint |>))
  else
    initialized_ :=! true ;;
    rc ← call_cb GotAppendEntryReqFromLeader (-1);
    if decide (rc ≠ CbOk) then
      appendix ← lift (serialize_appendix junk DO_NOT_REWIND);
      restart_election_timer ;;
      mret (Some (resp <| rs_ctx := Some appendix |> <| rs_next_batch_size_hint_in_bytes := -1 |>))
    else
      written ← (if decide (rq_log_entries req = []) then mret (Some tt) else write_entries req);
      match written with
      | None => mret (Some resp)
      | Some _ => append_finish req resp hint
      end.

Lemma body_split req s :
  handle_append_entries_body req e s =
    (same_term ← note_leader req s;
     if negb (same_term : bool) then mret None else append_entries_rest req) e s.
Proof. unfold handle_append_entries_body. by rewrite run_get. Qed.

Lemma write_run_or_skip req es s first ds k :
  append_ready s first ds req es → rq_last_log_idx req + 1 = first + Z.of_nat k → (k ≤ length ds)%nat →
  let t := truncates k ds es in
  let p := conflict first k ds es in
  ∃ l b o, (if decide (rq_log_entries req = []) then mret (Some tt) else write_entries req) e s =
      Ok (Some tt, with_log_state l b (rolled_index t p (quick_commit_index_ s))
                     (rolled_index t p (sm_commit_index_ s)) s, o) ∧
    represents (junk_ e) l first (merge_entries e_term k ds es) ∧
    log_effects o = merge_effects first k ds es.
Proof.
  intros [Hr Hconf Hrole Hs Hstop Hpar Hcb Hles Hok Hi Hroom] Hk Hkl t p. case_decide as Hnil.
  - rewrite Hnil in Hles. apply Forall2_nil_inv_l in Hles as ->.
    assert (truncates k ds [] = false) as Ht.
    { unfold truncates, new_entries. rewrite drop_nil. apply bool_decide_eq_false. tauto. }
    exists (log_store_ s), (config_changing_ s), []. unfold t. rewrite Ht. cbn [rolled_index].
    rewrite with_log_state_id, merge_entries_nil. split_and!; [done|done|].
    unfold merge_effects, new_entries. by rewrite Ht, drop_nil.
  - destruct (write_entries_run e req (rq_log_entries req) es (log_store_ s) first ds k s (config_changing_ s)
      (quick_commit_index_ s) (sm_commit_index_ s)) as (l & b & Hrun & Hr'); [done..|by rewrite Hrole|done|done|done|lia|].
    rewrite with_log_state_id in Hrun. exists l, b. eexists. split_and!; [exact Hrun|done|].
    rewrite log_effects_app, log_effects_merge. by rewrite app_nil_r.
Qed.

(** The follower's view of the log afterwards. *)
Definition appended (l : log_store) (first : Z) (k : nat) ds es (req : req_msg) (s : server) : server :=
  let t := truncates k ds es in
  let p := conflict first k ds es in
  let target := rq_last_log_idx req + Z.of_nat (length es) in
  with_log_state l (config_changing_ s)
    (rolled_index t p (quick_commit_index_ s) `max` (rq_commit_idx req `min` target))
    (rolled_index t p (sm_commit_index_ s)) s
  <| precommit_index_ := precommit_index_ s `max` target |>.

Lemma rest_accepted req es s first ds k :
  append_ready s first ds req es → accepts first ds s req = true →
  rq_last_log_idx req + 1 = first + Z.of_nat k → (k ≤ length ds)%nat →
  ∃ l s' o resp, append_entries_rest req e s = Ok (Some resp, s', o) ∧
    rs_accepted resp = true ∧ rs_next_idx resp = rq_last_log_idx req + Z.of_nat (length es) + 1 ∧
    rs_term resp = get_term s ∧
    represents (junk_ e) l first (merge_entries e_term k ds es) ∧
    log_view s' = log_view (appended l first k ds es req s) ∧
    log_effects o = merge_effects first k ds es.
Proof.
  intros Hrdy Hacc Hk Hkl. pose proof (ar_log _ _ _ _ _ Hrdy) as Hr.
  pose proof (Forall2_length _ _ _ (ar_entries _ _ _ _ _ Hrdy)) as Hlen.
  pose proof (ar_room _ _ _ _ _ Hrdy). pose proof (ar_index _ _ _ _ _ Hrdy).
  apply andb_prop in Hacc as [Hterm%bool_decide_eq_true Hok].
  unfold append_entries_rest. run_steps. rewrite (run_silent _ _ _ _ _ _ (known_term_run s first ds _ Hr)).
  rewrite bool_decide_false, Hok by lia. cbn [orb negb]. run_steps. unfold call_cb at 1. run_steps.
  rewrite run_tell. run_steps. rewrite (ar_callback _ _ _ _ _ Hrdy), decide_False by tauto.
  set (s1 := s <| initialized_ := true |>).
  destruct (write_run_or_skip req es s1 first ds k) as (l & b & o & Hw & Hl & Ho); [by destruct Hrdy|done..|].
  rewrite (run_bind _ _ _ _ _ _ _ Hw). set (s2 := with_log_state _ _ _ _ s1).
  match goal with |- context [append_finish req ?r ?h] =>
    destruct (append_finish_run req r h s2) as (s3 & o3 & H3 & Hv & Ho3);
      [apply (ar_state _ _ _ _ _ Hrdy)|apply (ar_role _ _ _ _ _ Hrdy)|]
  end.
  rewrite H3. ok_bind. rewrite Hlen, ?wrap_u_id in Hv by range. rewrite Hlen, (wrap_u_id _ (_ + Z.of_nat _)), wrap_u_id by range.
  exists l. eexists _, _, _. split; [done|]. split_and!; [done|done|done|done|by rewrite Hv|].
  cbn [log_effects]. change (log_effects (Callback GotAppendEntryReqFromLeader (-1) :: o ++ o3))
    with (log_effects (o ++ o3)). by rewrite log_effects_app, Ho, Ho3, app_nil_r.
Qed.

Lemma rest_declined req s first ds :
  represents (junk_ e) (log_store_ s) first ds → accepts first ds s req = false →
  ∃ resp, append_entries_rest req e s = Ok (Some resp, s, []) ∧
    rs_accepted resp = false ∧ rs_next_idx resp = first + Z.of_nat (length ds) ∧ rs_term resp = get_term s ∧
    rs_ctx resp = None.
Proof.
  intros Hr Hacc. unfold append_entries_rest. run_steps.
  rewrite (run_silent _ _ _ _ _ _ (known_term_run s first ds _ Hr)).
  assert (bool_decide (rq_term req < get_term s)
    || negb (append_log_okay s (known_term first ds (rq_last_log_idx req)) req) = true) as ->.
  { apply andb_false_iff in Hacc as [Hlt%bool_decide_eq_false| ->]; [|apply orb_true_r].
    rewrite bool_decide_true by lia. done. }
  eexists. split_and!; [done|done| |done|done]. cbn. unfold get_next_slot. by rewrite (rep_next_slot _ _ _ _ Hr).
Qed.

(** ** The whole handler *)
Lemma view_ready s s' first ds req es :
  log_view s' = log_view s → srv_state_ok (state_ s') →
  append_ready s first ds req es → append_ready s' first ds req es.
Proof.
  intros [= Hl _ _ _ Hr _ _ Hst Hp] Hs []. split; try done; first [by rewrite Hl|congruence].
Qed.

Lemma view_accepts s s' first ds req :
  log_view s' = log_view s → accepts first ds s' req = accepts first ds s req.
Proof.
  intros [= _ _ _ _ _ Ht Hsnp _ _]. unfold accepts, append_log_okay. by rewrite Ht, Hsnp.
Qed.

Lemma handle_run req es s first ds :
  append_ready s first ds req es →
  ∃ s1 o1, log_view s1 = log_view s ∧ append_ready s1 first ds req es ∧ log_effects o1 = [] ∧
    ∀ r s2 o2, append_entries_rest req e s1 = Ok (r, s2, o2) →
      handle_append_entries req e s = Ok (r, s2 <| serving_req_ := false |>, o1 ++ o2).
Proof.
  intros Hrdy.
  set (s0 := (if catching_up_ s && bool_decide (get_server (id_ s) (RaftServer.config_ s) ≠ None)
              then s <| catching_up_ := false |> else s) <| serving_req_ := true |>).
  assert (log_view s0 = log_view s) as Hv0 by (unfold s0; by destruct (_ && _)).
  assert (state_ s0 = state_ s) as Hst by (unfold s0; by destruct (_ && _)).
  assert (role_ s0 = follower) as Hrole.
  { rewrite <- (ar_role _ _ _ _ _ Hrdy). by injection Hv0. }
  destruct (note_leader_run req s0) as (s1 & o1 & H1 & Hv1 & Ho1 & Hs1); [|done|].
  { rewrite Hst. apply (ar_state _ _ _ _ _ Hrdy). }
  exists s1, o1. split; [by rewrite Hv1|]. split; [apply (view_ready s); [by rewrite Hv1|done|done]|].
  split; [done|]. intros r s2 o2 H2. unfold handle_append_entries. run_steps.
  assert (∀ f : unit → M (option resp_msg),
    (when (catching_up_ s && bool_decide (get_server (id_ s) (RaftServer.config_ s) ≠ None))
       (catching_up_ :=! false) ≫= λ _, serving_req_ :=! true ;; f tt) e s = f tt e s0) as Hpre.
  { intros f. unfold when, s0. destruct (_ && _); by run_steps. }
  rewrite (Hpre (λ _, resp ← handle_append_entries_body req; serving_req_ :=! false ;; mret resp)).
  assert (handle_append_entries_body req e s0 = Ok (r, s2, o1 ++ o2)) as Hbody.
  { rewrite body_split, (run_bind _ _ _ _ _ _ _ H1). cbn [negb]. by rewrite H2. }
  rewrite (run_bind _ _ _ _ _ _ _ Hbody). run_steps. cbn. by rewrite app_nil_r.
Qed.

Lemma append_accepted_run req es s first ds k :
  append_ready s first ds req es → accepts first ds s req = true →
  rq_last_log_idx req + 1 = first + Z.of_nat k → (k ≤ length ds)%nat →
  ∃ l s' o resp, handle_append_entries req e s = Ok (Some resp, s', o) ∧
    rs_accepted resp = true ∧ rs_next_idx resp = rq_last_log_idx req + Z.of_nat (length es) + 1 ∧
    rs_term resp = get_term s ∧
    represents (junk_ e) l first (merge_entries e_term k ds es) ∧
    log_view s' = log_view (appended l first k ds es req s) ∧
    log_effects o = merge_effects first k ds es.
Proof.
  intros Hrdy Hacc Hk Hkl. destruct (handle_run req es s first ds Hrdy) as (s1 & o1 & Hv1 & Hrdy1 & Ho1 & Hrun).
  rewrite <- (view_accepts s s1) in Hacc by done.
  destruct (rest_accepted req es s1 first ds k) as (l & s2 & o2 & resp & H2 & Ha & Hn & Ht & Hl & Hv2 & Ho2); [done..|].
  eexists l, _, _, resp. split; [by apply Hrun|]. split_and!; [done|done| |done| |by rewrite log_effects_app, Ho1, Ho2].
  - rewrite Ht. by injection Hv1.
  - transitivity (log_view s2); [done|]. rewrite Hv2. injection Hv1 as _ Hq Hc Hp Hr Ht' Hsnp Hst Hpar.
    unfold log_view, appended, with_log_state, get_term in *. cbn. by rewrite Hq, Hc, Hp, Hr, Ht', Hsnp, Hst, Hpar.
Qed.

Lemma append_declined_run req es s first ds :
  append_ready s first ds req es → accepts first ds s req = false →
  ∃ s' o resp, handle_append_entries req e s = Ok (Some resp, s', o) ∧
    rs_accepted resp = false ∧ rs_next_idx resp = first + Z.of_nat (length ds) ∧
    rs_term resp = get_term s ∧ rs_ctx resp = None ∧ log_view s' = log_view s ∧ log_effects o = [] ∧
    srv_state_ok (state_ s').
Proof.
  intros Hrdy Hacc. destruct (handle_run req es s first ds Hrdy) as (s1 & o1 & Hv1 & Hrdy1 & Ho1 & Hrun).
  rewrite <- (view_accepts s s1) in Hacc by done.
  destruct (rest_declined req s1 first ds) as (resp & H2 & Ha & Hn & Ht & Hc); [apply Hrdy1|done|].
  eexists _, _, resp. split; [by apply Hrun|].
  split_and!; [done|done| |done|by rewrite <- Hv1|by rewrite app_nil_r|apply (ar_state _ _ _ _ _ Hrdy1)].
  rewrite Ht. by injection Hv1.
Qed.
End run.

(** ** Logs of several servers

    What it is for a request to be cut from a leader's log, and what accepting it
    does to the whole log of a follower, the compacted part included. *)

(** What the servers agree on of an entry. *)
Definition core (d : entry_data) : Z * log_val_type * list byte := (e_term d, e_type d, e_payload d).
Definition core_term (c : Z * log_val_type * list byte) : Z := c.1.1.

(** A whole log is what was compacted, and what the store represents.  A request
    is cut from a log [L] when it has its entries after the index it names and
    the term of the entry there. *)
Definition cut_from (L : list (Z * log_val_type * list byte)) (req : req_msg) (es : list entry_data) : Prop :=
  let k := Z.to_nat (rq_last_log_idx req) in
  (k + length es ≤ length L)%nat ∧ core <$> es = take (length es) (drop k L) ∧
  (rq_last_log_idx req = 0 ∨ core_term <$> L !! Nat.pred k = Some (rq_last_log_term req)).

(** The snapshots of a server tell the term of the entry they end with. *)
Definition snapshots_of (e : env) (s : server) (F : list (Z * log_val_type * list byte)) : Prop :=
  ∀ snp, last_snapshot_ s = Some snp ∨ sm_last_snapshot (state_machine_ e) = Some snp →
    0 < last_log_idx_ snp → core_term <$> F !! Nat.pred (Z.to_nat (last_log_idx_ snp)) = Some (last_log_term_ snp).

Section matching.
Context (e : env) (s : server) (req : req_msg) (first : Z) (ds es : list entry_data).
Context (pre L : list (Z * log_val_type * list byte)).
Local Abbreviation F := (pre ++ (core <$> ds)).
Hypothesis Hrdy : append_ready e s first ds req es.
Hypothesis Hpre : Z.of_nat (length pre) = first - 1.
Hypothesis Hacc : accepts e first ds s req = true.
Hypothesis Hsnp : snapshots_of e s F.
Hypothesis Hcut : cut_from L req es.

(** The entry before the first is there, with its term. *)
Lemma accepted_prev :
  rq_last_log_idx req = 0 ∨
  0 < rq_last_log_idx req ∧
  core_term <$> F !! Nat.pred (Z.to_nat (rq_last_log_idx req)) = Some (rq_last_log_term req).
Proof.
  pose proof (ar_index _ _ _ _ _ _ Hrdy) as Hi. pose proof (ar_log _ _ _ _ _ _ Hrdy) as Hr.
  pose proof (rep_first _ _ _ _ Hr) as Hf.
  destruct (decide (rq_last_log_idx req = 0)) as [|Hne]; [by left|right]. split; [lia|].
  unfold accepts in Hacc. apply andb_prop in Hacc as [_ Hok]. unfold append_log_okay in Hok.
  apply orb_prop in Hok as [Hok|Hok].
  - apply orb_prop in Hok as [Hok|Hok]; apply bool_decide_eq_true in Hok; [done|].
    destruct Hok as [Hkn Ht]. rewrite Ht. unfold known_term in *.
    rewrite decide_False in * by done. case_decide as Hfi.
    + destruct (log_lookup first ds (rq_last_log_idx req)) as [d|] eqn:Hd; [|done].
      unfold log_lookup in Hd. rewrite decide_True in Hd by done.
      rewrite lookup_app_r by lia. replace (_ - _)%nat with (Z.to_nat (rq_last_log_idx req - first)) by lia.
      by rewrite list_lookup_fmap, Hd.
    + destruct (sm_last_snapshot (state_machine_ e)) as [snp|] eqn:Hs; [|done].
      case_decide as Hidx; [done|]. rewrite Hidx.
      apply Hsnp; [by right|lia].
  - destruct (last_snapshot_ s) as [snp|] eqn:Hs; [|done]. apply bool_decide_eq_true in Hok as [Hidx Ht].
    rewrite <- Hidx, <- Ht. apply Hsnp; [by left|lia].
Qed.

Lemma accepted_agrees :
  matching core_term F L →
  let k := Z.to_nat (rq_last_log_idx req) in
  (k ≤ length F)%nat ∧ take k F = take k L.
Proof.
  intros Hm k. destruct accepted_prev as [H0|[Hpos Hp]]; [subst k; rewrite H0; split; [simpl; lia|done]|].
  destruct Hcut as (_ & _ & [H0|Hl]); [lia|]. fold k in Hp, Hl.
  destruct (F !! Nat.pred k) as [a|] eqn:Ha; [|done]. destruct (L !! Nat.pred k) as [b|] eqn:Hb; [|done].
  simplify_eq/=. pose proof (lookup_lt_Some _ _ _ Ha). split; [lia|].
  replace k with (S (Nat.pred k)) by lia. apply (Hm _ a b); [done|done|congruence].
Qed.
(** The follower's whole log afterwards. *)
Lemma accepted_merge_run :
  first - 1 ≤ rq_last_log_idx req → matching core_term F L →
  let k := Z.to_nat (rq_last_log_idx req) in
  ∃ s' o resp ds', handle_append_entries req e s = Ok (Some resp, s', o) ∧ rs_accepted resp = true ∧
    rs_next_idx resp = rq_last_log_idx req + Z.of_nat (length es) + 1 ∧ role_ s' = role_ s ∧
    represents (junk_ e) (log_store_ s') first ds' ∧
    pre ++ (core <$> ds') = merge_entries core_term k F (take (length es) (drop k L)) ∧
    (k ≤ length F)%nat ∧ take k F = take k L.
Proof.
  intros Hlow Hm. destruct (accepted_agrees Hm) as [Hk Heq]. pose proof Hcut as (Hlen & Hes & _).
  pose proof (rep_first _ _ _ _ (ar_log _ _ _ _ _ _ Hrdy)) as Hf.
  set (k := (Z.to_nat (rq_last_log_idx req) - length pre)%nat).
  assert (Z.to_nat (rq_last_log_idx req) = length pre + k)%nat as Hkk by lia.
  pose proof Hk as Hk'. rewrite length_app, length_fmap in Hk'.
  destruct (append_accepted_run e req es s first ds k) as (l & s' & o & resp & Hrun & Ha & Hn & _ & Hl & Hv & _);
    [done|done|lia|lia|].
  injection Hv as Hl' _ _ _ Hrole _ _ _ _.
  exists s', o, resp, (merge_entries e_term k ds es). split_and!; try done; [by rewrite Hl'|].
  rewrite <- Hes, Hkk, merge_entries_app. f_equal. symmetry. by apply (merge_entries_fmap core e_term core_term).
Qed.
End matching.
