(* ===== verification/RaftRequestSpec.v ===== *)
(** * What a leader sends

    [create_append_entries_req] of RaftReplicate for a peer whose next entry is
    in the leader's log: a request cut from that log. *)
From S2P Require Import Prelude Bytes Buffer BufferSpec BufferSerializer Wire RaftTypes.
From S2P Require Import LogEntry LogStore LogStoreSpec LogStoreOps LogMerge SrvState StateMgr.
From S2P Require Import RaftParams RaftMsg Peer RaftServer RaftRoles RaftReplicate RaftAppend RaftRun.
From S2P Require Import RaftAppendSpec RaftAppendRun.
Local Open Scope Z_scope.

Section request.
Context (e : env) (p : positive).
Implicit Types (s : server) (pr : peer) (L : list entry_data).

(** A leader whose log, whole from index 1 on, is [L], all of it ready to be
    sent, and that knows the peer. *)
Record sends_from (s : server) (L : list entry_data) (pr : peer) : Prop := {
  sf_log : represents (junk_ e) (log_store_ s) 1 L;
  sf_ready : precommit_index_ s = Z.of_nat (length L);
  sf_peer : peer_heap_ s !! p = Some pr;
  sf_hint : in_s 64 (next_batch_size_hint_in_bytes_ pr);
  sf_size : total_size L < 2 ^ 64;
  sf_room : 0 ≤ max_append_size_ (params_ s) < 2 ^ 31;
  sf_length : Z.of_nat (length L) < 2 ^ 63
}.

Lemma with_peer_at_sends s L pr pr' :
  sends_from s L pr → next_batch_size_hint_in_bytes_ pr' = next_batch_size_hint_in_bytes_ pr →
  sends_from (with_peer_at p pr' s) L pr'.
Proof. intros [] Hh. split; try done; cbn; [by rewrite lookup_insert_eq|by rewrite Hh]. Qed.

(** What a request leaves of a peer. *)
Definition same_progress (pr pr' : peer) : Prop :=
  next_log_idx_ pr' = next_log_idx_ pr ∧
  next_batch_size_hint_in_bytes_ pr' = next_batch_size_hint_in_bytes_ pr.

Lemma batch_end_run s L pr last cur :
  sends_from s L pr → 0 ≤ last → last + 1 ≤ cur ≤ Z.of_nat (length L) + 1 →
  ∃ pr' i, batch_end p last cur e s = Ok (i, with_peer_at p pr' s, []) ∧ same_progress pr pr' ∧
    last + 1 ≤ i ≤ cur.
Proof.
  intros Hs H0 Hcur. pose proof (sf_room _ _ _ Hs). pose proof (sf_length _ _ _ Hs).
  unfold batch_end. run_steps. rewrite (run_silent _ _ _ _ _ _ (peer_read_run e p s pr (sf_peer _ _ _ Hs))).
  rewrite (wrap_u_id _ (last + 1 + max_append_size_ (params_ s))) by range.
  case_decide as Hsame.
  - rewrite (run_silent _ _ _ _ _ _ (upd_peer_run e p inc_cnt_not_applied s pr (sf_peer _ _ _ Hs))).
    rewrite (run_silent _ _ _ _ _ _ (peer_read_run e p (with_peer_at p (inc_cnt_not_applied pr) s)
      (inc_cnt_not_applied pr) (lookup_insert_eq _ _ _))).
    exists (inc_cnt_not_applied pr). eexists. split; [done|]. split; [done|].
    rewrite (wrap_u_id _ (last + 1 + 1)) by range. case_decide; lia.
  - rewrite (run_silent _ _ _ _ _ _ (upd_peer_run e p (λ pr, pr <| cnt_not_applied_ := 0 |>) s pr (sf_peer _ _ _ Hs))).
    eexists _, _. split; [done|]. split; [done|]. lia.
Qed.

(** The term a leader gives for the entry before the first one. *)
Lemma term_for_log_run s L i :
  represents (junk_ e) (log_store_ s) 1 L → 0 ≤ i ≤ Z.of_nat (length L) →
  ∃ t, term_for_log i e s = Ok (t, s, []) ∧
    (i = 0 ∨ core_term <$> (core <$> L) !! Nat.pred (Z.to_nat i) = Some t).
Proof.
  intros Hr Hi. unfold term_for_log. case_decide; [by eexists; split; [|by left]|].
  run_steps. unfold start_index. rewrite (rep_start _ _ _ _ Hr), decide_True by lia.
  rewrite (term_at_rep _ _ _ _ _ Hr). destruct (log_lookup_in 1 L i) as (d & Hd & _); [lia|].
  rewrite Hd. eexists. split; [done|]. right. unfold log_lookup in Hd. rewrite decide_True in Hd by lia.
  replace (Nat.pred (Z.to_nat i)) with (Z.to_nat (i - 1)) by lia. by rewrite list_lookup_fmap, Hd.
Qed.

Lemma total_size_slice k n L : total_size (slice k n L) ≤ total_size L.
Proof.
  assert (∀ l l', total_size (l ++ l') = total_size l + total_size l') as Happ.
  { intros l l'. induction l as [|d l IH]; cbn [app total_size]; [lia|]. rewrite IH. lia. }
  unfold slice. rewrite <- (take_drop k L) at 2. rewrite <- (take_drop n (drop k L)) at 2. rewrite !Happ.
  pose proof (total_size_nonneg (take k L)). pose proof (total_size_nonneg (drop n (drop k L))). lia.
Qed.

(** The entries of a batch from index [x] on. *)
Lemma batch_run s L x i hint :
  represents (junk_ e) (log_store_ s) 1 L → total_size L < 2 ^ 64 → in_s 64 hint →
  1 ≤ x → x ≤ i ≤ Z.of_nat (length L) + 1 →
  ∃ es, log_read (λ junk, log_entries_ext junk x i hint) e s = Ok (to_entry <$> es, s, []) ∧
    es `prefix_of` drop (Z.to_nat (x - 1)) L.
Proof.
  intros Hr Hsz Hh Hx Hi. unfold log_read. run_steps. unfold log_entries_ext. case_decide.
  { exists []. split; [done|]. apply prefix_nil. }
  destruct (log_entries_ext_loop_rep (junk_ e) (log_store_ s) 1 L hint (Z.to_nat (i - x)) x 0 [])
    as (l & Hl & [l' Hpre] & _); [done|lia|lia|done|lia|lia| |].
  { pose proof (total_size_slice (Z.to_nat (x - 1)) (Z.to_nat (i - x)) L). lia. }
  rewrite Hl. exists l. split; [done|]. unfold slice in Hpre.
  exists (l' ++ drop (Z.to_nat (i - x)) (drop (Z.to_nat (x - 1)) L)).
  by rewrite (assoc_L (++)), <- Hpre, take_drop.
Qed.

Lemma prefix_take {A} (l l' : list A) : l `prefix_of` l' → l = take (length l) l'.
Proof. intros [l'' ->]. by rewrite take_app_length. Qed.

(** The request for a peer whose next entry is in the log, or right after it. *)
Lemma request_run s L pr :
  sends_from s L pr → 1 ≤ next_log_idx_ pr ≤ Z.of_nat (length L) + 1 →
  ∃ req pr' es, create_append_entries_req p e s = Ok (Some req, with_peer_at p pr' s, []) ∧
    same_progress pr pr' ∧ rq_term req = get_term s ∧ rq_type req = append_entries_request ∧
    rq_src req = id_ s ∧ rq_commit_idx req = quick_commit_index_ s ∧
    rq_last_log_idx req = next_log_idx_ pr - 1 ∧ rq_log_entries req = to_entry <$> es ∧
    es `prefix_of` drop (Z.to_nat (next_log_idx_ pr - 1)) L ∧ cut_from (core <$> L) req es.
Proof.
  intros Hs Hx. pose proof (sf_log _ _ _ Hs) as Hr. pose proof (sf_length _ _ _ Hs).
  set (x := next_log_idx_ pr) in *. unfold create_append_entries_req. run_steps.
  unfold start_index. rewrite (rep_start _ _ _ _ Hr), (sf_ready _ _ _ Hs).
  rewrite (wrap_u_id _ (Z.of_nat (length L) + 1)) by range.
  rewrite (run_silent _ _ _ _ _ _ (peer_read_run e p s pr (sf_peer _ _ _ Hs))).
  fold x. unfold when at 1. rewrite bool_decide_false by lia. run_steps.
  rewrite (run_silent _ _ _ _ _ _ (peer_read_run e p s pr (sf_peer _ _ _ Hs))).
  fold x. rewrite (wrap_u_id _ (x - 1)) by range. rewrite decide_False by lia.
  destruct (batch_end_run s L pr (x - 1) (Z.of_nat (length L) + 1)) as (pr1 & i & Hb & [Hp1 Hp2] & Hi); [done|lia|lia|].
  rewrite (run_silent _ _ _ _ _ _ Hb).
  assert (sends_from (with_peer_at p pr1 s) L pr1) as Hs1 by by apply (with_peer_at_sends s L pr).
  rewrite (wrap_u_id _ (x - 1 + 1)) by range. replace (x - 1 + 1) with x in * by lia.
  destruct (term_for_log_run (with_peer_at p pr1 s) L (x - 1)) as (t & Ht & Hlast); [done|lia|].
  set (pr2 := pr1 <| last_sent_idx_ := x |>).
  assert (∀ es, es `prefix_of` drop (Z.to_nat (x - 1)) L →
    ∀ req, rq_last_log_idx req = x - 1 → rq_last_log_term req = t → cut_from (core <$> L) req es) as Hcut.
  { intros es Hes req Hri Hrt. unfold cut_from. rewrite Hri, Hrt, <- fmap_drop, <- fmap_take.
    rewrite <- (prefix_take _ _ Hes), length_fmap. apply prefix_length in Hes. rewrite length_drop in Hes.
    split; [lia|]. by split. }
  case_decide as Hend.
  - rewrite decide_True by lia. rewrite (run_silent _ _ _ _ _ _ Ht).
    rewrite (run_silent _ _ _ _ _ _ (upd_peer_run e p _ _ _ (sf_peer _ _ _ Hs1))), with_peer_at_idem.
    eexists _, pr2, []. split; [done|]. split_and!; try done; [apply prefix_nil|].
    apply Hcut; [apply prefix_nil|done|done].
  - rewrite decide_True by lia.
    destruct (batch_run (with_peer_at p pr1 s) L x i (next_batch_size_hint_in_bytes_ pr)) as (es & Hes & Hpre);
      [done|apply (sf_size _ _ _ Hs)|apply (sf_hint _ _ _ Hs)|lia|lia|].
    rewrite (run_silent _ _ _ _ _ _ Hes), (run_silent _ _ _ _ _ _ Ht).
    rewrite (run_silent _ _ _ _ _ _ (upd_peer_run e p _ _ _ (sf_peer _ _ _ Hs1))), with_peer_at_idem.
    eexists _, pr2, es. split; [done|]. split_and!; try done. by apply Hcut.
Qed.

(** ** A request that is declined *)
Lemma declined_run s L pr resp :
  sends_from s L pr → rs_ctx resp = None → 1 ≤ next_log_idx_ pr → 0 < rs_next_idx resp →
  ∃ pr', declined_append p resp e s = Ok (tt, with_peer_at p pr' s, []) ∧
    next_log_idx_ pr' = (next_log_idx_ pr - 1) `min` rs_next_idx resp ∧
    next_batch_size_hint_in_bytes_ pr' = next_batch_size_hint_in_bytes_ pr.
Proof.
  intros Hs Hctx Hx Hn. unfold declined_append.
  rewrite (run_silent _ _ _ _ _ _ (peer_read_run e p s pr (sf_peer _ _ _ Hs))).
  set (x := (next_log_idx_ pr - 1) `min` rs_next_idx resp).
  set (pr1 := pr <| next_log_idx_ := x |>).
  assert (∀ f : unit → M unit,
    ((if decide (rs_next_idx resp > 0 ∧ next_log_idx_ pr > rs_next_idx resp) then
        upd_peer p (λ pr, pr <| next_log_idx_ := rs_next_idx resp |>)
      else
        do_log_rewind ←
          match rs_ctx resp with
          | Some ctx =>
              extra_order ← lift (deserialize_appendix ctx);
              mret (negb (bool_decide (extra_order = DO_NOT_REWIND)))
          | None => mret true
          end;
        when ((do_log_rewind : bool) && bool_decide (next_log_idx_ pr ≠ 0))
          (upd_peer p (λ pr', pr' <| next_log_idx_ := next_log_idx_ pr - 1 |>))) ≫= f) e s =
    f tt e (with_peer_at p pr1 s)) as ->.
  { intros f. unfold pr1, x. case_decide.
    - rewrite (run_silent _ _ _ _ _ _ (upd_peer_run e p _ s pr (sf_peer _ _ _ Hs))), Z.min_r by lia. done.
    - rewrite Hctx. run_steps. rewrite bool_decide_true by lia. cbn [andb]. unfold when.
      rewrite (run_silent _ _ _ _ _ _ (upd_peer_run e p _ s pr (sf_peer _ _ _ Hs))), Z.min_l by lia. done. }
  unfold with_peer. run_steps.
  rewrite (run_silent _ _ _ _ _ _ (peer_read_run e p (with_peer_at p pr1 s) pr1 (lookup_insert_eq _ _ _))). run_steps.
  rewrite (run_silent _ _ _ _ _ _ (upd_peer_run e p _ (with_peer_at p pr1 s) pr1 (lookup_insert_eq _ _ _))).
  rewrite with_peer_at_idem. run_steps. eexists. split; [done|].
  unfold need_to_suppress_error. by destruct (suppress_following_error_ pr1).
Qed.
End request.
