(* ===== verification/RaftAppendThms.v ===== *)
(** * Theorems about receiving the log

    What [handle_append_entries] makes of a follower's log, that the logs of the
    servers go on matching, and how a leader that does not know how far a
    follower's log agrees with its own finds out: it sends a request, and after an
    answer that declines it sends an earlier one. *)
From S2P Require Import Prelude Bytes Buffer BufferSpec BufferSerializer Wire RaftTypes.
From S2P Require Import LogEntry LogStore LogStoreSpec LogStoreOps LogMerge SrvState StateMgr.
From S2P Require Import RaftParams RaftMsg Peer RaftServer RaftRoles RaftReplicate RaftAppend RaftRun.
From S2P Require Import RaftAppendSpec RaftAppendRun RaftRequestSpec LogStoreThms RaftNet RaftCommitThms.
Local Open Scope Z_scope.

(** C7: a follower that gets entries from a leader answers, and either accepts
    or declines.  It accepts exactly when the term of the request is not an old
    one and the entry before the first is there with its term (or is the last
    of its snapshot, or there is none).  Then its log is the old one merged with
    the entries: it keeps what has the same terms, and from the first difference
    on has the entries of the request; what was there is rolled back from the
    end down, the commit indexes with it, and what is new is given to the state
    machine in order; entries it had already, in a request that came late or
    twice, change nothing.  The answer asks for the entry after the last one.
    If it declines, log and commit index stay, and the answer tells its end.
    [k] is where in the log the entries go: a request from below a compacted
    log is not covered. *)
Theorem append_entries_merges (e : env) (s : server) (req : req_msg) (first : Z)
    (ds es : list entry_data) (k : nat) :
  append_ready e s first ds req es →
  (accepts e first ds s req = true →
   rq_last_log_idx req + 1 = first + Z.of_nat k ∧ (k ≤ length ds)%nat) →
  ∃ s' o resp, handle_append_entries req e s = Ok (Some resp, s', o) ∧
    rs_accepted resp = accepts e first ds s req ∧ rs_term resp = get_term s ∧
    get_term s' = get_term s ∧ role_ s' = follower ∧
    if accepts e first ds s req then
      rs_next_idx resp = rq_last_log_idx req + Z.of_nat (length es) + 1 ∧
      represents (junk_ e) (log_store_ s') first (merge_entries e_term k ds es) ∧
      quick_commit_index_ s' =
        rolled_index (truncates k ds es) (conflict first k ds es) (quick_commit_index_ s)
        `max` (rq_commit_idx req `min` (rq_last_log_idx req + Z.of_nat (length es))) ∧
      sm_commit_index_ s' =
        rolled_index (truncates k ds es) (conflict first k ds es) (sm_commit_index_ s) ∧
      log_effects o = merge_effects first k ds es
    else
      rs_next_idx resp = first + Z.of_nat (length ds) ∧ log_store_ s' = log_store_ s ∧
      quick_commit_index_ s' = quick_commit_index_ s ∧ sm_commit_index_ s' = sm_commit_index_ s ∧
      log_effects o = [].
Proof.
  intros Hrdy Hk. destruct (accepts e first ds s req) eqn:Hacc.
  - destruct (Hk eq_refl) as [Hk1 Hk2].
    destruct (append_accepted_run e req es s first ds k) as (l & s' & o & resp & Hrun & Ha & Hn & Ht & Hl & Hv & Ho);
      [done..|].
    injection Hv as Hl' Hq Hc _ Hr Ht' _ _ _.
    exists s', o, resp. split_and!; try done; [by rewrite Hr; apply (ar_role _ _ _ _ _ _ Hrdy)|by rewrite Hl'].
  - destruct (append_declined_run e req es s first ds) as (s' & o & resp & Hrun & Ha & Hn & Ht & _ & Hv & Ho & _);
      [done..|].
    injection Hv as Hl' Hq Hc _ Hr Ht' _ _ _.
    exists s', o, resp. split_and!; try done. by rewrite Hr; apply (ar_role _ _ _ _ _ _ Hrdy).
Qed.

(** ** Matching logs *)

(** C8: a follower that accepts entries a leader cut from its log [L] keeps the
    logs matching, which is what makes two servers with the same entry agree on
    all before it.  Then its log, with what it compacted, has the leader's
    entries up to the last one sent: it is as it was, or it is now the beginning
    of [L]; whatever log matched both matches it still; and no entry that the
    two had in common is lost, so that what a majority has is not undone. *)
Theorem append_entries_keep_matching (e : env) (s : server) (req : req_msg) (first : Z)
    (ds es : list entry_data) (pre L : list (Z * log_val_type * list byte)) :
  append_ready e s first ds req es → accepts e first ds s req = true →
  Z.of_nat (length pre) = first - 1 → first - 1 ≤ rq_last_log_idx req →
  let F := pre ++ (core <$> ds) in
  let n := (Z.to_nat (rq_last_log_idx req) + length es)%nat in
  snapshots_of e s F → cut_from L req es → matching core_term F L →
  ∃ s' o resp ds', handle_append_entries req e s = Ok (Some resp, s', o) ∧ rs_accepted resp = true ∧
    represents (junk_ e) (log_store_ s') first ds' ∧
    let F' := pre ++ (core <$> ds') in
    take n F' = take n L ∧ (F' = F ∨ F' = take n L) ∧
    (∀ M, matching core_term F M → matching core_term L M → matching core_term F' M) ∧
    (∀ i, take i F = take i L → take i F' = take i F).
Proof.
  intros Hrdy Hacc Hpre Hlow F n Hsnp Hcut Hm. pose proof Hcut as [Hlen _].
  destruct (accepted_merge_run e s req first ds es pre L) as (s' & o & resp & ds' & Hrun & Ha & _ & _ & Hl & HF' & HkF & Heq);
    [done..|].
  exists s', o, resp, ds'. split; [done|]. split; [done|]. split; [done|]. intros F'. fold F' in HF'.
  destruct (merge_matching core_term (Z.to_nat (rq_last_log_idx req)) (length es) F L) as [[HF1 HF2]|[HF1 _]];
    [done..| |]; fold F in HF'; rewrite <- HF' in HF1; split_and!.
  - by rewrite HF1.
  - by left.
  - by rewrite HF1.
  - by rewrite HF1.
  - rewrite HF1, take_take. by rewrite Nat.min_id.
  - by right.
  - intros M HFM HLM. rewrite HF'. by apply merge_keeps_matching.
  - intros i Hi. rewrite HF'. by apply merge_keeps_common.
Qed.

(** ** Witnesses

    Server 2 has entries of terms 1, 1 and 2; a leader of term 3 sends, after the
    first, the second again and a third of its own. *)
Definition new_data : list entry_data := [sample_data 1 Byte.x02; sample_data 3 Byte.x07].
Definition leader_log : list (Z * log_val_type * list byte) :=
  core <$> [sample_data 1 Byte.x01; sample_data 1 Byte.x02; sample_data 3 Byte.x07].
Definition append_req : req_msg :=
  ReqMsg 3 append_entries_request 1 2 1 1 2 (to_entry <$> new_data).

Lemma a_follower_appends : append_ready an_env a_follower 1 sample_log append_req new_data.
Proof.
  split.
  - assert (log_store_ a_follower = sample_store) as -> by (by vm_compute). apply sample_store_rep.
  - by repeat constructor.
  - by vm_compute.
  - assert (state_ a_follower = new_srv_state) as -> by (by vm_compute). by split.
  - by vm_compute.
  - by vm_compute.
  - done.
  - repeat constructor; by apply to_entry_holds.
  - by repeat constructor.
  - done.
  - done.
Qed.

Example append_entries_merges_witness :
  accepts an_env 1 sample_log a_follower append_req = true ∧
  merge_entries e_term 1 sample_log new_data =
    [sample_data 1 Byte.x01; sample_data 1 Byte.x02; sample_data 3 Byte.x07] ∧
  (∃ s' o resp, handle_append_entries append_req an_env a_follower = Ok (Some resp, s', o) ∧
    rs_accepted resp = true ∧ rs_term resp = get_term a_follower ∧
    get_term s' = get_term a_follower ∧ role_ s' = follower ∧
    rs_next_idx resp = 4 ∧
    represents (junk_ an_env) (log_store_ s') 1 (merge_entries e_term 1 sample_log new_data) ∧
    quick_commit_index_ s' = 2 ∧ sm_commit_index_ s' = 0 ∧
    log_effects o = [SmRollback 3 (cursor [] (e_payload (sample_data 2 Byte.x03)));
       SmPreCommit 3 (cursor [] (e_payload (sample_data 3 Byte.x07)))]).
Proof.
  assert (accepts an_env 1 sample_log a_follower append_req = true) as Hacc by by vm_compute.
  split; [done|]. split; [by vm_compute|].
  destruct (append_entries_merges an_env a_follower append_req 1 sample_log new_data 1 a_follower_appends)
    as (s' & o & resp & Hrun & Ha & Ht & Ht' & Hr & H).
  { intros _. by split; [|simpl; lia]. }
  rewrite Hacc in Ha, H. destruct H as (Hn & Hl & Hq & Hc & Ho).
  exists s', o, resp. by split_and!.
Defined.

Example append_entries_keep_matching_witness :
  let F := [] ++ (core <$> sample_log) in
  accepts an_env 1 sample_log a_follower append_req = true ∧
  matching core_term F leader_log ∧ take 3 F ≠ take 3 leader_log ∧
  ∃ s' o resp ds', handle_append_entries append_req an_env a_follower = Ok (Some resp, s', o) ∧
    rs_accepted resp = true ∧ represents (junk_ an_env) (log_store_ s') 1 ds' ∧
    let F' := [] ++ (core <$> ds') in
    take 3 F' = take 3 leader_log ∧ (F' = F ∨ F' = take 3 leader_log) ∧
    (∀ M, matching core_term F M → matching core_term leader_log M → matching core_term F' M) ∧
    (∀ i, take i F = take i leader_log → take i F' = take i F).
Proof.
  intros F. assert (accepts an_env 1 sample_log a_follower append_req = true) as Hacc by by vm_compute.
  assert (matching core_term F leader_log) as Hm.
  { intros [|[|[|i]]] a b; cbn; intros [= <-] [= <-]; done. }
  split; [done|]. split; [done|]. split; [done|].
  apply (append_entries_keep_matching an_env a_follower append_req 1 sample_log new_data [] leader_log
           a_follower_appends Hacc); [done|done| | |done].
  - intros snp [Hs|Hs]; [|done].
    assert (last_snapshot_ a_follower = None) as Hn by by vm_compute. by rewrite Hn in Hs.
  - split; [cbn; lia|]. split; [done|]. by right.
Defined.

(** ** A leader and a follower find where their logs agree *)
(** The exchange: a request of the leader [s] for its peer [p], what the
    follower [t] answers, and, when it declines, what the leader makes of it. *)
Fixpoint probe (el ef : env) (p : positive) (rounds : nat) (s t : server) :
    outcome (server * server * req_msg * resp_msg) :=
  match rounds with
  | O => Fault OutOfFuel
  | S rounds =>
      '(req, s, _) ← create_append_entries_req p el s;
      req ← or_ub NullPointer req;
      '(resp, t, _) ← handle_append_entries req ef t;
      resp ← or_ub NullPointer resp;
      if rs_accepted resp then Ok (s, t, req, resp)
      else
        '(_, s, _) ← declined_append p resp el s;
        probe el ef p rounds s t
  end.

(** A follower whose log, whole from index 1 on, is [ds]. *)
Record receives_at (e : env) (t : server) (ds : list entry_data) : Prop := {
  rv_log : represents (junk_ e) (log_store_ t) 1 ds;
  rv_configs : configs_readable ds;
  rv_role : role_ t = follower;
  rv_state : srv_state_ok (state_ t);
  rv_running : stopping_ t = false;
  rv_serial : parallel_log_appending_ (params_ t) = false;
  rv_callback : cb_func_ e GotAppendEntryReqFromLeader (-1) = CbOk;
  rv_snapshots : snapshots_of e t (core <$> ds)
}.

Lemma receives_view e t t' ds :
  receives_at e t ds → log_view t' = log_view t → srv_state_ok (state_ t') → receives_at e t' ds.
Proof.
  intros [] [= Hl _ _ _ Hr _ Hsn Hst Hp] Hs.
  split; try done; [by rewrite Hl|congruence..|]. unfold snapshots_of. by rewrite Hsn.
Qed.

(** The entries of a leader's log are good to store. *)
Lemma prefix_entries_ok junk l L es k :
  represents junk l 1 L → es `prefix_of` drop k L →
  Forall2 entry_holds (to_entry <$> es) es ∧ Forall payload_ok es.
Proof.
  intros Hr Hpre. assert (Forall payload_ok es) as Hok.
  { pose proof (rep_payloads _ _ _ _ Hr) as Hp. apply (Forall_drop _ k) in Hp.
    destruct Hpre as [l' Heq]. rewrite Heq in Hp. by apply Forall_app in Hp as [? _]. }
  split; [|done]. clear Hpre. induction Hok as [|d es' Hd _ IH]; [constructor|].
  constructor; [by apply to_entry_holds, payload_ok_fits|done].
Qed.

Section probing.
Context (el ef : env) (p : positive) (L ds : list entry_data).
Hypothesis Hmatch : matching core_term (core <$> ds) (core <$> L).

(** One request and its answer. *)
Lemma probe_round s t pr :
  sends_from el p s L pr → 1 ≤ next_log_idx_ pr ≤ Z.of_nat (length L) + 1 →
  receives_at ef t ds → get_term t ≤ get_term s →
  ∃ req resp pr' t' o,
    create_append_entries_req p el s = Ok (Some req, with_peer_at p pr' s, []) ∧
    handle_append_entries req ef t = Ok (Some resp, t', o) ∧ same_progress pr pr' ∧
    if rs_accepted resp then
      let n := (Z.to_nat (rq_last_log_idx req) + length (rq_log_entries req))%nat in
      (n ≤ length L)%nat ∧ rs_next_idx resp = Z.of_nat n + 1 ∧
      ∃ ds', represents (junk_ ef) (log_store_ t') 1 ds' ∧ take n (core <$> ds') = take n (core <$> L) ∧
        (core <$> ds' = core <$> ds ∨ core <$> ds' = take n (core <$> L))
    else
      1 < next_log_idx_ pr ∧ rs_ctx resp = None ∧ 0 < rs_next_idx resp ∧
      receives_at ef t' ds ∧ get_term t' = get_term t.
Proof.
  intros Hs Hx Ht Hterm. pose proof (sf_length _ _ _ _ _ Hs).
  destruct (request_run el p s L pr Hs Hx) as
    (req & pr' & es & Hreq & Hsame & Hrt & _ & _ & _ & Hidx & Hent & Hpre & Hcut).
  destruct (prefix_entries_ok _ _ _ _ _ (sf_log _ _ _ _ _ Hs) Hpre) as [Hles Hok].
  pose proof Hcut as (Hn & _ & _). rewrite Hidx, length_fmap in Hn.
  assert (append_ready ef t 1 ds req es) as Hrdy.
  { destruct Ht. split; try done; [by rewrite Hent|lia|lia]. }
  destruct (accepts ef 1 ds t req) eqn:Hacc.
  - destruct (accepted_merge_run ef t req 1 ds es [] (core <$> L)) as
      (t' & o & resp & ds' & Hrun & Ha & Hnext & _ & Hl & Hm & Hk & Heq); try done; [apply Ht|lia|].
    exists req, resp, pr', t', o. split; [done|]. split; [done|]. split; [done|]. rewrite Ha.
    rewrite Hent, length_fmap, Hnext, Hidx in *. split; [lia|]. split; [lia|]. exists ds'. split; [done|].
    cbn [app] in *. destruct (merge_matching core_term (Z.to_nat (next_log_idx_ pr - 1)) (length es)
      (core <$> ds) (core <$> L)) as [[H1 H2]|[H1 _]]; [done|done|done|rewrite length_fmap; lia|..];
      rewrite <- Hm in H1; rewrite H1.
    + split; [done|by left].
    + rewrite take_take, Nat.min_id. split; [done|by right].
  - destruct (append_declined_run ef req es t 1 ds) as (t' & o & resp & Hrun & Ha & Hnext & Hrt' & Hc & Hv & _ & Hst);
      [done..|].
    exists req, resp, pr', t', o. split; [done|]. split; [done|]. split; [done|]. rewrite Ha, Hnext.
    split_and!; [|done|lia|by apply (receives_view _ t)|by injection Hv].
    destruct (decide (1 < next_log_idx_ pr)) as [|Hle]; [done|]. exfalso.
    unfold accepts in Hacc. rewrite bool_decide_true in Hacc by lia. unfold append_log_okay in Hacc.
    rewrite bool_decide_true in Hacc by lia. done.
Qed.
End probing.

(** C9: a leader and a follower find where their logs agree.  Whatever the
    leader takes for the follower's next entry, after fewer requests than that
    index one is accepted: each answer that declines moves the leader back, to
    the end of the follower's log or by one entry, and with nothing before the
    first entry a request is never declined.  Every answer comes, and the
    request that is accepted makes the follower's log agree with the leader's up
    to its last entry, which is the one before the index the answer asks for.
    Both have compacted nothing here. *)
Theorem probing_finds_agreement (el ef : env) (p : positive) (s t : server) (L ds : list entry_data) (pr : peer) :
  sends_from el p s L pr → 1 ≤ next_log_idx_ pr ≤ Z.of_nat (length L) + 1 →
  receives_at ef t ds → get_term t ≤ get_term s → matching core_term (core <$> ds) (core <$> L) →
  ∃ s' t' req resp ds', probe el ef p (Z.to_nat (next_log_idx_ pr)) s t = Ok (s', t', req, resp) ∧
    rs_accepted resp = true ∧ represents (junk_ ef) (log_store_ t') 1 ds' ∧
    let n := (Z.to_nat (rq_last_log_idx req) + length (rq_log_entries req))%nat in
    (n ≤ length L)%nat ∧ rs_next_idx resp = Z.of_nat n + 1 ∧ take n (core <$> ds') = take n (core <$> L) ∧
    (core <$> ds' = core <$> ds ∨ core <$> ds' = take n (core <$> L)).
Proof.
  intros Hs Hx Ht Hterm Hm. remember (Z.to_nat (next_log_idx_ pr)) as rounds eqn:Hr.
  assert (Z.to_nat (next_log_idx_ pr) ≤ rounds)%nat as Hle by lia. clear Hr.
  revert s t pr Hs Hx Ht Hterm Hle. induction rounds as [|rounds IH]; intros s t pr Hs Hx Ht Hterm Hle; [lia|].
  destruct (probe_round el ef p L ds Hm s t pr Hs Hx Ht Hterm) as
    (req & resp & pr' & t' & o & Hreq & Hrun & [Hp1 Hp2] & H).
  cbn [probe]. rewrite Hreq. ok_bind. cbn [or_ub]. ok_bind. rewrite Hrun. ok_bind. cbn [or_ub]. ok_bind.
  destruct (rs_accepted resp) eqn:Ha.
  - destruct H as (Hn & Hnext & ds' & Hl & Heq & Hor). by eexists _, t', req, resp, ds'.
  - destruct H as (Hgt & Hc & Hpos & Ht' & Hterm').
    assert (sends_from el p (with_peer_at p pr' s) L pr') as Hs' by by apply (with_peer_at_sends el p s L pr).
    destruct (declined_run el p _ L pr' resp Hs' Hc) as (pr2 & Hd & Hx2 & Hh2); [lia|done|].
    rewrite Hd. ok_bind. rewrite with_peer_at_idem. apply (IH _ t' pr2).
    + by apply (with_peer_at_sends el p s L pr); [|rewrite Hh2].
    + lia.
    + done.
    + rewrite Hterm'. done.
    + lia.
Qed.

(** ** Witness: server 1 leads, and takes server 2 for up to date. *)
Definition leader_data : list entry_data := [sample_data 1 Byte.x01; sample_data 1 Byte.x02; sample_data 3 Byte.x07].
Definition leader_store : log_store :=
  LogStore (<[0 := Some (to_entry (dummy_entry (λ _, Byte.x00)))]> (index_map 1 leader_data)) 1 0 ∅ 0.
Definition a_leader : server :=
  match Clusters.start Clusters.voters 1 with
  | Ok s => s <| state_mgr_ ::= (λ m, m <| cur_log_store_ := leader_store |>) |>
              <| precommit_index_ := 3 |>
              <| peer_heap_ ::= fmap (λ pr, pr <| next_log_idx_ := 4 |>) |>
  | Fault _ => a_follower
  end.
Definition to_peer_2 : peer :=
  match peer_heap_ a_leader !! 1%positive with Some pr => pr | None => new_peer 0 default_params None (new_srv_config 2 "b:2") end.

Lemma a_leader_sends : sends_from an_env 1 a_leader leader_data to_peer_2.
Proof.
  split; try by vm_compute.
  assert (log_store_ a_leader = leader_store) as -> by (by vm_compute).
  split; [done|done|done|done|]. by repeat constructor.
Qed.

Lemma a_follower_receives : receives_at an_env a_follower sample_log.
Proof.
  split.
  - assert (log_store_ a_follower = sample_store) as -> by (by vm_compute). apply sample_store_rep.
  - by repeat constructor.
  - by vm_compute.
  - assert (state_ a_follower = new_srv_state) as -> by (by vm_compute). by split.
  - by vm_compute.
  - by vm_compute.
  - done.
  - intros snp [Hs|Hs]; [|done].
    assert (last_snapshot_ a_follower = None) as Hn by by vm_compute. by rewrite Hn in Hs.
Qed.

Example probing_finds_agreement_witness :
  rs_accepted <$> (match create_append_entries_req 1 an_env a_leader with
                   | Ok (Some req, _, _) =>
                       match handle_append_entries req an_env a_follower with
                       | Ok (resp, _, _) => resp
                       | Fault _ => None
                       end
                   | _ => None
                   end) = Some false ∧
  ∃ s' t' req resp ds', probe an_env an_env 1 4 a_leader a_follower = Ok (s', t', req, resp) ∧
    rs_accepted resp = true ∧ represents (junk_ an_env) (log_store_ t') 1 ds' ∧
    let n := (Z.to_nat (rq_last_log_idx req) + length (rq_log_entries req))%nat in
    (n ≤ 3)%nat ∧ rs_next_idx resp = Z.of_nat n + 1 ∧
    take n (core <$> ds') = take n (core <$> leader_data) ∧
    (core <$> ds' = core <$> sample_log ∨ core <$> ds' = take n (core <$> leader_data)).
Proof.
  split; [by vm_compute|].
  assert (next_log_idx_ to_peer_2 = 4) as Hx by by vm_compute.
  pose proof (probing_finds_agreement an_env an_env 1 a_leader a_follower leader_data sample_log to_peer_2
    a_leader_sends) as H.
  rewrite Hx in H. apply H; [done|exact a_follower_receives|by vm_compute|].
  intros [|[|[|i]]] a b; cbn; intros [= <-] [= <-]; done.
Defined.
