(* ===== verification/RaftLogNet.v ===== *)
(** * The logs of a cluster

    Servers that store entries, send them and receive them, with the requests on
    their way, and the log matching property over a whole run.  The steps that
    change a log or send a part of it are the functions of the code:
    [store_log_entry] of a leader (with which it appends the entries of clients
    and its configuration), [create_append_entries_req] of a leader, the only one
    to send entries, and [handle_append_entries].  Everything else that servers do is one step about
    which only this is supposed: it leaves the log alone, makes no term smaller,
    and makes a server a leader only in a term that none has led, which is what
    RaftElectionThms shows of elections.  Requests may be lost, delivered twice
    and in any order.  The logs are whole: none is compacted, and none is
    replaced by a snapshot. *)
From S2P Require Import Prelude Bytes Buffer BufferSpec BufferSerializer Wire RaftTypes.
From S2P Require Import LogEntry LogStore LogStoreSpec LogStoreOps LogMerge SrvState StateMgr.
From S2P Require Import RaftParams RaftMsg Peer RaftServer RaftRoles RaftReplicate RaftAppend RaftRun.
From S2P Require Import RaftAppendSpec RaftAppendRun RaftRequestSpec LogStoreThms RaftNet RaftCommitThms.
From S2P Require Import RaftAppendThms.
Local Open Scope Z_scope.

(** ** The cluster *)

(** [led] tells who has led a term. *)
Record log_net := LogNet { servers : gmap Z server; requests : list req_msg; led : gmap Z Z }.

Section network.
(** What fresh memory holds. *)
Context (junk : nat → byte).

Inductive log_step (n : log_net) : log_net → Prop :=
  | log_other i s s' :
      servers n !! i = Some s → log_store_ s' = log_store_ s → get_term s ≤ get_term s' →
      (role_ s' = leader → role_ s = leader ∧ get_term s' = get_term s) →
      log_step n (LogNet (<[i := s']> (servers n)) (requests n) (led n))
  | log_elected i s s' :
      servers n !! i = Some s → log_store_ s' = log_store_ s → get_term s ≤ get_term s' →
      led n !! get_term s' = None →
      log_step n (LogNet (<[i := s']> (servers n)) (requests n) (<[get_term s' := i]> (led n)))
  | log_stored i s e entry d idx s' o :
      servers n !! i = Some s → junk_ e = junk → role_ s = leader →
      entry_holds entry d → payload_ok d → e_term d = get_term s → get_next_slot s + 1 < 2 ^ 64 →
      store_log_entry entry 0 e s = Ok (idx, s', o) →
      log_step n (LogNet (<[i := s']> (servers n)) (requests n) (led n))
  | log_sent i s e p pr req s' o L :
      servers n !! i = Some s → junk_ e = junk → role_ s = leader →
      sends_from e p s L pr → 1 ≤ next_log_idx_ pr ≤ Z.of_nat (length L) + 1 →
      create_append_entries_req p e s = Ok (Some req, s', o) →
      log_step n (LogNet (<[i := s']> (servers n)) (req :: requests n) (led n))
  | log_received i s e req resp s' o ds :
      servers n !! i = Some s → junk_ e = junk → req ∈ requests n → receives_at e s ds →
      handle_append_entries req e s = Ok (resp, s', o) →
      log_step n (LogNet (<[i := s']> (servers n)) (requests n) (led n))
  | log_lost req reqs :
      requests n ≡ₚ req :: reqs → log_step n (LogNet (servers n) reqs (led n)).

(** The cluster before the first entry. *)
Definition log_start (n : log_net) : Prop :=
  requests n = [] ∧ led n = ∅ ∧
  map_Forall (λ _ s, represents junk (log_store_ s) 1 [] ∧ role_ s ≠ leader) (servers n).

(** ** The logs of the leaders *)
#[local] Abbreviation log := (list (Z * log_val_type * list byte)).
Implicit Types (L : gmap Z log) (F M : log).

(** Each entry of a log is there because the leader of its term had it, and all
    that is before it. *)
Definition from_leaders L F : Prop :=
  ∀ k c, F !! k = Some c → ∃ Lt, L !! core_term c = Some Lt ∧ take (S k) F = take (S k) Lt.

Lemma from_leaders_matching L F M : from_leaders L F → from_leaders L M → matching core_term F M.
Proof.
  intros HF HM k a b Ha Hb Ht. destruct (HF k a Ha) as (Lt & HLt & ->).
  destruct (HM k b Hb) as (Lt' & HLt' & ->). rewrite Ht, HLt' in HLt. by injection HLt as ->.
Qed.

Lemma from_leaders_take L F n : from_leaders L F → from_leaders L (take n F).
Proof.
  intros HF k c Hk. apply lookup_take_Some in Hk as [Hk Hn].
  rewrite take_take, Nat.min_l by lia. by apply HF.
Qed.

(** The logs of the leaders only grow. *)
Definition grows L L' : Prop := ∀ t Lt, L !! t = Some Lt → ∃ Lt', L' !! t = Some Lt' ∧ Lt `prefix_of` Lt'.

Lemma take_prefix {A} (l l' : list A) n : l `prefix_of` l' → (n ≤ length l)%nat → take n l' = take n l.
Proof. intros [l'' ->] Hn. by rewrite take_app_le. Qed.

Lemma from_leaders_grows L L' F : grows L L' → from_leaders L F → from_leaders L' F.
Proof.
  intros Hg HF k c Hk. destruct (HF k c Hk) as (Lt & HLt & Heq). destruct (Hg _ _ HLt) as (Lt' & HLt' & Hpre).
  exists Lt'. split; [done|]. rewrite Heq. symmetry. apply take_prefix; [done|].
  apply lookup_lt_Some in Hk. assert (length (take (S k) F) = S k) as Hl by (rewrite length_take; lia).
  rewrite Heq, length_take in Hl. lia.
Qed.

Lemma cut_from_grows Lt Lt' req es : Lt `prefix_of` Lt' → cut_from Lt req es → cut_from Lt' req es.
Proof.
  intros Hpre (Hn & Hes & Hlast). destruct Hpre as [M ->]. split; [rewrite length_app; lia|]. split.
  - rewrite drop_app_le, take_app_le; [done|rewrite length_drop; lia|lia].
  - destruct Hlast as [?|Hl]; [by left|right].
    destruct (Lt !! Nat.pred (Z.to_nat (rq_last_log_idx req))) as [c|] eqn:Hc; [|done].
    by rewrite (lookup_app_l_Some _ _ _ _ Hc).
Qed.

(** ** The invariant *)
Definition server_logs L (n : log_net) (i : Z) (s : server) : Prop :=
  ∃ ds, represents junk (log_store_ s) 1 ds ∧ from_leaders L (core <$> ds) ∧
    (role_ s = leader → L !! get_term s = Some (core <$> ds) ∧ led n !! get_term s = Some i).

Definition cut_request L (req : req_msg) : Prop :=
  ∃ Lt es, L !! rq_term req = Some Lt ∧ cut_from Lt req es ∧ rq_log_entries req = to_entry <$> es ∧
    Forall payload_ok es ∧ 0 ≤ rq_last_log_idx req ∧ rq_last_log_idx req + Z.of_nat (length es) + 1 < 2 ^ 64.

Record logs_ok (n : log_net) (L : gmap Z log) : Prop := {
  lo_servers : map_Forall (server_logs L n) (servers n);
  lo_leaders : map_Forall (λ _ Lt, from_leaders L Lt) L;
  lo_led : dom L = dom (led n);
  lo_requests : Forall (cut_request L) (requests n)
}.

Lemma cut_request_grows L L' req : grows L L' → cut_request L req → cut_request L' req.
Proof.
  intros Hg (Lt & es & HLt & Hcut & Hrest). destruct (Hg _ _ HLt) as (Lt' & HLt' & Hpre).
  exists Lt', es. split; [done|]. split; [by eapply cut_from_grows|done].
Qed.

(** A log store represents one log. *)
Lemma cursor_inj (p p' : list byte) : fits p → fits p' → cursor [] p = cursor [] p' → p = p'.
Proof.
  intros Hp Hp' Heq. pose proof (cursor_size [] p Hp) as Hs. rewrite Heq, (cursor_size [] p' Hp') in Hs.
  injection Hs as Hs. cbn [app] in Hs.
  pose proof (cursor_load (Z.of_nat (length p)) [] p []) as Hl.
  pose proof (cursor_load (Z.of_nat (length p)) [] p' []) as Hl'. rewrite !app_nil_r in *.
  rewrite Heq, (Hl' Hp') in Hl by lia. by injection (Hl Hp eq_refl).
Qed.

Lemma represents_core l ds ds' :
  represents junk l 1 ds → represents junk l 1 ds' → core <$> ds = core <$> ds'.
Proof.
  intros Hr Hr'. apply list_eq. intros k. rewrite !list_lookup_fmap.
  pose proof (rep_lookup _ _ _ _ (1 + Z.of_nat k) Hr ltac:(lia)) as H.
  rewrite (rep_lookup _ _ _ _ (1 + Z.of_nat k) Hr' ltac:(lia)), !log_lookup_nat in H.
  destruct (ds !! k) as [d|] eqn:Hd, (ds' !! k) as [d'|] eqn:Hd'; try done. cbn in *.
  injection H as Ht Hty Hc _ _ _. unfold core. rewrite Ht, Hty. do 2 f_equal. symmetry.
  apply cursor_inj; [..|done]; apply payload_ok_fits.
  - pose proof (rep_payloads _ _ _ _ Hr') as Hf. by eapply Forall_lookup_1.
  - pose proof (rep_payloads _ _ _ _ Hr) as Hf. by eapply Forall_lookup_1.
Qed.

(** What a leader stores goes to the end of its log. *)
Lemma leader_stores e entry d ds s idx s' o :
  junk_ e = junk → represents junk (log_store_ s) 1 ds → entry_holds entry d → payload_ok d →
  get_next_slot s + 1 < 2 ^ 64 → store_log_entry entry 0 e s = Ok (idx, s', o) →
  represents junk (log_store_ s') 1 (ds ++ [d]) ∧ role_ s' = role_ s ∧ get_term s' = get_term s.
Proof.
  intros <- Hr Hle Hd Hroom. unfold get_next_slot in Hroom. rewrite (rep_next_slot _ _ _ _ Hr) in Hroom.
  unfold store_log_entry. run_steps. rewrite decide_True by done.
  destruct (append_rep (junk_ e) (now_ e) entry d (log_store_ s) 1 ds) as (l' & Hw & Hr'); [done..|].
  rewrite Hw. run_steps. unfold set_log_store. run_steps.
  assert (represents (junk_ e) (flush l') 1 (ds ++ [d])) as Hf by by apply (represents_with_durable (junk_ e)).
  unfold try_update_precommit_index, when. repeat (case_bool_decide; run_steps; unfold when; run_steps).
  all: intros Heq; injection Heq as _ <- _; by split.
Qed.
(** ** The steps keep the invariant *)
Lemma server_logs_kept L L' n n' i s :
  grows L L' → (∀ t, led n !! t = Some i → L' !! t = L !! t ∧ led n' !! t = Some i) →
  server_logs L n i s → server_logs L' n' i s.
Proof.
  intros Hg Ht (ds & Hr & Hf & Hl). exists ds. split; [done|]. split; [by eapply from_leaders_grows|].
  intros Hrole. destruct (Hl Hrole) as [HL Hled]. destruct (Ht _ Hled) as [-> ->]. by split.
Qed.

Lemma server_logs_same L n n' i s : led n' = led n → server_logs L n i s → server_logs L n' i s.
Proof. intros Hl (ds & Hr & Hf & Hd). exists ds. by rewrite Hl. Qed.

Lemma grows_refl L : grows L L.
Proof. intros t Lt Ht. by exists Lt. Qed.

Lemma grows_insert L t M : (∀ Lt, L !! t = Some Lt → Lt `prefix_of` M) → grows L (<[t := M]> L).
Proof.
  intros HM t' Lt Ht. destruct (decide (t' = t)) as [->|Hne].
  - exists M. by rewrite lookup_insert_eq; split; [|apply HM].
  - exists Lt. by rewrite lookup_insert_ne.
Qed.

(** A change of one server that leaves the leaders' logs. *)
Lemma ok_server n L i s' :
  logs_ok n L → server_logs L n i s' → logs_ok (LogNet (<[i := s']> (servers n)) (requests n) (led n)) L.
Proof.
  intros [Hs Hl Hd Hr] Hs'. split; [|done..].
  apply map_Forall_insert_2; [by apply (server_logs_same L n)|].
  by apply (map_Forall_impl _ _ _ Hs); intros j sj; apply server_logs_same.
Qed.

(** A server with the log of a term that no other leads. *)
Lemma ok_leads n L i s' ds t m :
  logs_ok n L → represents junk (log_store_ s') 1 ds → t = get_term s' →
  from_leaders (<[t := core <$> ds]> L) (core <$> ds) →
  (∀ Lt, L !! t = Some Lt → Lt `prefix_of` core <$> ds) → (∀ j, led n !! t = Some j → j = i) →
  m = <[t := i]> (led n) →
  logs_ok (LogNet (<[i := s']> (servers n)) (requests n) m) (<[t := core <$> ds]> L).
Proof.
  intros [Hs Hl Hd Hr] Hrep -> Hf Hpre Hled ->. set (L' := <[_ := _]> L) in *. set (t := get_term s') in *.
  assert (grows L L') as Hg by by apply grows_insert.
  split.
  - cbn. intros j sj [[<- <-]|[Hne Hj]]%lookup_insert_Some.
    + exists ds. split; [done|]. split; [done|]. intros _. cbn. unfold L'. by rewrite !lookup_insert_eq.
    + apply (server_logs_kept L L' n); [done| |by apply Hs]. intros t' Ht'. cbn. unfold L'.
      destruct (decide (t' = t)) as [->|Hnt]; [by apply Hled in Ht'; congruence|].
      by rewrite !lookup_insert_ne by done.
  - apply map_Forall_insert_2; [done|]. apply (map_Forall_impl _ _ _ Hl). intros t' Lt. by apply from_leaders_grows.
  - cbn. unfold L'. rewrite !dom_insert_L. by rewrite Hd.
  - cbn. apply (Forall_impl _ _ _ Hr). intros req. by apply cut_request_grows.
Qed.

Lemma from_leaders_insert L t F :
  (∀ Lt, L !! t = Some Lt → Lt `prefix_of` F) → from_leaders L F → from_leaders (<[t := F]> L) F.
Proof. intros HL. apply from_leaders_grows. by apply grows_insert. Qed.

(** The log of a leader with one more entry of its term. *)
Lemma from_leaders_snoc L t F c :
  core_term c = t → L !! t = Some F → from_leaders L F → from_leaders (<[t := F ++ [c]]> L) (F ++ [c]).
Proof.
  intros Hc HL HF k c' Hk. assert (grows L (<[t := F ++ [c]]> L)) as Hg.
  { apply grows_insert. rewrite HL. intros ? [= <-]. by exists [c]. }
  apply lookup_app_Some in Hk as [Hk|[Hlen Hk]].
  - destruct (from_leaders_grows _ _ _ Hg HF k c' Hk) as (Lt & HLt & Heq). exists Lt. split; [done|].
    rewrite <- Heq. apply take_app_le. apply lookup_lt_Some in Hk. lia.
  - apply list_lookup_singleton_Some in Hk as [_ <-]. exists (F ++ [c]). rewrite Hc. by rewrite lookup_insert_eq.
Qed.

Lemma elected_ok n L i s s' :
  logs_ok n L → servers n !! i = Some s → log_store_ s' = log_store_ s → led n !! get_term s' = None →
  ∃ L', logs_ok (LogNet (<[i := s']> (servers n)) (requests n) (<[get_term s' := i]> (led n))) L'.
Proof.
  intros Hok Hi Hl Hled. destruct (lo_servers _ _ Hok _ _ Hi) as (ds & Hr & Hf & _).
  assert (L !! get_term s' = None) as HL.
  { apply not_elem_of_dom. rewrite (lo_led _ _ Hok). by apply not_elem_of_dom. }
  exists (<[get_term s' := core <$> ds]> L). apply (ok_leads n L i s' ds); try done.
  - by rewrite Hl.
  - apply from_leaders_insert; [|done]. by rewrite HL.
  - by rewrite HL.
  - by rewrite Hled.
Qed.

Lemma store_ok n L i s e entry d idx s' o :
  logs_ok n L → servers n !! i = Some s → junk_ e = junk → role_ s = leader →
  entry_holds entry d → payload_ok d → e_term d = get_term s → get_next_slot s + 1 < 2 ^ 64 →
  store_log_entry entry 0 e s = Ok (idx, s', o) →
  ∃ L', logs_ok (LogNet (<[i := s']> (servers n)) (requests n) (led n)) L'.
Proof.
  intros Hok Hi He Hrole Hle Hd Ht Hroom Hrun. destruct (lo_servers _ _ Hok _ _ Hi) as (ds & Hr & Hf & Hl).
  destruct (Hl Hrole) as [HL Hled].
  destruct (leader_stores e entry d ds s idx s' o) as (Hr' & Hrole' & Ht'); [done..|].
  exists (<[get_term s := core <$> (ds ++ [d])]> L). rewrite <- (insert_id _ _ _ Hled) at 1.
  apply (ok_leads n L i s' (ds ++ [d])); try done.
  - rewrite fmap_app. by apply from_leaders_snoc.
  - rewrite HL, fmap_app. intros ? [= <-]. by eexists.
  - rewrite Hled. by intros j [= ->].
Qed.

Lemma send_ok n L i s e p pr req s' o ds :
  logs_ok n L → servers n !! i = Some s → junk_ e = junk → role_ s = leader →
  sends_from e p s ds pr → 1 ≤ next_log_idx_ pr ≤ Z.of_nat (length ds) + 1 →
  create_append_entries_req p e s = Ok (Some req, s', o) →
  logs_ok (LogNet (<[i := s']> (servers n)) (req :: requests n) (led n)) L.
Proof.
  intros Hok Hi He Hrole Hs Hx Hrun. destruct (lo_servers _ _ Hok _ _ Hi) as (ds' & Hr & Hf & Hl).
  destruct (Hl Hrole) as [HL Hled]. pose proof (sf_log _ _ _ _ _ Hs) as Hr'. rewrite He in Hr'.
  pose proof (sf_length _ _ _ _ _ Hs).
  destruct (request_run e p s ds pr Hs Hx) as
    (req' & pr' & es & Hreq & _ & Hrt & _ & _ & _ & Hidx & Hent & Hpre & Hcut).
  rewrite Hreq in Hrun. injection Hrun as <- <- _.
  destruct (prefix_entries_ok _ _ _ _ _ Hr' Hpre) as [_ Hpay].
  assert (logs_ok (LogNet (<[i := with_peer_at p pr' s]> (servers n)) (requests n) (led n)) L) as [Hs' Hl' Hd' Hq'].
  { apply ok_server; [done|]. by exists ds'. }
  split; [|done|done|]. { apply (map_Forall_impl _ _ _ Hs'). intros j sj. by apply server_logs_same. }
  constructor; [|done]. rewrite (represents_core _ _ _ Hr Hr') in HL.
  exists (core <$> ds), es. rewrite Hrt. split; [done|]. split; [done|]. split; [done|]. split; [done|].
  destruct Hcut as (Hn & _). rewrite length_fmap in Hn. lia.
Qed.

Lemma receive_ok n L i s e req resp s' o ds :
  logs_ok n L → servers n !! i = Some s → junk_ e = junk → req ∈ requests n → receives_at e s ds →
  handle_append_entries req e s = Ok (resp, s', o) →
  logs_ok (LogNet (<[i := s']> (servers n)) (requests n) (led n)) L.
Proof.
  intros Hok Hi He Hin Ht Hrun. destruct (lo_servers _ _ Hok _ _ Hi) as (ds' & Hr & Hf & _).
  pose proof (rv_log _ _ _ Ht) as Hr'. rewrite He in Hr'. rewrite (represents_core _ _ _ Hr Hr') in Hf.
  pose proof (lo_requests _ _ Hok) as Hreqs. eapply Forall_forall in Hreqs as
    (Lt & es & HLt & Hcut & Hent & Hpay & Hidx & Hroom); [|done].
  assert (append_ready e s 1 ds req es) as Hrdy.
  { destruct Ht. split; try done. rewrite Hent. clear -Hpay. induction Hpay as [|d es Hd _ IH]; [constructor|].
    constructor; [by apply to_entry_holds, payload_ok_fits|done]. }
  apply ok_server; [done|]. destruct (accepts e 1 ds s req) eqn:Hacc.
  - pose proof (lo_leaders _ _ Hok _ _ HLt) as HfL.
    assert (matching core_term (core <$> ds) Lt) as Hm by by apply (from_leaders_matching L).
    destruct (accepted_merge_run e s req 1 ds es [] Lt) as
      (t' & o' & resp' & ds2 & Hrun' & _ & _ & Hrole & Hl & HF' & Hk & Heq); try done; [apply Ht|].
    rewrite Hrun' in Hrun. injection Hrun as _ <- _. rewrite He in Hl. exists ds2. split; [done|].
    split; [|by rewrite Hrole, (rv_role _ _ _ Ht)]. cbn [app] in *. pose proof Hcut as [Hlen _].
    destruct (merge_matching core_term (Z.to_nat (rq_last_log_idx req)) (length es)
      (core <$> ds) Lt) as [[H1 _]|[H1 _]]; [done..| |]; rewrite <- HF' in H1; rewrite H1; [done|].
    by apply from_leaders_take.
  - destruct (append_declined_run e req es s 1 ds) as (t' & o' & resp' & Hrun' & _ & _ & _ & _ & Hv & _ & _);
      [done..|].
    rewrite Hrun' in Hrun. injection Hrun as _ <- _. injection Hv as Hl _ _ _ Hrole _ _ _ _.
    exists ds. rewrite Hl. split; [done|]. split; [done|]. by rewrite Hrole, (rv_role _ _ _ Ht).
Qed.

Lemma step_ok n n' L : logs_ok n L → log_step n n' → ∃ L', logs_ok n' L'.
Proof.
  intros Hok [i s s' Hi Hl _ Hrole|i s s' Hi Hl _ Hled| | | |req reqs Hp].
  - exists L. apply ok_server; [done|]. destruct (lo_servers _ _ Hok _ _ Hi) as (ds & Hr & Hf & Hd).
    exists ds. rewrite Hl. split; [done|]. split; [done|]. intros [? ->]%Hrole. by apply Hd.
  - by eapply elected_ok.
  - by eapply store_ok.
  - exists L. by eapply send_ok.
  - exists L. by eapply receive_ok.
  - exists L. destruct Hok as [Hs Hl Hd Hr]. split; [|done|done|].
    + apply (map_Forall_impl _ _ _ Hs). intros j sj. by apply server_logs_same.
    + rewrite Hp in Hr. by apply Forall_cons in Hr as [_ ?].
Qed.

Lemma log_start_ok n : log_start n → logs_ok n ∅.
Proof.
  intros (Hr & Hd & Hs). split; [|apply map_Forall_empty|by rewrite Hd, !dom_empty_L|by rewrite Hr].
  apply (map_Forall_impl _ _ _ Hs). intros i s [Hrep Hrole]. exists []. split; [done|]. by split.
Qed.

Lemma run_ok n n' L : logs_ok n L → rtc log_step n n' → ∃ L', logs_ok n' L'.
Proof.
  intros Hok Hrun. revert L Hok. induction Hrun as [|n1 n2 n3 Hstep _ IH]; intros L Hok; [by exists L|].
  destruct (step_ok n1 n2 L) as [L' Hok']; [done..|]. by eapply IH.
Qed.
End network.

(** C6: over a whole run of a cluster, in which leaders store entries and cut
    requests from their logs, and followers get these late, twice, out of order
    or not at all, and leaders lose their role, are elected again and go on with
    the logs they have, the logs of any two servers match: an entry with the same
    term at the same index makes them the same up to it, in term, type and
    payload.  A term is led by one server, whose log only grows; each entry of a
    log came there with all that was before it in the log of its term's leader. *)
Theorem logs_match (junk : nat → byte) (n n' : log_net) (i j : Z) (s t : server) :
  log_start junk n → rtc (log_step junk) n n' → servers n' !! i = Some s → servers n' !! j = Some t →
  ∃ F M, represents junk (log_store_ s) 1 F ∧ represents junk (log_store_ t) 1 M ∧
    matching core_term (core <$> F) (core <$> M).
Proof.
  intros Hstart Hrun Hi Hj. destruct (run_ok junk n n' ∅ (log_start_ok junk n Hstart) Hrun) as [L Hok].
  destruct (lo_servers _ _ _ Hok _ _ Hi) as (F & HF & HfF & _).
  destruct (lo_servers _ _ _ Hok _ _ Hj) as (M & HM & HfM & _).
  exists F, M. split; [done|]. split; [done|]. by apply (from_leaders_matching L).
Qed.

(** ** Witness: server 1 leads, stores an entry and sends it to server 2. *)
Module SampleRun.
Definition fresh (i : Z) : server := match Clusters.start Clusters.voters i with Ok s => s | Fault _ => a_follower end.
Definition elected : server :=
  fresh 1 <| role_ := leader |> <| state_ := SrvState 1 1 true None |>
    <| peer_heap_ ::= fmap (λ pr, pr <| next_log_idx_ := 1 |>) |>.
Definition stored : server :=
  match store_log_entry (to_entry (sample_data 1 Byte.x01)) 0 an_env elected with Ok (_, s, _) => s | Fault _ => elected end.
Definition ready : server := stored <| precommit_index_ := 1 |>.
Definition to_peer (s : server) : peer :=
  match peer_heap_ s !! 1%positive with Some pr => pr | None => new_peer 0 default_params None (new_srv_config 2 "b:2") end.
Definition sent : server * req_msg :=
  match create_append_entries_req 1 an_env ready with Ok (Some req, s, _) => (s, req) | _ => (ready, append_req) end.
Definition got : server :=
  match handle_append_entries sent.2 an_env (fresh 2) with Ok (_, s, _) => s | Fault _ => fresh 2 end.

Lemma ready_sends : sends_from an_env 1 ready [sample_data 1 Byte.x01] (to_peer ready).
Proof.
  split; try by vm_compute.
  assert (log_store_ ready = LogStore (<[0 := Some (to_entry (dummy_entry (λ _, Byte.x00)))]>
    (index_map 1 [sample_data 1 Byte.x01])) 1 0 ∅ 0) as -> by by vm_compute.
  split; [done|done|done|done|by repeat constructor].
Qed.

Lemma fresh_empty i : i = 1 ∨ i = 2 → represents (λ _, Byte.x00) (log_store_ (fresh i)) 1 [].
Proof.
  intros Hi. assert (log_store_ (fresh i) = LogStore (<[0 := Some (to_entry (dummy_entry (λ _, Byte.x00)))]> ∅) 1 0 ∅ 0)
    as -> by by destruct Hi as [-> | ->]; vm_compute.
  by split.
Qed.

Lemma fresh_receives : receives_at an_env (fresh 2) [].
Proof.
  split.
  - apply fresh_empty. by right.
  - by constructor.
  - by vm_compute.
  - assert (state_ (fresh 2) = new_srv_state) as -> by (by vm_compute). by split.
  - by vm_compute.
  - by vm_compute.
  - done.
  - intros snp [Hs|Hs]; [|done]. assert (last_snapshot_ (fresh 2) = None) as Hn by by vm_compute. by rewrite Hn in Hs.
Qed.

(** The run, one state after the other. *)
Definition net_of (s t : server) (reqs : list req_msg) (l : gmap Z Z) : log_net := LogNet {[1 := s; 2 := t]} reqs l.


Section run.
Context (s s' t t' : server) (reqs reqs' : list req_msg) (l l' : gmap Z Z).
Lemma at_1 : servers (net_of s t reqs l) !! 1 = Some s.
Proof. apply lookup_insert_eq. Qed.
Lemma at_2 : servers (net_of s t reqs l) !! 2 = Some t.
Proof. unfold net_of. cbn [servers]. rewrite lookup_insert_ne by done. apply lookup_insert_eq. Qed.
Lemma put_1 : LogNet (<[1 := s']> (servers (net_of s t reqs l))) reqs' l' = net_of s' t reqs' l'.
Proof. unfold net_of. cbn [servers]. by rewrite insert_insert_eq. Qed.
Lemma put_2 : LogNet (<[2 := t']> (servers (net_of s t reqs l))) reqs' l' = net_of s t' reqs' l'.
Proof. unfold net_of. cbn [servers]. rewrite insert_insert_ne by done. by rewrite insert_singleton_eq. Qed.
Lemma step_1 :
  log_step (λ _, Byte.x00) (net_of s t reqs l) (LogNet (<[1 := s']> (servers (net_of s t reqs l))) reqs' l') →
  log_step (λ _, Byte.x00) (net_of s t reqs l) (net_of s' t reqs' l').
Proof. by rewrite put_1. Qed.
Lemma step_2 :
  log_step (λ _, Byte.x00) (net_of s t reqs l) (LogNet (<[2 := t']> (servers (net_of s t reqs l))) reqs' l') →
  log_step (λ _, Byte.x00) (net_of s t reqs l) (net_of s t' reqs' l').
Proof. by rewrite put_2. Qed.
End run.

#[local] Opaque fresh elected stored ready sent got.
#[local] Abbreviation step := (log_step (λ _, Byte.x00)).

Lemma step_elected : step (net_of (fresh 1) (fresh 2) [] ∅) (net_of elected (fresh 2) [] {[1 := 1]}).
Proof.
  apply (step_1 (fresh 1) elected (fresh 2) [] [] ∅).
  refine (log_elected (λ _, Byte.x00) (net_of (fresh 1) (fresh 2) [] ∅) 1 (fresh 1) elected _ _ _ _); [apply at_1|by vm_compute..].
Qed.

Lemma step_stored : step (net_of elected (fresh 2) [] {[1 := 1]}) (net_of stored (fresh 2) [] {[1 := 1]}).
Proof.
  apply step_1.
  refine (log_stored (λ _, Byte.x00) (net_of elected (fresh 2) [] {[1 := 1]}) 1 elected an_env (to_entry (sample_data 1 Byte.x01))
    (sample_data 1 Byte.x01) 1 stored [] _ _ _ _ _ _ _ _); [apply at_1|done|by vm_compute|by apply to_entry_holds|by vm_compute..].
Qed.

Lemma step_ready : step (net_of stored (fresh 2) [] {[1 := 1]}) (net_of ready (fresh 2) [] {[1 := 1]}).
Proof.
  apply step_1.
  refine (log_other (λ _, Byte.x00) (net_of stored (fresh 2) [] {[1 := 1]}) 1 stored ready _ _ _ _); [apply at_1|by vm_compute..].
Qed.

Lemma step_sent : step (net_of ready (fresh 2) [] {[1 := 1]}) (net_of sent.1 (fresh 2) [sent.2] {[1 := 1]}).
Proof.
  apply step_1.
  refine (log_sent (λ _, Byte.x00) (net_of ready (fresh 2) [] {[1 := 1]}) 1 ready an_env 1 (to_peer ready) sent.2 sent.1 []
    [sample_data 1 Byte.x01] _ _ _ _ _ _);
    [apply at_1|done|by vm_compute|exact ready_sends|by vm_compute|by vm_compute].
Qed.

Lemma step_received : step (net_of sent.1 (fresh 2) [sent.2] {[1 := 1]}) (net_of sent.1 got [sent.2] {[1 := 1]}).
Proof.
  apply step_2.
  assert (∃ resp o, handle_append_entries sent.2 an_env (fresh 2) = Ok (resp, got, o)) as (resp & o & Ha).
  { eexists _, _. by vm_compute. }
  refine (log_received (λ _, Byte.x00) (net_of sent.1 (fresh 2) [sent.2] {[1 := 1]}) 2 (fresh 2) an_env sent.2 resp got o [] _ _ _ _ _);
    [apply at_2|done|by left|exact fresh_receives|exact Ha].
Qed.

Lemma starts : log_start (λ _, Byte.x00) (net_of (fresh 1) (fresh 2) [] ∅).
Proof.
  split; [done|]. split; [done|].
  cbn [net_of servers]. intros i s [[<- <-]|[_ [<- <-]%lookup_singleton_Some]]%lookup_insert_Some.
  - split; [apply fresh_empty; by left|by vm_compute].
  - split; [apply fresh_empty; by right|by vm_compute].
Qed.

End SampleRun.
Import SampleRun.

Example logs_match_witness :
  map_size (logs_ (log_store_ sent.1)) = 2 ∧ map_size (logs_ (log_store_ got)) = 2 ∧
  ∃ F M, represents (λ _, Byte.x00) (log_store_ sent.1) 1 F ∧ represents (λ _, Byte.x00) (log_store_ got) 1 M ∧
    matching core_term (core <$> F) (core <$> M).
Proof.
  split; [by vm_compute|]. split; [by vm_compute|].
  apply (logs_match _ (net_of (fresh 1) (fresh 2) [] ∅) (net_of sent.1 got [sent.2] {[1 := 1]}) 1 2); [exact starts| | |].
  - eapply rtc_l; [exact step_elected|]. eapply rtc_l; [exact step_stored|]. eapply rtc_l; [exact step_ready|].
    eapply rtc_l; [exact step_sent|]. apply rtc_once, step_received.
  - apply at_1.
  - apply at_2.
Defined.
