(* ===== verification/Server.v ===== *)
(** * The server process

    src/server.cc, src/network_manager.cc, src/request_dispatcher.cc,
    src/request_handler.cc, src/raft/raft_manager.cc and the reading of the
    configuration, src/cache/cache_config.cc, src/client/client_config.cc.
    What the third-party libraries give is an argument: the INI reader, the
    chunks a socket read returns, the flatbuffers accessors and builder. *)
From S2P Require Import Prelude Bytes CacheTypes RaftTypes LogStore SrvState StateMgr RaftParams.
From S2P Require Import RaftMsg Peer RaftServer RaftDispatch.
From stdpp Require Import pretty.
Local Open Scope Z_scope.

(** ** cache_config::from_file, client_config::from_file

    [INIReader::Get<T>(section, name)] throws where the value is missing. *)
Module Config.
Section reader.
Context (Get_string : string → string → outcome string).
Context (Get_ushort Get_size_t : string → string → outcome Z).

Definition from_file : outcome cache_config :=
  host ← Get_string "server" "host";
  port ← Get_ushort "server" "port";
  discovery_address ← Get_string "cluster" "discovery_address";
  discovery_port ← Get_ushort "cluster" "discovery_port";
  fallback_address ← Get_string "cluster" "fallback_address";
  fallback_port ← Get_ushort "cluster" "fallback_port";
  cache_size ← Get_size_t "cache" "cache_size";
  max_item_size ← Get_size_t "cache" "max_item_size";
  max_key_size ← Get_size_t "cache" "max_key_size";
  purge_interval ← Get_ushort "cache" "purge_interval";
  raft_host ← Get_string "raft" "raft_host";
  raft_port ← Get_ushort "raft" "raft_port";
  heart_beat_interval ← Get_size_t "raft" "heart_beat_interval";
  election_timeout_lower_bound ← Get_size_t "raft" "election_timeout_lower_bound";
  election_timeout_upper_bound ← Get_size_t "raft" "election_timeout_upper_bound";
  reserved_log_items ← Get_size_t "raft" "reserved_log_items";
  snapshot_distance ← Get_size_t "raft" "snapshot_distance";
  client_req_timeout ← Get_size_t "raft" "client_req_timeout";
  Ok (CacheConfig host port discovery_address discovery_port fallback_address fallback_port
        cache_size max_item_size max_key_size purge_interval raft_host raft_port
        (i32 heart_beat_interval) (i32 election_timeout_lower_bound) (i32 election_timeout_upper_bound)
        (i32 reserved_log_items) (i32 snapshot_distance) (i32 client_req_timeout)).

Record client_config := ClientConfig {
  c_discovery_address : string;
  c_discovery_port : Z;
  c_fallback_address : string;
  c_fallback_port : Z
}.
Definition client_from_file : outcome client_config :=
  discovery_address ← Get_string "cluster" "discovery_address";
  discovery_port ← Get_ushort "cluster" "discovery_port";
  fallback_address ← Get_string "cluster" "fallback_address";
  fallback_port ← Get_ushort "cluster" "fallback_port";
  Ok (ClientConfig discovery_address discovery_port fallback_address fallback_port).
End reader.
End Config.

(** ** request_dispatcher

    [handler_func] changes a builder; a request is known by the type of its
    content, an 8-bit enumerator. *)
Module Dispatcher.
Section dispatcher.
Context {Request Builder : Type} (content_type : Request → Z).
Definition handler_func : Type := Request → Builder → outcome Builder.

Record request_dispatcher := RequestDispatcher {
  handlers_ : gmap Z handler_func;
  default_handler_ : handler_func
}.

Definition new_dispatcher (handler : handler_func) : request_dispatcher := RequestDispatcher ∅ handler.

(** [unordered_map::insert] keeps a handler that is there. *)
Definition register_handler (type : Z) (handler : handler_func) (d : request_dispatcher) :
    request_dispatcher :=
  match handlers_ d !! type with
  | Some _ => d
  | None => RequestDispatcher (<[type := handler]> (handlers_ d)) (default_handler_ d)
  end.

Definition dispatch (d : request_dispatcher) (request : Request) (b : Builder) : outcome Builder :=
  match handlers_ d !! content_type request with
  | None => default_handler_ d request b
  | Some h => h request b
  end.
End dispatcher.
Arguments request_dispatcher : clear implicits.
Arguments handler_func : clear implicits.
End Dispatcher.

(** ** network_manager::handle_connection *)
Module Network.
Definition CHUNK_SIZE : Z := 1024.

(** [std::vector<uint8_t>::max_size()] *)
Definition max_size : Z := 2 ^ 63 - 1.

(** [data.resize(n)], [n] converted to [size_t]. *)
Definition resize (n : Z) (data : list byte) : outcome (list byte) :=
  if decide (max_size < u64 n) then throw (length_error "vector::_M_default_append")
  else
    let n := Z.to_nat (u64 n) in
    Ok (take n data ++ replicate (n - length data) Byte.x00).

Section connection.
Context {W : Type} (dispatch : list byte → W → outcome W).

(** The inner loop: [expected] is negative while no length was read; the data
    cannot be shorter than a length it was just resized to. *)
Fixpoint process (fuel : nat) (expected : Z) (data : list byte) (w : W) :
    outcome (Z * list byte * W) :=
  if decide (8 ≤ Z.of_nat (length data) ∨ 0 ≤ expected) then
    match fuel with
    | O => Fault OutOfFuel
    | S fuel =>
        '(expected, data) ←
          (if decide (expected < 0) then
             let expected := wrap_s 64 (bytes_word (take 8 data)) in
             data ← resize expected (drop 8 data); Ok (expected, data)
           else Ok (expected, data));
        if decide (Z.of_nat (length data) < u64 expected) then Ok (expected, data, w)
        else
          w ← dispatch data w;
          process fuel (-1) (drop (Z.to_nat expected) data) w
    end
  else Ok (expected, data, w).

(** The outer loop over what the reads return, [None] being an error.  The
    comparison binds tighter than the assignment: [n] is whether something was
    read, so that one byte of each chunk is taken. *)
Fixpoint read_loop (reads : list (option (list byte))) (expected : Z) (data : list byte) (w : W) :
    outcome W :=
  match reads with
  | [] | None :: _ => Ok w
  | Some buf :: reads =>
      let n := Z.b2z (bool_decide (Z.of_nat (length buf) > 0)) in
      if decide (n = 0) then Ok w
      else
        let data := data ++ take (Z.to_nat n) buf in
        '(expected, data, w) ← process (S (length data)) expected data w;
        read_loop reads expected data w
  end.

(** [timeout_ok]: whether the read timeout could be set. *)
Definition handle_connection (timeout_ok : bool) (reads : list (option (list byte))) (w : W) : outcome W :=
  if timeout_ok then read_loop reads (-1) [] w else Ok w.
End connection.
End Network.

(** ** request_handler

    The flatbuffers builder: what [request_handler] calls on it. *)
Module Handler.
Section builder.
Context {Request Builder Offset : Type}.
Context (CreateString : string → Builder → Offset * Builder).
Context (CreateGeolocation : Z → Z → Builder → Offset * Builder).
Context (CreateEndpoint : Offset → Z → bool → Offset → Builder → Offset * Builder).
Context (CreateVector : list Offset → Builder → Offset * Builder).
Context (CreateDiscoveryResponse : Offset → Builder → Offset * Builder).
Context (CreateResponse : Z → Offset → Builder → Offset * Builder).
Context (Finish : Offset → Builder → Builder).

Definition ResponseContent_DiscoveryResponse : Z := 1.

Definition handle_unregistered_request (request : Request) (b : Builder) : outcome Builder := Ok b.

(** The loop over the configurations.  Latitude and longitude are 0. *)
Fixpoint create_endpoints (leader_id : Z) (configs : list srv_config) (b : Builder) : Builder :=
  match configs with
  | [] => b
  | entry :: configs =>
      let '(host, b) := CreateString "TODO"%string b in
      let is_leader := bool_decide (RaftTypes.id_ entry = leader_id) in
      let '(geolocation, b) := CreateGeolocation 0 0 b in
      let '(_, b) := CreateEndpoint host 0 is_leader geolocation b in
      create_endpoints leader_id configs b
  end.

(** [raft_->instance()] is the server [s]. *)
Definition handle_discovery_request (s : server) (request : Request) (b : Builder) : outcome Builder :=
  let leader_id := leader_ s in
  let configs := servers_ (RaftServer.config_ s) in
  let endpoints_vecotr := [] in
  let b := create_endpoints leader_id configs b in
  let '(endpoints, b) := CreateVector endpoints_vecotr b in
  let '(content, b) := CreateDiscoveryResponse endpoints b in
  let '(response, b) := CreateResponse ResponseContent_DiscoveryResponse content b in
  Ok (Finish response b).
End builder.
End Handler.

(** ** raft_manager *)
Module Manager.
Definition ASIO_THREAD_POOL_SIZE : Z := 8.
Definition ASYNC_SNAPSHOT_CREATION : bool := true.

Definition raft_endpoint (c : cache_config) : string :=
  (raft_host c +:+ ":" +:+ pretty (raft_port c))%string.

Definition raft_params_of (c : cache_config) : raft_params :=
  default_params
    <| heart_beat_interval_ := heart_beat_interval c |>
    <| election_timeout_lower_bound_ := election_timeout_lower_bound c |>
    <| election_timeout_upper_bound_ := election_timeout_upper_bound c |>
    <| reserved_log_items_ := reserved_log_items c |>
    <| snapshot_distance_ := snapshot_distance c |>
    <| client_req_timeout_ := client_req_timeout c |>
    <| return_method_ := async_handler |>.

(** [raft_launcher::init] gives a null pointer when the port cannot be listened
    on; else a server that was constructed and started. *)
Definition launch (listener : bool) (params : raft_params) (commit_index : Z)
    (snp : option snapshot) (e : env) (mgr : state_mgr) : outcome (option (server * list effect)) :=
  if listener then
    '(_, s, o) ← (construct ;; start_server false) e (init_server (now_ e) commit_index mgr params snp false);
    Ok (Some (s, o))
  else Ok None.

(** [last_commit_index()] and [last_snapshot()] of the state machine are
    arguments: [cache_state_machine] does not define them. *)
Definition raft_manager (config : cache_config) (server_id : Z) (listener : bool) (commit_index : Z)
    (snp : option snapshot) (e : env) : outcome (server * list effect) :=
  state_mgr ← new_state_mgr (junk_ e) server_id (raft_endpoint config);
  instance ← launch listener (raft_params_of config) commit_index snp e state_mgr;
  match instance with
  | Some i => Ok i
  | None => throw (runtime_error "Failed to initialize raft server")
  end.
End Manager.

(** ** server *)
Module Process.
Section server.
Context {Request Builder Offset : Type} (content_type : Request → Z) (GetRequest : list byte → Request).
Context (new_builder : Builder).
Context (handle_discovery_request : Request → Builder → outcome Builder).

Definition RequestContent_DiscoveryRequest : Z := 1.

(** The constructor, and [register_handlers]. *)
Definition new_server_dispatcher : Dispatcher.request_dispatcher Request Builder :=
  Dispatcher.register_handler RequestContent_DiscoveryRequest handle_discovery_request
    (Dispatcher.new_dispatcher Handler.handle_unregistered_request).

(** One request of [handle_connection]: the response is built and dropped; here
    it is added to those built before. *)
Definition handle_request (data : list byte) (built : list Builder) : outcome (list Builder) :=
  b ← Dispatcher.dispatch content_type new_server_dispatcher (GetRequest data) new_builder;
  Ok (built ++ [b]).

Definition serve (timeout_ok : bool) (reads : list (option (list byte))) : outcome (list Builder) :=
  Network.handle_connection handle_request timeout_ok reads [].
End server.
End Process.
