(* ===== verification/ServerThms.v ===== *)
(** * Theorems about the server process

    What a connection makes of what it reads, which handler a request gets and
    what is answered. *)
From S2P Require Import Prelude Bytes CacheTypes RaftTypes LogStore SrvState StateMgr RaftParams.
From S2P Require Import RaftMsg Peer RaftServer RaftDispatch Server.
Import Network.
Local Open Scope Z_scope.

(** The first bytes of the reads before the first that gives none. *)
Fixpoint heads (reads : list (option (list byte))) : list byte :=
  match reads with
  | Some (b :: _) :: reads => b :: heads reads
  | _ => []
  end.

Section connection.
Context {W : Type} (dispatch : list byte → W → outcome W).

(** Each eight bytes are a length, and a request of that many zeros. *)
Fixpoint zero_requests (gs : list (list byte)) (w : W) : outcome W :=
  match gs with
  | [] => Ok w
  | g :: gs =>
      let n := wrap_s 64 (bytes_word g) in
      if decide (n < 0) then throw (length_error "vector::_M_default_append")
      else w ← dispatch (replicate (Z.to_nat n) Byte.x00) w; zero_requests gs w
  end.

Lemma process_short fuel data w :
  (length data < 8)%nat → process dispatch fuel (-1) data w = Ok (-1, data, w).
Proof. intros Hd. destruct fuel; cbn [process]; (rewrite decide_False by lia; done). Qed.

Lemma process_length fuel data w :
  length data = 8%nat → (2 ≤ fuel)%nat →
  process dispatch fuel (-1) data w =
    let n := wrap_s 64 (bytes_word data) in
    if decide (n < 0) then throw (length_error "vector::_M_default_append")
    else w ← dispatch (replicate (Z.to_nat n) Byte.x00) w; Ok (-1, [], w).
Proof.
  intros Hd Hf. destruct fuel as [|fuel]; [lia|]. cbn [process]. rewrite decide_True by lia.
  rewrite (decide_True (P := -1 < 0)) by lia. rewrite take_ge, drop_ge by lia.
  set (n := wrap_s 64 (bytes_word data)).
  assert (- 2 ^ 63 ≤ n < 2 ^ 63) as Hn by exact (wrap_s_range 64 (bytes_word data) eq_refl).
  unfold resize, max_size. case_decide as Hneg; case_decide as Hlt; try done.
  - rewrite wrap_u_id in Hneg by range. lia.
  - exfalso. apply Hneg. unfold wrap_u. rewrite <- (Z_mod_plus_full n 1), Z.mod_small by lia. lia.
  - assert (u64 n = n) as Hu by (apply wrap_u_id; range). ok_bind. rewrite Hu. cbn [length]. rewrite take_nil, Nat.sub_0_r.
    cbn [app]. rewrite length_replicate, decide_False by lia.
    destruct (dispatch _ w) as [w'|]; [|done]. ok_bind.
    rewrite drop_ge by (rewrite length_replicate; lia). apply process_short. cbn. lia.
Qed.

Lemma read_loop_zero reads gs rest data w :
  Forall (λ g, length g = 8%nat) gs → (length rest < 8)%nat → (length data < 8)%nat →
  data ++ heads reads = concat gs ++ rest →
  read_loop dispatch reads (-1) data w = zero_requests gs w.
Proof.
  intros Hgs Hrest. revert gs data w Hgs. induction reads as [|r reads IH]; intros gs data w Hgs Hd Heq.
  - cbn in Heq. destruct Hgs as [|g gs Hg _]; [done|]. exfalso.
    apply (f_equal length) in Heq. cbn [concat] in Heq. rewrite !length_app in Heq. cbn in Heq. lia.
  - assert (∀ r', heads (r' :: reads) = [] → data ++ heads (r' :: reads) = concat gs ++ rest → gs = []) as Hnil.
    { intros r' Hr' Heq'. destruct gs as [|g gs]; [done|]. apply Forall_cons_1 in Hgs as [Hg _]. exfalso.
      rewrite Hr' in Heq'. apply (f_equal length) in Heq'. cbn [concat] in Heq'.
      rewrite !length_app in Heq'. cbn in Heq'. lia. }
    destruct r as [[|b buf]|]; cbn [read_loop]; [by rewrite (Hnil (Some []) eq_refl Heq)| |by rewrite (Hnil None eq_refl Heq)].
    rewrite (bool_decide_true (Z.of_nat (length (b :: buf)) > 0)) by (cbn [length]; lia).
    cbn [Z.b2z]. rewrite decide_False by lia. change (take (Z.to_nat 1) (b :: buf)) with [b].
    cbn [heads] in Heq. change (b :: heads reads) with ([b] ++ heads reads) in Heq. rewrite (assoc_L (++)) in Heq.
    assert (length (data ++ [b]) = S (length data)) as Hlen by (rewrite length_app; cbn; lia).
    destruct (decide (length data = 7%nat)) as [H7|H7].
    + rewrite process_length by lia. destruct gs as [|g gs].
      { exfalso. apply (f_equal length) in Heq. rewrite length_app in Heq. cbn in Heq. lia. }
      apply Forall_cons_1 in Hgs as [Hg Hgs]. cbn [concat] in Heq. rewrite <- (assoc_L (++) g) in Heq.
      apply app_inj_1 in Heq as [<- Heq]; [|lia]. cbn [zero_requests].
      case_decide; [done|]. destruct (dispatch _ w) as [w'|]; [|done]. ok_bind. ok_bind. apply IH; [done|cbn; lia|done].
    + rewrite process_short by lia. ok_bind. apply IH; [done|lia|done].
Qed.
End connection.

Lemma zero_requests_ext {W : Type} (f f' : list byte → W → outcome W) gs w :
  (∀ data w, f data w = f' data w) → zero_requests f gs w = zero_requests f' gs w.
Proof.
  intros Hf. revert w. induction gs as [|g gs IH]; intros w; [done|]. cbn [zero_requests].
  case_decide; [done|]. rewrite Hf. destruct (f' _ w) as [w'|]; [|done]. ok_bind. apply IH.
Qed.

(** The dispatcher of the server. *)
Lemma handle_request_cases {Request Builder : Type} (content_type : Request → Z)
    (GetRequest : list byte → Request) (new_builder : Builder)
    (discovery : Request → Builder → outcome Builder) data built :
  Process.handle_request content_type GetRequest new_builder discovery data built =
    (b ← (if decide (content_type (GetRequest data) = 1) then discovery (GetRequest data) new_builder
          else Ok new_builder);
     Ok (built ++ [b])).
Proof.
  unfold Process.handle_request, Dispatcher.dispatch, Process.new_server_dispatcher, Dispatcher.register_handler.
  cbn [Dispatcher.new_dispatcher Dispatcher.handlers_ Dispatcher.default_handler_].
  rewrite lookup_empty. cbn [Dispatcher.handlers_ Dispatcher.default_handler_].
  unfold Process.RequestContent_DiscoveryRequest. case_decide as Hty.
  - by rewrite Hty, lookup_insert_eq.
  - by rewrite lookup_insert_ne, lookup_empty.
Qed.

(** C33: what a client sends never reaches a handler.  Of each chunk that a read
    returns, a connection takes the first byte; eight of these are a length, and
    as soon as they are there a request is dispatched, of that many bytes, all
    zero, to the handler of discovery requests if that is what these bytes say,
    and else to the one that answers nothing.  A negative length ends the
    connection with an exception. *)
Theorem connection_dispatches_zeros {Request Builder : Type} (content_type : Request → Z)
    (GetRequest : list byte → Request) (new_builder : Builder)
    (discovery : Request → Builder → outcome Builder) (reads : list (option (list byte)))
    (gs : list (list byte)) (rest : list byte) :
  Forall (λ g, length g = 8%nat) gs → (length rest < 8)%nat → heads reads = concat gs ++ rest →
  Process.serve content_type GetRequest new_builder discovery true reads =
  zero_requests (λ data built,
    b ← (if decide (content_type (GetRequest data) = 1) then discovery (GetRequest data) new_builder
         else Ok new_builder);
    Ok (built ++ [b])) gs [].
Proof.
  intros Hgs Hrest Heq. unfold Process.serve, handle_connection.
  rewrite (read_loop_zero _ reads gs rest) by (done || simpl; lia).
  apply zero_requests_ext. intros data built. apply handle_request_cases.
Qed.

(** ** Witness: sixteen reads, of two lengths, and a part of a third. *)
Definition sample_reads : list (option (list byte)) :=
  (λ b, Some [b; Byte.x41; Byte.x42]) <$>
  [Byte.x03; Byte.x00; Byte.x00; Byte.x00; Byte.x00; Byte.x00; Byte.x00; Byte.x00;
   Byte.x01; Byte.x00; Byte.x00; Byte.x00; Byte.x00; Byte.x00; Byte.x00; Byte.x00; Byte.x09].

Example connection_dispatches_zeros_witness :
  let answers := Process.serve (λ data, Z.of_nat (length data)) (λ data, data) [Byte.x41]
                   (λ data b, Ok (b ++ data)) true sample_reads in
  answers = Ok [[Byte.x41]; [Byte.x41; Byte.x00]].
Proof.
  intros answers. unfold answers.
  rewrite (connection_dispatches_zeros _ _ _ _ sample_reads
    [word_bytes 8 3; word_bytes 8 1] [Byte.x09]); [by vm_compute|by repeat constructor|cbn; lia|done].
Defined.
