(* ===== verification/Async.v ===== *)
(** * Waiting for results: EventAwaiter, cmd_result, delayed_task

    include/libnuraft/event_awaiter.hxx, async.hxx and delayed_task.hxx.  The
    methods of [EventAwaiter] and [cmd_result] are run by several threads: each
    is cut where another thread can come in between, into the parts that are
    atomic, be it by an atomic variable or by a mutex, and a program counter says
    which part a thread is at. *)
From S2P Require Import Prelude RaftMsg.
Local Open Scope Z_scope.

(** ** EventAwaiter *)
Module Awaiter.

Inductive AS := idle | ready | waiting | done.
#[export] Instance AS_eq_dec : EqDecision AS.
Proof. solve_decision. Defined.

(** Where a thread is.  [wait_us] first tries to go from [idle] to [ready], takes
    the lock, tries to go to [waiting], sleeps on the condition variable, which
    gives the lock back, and needs the lock to go on; [invoke] first tries to go
    from [idle] to [done], takes the lock, and tries to go from [ready] to
    [done] or else notifies; [reset] is one store. *)
Inductive pc :=
  | WaitStart | WaitLock | WaitCheck | Asleep | Notified | WaitFinish
  | InvokeStart | InvokeLock | InvokeCheck
  | ResetStart
  | Returned.
#[export] Instance pc_eq_dec : EqDecision pc.
Proof. solve_decision. Defined.

(** [holder] is the thread that has [cvLock]. *)
Record awaiter := Awaiter { status : AS; holder : option nat; threads : list pc }.
#[export] Instance awaiter_rebuild : Rebuild awaiter := λ s, Awaiter (status s) (holder s) (threads s).

Definition new_awaiter (ts : list pc) : awaiter := Awaiter idle None ts.

Definition goto (i : nat) (p : pc) (s : awaiter) : awaiter := s <| threads := <[i := p]> (threads s) |>.

(** [cv.notify_all()] *)
Definition notify_all (s : awaiter) : awaiter :=
  s <| threads := (λ p, if decide (p = Asleep) then Notified else p) <$> threads s |>.

(** [compare_exchange_strong] from [expected] to [desired]. *)
Definition cas (expected desired : AS) (s : awaiter) : bool * awaiter :=
  if decide (status s = expected) then (true, s <| status := desired |>) else (false, s).

Definition lock (i : nat) (s : awaiter) : option awaiter :=
  match holder s with None => Some (s <| holder := Some i |>) | Some _ => None end.
Definition unlock (s : awaiter) : awaiter := s <| holder := None |>.

(** The next part of thread [i], when it can run. *)
Definition run_part (i : nat) (s : awaiter) : option awaiter :=
  p ← threads s !! i;
  match p with
  | WaitStart =>
      let '(ok, s) := cas idle ready s in
      Some (goto i (if ok then WaitLock else Returned) s)
  | WaitLock => s ← lock i s; Some (goto i WaitCheck s)
  | WaitCheck =>
      let '(ok, s) := cas ready waiting s in
      Some (unlock (goto i (if ok then Asleep else Returned) s))
  | Asleep => None
  | Notified => s ← lock i s; Some (goto i WaitFinish s)
  | WaitFinish => Some (unlock (goto i Returned (s <| status := done |>)))
  | InvokeStart =>
      let '(ok, s) := cas idle done s in
      Some (goto i (if ok then Returned else InvokeLock) s)
  | InvokeLock => s ← lock i s; Some (goto i InvokeCheck s)
  | InvokeCheck =>
      let '(ok, s) := cas ready done s in
      Some (unlock (goto i Returned (if ok then s else notify_all s)))
  | ResetStart => Some (goto i Returned (s <| status := idle |>))
  | Returned => None
  end.

(** The timeout of [cv.wait_for], or a wake-up for no reason. *)
Definition wake (i : nat) (s : awaiter) : option awaiter :=
  if decide (threads s !! i = Some Asleep) then Some (goto i Notified s) else None.

Inductive step : awaiter → awaiter → Prop :=
  | step_part i s s' : run_part i s = Some s' → step s s'
  | step_wake i s s' : wake i s = Some s' → step s s'.

Definition reachable (ts : list pc) : awaiter → Prop := rtc step (new_awaiter ts).

(** A schedule: which threads run, one part each. *)
Fixpoint run_schedule (order : list nat) (s : awaiter) : option awaiter :=
  match order with [] => Some s | i :: order => s ← run_part i s; run_schedule order s end.
End Awaiter.

(** ** cmd_result

    [T] is the type of the result, [E] that of the exception; handlers are known
    by [H]. *)
Module CmdResult.
Section result.
Context {T E H : Type} (no_result : T) (no_error : E) `{EqDecision E}.

Record cmd_result := CmdResult {
  result_ : T;
  err_ : E;
  code_ : cmd_result_code;
  has_result_ : bool;
  accepted_ : bool;
  handler_ : option H;
  handler2_ : option H
}.
#[local] Instance cmd_result_rebuild : Rebuild cmd_result := λ r,
  CmdResult (result_ r) (err_ r) (code_ r) (has_result_ r) (accepted_ r) (handler_ r) (handler2_ r).

(** The constructors: of nothing, of a result, and of a handler, which says that
    it has a result. *)
Definition new_cmd_result : cmd_result := CmdResult no_result no_error OK false false None None.
Definition with_result (result : T) (accepted : bool) (code : cmd_result_code) : cmd_result :=
  CmdResult result no_error code true accepted None None.
Definition with_handler (handler : H) : cmd_result :=
  CmdResult no_result no_error OK true false (Some handler) None.

Definition reset (r : cmd_result) : cmd_result := new_cmd_result.
Definition accept (r : cmd_result) : cmd_result := r <| accepted_ := true |>.
Definition get_accepted (r : cmd_result) : bool := accepted_ r.
Definition set_result_code (ec : cmd_result_code) (r : cmd_result) : cmd_result := r <| code_ := ec |>.
Definition get_result_code (r : cmd_result) : cmd_result_code :=
  if has_result_ r then code_ r else RESULT_NOT_EXIST_YET.
Definition has_result (r : cmd_result) : bool := has_result_ r.

(** The text of the code; the map has no entry for one that is leaving. *)
Definition get_result_str (r : cmd_result) : string :=
  match get_result_code r with
  | OK => "Ok."
  | CANCELLED => "Request cancelled."
  | TIMEOUT => "Request timeout."
  | NOT_LEADER => "This node is not a leader."
  | BAD_REQUEST => "Invalid request."
  | SERVER_ALREADY_EXISTS => "Server already exists in the cluster."
  | CONFIG_CHANGING => "Previous configuration change has not been committed yet."
  | SERVER_IS_JOINING => "Other server is being added."
  | SERVER_NOT_FOUND => "Cannot find server."
  | CANNOT_REMOVE_LEADER => "Cannot remove leader."
  | TERM_MISMATCH => "The current term does not match the expected term."
  | RESULT_NOT_EXIST_YET => "Operation is in progress and the result does not exist yet."
  | FAILED => "Failed."
  | SERVER_IS_LEAVING => "Unknown (-10)."
  end%string.

(** What [get] returns once it has to wait no longer. *)
Definition value (r : cmd_result) : T := if decide (err_ r = no_error) then result_ r else no_result.

(** The part of [when_ready] under the lock, of either kind of handler: whether
    the handler is called at once. *)
Definition install (two : bool) (handler : H) (r : cmd_result) : bool * cmd_result :=
  if has_result_ r then (true, r)
  else (false, if two then r <| handler2_ := Some handler |> else r <| handler_ := Some handler |>).

(** The part of [set_result] under the lock: whether there is a handler. *)
Definition store_result (result : T) (err : E) (r : cmd_result) : bool * cmd_result :=
  let r := r <| result_ := result |> <| err_ := err |> <| has_result_ := true |> in
  (bool_decide (is_Some (handler_ r)) || bool_decide (is_Some (handler2_ r)), r).

(** The handler [set_result] calls. *)
Definition pick_handler (r : cmd_result) : option H :=
  match handler2_ r with Some h => Some h | None => handler_ r end.

(** *** The threads: one sets the result, one installs a handler, some get it *)
Inductive set_pc := SetCode | SetStore | SetCall | SetNotify | SetReturned.
Inductive ready_pc := ReadyInstall | ReadyCall | ReadyReturned.
Inductive get_pc := GetStart | GetAsleep | GetNotified | GetReturned (v : T).

Record waiters := Waiters {
  cell : cmd_result;
  setter : set_pc;
  installer : ready_pc;
  getters : list get_pc;
  calls : list (H * T * E)
}.
#[local] Instance waiters_rebuild : Rebuild waiters := λ s,
  Waiters (cell s) (setter s) (installer s) (getters s) (calls s).

(** The next part of [set_result(result, err, code)]. *)
Definition set_result_part (result : T) (err : E) (code : cmd_result_code) (s : waiters) : option waiters :=
  match setter s with
  | SetCode => Some (s <| cell ::= set_result_code code |> <| setter := SetStore |>)
  | SetStore =>
      let '(call_handler, r) := store_result result err (cell s) in
      Some (s <| cell := r |> <| setter := if call_handler then SetCall else SetNotify |>)
  | SetCall =>
      Some (s <| calls ::= (λ l, l ++ match pick_handler (cell s) with
                                      | Some h => [(h, result, err)]
                                      | None => []
                                      end) |> <| setter := SetNotify |>)
  | SetNotify =>
      Some (s <| getters ::= fmap (λ g, match g with GetAsleep => GetNotified | _ => g end) |>
              <| setter := SetReturned |>)
  | SetReturned => None
  end.

(** The next part of [when_ready(handler)]. *)
Definition when_ready_part (two : bool) (handler : H) (s : waiters) : option waiters :=
  match installer s with
  | ReadyInstall =>
      let '(call_handler, r) := install two handler (cell s) in
      Some (s <| cell := r |> <| installer := if call_handler then ReadyCall else ReadyReturned |>)
  | ReadyCall =>
      Some (s <| calls ::= (λ l, l ++ [(handler, result_ (cell s), err_ (cell s))]) |>
              <| installer := ReadyReturned |>)
  | ReadyReturned => None
  end.

(** The next part of the [i]-th [get()]; the condition variable is waited on
    once, whatever woke it. *)
Definition get_part (i : nat) (s : waiters) : option waiters :=
  g ← getters s !! i;
  match g with
  | GetStart =>
      Some (s <| getters ::= <[i := if has_result_ (cell s) then GetReturned (value (cell s)) else GetAsleep]> |>)
  | GetAsleep => None
  | GetNotified => Some (s <| getters ::= <[i := GetReturned (value (cell s))]> |>)
  | GetReturned _ => None
  end.

Definition start (n : nat) : waiters := Waiters new_cmd_result SetCode ReadyInstall (replicate n GetStart) [].

(** [cv_.wait] may wake up for no reason. *)
Definition spurious_wake (i : nat) (s : waiters) : option waiters :=
  match getters s !! i with
  | Some GetAsleep => Some (s <| getters ::= <[i := GetNotified]> |>)
  | _ => None
  end.

(** Any part of any thread, and a wait that wakes up for no reason: of the
    threads [woken] says. *)
Inductive step (result : T) (err : E) (code : cmd_result_code) (two : bool) (handler : H) (woken : nat → Prop) :
    waiters → waiters → Prop :=
  | step_set s s' : set_result_part result err code s = Some s' → step result err code two handler woken s s'
  | step_ready s s' : when_ready_part two handler s = Some s' → step result err code two handler woken s s'
  | step_get i s s' : get_part i s = Some s' → step result err code two handler woken s s'
  | step_spurious i s s' :
      woken i → spurious_wake i s = Some s' → step result err code two handler woken s s'.
End result.
End CmdResult.

(** ** delayed_task *)
Module DelayedTask.
Record delayed_task := DelayedTask { cancelled_ : bool; type_ : Z }.
Definition new_delayed_task (type : Z) : delayed_task := DelayedTask false type.
Definition cancel (t : delayed_task) : delayed_task := DelayedTask true (type_ t).
Definition reset (t : delayed_task) : delayed_task := DelayedTask false (type_ t).
Definition get_type (t : delayed_task) : Z := type_ t.
(** Whether [exec()] is run. *)
Definition execute (t : delayed_task) : bool := negb (cancelled_ t).
End DelayedTask.
