(* ===== verification/AsyncThms.v ===== *)
(** * Theorems about waiting

    No wake-up is lost, whatever the order of the threads. *)
From S2P Require Import Prelude RaftMsg Async.

Module AwaiterThms.
Import Awaiter.

(** The parts of [wait] and of [invoke]. *)
Definition waits (p : pc) : bool :=
  match p with InvokeStart | InvokeLock | InvokeCheck | ResetStart => false | _ => true end.
Definition invokes (p : pc) : bool :=
  match p with InvokeStart | InvokeLock | InvokeCheck | Returned => true | _ => false end.
(** Those of a [wait] in whose course the status can be [done]. *)
Definition not_asleep (p : pc) : bool :=
  match p with WaitStart | WaitLock | WaitCheck | Returned => true | _ => false end.

(** Thread 0 waits and the others invoke; who holds the lock; and what the
    status says of the threads. *)
Record ordered (s : awaiter) (w : pc) (inv : list pc) : Prop := {
  o_threads : threads s = w :: inv;
  o_waits : waits w;
  o_invokes : Forall invokes inv;
  o_holder : holder s = Some O ↔ w = WaitCheck ∨ w = WaitFinish;
  o_holders : ∀ j, holder s = Some (S j) ↔ inv !! j = Some InvokeCheck;
  o_status : match status s with
             | idle => w = WaitStart ∧ (∀ j p, inv !! j = Some p → p = InvokeStart)
             | ready => (w = WaitLock ∨ w = WaitCheck) ∧ (∀ j, inv !! j ≠ Some Returned)
             | waiting => w = Asleep ∧ (∀ j, inv !! j ≠ Some Returned) ∨ w = Notified ∨ w = WaitFinish
             | done => not_asleep w
             end
}.

Lemma notify_invokes inv :
  Forall invokes inv → (λ p, if decide (p = Asleep) then Notified else p) <$> inv = inv.
Proof.
  induction 1 as [|p inv Hp _ IH]; [done|]. rewrite fmap_cons, IH. f_equal. by destruct p.
Qed.

Lemma waiter_part s s' w inv :
  ordered s w inv → run_part 0 s = Some s' ∨ wake 0 s = Some s' → ∃ w', ordered s' w' inv.
Proof.
  intros [Ht Hw Hi Hh Hhs Hst] Hrun. destruct s as [st h ts]. cbn in *. subst ts.
  destruct Hrun as [Hrun|Hrun].
  - unfold run_part, cas, lock in Hrun.
    destruct w, st, h as [h|]; cbn in *; simplify_eq; try done;
      match goal with |- ∃ _, ordered ?s' _ _ => exists (hd Returned (threads s')) end;
      (split; try done; cbn); naive_solver.
  - unfold wake in Hrun. case_decide; [|done]. simplify_eq. exists Notified.
    split; try done; cbn; [naive_solver|]. destruct st; cbn in *; naive_solver.
Qed.

(** One that invokes. *)
Lemma invoker_part s s' w inv j :
  ordered s w inv → run_part (S j) s = Some s' → ∃ w' p, ordered s' w' (<[j := p]> inv).
Proof.
  intros [Ht Hw Hi Hh Hhs Hst] Hrun. destruct s as [st h ts]. cbn [threads status holder] in *. subst ts.
  unfold run_part, cas, lock in Hrun. cbn [threads status holder] in Hrun.
  change ((w :: inv) !! S j) with (inv !! j) in Hrun.
  destruct (inv !! j) as [q|] eqn:Hq; [|done]. cbn [mbind option_bind] in Hrun.
  pose proof (Forall_lookup_1 _ _ _ _ Hi Hq) as Hinv. pose proof (lookup_lt_Some _ _ _ Hq) as Hlt.
  assert (∀ p, invokes p → Forall invokes (<[j := p]> inv)) as Hins by (intros; by apply Forall_insert).
  pose proof (Hhs j) as Hj. rewrite Hq in Hj.
  assert (∀ p (h' : option nat), (h' = Some (S j) ↔ p = InvokeCheck) →
            (∀ k, k ≠ j → h' = Some (S k) ↔ h = Some (S k)) →
            ∀ k, h' = Some (S k) ↔ <[j := p]> inv !! k = Some InvokeCheck) as Hhold.
  { intros p h' H1 H2 k. destruct (decide (j = k)) as [<-|Hne].
    - rewrite list_lookup_insert_eq, H1 by done. split; congruence.
    - rewrite list_lookup_insert_ne, H2 by done. apply Hhs. }
  assert (∀ p, p ≠ Returned → (∀ k, inv !! k ≠ Some Returned) → ∀ k, <[j := p]> inv !! k ≠ Some Returned) as Hret.
  { intros p Hp Hno k Hk. apply list_lookup_insert_Some in Hk as [(_ & ? & _)|[_ Hk]]; [done|by apply (Hno k)]. }
  destruct q; try done.
  - assert (h ≠ Some (S j)) as Hh' by (intros ?%Hj; done).
    case_decide; simplify_eq.
    + destruct Hst as [-> _]. exists WaitStart, Returned.
      split; try done; [by apply Hins|]. apply Hhold; [split; done|done].
    + exists w, InvokeLock. split; try done; [by apply Hins|by apply Hhold|].
      cbn. destruct st; try done; [destruct Hst; split; auto|destruct Hst as [[]|]; [left; auto|by right]].
  - destruct h; [done|]. cbn [mbind option_bind] in Hrun. simplify_eq. exists w, InvokeCheck. split; try done; [by apply Hins| | |].
    + cbn. split; [done|]. intros ?%Hh. done.
    + apply Hhold; [done|]. cbn. intros k Hk. split; [congruence|done].
    + cbn. destruct st; try done; [|destruct Hst; split; auto|destruct Hst as [[]|]; [left; auto|by right]].
      destruct Hst as [_ Hst]. by apply Hst in Hq.
  - assert (h = Some (S j)) as -> by by apply Hj.
    assert (¬ (w = WaitCheck ∨ w = WaitFinish)) as Hnh by (intros ?%Hh; done).
    assert (∀ k, k ≠ j → None = Some (S k) ↔ Some (S j) = Some (S k)) as Hnone by (intros k Hk; split; congruence).
    case_decide; simplify_eq.
    + exists w, Returned. destruct Hst as [Hst _]. split; try done; [by apply Hins|by apply Hhold|].
      cbn. by destruct Hst as [-> | ->].
    + unfold notify_all, unlock, goto. cbn [threads status holder]. rewrite fmap_cons, (notify_invokes inv Hi).
      exists (if decide (w = Asleep) then Notified else w), Returned.
      split; try done; [by case_decide|by apply Hins| |by apply Hhold|].
      * cbn. split; [done|]. case_decide; [by intros [|]|by intros ?%Hnh].
      * cbn. destruct st; try done; [destruct Hst as [_ Hst]; by apply Hst in Hq| |].
        { case_decide; [by right; left|]. destruct Hst as [[? _]|Hst]; [done|by right]. }
        { case_decide; [by subst|done]. }
Qed.

(** ** Every run ends *)
Definition rank (p : pc) : nat :=
  match p with
  | WaitStart => 6 | WaitLock => 5 | WaitCheck => 4 | Asleep => 3 | Notified => 2 | WaitFinish => 1
  | InvokeStart => 3 | InvokeLock => 2 | InvokeCheck => 1
  | ResetStart => 1
  | Returned => 0
  end.
Definition work (s : awaiter) : nat := sum_list (rank <$> threads s).

Lemma work_goto i p q s :
  threads s !! i = Some q → (work (goto i p s) + rank q = work s + rank p)%nat.
Proof. apply sum_list_insert. Qed.

Lemma work_notify s : (work (notify_all s) ≤ work s)%nat.
Proof.
  unfold work, notify_all. cbn. induction (threads s) as [|t ts IH]; [done|]. cbn.
  case_decide; subst; cbn; lia.
Qed.

Lemma notify_lookup s i q : threads s !! i = Some q → q ≠ Asleep → threads (notify_all s) !! i = Some q.
Proof. intros Hi Hq. cbn. rewrite list_lookup_fmap, Hi. cbn. by rewrite decide_False. Qed.

Lemma awaiter_step_work s s' : step s s' → (work s' < work s)%nat.
Proof.
  intros [i s1 s2 H|i s1 s2 H].
  - unfold run_part, cas, lock in H. destruct (threads s1 !! i) as [q|] eqn:Hq; [|done]. cbn in H.
    assert (∀ s3 p, work s3 = work s1 → threads s3 !! i = Some q → (rank p < rank q)%nat →
              (work (goto i p s3) < work s1)%nat) as Hgo.
    { intros s3 p Hw H3 Hr. pose proof (work_goto i p q s3 H3). lia. }
    destruct q; try done; repeat case_decide; try (destruct (holder s1); [done|]); cbn in H; simplify_eq;
      try (by apply Hgo; [| |cbn; lia]).
    unfold unlock. pose proof (work_goto i Returned InvokeCheck (notify_all s1)) as Hg.
    rewrite (notify_lookup s1 i InvokeCheck Hq) in Hg by done. specialize (Hg eq_refl). pose proof (work_notify s1). cbn [rank] in Hg.
    enough (work (goto i Returned (notify_all s1)) < work s1)%nat by done. lia.
  - unfold wake in H. case_decide as Hi; [|done]. simplify_eq. pose proof (work_goto i Notified Asleep s1 Hi) as Hg.
    cbn [rank] in Hg. lia.
Qed.

Lemma awaiter_start_work n : work (new_awaiter (WaitStart :: replicate n InvokeStart)) = (6 + 3 * n)%nat.
Proof. unfold work. cbn. rewrite sum_list_replicate. cbn. lia. Qed.

Lemma ordered_reachable n s :
  reachable (WaitStart :: replicate n InvokeStart) s → ∃ w inv, ordered s w inv ∧ length inv = n.
Proof.
  intros Hr. unfold reachable in Hr. remember (new_awaiter _) as s0 eqn:H0.
  assert (∃ w inv, ordered s0 w inv ∧ length inv = n) as Hs0.
  { exists WaitStart, (replicate n InvokeStart). subst s0. split; [|apply length_replicate].
    split; try done; cbn.
    - apply Forall_replicate. done.
    - naive_solver.
    - intros j. split; [done|]. by intros [[= ] _]%lookup_replicate.
    - split; [done|]. by intros j p [-> _]%lookup_replicate. }
  clear H0. induction Hr as [|s1 s2 s3 Hs _ IH]; [done|]. apply IH.
  destruct Hs0 as (w & inv & Ho & Hl). destruct Hs as [[|i] s1 s2 Hp|[|i] s1 s2 Hw].
  - destruct (waiter_part s1 s2 w inv) as [w' Ho']; [done|by left|]. by exists w', inv.
  - destruct (invoker_part s1 s2 w inv i) as (w' & p & Ho'); [done..|]. exists w', (<[i:=p]> inv).
    by rewrite length_insert.
  - destruct (waiter_part s1 s2 w inv) as [w' Ho']; [done|by right|]. by exists w', inv.
  - exfalso. unfold wake in Hw. case_decide as Hi; [|done]. rewrite (o_threads _ _ _ Ho) in Hi.
    pose proof (Forall_lookup_1 _ _ _ _ (o_invokes _ _ _ Ho) Hi). done.
Qed.

(** Who has the lock can go on. *)
Lemma holder_runs s w inv : ordered s w inv → (∀ i, run_part i s = None) → holder s = None.
Proof.
  intros Ho Hstuck. destruct (holder s) as [[|j]|] eqn:Hh; [| |done]; exfalso.
  - apply (o_holder _ _ _ Ho) in Hh. specialize (Hstuck O). unfold run_part in Hstuck.
    rewrite (o_threads _ _ _ Ho) in Hstuck. cbn in Hstuck. destruct Hh as [-> | ->]; cbn in Hstuck; [|done].
    by destruct (cas _ _ _).
  - apply (o_holders _ _ _ Ho) in Hh. specialize (Hstuck (S j)). unfold run_part in Hstuck.
    rewrite (o_threads _ _ _ Ho) in Hstuck. change ((w :: inv) !! S j) with (inv !! j) in Hstuck.
    rewrite Hh in Hstuck. cbn in Hstuck. by destruct (cas _ _ _).
Qed.

(** C39: one thread that waits and [n] that invoke, in any order of their parts,
    and with the condition variable free to wake the thread for no reason: once
    an invocation has returned, the thread does not sleep, so that no wake-up is
    lost; nobody is ever stuck, for when no part can run all have returned, or
    there was nobody to invoke; and every run is over after [6 + 3 n] parts. *)
Theorem awaiter_loses_no_wakeup (n : nat) (s : awaiter) :
  reachable (WaitStart :: replicate n InvokeStart) s →
  ((∃ j, threads s !! S j = Some Returned) → threads s !! O ≠ Some Asleep) ∧
  ((∀ i, run_part i s = None) → Forall (.= Returned) (threads s) ∨ n = O ∧ threads s = [Asleep]) ∧
  (∀ k, nsteps step k (new_awaiter (WaitStart :: replicate n InvokeStart)) s → (k ≤ 6 + 3 * n)%nat).
Proof.
  intros Hr. destruct (ordered_reachable n s Hr) as (w & inv & Ho & Hl).
  split_and!; [| |intros k Hk%(nsteps_measure _ work); [|apply awaiter_step_work]; rewrite awaiter_start_work in Hk; lia].
  - intros [j Hj] H0. rewrite (o_threads _ _ _ Ho) in *. cbn in *. simplify_eq.
    pose proof (o_status _ _ _ Ho) as Hst. destruct (status s); [naive_solver..|done].
  - intros Hstuck. pose proof (holder_runs s w inv Ho Hstuck) as Hfree.
    assert (Forall (.= Returned) inv) as Hinv.
    { apply Forall_lookup. intros j p Hj. pose proof (Forall_lookup_1 _ _ _ _ (o_invokes _ _ _ Ho) Hj).
      specialize (Hstuck (S j)). unfold run_part, lock in Hstuck. rewrite (o_threads _ _ _ Ho), Hfree in Hstuck.
      change ((w :: inv) !! S j) with (inv !! j) in Hstuck. rewrite Hj in Hstuck. cbn in Hstuck.
      destruct p; try done; by destruct (cas _ _ _). }
    assert (w = Asleep ∨ w = Returned) as Hw.
    { pose proof (o_waits _ _ _ Ho). specialize (Hstuck O). unfold run_part, lock in Hstuck.
      rewrite (o_threads _ _ _ Ho), Hfree in Hstuck. cbn in Hstuck.
      destruct w; try done; try (by destruct (cas _ _ _)); [by left|by right]. }
    rewrite (o_threads _ _ _ Ho). destruct Hw as [-> | ->]; [right|left; by constructor].
    destruct inv as [|p inv]; [by rewrite <- Hl|]. exfalso. apply Forall_cons_1 in Hinv as [-> _].
    pose proof (o_status _ _ _ Ho) as Hst.
    destruct (status s); [by destruct Hst|by destruct Hst as [[|] _]| |done].
    destruct Hst as [[_ Hno]|[|]]; [by apply (Hno O)|done|done].
Qed.

(** Two threads that wait need not be so lucky: the reset by the one that did
    not sleep makes the next invocation miss the one that does. *)
Example reset_loses_wakeup :
  run_schedule [0; 0; 0; 1; 2; 3]%nat (new_awaiter [WaitStart; WaitStart; ResetStart; InvokeStart]) =
    Some (Awaiter done None [Asleep; Returned; Returned; Returned]).
Proof. reflexivity. Qed.

Example awaiter_loses_no_wakeup_witness :
  let s := Awaiter done None [Returned; Returned] in
  reachable [WaitStart; InvokeStart] s ∧
  ((∃ j, threads s !! S j = Some Returned) → threads s !! O ≠ Some Asleep) ∧
  ((∀ i, run_part i s = None) → Forall (.= Returned) (threads s) ∨ 1 = O ∧ threads s = [Asleep]) ∧
  (∀ k, nsteps step k (new_awaiter [WaitStart; InvokeStart]) s → (k ≤ 9)%nat).
Proof.
  intros s.
  assert (∀ order s0 s1, run_schedule order s0 = Some s1 → rtc step s0 s1) as Hrun.
  { intros order. induction order as [|i order IH]; intros s0 s1; cbn; [by intros [= ->]; constructor|].
    destruct (run_part i s0) as [s'|] eqn:Hp; [|done]. intros Hs. eapply rtc_l; [by eapply step_part|]. by apply IH. }
  assert (reachable [WaitStart; InvokeStart] s) as Hr.
  { apply (Hrun [0; 0; 0; 1; 1; 1; 0; 0]%nat). reflexivity. }
  split; [done|]. apply (awaiter_loses_no_wakeup 1 s Hr).
Defined.
End AwaiterThms.

(** ** cmd_result *)
Module CmdResultThms.
Import CmdResult.
Section result.
Context {T E H : Type} (no_result : T) (no_error : E) `{EqDecision E}.
Context (result : T) (err : E) (code : cmd_result_code) (two : bool) (handler : H) (woken : nat → Prop).

#[local] Notation waiters := (waiters (T := T) (E := E) (H := H)).
#[local] Notation step := (step no_result no_error result err code two handler woken).
#[local] Notation start := (start (H := H) no_result no_error).

(** What [get] is to return. *)
Definition final : T := if decide (err = no_error) then result else no_result.

(** How far the one that sets the result has come, and what is then true. *)
Definition stored (r : cmd_result (T := T) (E := E) (H := H)) : Prop := has_result_ r = true ∧ result_ r = result ∧ err_ r = err.
(** A getter while there is no result, and at any time: one that woke up for no
    reason may have returned the empty result. *)
Definition early (i : nat) (g : get_pc (T := T)) : Prop :=
  match g with
  | GetStart | GetAsleep => True
  | GetNotified => woken i
  | GetReturned v => woken i ∧ v = no_result
  end.
Definition right (i : nat) (g : get_pc (T := T)) : Prop :=
  match g with GetReturned v => v = final ∨ woken i ∧ v = no_result | _ => True end.
Definition all (P : nat → get_pc (T := T) → Prop) (gs : list get_pc) : Prop := ∀ i g, gs !! i = Some g → P i g.

Lemma all_insert P i g gs : all P gs → P i g → all P (<[i := g]> gs).
Proof. intros Ha Hg j g' [(<- & <- & _)|[_ Hj]]%list_lookup_insert_Some; [done|by apply Ha]. Qed.
Lemma all_fmap (P Q : nat → get_pc (T := T) → Prop) f gs :
  all P gs → (∀ i g, P i g → Q i (f g)) → all Q (f <$> gs).
Proof. intros Ha Hf i g Hg. apply list_lookup_fmap_Some in Hg as (g0 & -> & Hg). by apply Hf, Ha. Qed.
Lemma all_impl (P Q : nat → get_pc (T := T) → Prop) gs : all P gs → (∀ i g, P i g → Q i g) → all Q gs.
Proof. intros Ha Hf i g Hg. by apply Hf, Ha. Qed.

Definition installed (s : waiters) : Prop :=
  installer s = ReadyInstall ∧ handler_ (cell s) = None ∧ handler2_ (cell s) = None ∨
  installer s = ReadyReturned ∧ pick_handler (cell s) = Some handler.

Definition ok (s : waiters) : Prop :=
  all right (getters s) ∧
  match setter s with
  | SetCode | SetStore =>
      has_result_ (cell s) = false ∧ result_ (cell s) = no_result ∧ calls s = [] ∧ installed s ∧ all early (getters s)
  | SetCall =>
      stored (cell s) ∧ calls s = [] ∧ installer s = ReadyReturned ∧ pick_handler (cell s) = Some handler
  | SetNotify | SetReturned =>
      stored (cell s) ∧
      (installer s ≠ ReadyReturned ∧ calls s = [] ∨ installer s = ReadyReturned ∧ calls s = [(handler, result, err)]) ∧
      (setter s = SetReturned → Forall (.≠ GetAsleep) (getters s))
  end.

Lemma ok_start n : ok (start n).
Proof.
  split; cbn; [intros i g Hg|split_and!; [done..|by left|intros i g Hg]];
    by apply lookup_replicate in Hg as [-> _].
Qed.

Lemma early_value (r : cmd_result (T := T) (E := E) (H := H)) : result_ r = no_result → value no_result no_error r = no_result.
Proof. unfold value. intros ->. by case_decide. Qed.

Lemma final_value r : stored r → value no_result no_error r = final.
Proof. intros (_ & Hr & He). unfold value, final. by rewrite Hr, He. Qed.

Lemma ok_set s s' : ok s → set_result_part result err code s = Some s' → ok s'.
Proof.
  destruct s as [r sp ip gs cs]. intros [Hr Hs] Hp. unfold set_result_part in Hp. cbn in *.
  destruct sp; cbn in Hs; simplify_eq/=.
  - by split.
  - destruct Hs as (Hn & _ & -> & Hi & Hf). split; [done|]. unfold installed, pick_handler in Hi. cbn in *.
    destruct Hi as [(-> & -> & ->)|[-> Hi]]; cbn; [split_and!; try done; by left|].
    destruct (handler2_ r) eqn:H2, (handler_ r) eqn:H1; try done; cbn;
      unfold stored, pick_handler; cbn; rewrite H2, ?H1; by simplify_eq.
  - destruct Hs as (Hst & -> & -> & Hpick). rewrite Hpick. split; [done|]. cbn. split_and!; [done|by right|done].
  - destruct Hs as (Hst & Hc & _). split; cbn.
    + eapply all_fmap; [done|]. by intros i [].
    + split_and!; [done..|]. intros _. apply Forall_fmap, Forall_true. by intros [].
Qed.

Lemma ok_ready s s' : ok s → when_ready_part two handler s = Some s' → ok s'.
Proof.
  destruct s as [r sp ip gs cs]. intros [Hr Hs] Hp. unfold when_ready_part, install in Hp. cbn in *.
  destruct ip; [| |done].
  - destruct (has_result_ r) eqn:Hh; simplify_eq/=; split; try done; cbn in *.
    + destruct sp; [naive_solver..| |]; destruct Hs as (? & [[_ ?]|[? _]] & ?); try done; split_and!; auto.
    + assert (sp = SetCode ∨ sp = SetStore) as Hsp.
      { unfold stored in Hs. destruct sp; [by left|by right|exfalso; naive_solver congruence..]. }
      assert (∃ H0 : has_result_ r = false, result_ r = no_result ∧ cs = [] ∧ handler_ r = None ∧ handler2_ r = None ∧ all early gs)
        as (_ & H0 & -> & H1 & H2 & Hf).
      { exists Hh. unfold installed in Hs. cbn in Hs. destruct Hsp as [-> | ->]; naive_solver. }
      assert (installed (Waiters (install two handler r).2 sp ReadyReturned gs [])) as Hi.
      { right. split; [done|]. unfold install, pick_handler. cbn. rewrite Hh. destruct two; cbn; by rewrite ?H2. }
      unfold install in Hi. rewrite Hh in Hi.
      destruct Hsp as [-> | ->]; split_and!; try done; by destruct two.
  - simplify_eq/=. split; [done|]. unfold installed in Hs. cbn in *.
    destruct sp; [naive_solver..| |]; destruct Hs as (Hst & [[_ ->]|[? _]] & ?); try done; split_and!; try done;
      right; destruct Hst as (_ & -> & ->); done.
Qed.

(** A getter goes on: what it is at is right, and while there is no result it
    is still early. *)
Lemma ok_getter r sp ip gs cs i g :
  ok (Waiters r sp ip gs cs) → right i g → (sp = SetReturned → g ≠ GetAsleep) →
  (has_result_ r = false → result_ r = no_result → all early gs → early i g) →
  ok (Waiters r sp ip (<[i := g]> gs) cs).
Proof.
  intros [Hr Hs] Hg Ha He. split; [by apply all_insert|]. cbn in *.
  destruct sp; [| |done|destruct Hs as (? & ? & Hn)..].
  1,2: destruct Hs as (? & ? & ? & ? & Hf); split_and!; try done; apply all_insert; auto.
  all: split_and!; [done..|]; intros Hsp; apply Forall_insert; auto.
Qed.

Lemma ok_get i s s' : ok s → get_part no_result no_error i s = Some s' → ok s'.
Proof.
  destruct s as [r sp ip gs cs]. intros Hok Hp. unfold get_part in Hp. cbn in *.
  destruct (gs !! i) as [g|] eqn:Hg; [|done]. cbn in Hp. pose proof Hok as [Hr Hs]. cbn in Hs.
  assert (stored r ∨ has_result_ r = false ∧ result_ r = no_result ∧ all early gs ∧ sp ≠ SetReturned) as Hcase
    by (destruct sp; naive_solver).
  destruct g; try done; simplify_eq/=.
  - apply (ok_getter r sp ip gs cs); [done|..].
    + destruct (has_result_ r) eqn:Hh; [|done]. destruct Hcase as [Hst|[? _]]; [|congruence].
      left. by apply final_value.
    + intros ->. destruct Hcase as [[-> _]|(_ & _ & _ & ?)]; done.
    + by intros ->.
  - apply (ok_getter r sp ip gs cs); [done| |done|].
    + destruct Hcase as [Hst|(_ & Hr0 & He & _)]; [left; by apply final_value|right].
      split; [exact (He _ _ Hg)|by apply early_value].
    + intros _ Hr0 He. split; [exact (He _ _ Hg)|by apply early_value].
Qed.

Lemma ok_spurious i s s' : ok s → woken i → spurious_wake i s = Some s' → ok s'.
Proof.
  destruct s as [r sp ip gs cs]. intros Hok Hw Hp. unfold spurious_wake in Hp. cbn in *.
  destruct (gs !! i) as [[]|] eqn:Hg; try done. injection Hp as <-. by apply (ok_getter r sp ip gs cs).
Qed.

Lemma ok_steps s s' : rtc step s s' → ok s → ok s'.
Proof.
  induction 1 as [|s1 s2 s3 [? ? Hp|? ? Hp|? ? ? Hp|? ? ? Hw Hp] _ IH]; [done|..]; intros Hok; apply IH;
    [by eapply ok_set|by eapply ok_ready|by eapply ok_get|by eapply ok_spurious].
Qed.

(** Nobody gets lost, and the code is the first to be set. *)
Definition coded (n : nat) (s : waiters) : Prop :=
  length (getters s) = n ∧ (setter s = SetCode ∨ code_ (cell s) = code).

Lemma coded_step n s s' : coded n s → step s s' → coded n s'.
Proof.
  intros Hcoded Hs. revert Hcoded.
  destruct Hs as [[r sp ip gs cs] s2 Hp|[r sp ip gs cs] s2 Hp|i [r sp ip gs cs] s2 Hp|i [r sp ip gs cs] s2 _ Hp];
    unfold coded; cbn; intros [Hl Hc].
  - unfold set_result_part in Hp. cbn in Hp. destruct Hc as [Hc|Hc]; [subst sp; simplify_eq/=; auto|].
    destruct sp; repeat case_match; simplify_eq/=; rewrite ?length_fmap; auto.
  - unfold when_ready_part, install in Hp. cbn in Hp.
    destruct ip; [destruct (has_result_ r), two|..]; simplify_eq/=; auto.
  - unfold get_part in Hp. cbn in Hp. destruct (gs !! i) as [[]|]; simplify_eq/=; rewrite ?length_insert; auto.
  - unfold spurious_wake in Hp. cbn in Hp. destruct (gs !! i) as [[]|]; simplify_eq/=; rewrite ?length_insert; auto.
Qed.

Lemma coded_steps n s s' : rtc step s s' → coded n s → coded n s'.
Proof. induction 1 as [|s1 s2 s3 Hs _ IH]; [done|]. intros Hc. by eapply IH, coded_step. Qed.

(** *** Every run ends *)
Definition set_rank (p : set_pc) : nat :=
  match p with SetCode => 4 | SetStore => 3 | SetCall => 2 | SetNotify => 1 | SetReturned => 0 end.
Definition ready_rank (p : ready_pc) : nat :=
  match p with ReadyInstall => 2 | ReadyCall => 1 | ReadyReturned => 0 end.
Definition get_rank (g : get_pc (T := T)) : nat :=
  match g with GetStart => 3 | GetAsleep => 2 | GetNotified => 1 | GetReturned _ => 0 end.
Definition work (s : waiters) : nat :=
  set_rank (setter s) + ready_rank (installer s) + sum_list (get_rank <$> getters s).

Lemma notify_rank gs :
  (sum_list (get_rank <$> ((λ g, match g with GetAsleep => GetNotified | _ => g end) <$> gs)) ≤
   sum_list (get_rank <$> gs))%nat.
Proof. induction gs as [|[] gs IH]; cbn in *; lia. Qed.

Lemma result_step_work s s' : step s s' → (work s' < work s)%nat.
Proof.
  intros [[r sp ip gs cs] s2 Hp|[r sp ip gs cs] s2 Hp|i [r sp ip gs cs] s2 Hp|i [r sp ip gs cs] s2 _ Hp]; unfold work.
  - unfold set_result_part in Hp. destruct sp; simplify_eq/=; try lia.
    + case_match; simplify_eq/=; lia.
    + pose proof (notify_rank gs). lia.
  - unfold when_ready_part, install in Hp. cbn in Hp.
    destruct ip; [destruct (has_result_ r)|..]; simplify_eq/=; lia.
  - unfold get_part in Hp. cbn in Hp. destruct (gs !! i) as [g|] eqn:Hg; [|done].
    destruct g; simplify_eq/=; [destruct (has_result_ r)|];
      match goal with |- context [<[i := ?g']> gs] => pose proof (sum_list_insert get_rank gs i _ g' Hg) end; cbn in *; lia.
  - unfold spurious_wake in Hp. cbn in Hp. destruct (gs !! i) as [[]|] eqn:Hg; simplify_eq/=.
    pose proof (sum_list_insert get_rank gs i _ GetNotified Hg). cbn in *. lia.
Qed.

Lemma result_start_work n : work (start n) = (6 + 3 * n)%nat.
Proof. unfold work. cbn. rewrite sum_list_replicate. cbn. lia. Qed.

(** When nobody can go on, all have returned. *)
Lemma stuck_returned s :
  ok s → (∀ s', ¬ step s s') →
  setter s = SetReturned ∧ installer s = ReadyReturned ∧ ∀ i, (i < length (getters s))%nat → ∃ v, getters s !! i = Some (GetReturned v).
Proof.
  intros [Hr Hok] Hstuck.
  assert (setter s = SetReturned) as Hset.
  { destruct (set_result_part result err code s) as [s'|] eqn:Hp; [by destruct (Hstuck s'); apply step_set|].
    unfold set_result_part in Hp. destruct (setter s); try done; by case_match. }
  assert (installer s = ReadyReturned) as Hins.
  { destruct (when_ready_part two handler s) as [s'|] eqn:Hp; [by destruct (Hstuck s'); eapply step_ready|].
    unfold when_ready_part in Hp. destruct (installer s); try done; by case_match. }
  rewrite Hset in Hok. destruct Hok as (_ & _ & Hawake). specialize (Hawake eq_refl). split_and!; [done..|].
  intros i [g Hg]%lookup_lt_is_Some_2. pose proof (Forall_lookup_1 _ _ _ _ Hawake Hg) as Ha.
  destruct (get_part no_result no_error i s) as [s'|] eqn:Hp; [by destruct (Hstuck s'); eapply step_get|].
  unfold get_part in Hp. rewrite Hg in Hp. destruct g; try done. by eexists.
Qed.
End result.

(** C38: one thread sets a result, one installs a handler of either kind and [n]
    wait for the result, in any order of their parts, and the condition variable
    may wake up those in [woken] for no reason.  The handler is called at most
    once, and only with the result and the exception that were set.  Whoever
    returns from [get] has the result, or the empty one when there was an
    exception; but one that was woken up for no reason may have the empty one in
    place of a result that was not there yet.  Nobody is ever stuck, for when no
    part can run the handler has been called once and everybody has returned; and
    a run has at most [6 + 3 n] parts and wake-ups. *)
Theorem cmd_result_delivers {T E H : Type} (no_result : T) (no_error : E) `{EqDecision E}
    (result : T) (err : E) (code : cmd_result_code) (two : bool) (handler : H) (woken : nat → Prop)
    (n : nat) (s : waiters) :
  let v := if decide (err = no_error) then result else no_result in
  let run := step no_result no_error result err code two handler woken in
  rtc run (start no_result no_error n) s →
  (calls s = [] ∨ calls s = [(handler, result, err)]) ∧
  (∀ i w, getters s !! i = Some (GetReturned w) → w = v ∨ woken i ∧ w = no_result) ∧
  ((∀ s', ¬ run s s') →
     calls s = [(handler, result, err)] ∧ get_result_code (cell s) = code ∧
     ∀ i, (i < n)%nat → ∃ w, getters s !! i = Some (GetReturned w)) ∧
  (∀ k, nsteps run k (start no_result no_error n) s → (k ≤ 6 + 3 * n)%nat).
Proof.
  intros v run Hr. pose proof (ok_steps _ _ _ _ _ _ _ _ _ _ Hr (ok_start _ _ _ _ _ _ n)) as Hok.
  pose proof (coded_steps _ _ _ _ _ _ _ _ n _ _ Hr) as [Hl Hc]; [split; [apply length_replicate|by left]|].
  split_and!.
  - destruct Hok as [_ Hok]. destruct (setter s); naive_solver.
  - intros i w Hi. destruct Hok as [Hv _]. exact (Hv _ _ Hi).
  - intros Hstuck. destruct (stuck_returned _ _ _ _ _ _ _ _ s Hok Hstuck) as (Hset & Hins & Hg).
    destruct Hok as [_ Hok]. rewrite Hset in *. destruct Hok as ((Hh & _) & Hcalls & _), Hc as [|Hc]; [done..|].
    split_and!; [naive_solver|by unfold get_result_code; rewrite Hh|by rewrite <- Hl].
  - intros k Hk%(nsteps_measure _ work); [|apply result_step_work]. rewrite result_start_work in Hk. lia.
Qed.

(** The condition variable is waited on once and whatever woke it: a thread can
    return from [get] before there is a result. *)
Example spurious_get_is_early :
  (s ← get_part 0 1 0 (start (H := unit) 0 1 1); s ← spurious_wake 0 s; getters <$> get_part 0 1 0 s) =
    Some [GetReturned 0] ∧
  (s ← get_part 0 1 0 (start (H := unit) 0 1 1); s ← spurious_wake 0 s; has_result ∘ cell <$> get_part 0 1 0 s) =
    Some false.
Proof. split; reflexivity. Qed.

(** Two wait; the first is woken up before there is a result. *)
Definition first_woken (i : nat) : Prop := i = 0%nat.
Definition both_returned : waiters (T := nat) (E := nat) (H := unit) :=
  Waiters (CmdResult.CmdResult 7%nat 0%nat FAILED true false None (Some tt)) SetReturned ReadyReturned
    [GetReturned 0%nat; GetReturned 7%nat] [(tt, 7%nat, 0%nat)].

Lemma both_return : rtc (step 0%nat 0%nat 7%nat 0%nat FAILED true tt first_woken) (start 0%nat 0%nat 2) both_returned.
Proof.
  set (r := λ v c has h, CmdResult.CmdResult v 0%nat c has false None h : cmd_result (T := nat) (E := nat) (H := unit)).
  set (at_ := λ v c has h sp ip gs cs, Waiters (r v c has h) sp ip gs cs).
  apply (rtc_l _ _ (at_ 0%nat OK false None SetCode ReadyInstall [GetAsleep; GetStart] [])).
  { by apply (step_get _ _ _ _ _ _ _ _ 0). }
  apply (rtc_l _ _ (at_ 0%nat OK false None SetCode ReadyInstall [GetNotified; GetStart] [])).
  { by apply (step_spurious _ _ _ _ _ _ _ _ 0). }
  apply (rtc_l _ _ (at_ 0%nat OK false None SetCode ReadyInstall [GetReturned 0%nat; GetStart] [])).
  { by apply (step_get _ _ _ _ _ _ _ _ 0). }
  apply (rtc_l _ _ (at_ 0%nat OK false None SetCode ReadyInstall [GetReturned 0%nat; GetAsleep] [])).
  { by apply (step_get _ _ _ _ _ _ _ _ 1). }
  apply (rtc_l _ _ (at_ 0%nat OK false (Some tt) SetCode ReadyReturned [GetReturned 0%nat; GetAsleep] [])).
  { by apply step_ready. }
  apply (rtc_l _ _ (at_ 0%nat FAILED false (Some tt) SetStore ReadyReturned [GetReturned 0%nat; GetAsleep] [])).
  { by apply step_set. }
  apply (rtc_l _ _ (at_ 7%nat FAILED true (Some tt) SetCall ReadyReturned [GetReturned 0%nat; GetAsleep] [])).
  { by apply step_set. }
  apply (rtc_l _ _ (at_ 7%nat FAILED true (Some tt) SetNotify ReadyReturned [GetReturned 0%nat; GetAsleep] [(tt, 7%nat, 0%nat)])).
  { by apply step_set. }
  apply (rtc_l _ _ (at_ 7%nat FAILED true (Some tt) SetReturned ReadyReturned [GetReturned 0%nat; GetNotified] [(tt, 7%nat, 0%nat)])).
  { by apply step_set. }
  apply rtc_once. by apply (step_get _ _ _ _ _ _ _ _ 1).
Qed.

Example cmd_result_delivers_witness :
  let run := step 0%nat 0%nat 7%nat 0%nat FAILED true tt first_woken in
  (calls both_returned = [] ∨ calls both_returned = [(tt, 7%nat, 0%nat)]) ∧
  (∀ i w, getters both_returned !! i = Some (GetReturned w) → w = 7%nat ∨ first_woken i ∧ w = 0%nat) ∧
  ((∀ s', ¬ run both_returned s') →
     calls both_returned = [(tt, 7%nat, 0%nat)] ∧ get_result_code (cell both_returned) = FAILED ∧
     ∀ i, (i < 2)%nat → ∃ w, getters both_returned !! i = Some (GetReturned w)) ∧
  (∀ k, nsteps run k (start 0%nat 0%nat 2) both_returned → (k ≤ 12)%nat).
Proof. exact (cmd_result_delivers 0%nat 0%nat 7%nat 0%nat FAILED true tt first_woken 2 both_returned both_return). Defined.
End CmdResultThms.
