(* ===== verification/Workers.v ===== *)
(** * The threads that commit and send

    commit, commit_in_bg and the parts of commit_in_bg_exec of
    src/handle_commit.cxx, append_entries_in_bg of src/handle_append_entries.cxx,
    and src/global_mgr.cxx.  RaftCommit models what a
    commit does to a server; here is when it is done: which thread looks at which
    of the indices at what time, and who wakes whom.  A thread is cut where
    another can come in between. *)
From S2P Require Import Prelude.
Local Open Scope Z_scope.

(** What the threads share of a server; [last_log_idx] is [next_slot() - 1], and
    [commit_lock_] names the thread that has it. *)
Record srv := Srv {
  quick_commit_index_ : Z;
  sm_commit_index_ : Z;
  start_index : Z;
  last_log_idx : Z;
  sm_commit_paused_ : bool;
  stopping_ : bool;
  commit_lock_ : option nat
}.
#[export] Instance srv_rebuild : Rebuild srv := λ s,
  Srv (quick_commit_index_ s) (sm_commit_index_ s) (start_index s) (last_log_idx s) (sm_commit_paused_ s)
    (stopping_ s) (commit_lock_ s).

(** A server that has just started: everything it knows to be committed is. *)
Definition new_srv (commit_idx start last : Z) : srv := Srv commit_idx commit_idx start last false false None.

(** Both indices are after the commit index of the state machine. *)
Definition has_work (s : srv) : bool :=
  bool_decide (sm_commit_index_ s < quick_commit_index_ s) && bool_decide (sm_commit_index_ s < last_log_idx s).

(** The first part of [commit(target_idx)], of a server whose log may have grown
    before. *)
Definition set_target (target_idx last : Z) (s : srv) : srv :=
  let s := s <| last_log_idx := last |> in
  if decide (quick_commit_index_ s < target_idx) then s <| quick_commit_index_ := target_idx |> else s.

(** ** commit_in_bg_exec *)
Inductive exec_pc := TryLock | Loop (first_loop_exec : bool) | Unlock (finished_in_time : bool).
#[export] Instance exec_pc_eq_dec : EqDecision exec_pc.
Proof. solve_decision. Defined.

(** The next part when thread [t] is in it: where it is then, or what it has
    returned.  [fired] says that the timer has fired; a turn of the loop commits
    one entry. *)
Definition exec_part (t : nat) (fired : bool) (p : exec_pc) (s : srv) : (exec_pc + bool) * srv :=
  match p with
  | TryLock =>
      match commit_lock_ s with
      | Some _ => (inr true, s)
      | None =>
          let s := s <| commit_lock_ := Some t |> in
          (inl (Loop true),
           if decide (start_index s ≠ 0 ∧ sm_commit_index_ s < start_index s - 1)
           then s <| sm_commit_index_ := start_index s - 1 |> else s)
      end
  | Loop first =>
      if has_work s then
        if negb first && fired then (inl (Unlock false), s)
        else if sm_commit_paused_ s then (inl (Unlock true), s)
        else (inl (Loop false), s <| sm_commit_index_ ::= Z.succ |>)
      else (inl (Unlock true), s)
  | Unlock finished => (inr finished, s <| commit_lock_ := None |>)
  end.

(** ** commit_in_bg: a server's own thread *)
Module CommitThread.
Inductive pc := Outer | WaitCheck | Asleep | Awake | Exec (p : exec_pc) | Stopped.
#[export] Instance pc_eq_dec : EqDecision pc.
Proof. solve_decision. Defined.

(** [notifiers] is how many threads have changed something and are yet to
    notify. *)
Record thread := Thread { server : srv; at_pc : pc; callers : nat; notifiers : nat }.
#[export] Instance thread_rebuild : Rebuild thread := λ t,
  Thread (server t) (at_pc t) (callers t) (notifiers t).

(** The next part of [commit_in_bg]; the local thread has no timer. *)
Definition thread_part (t : thread) : option thread :=
  match at_pc t with
  | Outer => Some (t <| at_pc := if has_work (server t) then Exec TryLock else WaitCheck |>)
  | WaitCheck =>
      Some (t <| at_pc := if stopping_ (server t) then Awake
                          else if sm_commit_paused_ (server t) then Asleep
                          else if has_work (server t) then Awake else Asleep |>)
  | Asleep => None
  | Awake => Some (t <| at_pc := if stopping_ (server t) then Stopped else Outer |>)
  | Exec p =>
      let '(p, s) := exec_part 0 false p (server t) in
      Some (t <| server := s |> <| at_pc := match p with inl p => Exec p | inr _ => Outer end |>)
  | Stopped => None
  end.

(** [commit_cv_.notify_one()] under the lock of the condition variable. *)
Definition notify (t : thread) : thread :=
  if decide (at_pc t = Asleep) then t <| at_pc := WaitCheck |> else t.

(** What the other threads do: the two parts of [commit], of
    [resume_state_machine_execution] and of [shutdown], the one of
    [pause_state_machine_exeuction] and the setting of the flag by
    [stop_server]. *)
Inductive event :=
  | CommitSet (target last : Z) | CommitTest | Notify
  | Pause | Resume | Stop | StopFlag.
Definition happen (ev : event) (t : thread) : option thread :=
  match ev with
  | CommitSet target last =>
      if decide (last_log_idx (server t) ≤ last)
      then Some (t <| server ::= set_target target last |> <| callers ::= S |>) else None
  | CommitTest =>
      match callers t with
      | S n => Some (t <| callers := n |> <| notifiers ::= if has_work (server t) then S else id |>)
      | O => None
      end
  | Notify => match notifiers t with S n => Some (notify (t <| notifiers := n |>)) | O => None end
  | Pause => Some (t <| server ::= (λ s, s <| sm_commit_paused_ := true |>) |>)
  | Resume => Some (t <| server ::= (λ s, s <| sm_commit_paused_ := false |>) |> <| notifiers ::= S |>)
  | Stop => Some (t <| server ::= (λ s, s <| stopping_ := true |>) |> <| notifiers ::= S |>)
  | StopFlag => Some (t <| server ::= (λ s, s <| stopping_ := true |>) |>)
  end.

Definition start (commit_idx start last : Z) : thread := Thread (new_srv commit_idx start last) Outer 0 0.

Inductive step : thread → thread → Prop :=
  | step_thread t t' : thread_part t = Some t' → step t t'
  | step_event ev t t' : happen ev t = Some t' → step t t'.
End CommitThread.

(** ** append_entries_in_bg: a server's own thread that sends *)
Module AppendThread.
Inductive pc := WaitEvent | ResetEvent | TestStop | AppendExec | TestAgain | Stopped.
#[export] Instance pc_eq_dec : EqDecision pc.
Proof. solve_decision. Defined.

(** [event_] says that [bg_append_ea_] is done: [wait] returns from then on until
    [reset].  [sent_idx] is the end of the log at the last
    [request_append_entries], [callers] how many threads have stored an entry and
    are yet to invoke the event. *)
Record thread := Thread {
  event_ : bool;
  stopping_ : bool;
  append_bg_stopped_ : bool;
  last_log_idx : Z;
  sent_idx : Z;
  callers : nat;
  at_pc : pc
}.
#[export] Instance thread_rebuild : Rebuild thread := λ t,
  Thread (event_ t) (stopping_ t) (append_bg_stopped_ t) (last_log_idx t) (sent_idx t) (callers t) (at_pc t).

Definition start (last : Z) : thread := Thread false false false last last 0 WaitEvent.

Definition thread_part (t : thread) : option thread :=
  match at_pc t with
  | WaitEvent => if event_ t then Some (t <| at_pc := ResetEvent |>) else None
  | ResetEvent => Some (t <| event_ := false |> <| at_pc := TestStop |>)
  | TestStop =>
      Some (if stopping_ t then t <| append_bg_stopped_ := true |> <| at_pc := Stopped |>
            else t <| at_pc := AppendExec |>)
  | AppendExec => Some (t <| sent_idx := last_log_idx t |> <| at_pc := TestAgain |>)
  | TestAgain =>
      Some (if stopping_ t then t <| append_bg_stopped_ := true |> <| at_pc := Stopped |>
            else t <| at_pc := WaitEvent |>)
  | Stopped => None
  end.

(** A client's request in two parts, [stopping_] set, and the loop of [shutdown]
    that invokes until the thread has stopped. *)
Inductive event := Store (last : Z) | Invoke | Stop | InvokeUntilStopped.
Definition happen (ev : event) (t : thread) : option thread :=
  match ev with
  | Store last => if decide (last_log_idx t < last) then Some (t <| last_log_idx := last |> <| callers ::= S |>) else None
  | Invoke => match callers t with S n => Some (t <| callers := n |> <| event_ := true |>) | O => None end
  | Stop => Some (t <| stopping_ := true |>)
  | InvokeUntilStopped =>
      if stopping_ t && negb (append_bg_stopped_ t) then Some (t <| event_ := true |>) else None
  end.

Inductive step : thread → thread → Prop :=
  | step_thread t t' : thread_part t = Some t' → step t t'
  | step_event ev t t' : happen ev t = Some t' → step t t'.
End AppendThread.

(** ** global_mgr: workers that all servers share *)
Module GlobalMgr.

(** Where a worker of [commit_worker_loop] is. *)
Inductive worker := Sleeping | Pop | Test (x : nat) | Exec (x : nat) (p : exec_pc) | Requeue (x : nat).
#[export] Instance worker_eq_dec : EqDecision worker.
Proof. solve_decision. Defined.

(** Where a thread is that has called [commit] or the like for a server. *)
Inductive caller := Tests (x : nat) | Requests (x : nat).
#[export] Instance caller_eq_dec : EqDecision caller.
Proof. solve_decision. Defined.

(** [commit_queue_] and [commit_server_set_] of servers, known by number. *)
Record mgr := Mgr {
  servers : list srv;
  commit_queue_ : list nat;
  commit_server_set_ : gset nat;
  commit_workers_ : list worker;
  callers : list caller
}.
#[export] Instance mgr_rebuild : Rebuild mgr := λ m,
  Mgr (servers m) (commit_queue_ m) (commit_server_set_ m) (commit_workers_ m) (callers m).

(** The part of [request_commit] under the lock. *)
Definition request_commit (x : nat) (m : mgr) : mgr :=
  if decide (x ∈ commit_server_set_ m) then m
  else m <| commit_queue_ ::= (.++ [x]) |> <| commit_server_set_ ::= ({[ x ]} ∪.) |>.

(** The workers' next turn at the queue. *)
Definition pop (m : mgr) : option nat * mgr :=
  match commit_queue_ m with
  | [] => (None, m)
  | x :: queue => (Some x, m <| commit_queue_ := queue |> <| commit_server_set_ ::= (.∖ {[ x ]}) |>)
  end.

(** [close_raft_server]: the first entry of the server is erased. *)
Fixpoint erase_first (x : nat) (l : list nat) : list nat :=
  match l with [] => [] | y :: l => if decide (y = x) then l else y :: erase_first x l end.
Definition close_raft_server (x : nat) (m : mgr) : mgr :=
  if decide (x ∈ commit_queue_ m)
  then m <| commit_queue_ ::= erase_first x |> <| commit_server_set_ ::= (.∖ {[ x ]}) |>
  else m.

Definition at_worker (t : nat) (w : worker) (m : mgr) : mgr := m <| commit_workers_ ::= <[t := w]> |>.

(** The next part of worker [t]; who sleeps can always wake up, for it waits for
    no longer than a second. *)
Definition worker_part (t : nat) (fired : bool) (m : mgr) : option mgr :=
  w ← commit_workers_ m !! t;
  match w with
  | Sleeping => Some (at_worker t Pop m)
  | Pop =>
      let '(target, m) := pop m in
      Some (at_worker t match target with None => Sleeping | Some x => Test x end m)
  | Test x =>
      s ← servers m !! x;
      Some (at_worker t (if sm_commit_paused_ s then Pop else if has_work s then Exec x TryLock else Pop) m)
  | Exec x p =>
      s ← servers m !! x;
      let '(p, s) := exec_part t fired p s in
      Some (at_worker t match p with inl p => Exec x p | inr true => Pop | inr false => Requeue x end
              (m <| servers ::= <[x := s]> |>))
  | Requeue x => Some (at_worker t Pop (request_commit x m))
  end.

(** What the others do: [commit] in three parts, to set the index, to test
    whether there is work and to request; pause, resume and closing. *)
Inductive event :=
  | CommitSet (x : nat) (target last : Z) | Test_ (i : nat) | Request (i : nat)
  | Pause (x : nat) | Resume (x : nat) | Close (x : nat).

Definition happen (ev : event) (m : mgr) : option mgr :=
  match ev with
  | CommitSet x target last =>
      s ← servers m !! x;
      if decide (last_log_idx s ≤ last)
      then Some (m <| servers ::= <[x := set_target target last s]> |> <| callers ::= (.++ [Tests x]) |>)
      else None
  | Test_ i =>
      c ← callers m !! i;
      match c with
      | Tests x =>
          s ← servers m !! x;
          Some (m <| callers ::= if has_work s then <[i := Requests x]> else delete i |>)
      | Requests _ => None
      end
  | Request i =>
      c ← callers m !! i;
      match c with
      | Tests _ => None
      | Requests x => Some (request_commit x (m <| callers ::= delete i |>))
      end
  | Pause x => s ← servers m !! x; Some (m <| servers ::= <[x := s <| sm_commit_paused_ := true |>]> |>)
  | Resume x =>
      s ← servers m !! x;
      Some (m <| servers ::= <[x := s <| sm_commit_paused_ := false |>]> |> <| callers ::= (.++ [Requests x]) |>)
  | Close x =>
      s ← servers m !! x;
      Some (close_raft_server x (m <| servers ::= <[x := s <| stopping_ := true |>]> |>))
  end.

Definition start (logs : list (Z * Z * Z)) (workers : nat) : mgr :=
  Mgr ((λ '(commit_idx, start, last), new_srv commit_idx start last) <$> logs) [] ∅ (replicate workers Sleeping) [].

Inductive step : mgr → mgr → Prop :=
  | step_worker t fired m m' : worker_part t fired m = Some m' → step m m'
  | step_event ev m m' : happen ev m = Some m' → step m m'.
End GlobalMgr.
