(* ===== verification/WorkersThms.v ===== *)
(** * Theorems about the threads that commit

    No request to commit is lost by a server's own thread, nor by one worker that
    all servers share; two workers lose some, and a paused thread spins. *)
From S2P Require Import Prelude Workers.
Local Open Scope Z_scope.

(** ** What is left to commit *)
Definition left (s : srv) : nat := Z.to_nat ((quick_commit_index_ s `min` last_log_idx s) - sm_commit_index_ s).

Lemma has_work_left s : has_work s = true ↔ (0 < left s)%nat.
Proof. unfold has_work, left. rewrite andb_true_iff, !bool_decide_eq_true. lia. Qed.
Lemma no_work_left s : has_work s = false ↔ left s = O.
Proof. pose proof (has_work_left s). destruct (has_work s); split; try lia; naive_solver lia. Qed.

Lemma commit_left s : has_work s = true → left (s <| sm_commit_index_ ::= Z.succ |>) = pred (left s).
Proof. rewrite has_work_left. unfold left. cbn. lia. Qed.

(** What [exec_part] leaves as it is. *)
Definition same_orders (s s' : srv) : Prop :=
  quick_commit_index_ s' = quick_commit_index_ s ∧ last_log_idx s' = last_log_idx s ∧
  sm_commit_paused_ s' = sm_commit_paused_ s ∧ stopping_ s' = stopping_ s.

Lemma exec_orders t fired p s r s' : exec_part t fired p s = (r, s') → same_orders s s'.
Proof.
  unfold exec_part, same_orders. destruct p; repeat case_match; intros; simplify_eq; done.
Qed.

Lemma same_orders_left s s' :
  same_orders s s' → sm_commit_index_ s ≤ sm_commit_index_ s' → (left s' ≤ left s)%nat.
Proof. intros (Hq & Hl & _). unfold left. rewrite Hq, Hl. lia. Qed.

Lemma exec_index t fired p s r s' : exec_part t fired p s = (r, s') → sm_commit_index_ s ≤ sm_commit_index_ s'.
Proof. unfold exec_part. destruct p; repeat case_match; intros; simplify_eq/=; lia. Qed.

Lemma exec_left t fired p s r s' : exec_part t fired p s = (r, s') → (left s' ≤ left s)%nat.
Proof. intros H. eapply same_orders_left; [by eapply exec_orders|by eapply exec_index]. Qed.

(** Whether the thread has the lock there. *)
Definition holds (p : exec_pc) : bool := match p with TryLock => false | _ => true end.
Definition locked (s : srv) : bool := bool_decide (commit_lock_ s ≠ None).

Lemma exec_locked t fired p s r s' :
  locked s = holds p → exec_part t fired p s = (r, s') →
  locked s' = match r with inl p => holds p | inr _ => false end.
Proof.
  unfold exec_part, locked. destruct p; cbn; intros Hl ?; repeat case_match; simplify_eq/=; try done.
Qed.

Lemma set_target_same target last s :
  sm_commit_paused_ (set_target target last s) = sm_commit_paused_ s ∧
  stopping_ (set_target target last s) = stopping_ s ∧ locked (set_target target last s) = locked s.
Proof. unfold set_target. by case_decide. Qed.

(** What to know of both when their ranks are compared. *)
Lemma rank_cases s : has_work s = true ∧ (0 < left s)%nat ∨ has_work s = false ∧ left s = O.
Proof. destruct (has_work s) eqn:H; [left; by rewrite <- has_work_left|right; by rewrite <- no_work_left]. Qed.

(** ** The server's own thread *)
Module CommitThreadThms.
Import CommitThread.






Definition rank (t : thread) : nat :=
  let work := has_work (server t) in
  10 * left (server t) +
  match at_pc t with
  | Outer => if work then 4 else 7
  | WaitCheck => if work || stopping_ (server t) then 6 else 3
  | Asleep => 0
  | Awake => if work || stopping_ (server t) then 5 else 8
  | Exec TryLock => if work then 3 else 10
  | Exec (Loop _) => if work then 2 else 9
  | Exec (Unlock _) => if work then 5 else 8
  | Stopped => 0
  end.











End CommitThreadThms.

(** ** append_entries_in_bg *)
Module AppendThreadThms.
Import AppendThread.

(** What is not sent yet has a caller, the event, or a thread on its way to it. *)
Definition on_its_way (p : pc) : bool :=
  match p with ResetEvent | TestStop | AppendExec | Stopped => true | WaitEvent | TestAgain => false end.

Record pending (t : thread) : Prop := {
  pending_sent : sent_idx t ≤ last_log_idx t;
  pending_seen : sent_idx t < last_log_idx t → (0 < callers t)%nat ∨ event_ t = true ∨ on_its_way (at_pc t) = true
}.

Lemma pending_step t t' : pending t → step t t' → pending t'.
Proof.
  intros Hok Hstep. destruct Hstep as [t t' H|e t t' H]; destruct Hok as [Hle Hp];
    destruct t as [ev stop bst last sent cs p]; unfold thread_part, happen in H; cbn in Hle, Hp, H.
  - destruct p; [destruct ev| |destruct stop| |destruct stop|]; simplify_eq; split; cbn; try done; try lia;
      intros Hlt; try (by right; right); destruct (Hp Hlt) as [?|[?|?]]; auto.
  - destruct e; [case_decide|destruct cs| |destruct (_ && _)]; simplify_eq; split; cbn; try done; try lia; auto.
Qed.

(** Once the callers have invoked the event, the thread alone sends all that is
    stored within five parts; if it is to stop, it may have stopped instead. *)
Theorem append_thread_sends (last : Z) (t : thread) :
  rtc step (start last) t → callers t = O → at_pc t ≠ Stopped →
  (event_ t = true ∨ sent_idx t < last_log_idx t) →
  ∃ n t', (n ≤ 5)%nat ∧ nsteps (λ t t', thread_part t = Some t') n t t' ∧
    (if stopping_ t then append_bg_stopped_ t' = true ∨ sent_idx t' = last_log_idx t
     else sent_idx t' = last_log_idx t).
Proof.
  intros Hr Hc Hpc Hev.
  assert (pending t) as [Hle Hp].
  { assert (pending (start last)) as H0 by (split; cbn; lia).
    clear -Hr H0. induction Hr as [|t1 t2 t3 H _ IH]; [done|]. by eapply IH, pending_step. }
  assert (event_ t = true ∨ on_its_way (at_pc t) = true) as Hgo.
  { destruct Hev as [?|Hlt]; [by left|]. destruct (Hp Hlt) as [?|?]; [lia|done]. }
  clear Hp Hev Hle Hr. destruct t as [ev stop bst last' sent cs p]. cbn in *.
  destruct p; try done; destruct stop, ev;
    try (exfalso; naive_solver).
  all: first [ by eexists 0%nat, _; split_and!; [lia|constructor|cbn; tauto]
             | eexists 1%nat, _; split_and!; [lia|eapply nsteps_l; [done|constructor]|by cbn; tauto]
             | eexists 2%nat, _; split_and!; [lia|do 2 (eapply nsteps_l; [done|]); constructor|by cbn; tauto]
             | eexists 3%nat, _; split_and!; [lia|do 3 (eapply nsteps_l; [done|]); constructor|by cbn; tauto]
             | eexists 4%nat, _; split_and!; [lia|do 4 (eapply nsteps_l; [done|]); constructor|by cbn; tauto]
             | eexists 5%nat, _; split_and!; [lia|do 5 (eapply nsteps_l; [done|]); constructor|by cbn; tauto] ].
Qed.
End AppendThreadThms.

(** ** The shared workers *)
Module GlobalMgrThms.
Import GlobalMgr.

(** *** The queue and the set are one *)
Record queued (m : mgr) : Prop := {
  q_set : ∀ x, x ∈ commit_server_set_ m ↔ x ∈ commit_queue_ m;
  q_nodup : NoDup (commit_queue_ m)
}.

Lemma request_queued x m : queued m → queued (request_commit x m).
Proof.
  intros [Hs Hn]. unfold request_commit. case_decide as Hx; [done|]. split; cbn.
  - intros y. rewrite elem_of_app, list_elem_of_singleton. set_solver.
  - apply NoDup_app. split_and!; [done| |apply NoDup_singleton]. intros y Hy ->%list_elem_of_singleton. by apply Hx, Hs.
Qed.

Lemma elem_of_request x y m : queued m → y ∈ commit_queue_ (request_commit x m) ↔ y = x ∨ y ∈ commit_queue_ m.
Proof.
  intros [Hs _]. unfold request_commit. case_decide as Hx; cbn.
  - rewrite Hs in Hx. naive_solver.
  - rewrite elem_of_app, list_elem_of_singleton. naive_solver.
Qed.

Lemma elem_of_erase_first x y l : NoDup l → y ∈ erase_first x l ↔ y ∈ l ∧ y ≠ x.
Proof.
  induction 1 as [|z l Hz Hn IH]; cbn; [set_solver|]. case_decide as Hd.
  - subst z. rewrite elem_of_cons. split; [intros Hy; split; [by right|by intros ->]|naive_solver].
  - rewrite !elem_of_cons, IH. naive_solver.
Qed.

Lemma erase_nodup x l : NoDup l → NoDup (erase_first x l).
Proof.
  induction 1 as [|z l Hz Hn IH]; cbn; [constructor|]. case_decide; [done|]. constructor; [|done].
  rewrite elem_of_erase_first by done. naive_solver.
Qed.

Lemma close_queued x m : queued m → queued (close_raft_server x m).
Proof.
  intros [Hs Hn]. unfold close_raft_server. case_decide as Hx; [|done]. split; cbn.
  - intros y. rewrite elem_of_erase_first by done. rewrite elem_of_difference, elem_of_singleton, Hs. done.
  - by apply erase_nodup.
Qed.

Lemma pop_queued m : queued m → queued (pop m).2.
Proof.
  intros [Hs Hn]. unfold pop. destruct (commit_queue_ m) as [|x q] eqn:Hq; [split; cbn; by rewrite Hq|].
  apply NoDup_cons in Hn as [Hx Hn]. split; cbn; [|done]. intros y. set_solver.
Qed.

Lemma queued_workers m m' :
  commit_queue_ m' = commit_queue_ m → commit_server_set_ m' = commit_server_set_ m → queued m → queued m'.
Proof. intros Hq Hs [H1 H2]. by split; rewrite ?Hq, ?Hs. Qed.

Lemma queued_step m m' : queued m → step m m' → queued m'.
Proof.
  intros Hq Hs. revert Hq. destruct Hs as [t fired m m' H|ev m m' H]; intros Hq.
  - unfold worker_part in H. destruct (commit_workers_ m !! t) as [w|]; [|done]. cbn in H. destruct w.
    + simplify_eq. by eapply queued_workers; [..|exact Hq].
    + pose proof (pop_queued m Hq) as Hp. destruct (pop m) as [target m1]. simplify_eq.
      by eapply queued_workers; [..|exact Hp].
    + destruct (servers m !! x); [|done]. simplify_eq/=. by eapply queued_workers; [..|exact Hq].
    + destruct (servers m !! x) as [s|]; [|done]. cbn in H. destruct (exec_part t fired p s). simplify_eq/=.
      by eapply queued_workers; [..|exact Hq].
    + simplify_eq. eapply queued_workers; [..|by apply (request_queued x m)]; done.
  - unfold happen in H. destruct ev; cbn in H;
      try (destruct (servers m !! x) as [s|]; [|done]; cbn in H);
      try (destruct (callers m !! i) as [[]|]; [try done|try done|done]; cbn in H).
    + case_decide; [|done]. simplify_eq. by eapply queued_workers; [..|exact Hq].
    + destruct (servers m !! x); [|done]. simplify_eq/=. by eapply queued_workers; [..|exact Hq].
    + simplify_eq. apply request_queued. by eapply queued_workers; [..|exact Hq].
    + simplify_eq. by eapply queued_workers; [..|exact Hq].
    + simplify_eq. by eapply queued_workers; [..|exact Hq].
    + simplify_eq. apply close_queued. by eapply queued_workers; [..|exact Hq].
Qed.

Lemma queued_start logs n : queued (start logs n).
Proof. split; cbn; [set_solver|constructor]. Qed.

(** *** One worker *)

(** The server that the worker is to look at, and whether it will look at its
    indices again before it is done with it. *)
Definition target (w : worker) : option nat :=
  match w with Sleeping | Pop => None | Test x | Exec x _ | Requeue x => Some x end.
Definition looks (w : worker) : bool := match w with Exec _ (Unlock true) => false | _ => true end.

Definition waits (m : mgr) (x : nat) : Prop :=
  x ∈ commit_queue_ m ∨ Tests x ∈ callers m ∨ Requests x ∈ callers m.

Definition caller_srv (c : caller) : nat := match c with Tests x | Requests x => x end.

Record served (m : mgr) (w : worker) : Prop := {
  s_queued : queued m;
  s_queue : Forall (λ x, x < length (servers m))%nat (commit_queue_ m);
  s_target : ∀ x, target w = Some x → (x < length (servers m))%nat;
  s_lock : ∀ x s, servers m !! x = Some s →
           locked s = match w with Exec y p => bool_decide (x = y) && holds p | _ => false end;
  s_waits : ∀ x s, servers m !! x = Some s → has_work s = true → sm_commit_paused_ s = false →
            stopping_ s = false → waits m x ∨ target w = Some x ∧ looks w = true;
  s_callers : Forall (λ c, caller_srv c < length (servers m))%nat (callers m);
  s_workers : commit_workers_ m = [w]
}.

Lemma waits_request x y m : queued m → waits m y ∨ y = x → waits (request_commit x m) y.
Proof.
  intros Hq Hy. unfold waits. rewrite elem_of_request by done.
  assert (callers (request_commit x m) = callers m) as -> by (unfold request_commit; by case_decide).
  unfold waits in Hy. naive_solver.
Qed.

Lemma request_same x m :
  servers (request_commit x m) = servers m ∧ callers (request_commit x m) = callers m ∧
  commit_workers_ (request_commit x m) = commit_workers_ m.
Proof. unfold request_commit. by case_decide. Qed.

Lemma request_range x m n :
  Forall (λ x, x < n)%nat (commit_queue_ m) → (x < n)%nat → Forall (λ x, x < n)%nat (commit_queue_ (request_commit x m)).
Proof. intros. unfold request_commit. case_decide; [done|]. cbn. by apply Forall_app_2; [|constructor]. Qed.

(** The worker does not overlook work. *)
Lemma exec_looks t fired p s r s' (x : nat) (Q : Prop) :
  exec_part t fired p s = (r, s') → locked s = holds p → has_work s' = true → sm_commit_paused_ s' = false →
  (has_work s = true → Q ∨ looks (Exec x p) = true) →
  Q ∨ target match r with inl p => Exec x p | inr true => Pop | inr false => Requeue x end = Some x ∧
      looks match r with inl p => Exec x p | inr true => Pop | inr false => Requeue x end = true.
Proof.
  unfold locked. destruct p as [|first|[]]; cbn; intros He Hl Hw Hp HQ.
  - destruct (commit_lock_ s); [done|]. simplify_eq. by right.
  - destruct (has_work s) eqn:Hws; [|simplify_eq; congruence]. destruct (negb first && fired); [simplify_eq; by right|].
    destruct (sm_commit_paused_ s) eqn:Hps; [simplify_eq; congruence|]. simplify_eq. by right.
  - simplify_eq. destruct (HQ Hw); [by left|done].
  - simplify_eq. by right.
Qed.

Lemma served_worker fired m m' w :
  served m w → worker_part 0 fired m = Some m' → ∃ w', served m' w'.
Proof.
  intros [Hq Hr Ht Hl Hw Hc Hws] H.
  assert (queued m') as Hq' by by eapply queued_step, step_worker.
  unfold worker_part in H. rewrite Hws in H. cbn [mbind option_bind lookup list_lookup] in H. destruct w as [| |x|x p|x].
  - simplify_eq. exists Pop. split; try done; cbn. by rewrite Hws.
  - unfold pop in H. destruct (commit_queue_ m) as [|x q] eqn:Hqu; simplify_eq.
    + exists Sleeping. split; try done; cbn; [by rewrite Hqu|by rewrite Hws].
    + apply Forall_cons in Hr as [Hx Hr]. exists (Test x). split; try done; cbn; [by intros ? [= <-]| |by rewrite Hws].
      intros y s Hy Hwk Hp Hst. destruct (Hw y s Hy Hwk Hp Hst) as [[Hin|Hin]|[[=] _]].
      * rewrite Hqu in Hin. apply elem_of_cons in Hin as [->|Hin]; [by right|left; by left].
      * left. by right.
  - destruct (servers m !! x) as [s|] eqn:Hx; [|done]. cbn in H. simplify_eq.
    exists (if sm_commit_paused_ s then Pop else if has_work s then Exec x TryLock else Pop).
    split; try done; cbn; [| | |by rewrite Hws].
    + intros y Hy. apply Ht. by repeat case_match.
    + intros y s' Hy. rewrite (Hl y s' Hy). repeat case_match; try done. by rewrite andb_false_r.
    + intros y s' Hy Hwk Hp Hst. destruct (Hw y s' Hy Hwk Hp Hst) as [|[[= <-] _]]; [by left|].
      rewrite Hx in Hy. simplify_eq. right. by rewrite Hp, Hwk.
  - destruct (servers m !! x) as [s|] eqn:Hx; [|done]. cbn in H.
    destruct (exec_part 0 fired p s) as [r s'] eqn:He. simplify_eq.
    pose proof (exec_orders _ _ _ _ _ _ He) as (_ & _ & Hps & Hss).
    exists (match r with inl p => Exec x p | inr true => Pop | inr false => Requeue x end).
    split; try done; cbn.
    + by rewrite length_insert.
    + rewrite length_insert. intros y Hy. apply Ht. cbn. by destruct r as [|[]].
    + intros y s1 Hy. apply list_lookup_insert_Some in Hy as [(<- & <- & _)|[Hne Hy]].
      * pose proof (Hl x s Hx) as Hlx. rewrite bool_decide_eq_true_2 in Hlx by done.
        apply (exec_locked _ _ _ _ _ _ Hlx) in He. rewrite He. destruct r as [|[]]; [|done..].
        by rewrite bool_decide_eq_true_2.
      * rewrite (Hl y s1 Hy), bool_decide_eq_false_2 by done. destruct r as [|[]]; [|done..].
        by rewrite bool_decide_eq_false_2.
    + intros y s1 Hy Hwk Hp Hst. apply list_lookup_insert_Some in Hy as [(<- & <- & _)|[Hne Hy]].
      * apply (exec_looks 0 fired p s r s' x _ He); [by rewrite (Hl x s Hx), bool_decide_eq_true_2|done|done|].
        intros Hwks. rewrite Hps in Hp. rewrite Hss in Hst.
        destruct (Hw x s Hx Hwks Hp Hst) as [|[_ Hlk]]; [by left|by right].
      * destruct (Hw y s1 Hy Hwk Hp Hst) as [|[[= ->] _]]; [by left|done].
    + by rewrite length_insert.
    + by rewrite Hws.
  - simplify_eq. destruct (request_same x m) as (Hs & Hcs & Hwo). exists Pop. split; try done; cbn; rewrite ?Hs, ?Hcs, ?Hwo.
    + apply request_range; [done|by apply Ht].
    + done.
    + intros y s Hy Hwk Hp Hst. left. apply (waits_request x y m Hq).
      destruct (Hw y s Hy Hwk Hp Hst) as [|[[= <-] _]]; [by left|by right].
    + done.
    + by rewrite Hws.
Qed.

(** *** The others *)
Lemma elem_of_drop (y c : caller) (i : nat) (l : list caller) : l !! i = Some c → y ∈ l → y ≠ c → y ∈ delete i l.
Proof.
  intros Hi Hy Hne. rewrite delete_take_drop. apply list_elem_of_lookup in Hy as [j Hj].
  rewrite <- (take_drop_middle l i c Hi) in Hj. rewrite lookup_app_Some, lookup_cons_Some in Hj.
  rewrite elem_of_app. destruct Hj as [Hj|(_ & [[_ ->]|[_ Hj]])]; [left|done|right]; by eapply list_elem_of_lookup_2.
Qed.

(** One server changed, its orders and its lock as they were but for work, which
    somebody then waits for. *)
Lemma served_set x s s' (cs : list caller) m w :
  served m w → servers m !! x = Some s → locked s' = locked s →
  (∀ y, waits m y → waits (m <| callers := cs |>) y) →
  Forall (λ c, caller_srv c < length (servers m))%nat cs →
  (has_work s' = true → sm_commit_paused_ s' = false → stopping_ s' = false →
   waits (m <| callers := cs |>) x ∨ target w = Some x ∧ looks w = true) →
  served (m <| servers ::= <[x := s']> |> <| callers := cs |>) w.
Proof.
  intros [Hq Hr Ht Hl Hw Hc Hws] Hx Hlk Hcs Hrange Hs'. split; cbn; rewrite ?length_insert; try done.
  - by eapply queued_workers; [..|exact Hq].
  - intros y s1 [(<- & <- & _)|[_ Hy]]%list_lookup_insert_Some; [rewrite Hlk; by apply Hl|by apply Hl].
  - intros y s1 [(<- & <- & _)|[_ Hy]]%list_lookup_insert_Some Hwk Hp Hst.
    + by destruct (Hs' Hwk Hp Hst); [left|right].
    + destruct (Hw y s1 Hy Hwk Hp Hst) as [Hwt|]; [left; by apply Hcs|by right].
Qed.

Lemma waits_more m l y : waits m y → waits (m <| callers := callers m ++ l |>) y.
Proof. unfold waits. cbn. rewrite !elem_of_app. naive_solver. Qed.

Lemma callers_more m l :
  m <| callers ::= (.++ l) |> = m <| callers := callers m ++ l |>.
Proof. done. Qed.

Lemma caller_range m w i c : served m w → callers m !! i = Some c → (caller_srv c < length (servers m))%nat.
Proof. intros Hs Hi. exact (Forall_lookup_1 _ _ _ _ (s_callers _ _ Hs) Hi). Qed.

Lemma served_callers m w cs :
  served m w → Forall (λ c, caller_srv c < length (servers m))%nat cs →
  (∀ y s, servers m !! y = Some s → has_work s = true → waits m y → waits (m <| callers := cs |>) y) →
  served (m <| callers := cs |>) w.
Proof.
  intros [Hq Hr Ht Hl Hw Hc Hws] Hrange Hcs. split; cbn; try done.
  - by eapply queued_workers; [..|exact Hq].
  - intros y s Hy Hwk Hp Hst. destruct (Hw y s Hy Hwk Hp Hst); [left; by eapply Hcs|by right].
Qed.

Lemma served_event ev m m' w : served m w → happen ev m = Some m' → served m' w.
Proof.
  intros Hs H. pose proof (s_callers _ _ Hs) as Hc. pose proof (s_queued _ _ Hs) as Hq. unfold happen in H.
  destruct ev as [x tgt last0|i|i|x|x|x]; cbn in H;
    try (destruct (servers m !! x) as [s|] eqn:Hx; [|done]; pose proof (lookup_lt_Some _ _ _ Hx); cbn in H).
  - case_decide; [|done]. simplify_eq. destruct (set_target_same tgt last0 s) as (_ & _ & Hl).
    apply (served_set x s _ (callers m ++ [Tests x])); [done..| | |].
    + intros y. apply waits_more.
    + apply Forall_app_2; [done|]. by constructor.
    + intros _ _ _. left. right. left. cbn. apply elem_of_app. right. by left.
  - destruct (callers m !! i) as [[x|x]|] eqn:Hi; [|done..]. cbn in H. pose proof (caller_range _ _ _ _ Hs Hi) as Hx.
    destruct (servers m !! x) as [s|] eqn:Hsx; [|done]. cbn in H. simplify_eq. destruct (has_work s) eqn:Hwk.
    + apply (served_callers m w (<[i := Requests x]> (callers m))); [done|by apply Forall_insert|].
      intros y s1 Hy Hw1. unfold waits. cbn. intros [Hin|Hin]; [by left|right].
      assert (i < length (callers m))%nat as Hlt by by eapply lookup_lt_Some.
      assert (∀ c, c ∈ callers m → c ≠ Tests x → c ∈ <[i:=Requests x]> (callers m)) as Hother.
      { intros c [j Hj]%list_elem_of_lookup Hne. apply list_elem_of_lookup. exists j.
        rewrite list_lookup_insert_ne; [done|]. intros ->. congruence. }
      destruct Hin as [Hin|Hin]; [|right; by apply Hother].
      destruct (decide (y = x)) as [->|Hne]; [right|left; apply Hother; [done|congruence]].
      apply list_elem_of_lookup. exists i. by apply list_lookup_insert_eq.
    + apply (served_callers m w (delete i (callers m))); [done|by apply Forall_delete|].
      intros y s1 Hy Hw1. unfold waits. cbn. intros [Hin|[Hin|Hin]]; [by left|right; left|right; right].
      * eapply elem_of_drop; [done..|]. intros [= ->]. congruence.
      * by eapply elem_of_drop.
  - destruct (callers m !! i) as [[x|x]|] eqn:Hi; [done| |done]. cbn in H. pose proof (caller_range _ _ _ _ Hs Hi) as Hx.
    simplify_eq. destruct Hs as [_ Hr Ht Hl Hw _ Hws]. set (m1 := m <| callers ::= delete i |>).
    assert (queued m1) as Hq1 by by eapply queued_workers; [..|exact Hq].
    destruct (request_same x m1) as (Hss & Hcs & Hwo).
    split; rewrite ?Hss, ?Hcs, ?Hwo; cbn; try done; [by apply request_queued|by apply request_range| |by apply Forall_delete].
    intros y s Hy Hwk Hp Hst. destruct (Hw y s Hy Hwk Hp Hst) as [Hwt|]; [left|by right].
    apply waits_request; [done|]. destruct (decide (y = x)) as [->|Hne]; [by right|left].
    unfold waits in *. cbn. destruct Hwt as [|[Hin|Hin]]; [by left|right; left|right; right];
      (eapply elem_of_drop; [done..|congruence]).
  - simplify_eq. apply (served_set x s _ (callers m)); done.
  - simplify_eq. apply (served_set x s _ (callers m ++ [Requests x])); [done..| | |].
    + intros y. apply waits_more.
    + apply Forall_app_2; [done|]. by constructor.
    + intros _ _ _. left. right. right. cbn. apply elem_of_app. right. by left.
  - simplify_eq.
    assert (served (m <| servers ::= <[x := s <| stopping_ := true |>]> |>) w) as Hs1
      by by apply (served_set x s _ (callers m)).
    clear Hs. destruct Hs1 as [Hq1 Hr Ht Hl Hw Hc1 Hws]. unfold close_raft_server in *. case_decide as Hin; [|done].
    pose proof (close_queued x _ Hq1) as Hq2. unfold close_raft_server in Hq2. rewrite decide_True in Hq2 by done.
    split; cbn in *; try done.
    + apply Forall_forall. intros y Hy. apply elem_of_erase_first in Hy as [Hy _]; [|apply Hq1].
      rewrite Forall_forall in Hr. by apply Hr.
    + intros y s1 Hy Hwk Hp Hst. destruct (Hw y s1 Hy Hwk Hp Hst) as [[Hyq|Hyq]|]; [left|left; by right|by right].
      left. cbn. apply elem_of_erase_first; [apply Hq1|]. split; [done|]. intros ->.
      rewrite list_lookup_insert_eq in Hy by done. by simplify_eq/=.
Qed.

(** *** The worker alone *)
Fixpoint run_worker (fired : nat → bool) (k : nat) (m : mgr) : option mgr :=
  match k with O => Some m | S k => m ← worker_part 0 (fired O) m; run_worker (λ i, fired (S i)) k m end.

Definition worker_rank (w : worker) (queue : list nat) : nat :=
  match w with
  | Sleeping => match queue with [] => 0 | _ => 2 end
  | Pop => 1
  | Test _ => 9
  | Exec _ TryLock => 8
  | Exec _ (Loop true) => 7
  | Exec _ (Loop false) => 16
  | Exec _ (Unlock true) => 2
  | Exec _ (Unlock false) => 14
  | Requeue _ => 13
  end.
Definition rank (m : mgr) (w : worker) : nat :=
  20 * sum_list (left <$> servers m) + 10 * length (commit_queue_ m) + worker_rank w (commit_queue_ m).

Lemma exec_worker_rank fired p s r s' (x : nat) q :
  exec_part 0 fired p s = (r, s') →
  (20 * left s' + worker_rank match r with inl p => Exec x p | inr true => Pop | inr false => Requeue x end q <
   20 * left s + worker_rank (Exec x p) q)%nat.
Proof.
  intros He. pose proof (exec_left _ _ _ _ _ _ He) as Hle. destruct p as [|first|[]]; cbn in He.
  - destruct (commit_lock_ s); [|case_decide]; simplify_eq; cbn in *; lia.
  - destruct (rank_cases s) as [[Hw Hn]|[Hw Hn]]; rewrite Hw in He.
    + destruct first; cbn in He; [|destruct fired; [simplify_eq; cbn; lia|]];
        (destruct (sm_commit_paused_ s); [simplify_eq; cbn; lia|]);
        simplify_eq; rewrite (commit_left _ Hw); cbn; lia.
    + simplify_eq. destruct first; cbn; lia.
  - simplify_eq. cbn in *. lia.
  - simplify_eq. cbn in *. lia.
Qed.

Lemma worker_goes_on fired m w :
  served m w → ¬ (w = Sleeping ∧ commit_queue_ m = []) →
  ∃ m' w', worker_part 0 fired m = Some m' ∧ commit_workers_ m' = [w'] ∧ (rank m' w' < rank m w)%nat ∧
    callers m' = callers m ∧
    (∀ x s, servers m !! x = Some s → ∃ s', servers m' !! x = Some s' ∧ same_orders s s').
Proof.
  intros Hs Hno. destruct Hs as [Hq Hr Ht Hl Hw Hc Hws].
  assert (∀ x s, servers m !! x = Some s → ∃ s', servers m !! x = Some s' ∧ same_orders s s') as Hsame.
  { intros x s Hx. by exists s. }
  unfold worker_part. rewrite Hws. cbn [mbind option_bind lookup list_lookup]. destruct w as [| |x|x p|x].
  - eexists _, Pop. split; [done|]. cbn. rewrite Hws. split_and!; [done| |done|done].
    unfold rank. cbn. destruct (commit_queue_ m); [by destruct Hno|cbn; lia].
  - unfold pop. destruct (commit_queue_ m) as [|x q] eqn:Hqu; eexists _, _; (split; [done|]); cbn; rewrite Hws;
      (split_and!; [done| |done|done]); unfold rank; cbn; rewrite Hqu; cbn; lia.
  - destruct (servers m !! x) as [s|] eqn:Hx; [|specialize (Ht x eq_refl); apply lookup_lt_is_Some in Ht as [? ?]; congruence].
    cbn. eexists _, _. split; [done|]. cbn. rewrite Hws. split_and!; [done| |done|done].
    unfold rank. cbn. repeat case_match; cbn; lia.
  - destruct (servers m !! x) as [s|] eqn:Hx; [|specialize (Ht x eq_refl); apply lookup_lt_is_Some in Ht as [? ?]; congruence].
    cbn. destruct (exec_part 0 fired p s) as [r s'] eqn:He. eexists _, _. split; [done|]. cbn. rewrite Hws.
    split_and!; [done| |done|].
    + unfold rank. cbn. pose proof (exec_worker_rank _ _ _ _ _ x (commit_queue_ m) He). pose proof (sum_list_insert left _ _ _ s' Hx) as Hsum.
      cbn in *. lia.
    + intros y s1 Hy. destruct (decide (x = y)) as [<-|Hne].
      * exists s'. rewrite list_lookup_insert_eq by by eapply lookup_lt_Some. simplify_eq. split; [done|].
        by eapply exec_orders.
      * exists s1. by rewrite list_lookup_insert_ne.
  - eexists _, Pop. split; [done|]. cbn. destruct (request_same x m) as (Hs & Hcs & Hwo). rewrite Hs, Hcs, Hwo, Hws.
    split_and!; [done| |done|done]. unfold rank, request_commit.
    case_decide; cbn; rewrite ?length_app; cbn; lia.
Qed.

Lemma worker_comes_to_rest fired m w :
  served m w →
  ∃ k m', run_worker fired k m = Some m' ∧ (k ≤ rank m w)%nat ∧ served m' Sleeping ∧ commit_queue_ m' = [] ∧
    callers m' = callers m ∧
    (∀ x s, servers m !! x = Some s → ∃ s', servers m' !! x = Some s' ∧ same_orders s s').
Proof.
  remember (rank m w) as r eqn:Hr. revert fired m w Hr. induction (lt_wf r) as [r _ IH]. intros fired m w -> Hs.
  destruct (decide (w = Sleeping ∧ commit_queue_ m = [])) as [[-> Hq]|Hno].
  - exists O, m. split_and!; [done|lia|done..|]. intros x s Hx. by exists s.
  - destruct (worker_goes_on (fired O) m w Hs Hno) as (m1 & w1 & Hp & Hw1 & Hlt & Hc & Ho).
    destruct (served_worker _ _ _ _ Hs Hp) as [w1' Hs1].
    assert (w1' = w1) as -> by (pose proof (s_workers _ _ Hs1); congruence).
    destruct (IH _ Hlt (λ i, fired (S i)) m1 w1 eq_refl Hs1) as (k & m' & Hk & Hle & Hs' & Hq & Hc' & Ho').
    exists (S k), m'. split; [cbn; by rewrite Hp|]. split_and!; [lia|done..|congruence|].
    intros x s Hx. destruct (Ho x s Hx) as (s1 & Hx1 & H1). destruct (Ho' x s1 Hx1) as (s2 & Hx2 & H2).
    exists s2. split; [done|]. unfold same_orders in *. intuition congruence.
Qed.

Lemma served_start logs : served (start logs 1) Sleeping.
Proof.
  split; cbn; try done; [apply queued_start| |].
  - intros x s Hx. apply list_lookup_fmap_Some in Hx as ([[c f] l] & -> & _). done.
  - intros x s Hx Hw. apply list_lookup_fmap_Some in Hx as ([[c f] l] & -> & _).
    unfold has_work in Hw. cbn in Hw. rewrite andb_true_iff, !bool_decide_eq_true in Hw. lia.
Qed.

Lemma served_reachable logs m : rtc step (start logs 1) m → ∃ w, served m w.
Proof.
  intros Hr. assert (∃ w, served (start logs 1) w) as H0 by (eexists; apply served_start).
  induction Hr as [|m1 m2 m3 Hs _ IH]; [done|]. apply IH. destruct H0 as [w Hw].
  destruct Hs as [[|t] fired m1 m2 H|ev m1 m2 H].
  - by eapply served_worker.
  - unfold worker_part in H. by rewrite (s_workers _ _ Hw) in H.
  - exists w. by eapply served_event.
Qed.

(** C34: one worker that all servers share.  In every state that can be reached,
    by any order of the worker's parts, of those of the calls of commit and of
    pausing, resuming and closing: no server is in the queue twice, and the set
    has who is in the queue; and the worker alone, whenever its timer fires, comes
    within a bounded number of parts to sleep with an empty queue, when no server
    that is neither paused nor closed has anything to commit, unless somebody is
    yet to ask for it. *)
Theorem global_worker_keeps_up (logs : list (Z * Z * Z)) (m : mgr) :
  rtc step (start logs 1) m →
  NoDup (commit_queue_ m) ∧ (∀ x, x ∈ commit_server_set_ m ↔ x ∈ commit_queue_ m) ∧
  ∀ fired, ∃ k m',
    run_worker fired k m = Some m' ∧
    (k ≤ 20 * sum_list (left <$> servers m) + 10 * length (commit_queue_ m) + 16)%nat ∧
    commit_workers_ m' = [Sleeping] ∧ commit_queue_ m' = [] ∧ callers m' = callers m ∧
    ∀ x s, servers m !! x = Some s → ∃ s', servers m' !! x = Some s' ∧ same_orders s s' ∧
      (sm_commit_paused_ s = false → stopping_ s = false → has_work s' = true →
       Tests x ∈ callers m ∨ Requests x ∈ callers m).
Proof.
  intros [w Hs]%served_reachable. split_and!; [apply (s_queued _ _ Hs)|apply (s_queued _ _ Hs)|].
  intros fired. destruct (worker_comes_to_rest fired m w Hs) as (k & m' & Hk & Hle & Hs' & Hq & Hc & Ho).
  exists k, m'. split_and!; [done| |apply (s_workers _ _ Hs')|done|done|].
  - etrans; [exact Hle|]. unfold rank, worker_rank. repeat case_match; lia.
  - intros x s Hx. destruct (Ho x s Hx) as (s' & Hx' & Hord). exists s'. split_and!; [done..|].
    destruct Hord as (_ & _ & Hp & Hst). intros Hps Hss Hwk. rewrite <- Hc.
    destruct (s_waits _ _ Hs' x s' Hx' Hwk) as [[Hin|]|[[=] _]]; [congruence|congruence| |done].
    rewrite Hq in Hin. by apply not_elem_of_nil in Hin.
Qed.

(** With two workers a request can get lost: the second finds the lock taken by
    the first, which has looked at the indices for the last time. *)
Inductive turn := Works (t : nat) | Happens (ev : event).
Fixpoint run_turns (l : list turn) (m : mgr) : option mgr :=
  match l with
  | [] => Some m
  | Works t :: l => m ← worker_part t false m; run_turns l m
  | Happens ev :: l => m ← happen ev m; run_turns l m
  end.

Example two_workers_lose_commit :
  let asks target := map Happens [CommitSet 0 target 5; Test_ 0; Request 0] in
  let works t n := replicate n (Works t) in
  run_turns (asks 1 ++ works 0%nat 6%nat ++ asks 2 ++ works 1%nat 5%nat ++ works 0%nat 2%nat) (start [(0, 1, 5)] 2) =
    Some (Mgr [Srv 2 1 1 5 false false None] [] ∅ [Sleeping; Sleeping] []).
Proof. vm_compute. reflexivity. Qed.

Example global_worker_keeps_up_witness :
  let m := Mgr [Srv 2 0 1 5 false false None; new_srv 3 1 3] [0]%nat {[ 0%nat ]} [Sleeping] [] in
  rtc step (start [(0, 1, 5); (3, 1, 3)] 1) m ∧
  NoDup (commit_queue_ m) ∧ (∀ x, x ∈ commit_server_set_ m ↔ x ∈ commit_queue_ m) ∧
  ∃ k m', run_worker (λ _, true) k m = Some m' ∧ commit_queue_ m' = [].
Proof.
  intros m. assert (rtc step (start [(0, 1, 5); (3, 1, 3)] 1) m) as Hr.
  { eapply rtc_l; [by apply (step_event (CommitSet 0 2 5))|]. eapply rtc_l; [by apply (step_event (Test_ 0))|].
    eapply rtc_l; [by apply (step_event (Request 0))|]. reflexivity. }
  split; [exact Hr|].
  destruct (global_worker_keeps_up [(0, 1, 5); (3, 1, 3)] m Hr) as (H1 & H2 & H3). split; [done|]. split; [done|].
  destruct (H3 (λ _, true)) as (k & m' & Hk & _ & _ & Hq & _). by exists k, m'.
Defined.
End GlobalMgrThms.
