(* ===== verification/AutoForward.v ===== *)
(** * Requests of the application: src/handle_user_cmd.cxx

    A request goes to the server itself when it leads, and else, when
    auto-forwarding is on, over one of a few connections to the leader.  Module
    [UserCmd] has the requests and the choice, over the handlers of RaftDispatch;
    module [AutoForward] the connections, which many threads share: a state per
    order in which their parts run, a part being what is done under one lock. *)
From S2P Require Import Prelude Bytes Buffer BufferSpec BufferSerializer Wire RaftTypes.
From S2P Require Import LogEntry LogStore SrvState StateMgr RaftParams RaftMsg Peer RaftServer.
From S2P Require Import RaftRoles RaftClient RaftDispatch Async.
Local Open Scope Z_scope.

(** ** The requests, and where they go *)
Module UserCmd.

(** What [send_msg_to_leader] returns at once: a result, the result that a commit
    is to set, or a request that is to be forwarded. *)
Inductive sent :=
  | Given (result : option buffer) (accepted : bool) (code : cmd_result_code)
  | Committing (elem : positive)
  | Forward (leader_id : Z) (req : req_msg).

(** The response of the server itself; [others] is what happens while a blocking
    request waits for its commit. *)
Definition local_result (others : M unit) (resp : resp_msg) : M sent :=
  resp ← match rs_cb resp with
         | Some p => others ;; handle_cli_req_callback p resp
         | None => mret resp
         end;
  let result := if rs_accepted resp then rs_ctx resp else None in
  let elem := if rs_accepted resp then rs_async_cb resp else None in
  result ← match result with Some b => b ← lift (set_pos 0 b); mret (Some b) | None => mret None end;
  mret match elem with
       | Some p => Committing p
       | None => Given result (rs_accepted resp) (rs_result_code resp)
       end.

Definition send_msg_to_leader (x : ext_args) (others : M unit) (req : req_msg) : M sent :=
  s ← get;
  let leader_id := leader_ s in
  if decide (leader_id = -1) then mret (Given None false NOT_LEADER)
  else if decide (leader_id = id_ s) then
    resp ← process_req x req;
    match resp with
    | None => mret (Given None false BAD_REQUEST)
    | Some resp => local_result others resp
    end
  else if negb (auto_forwarding_ (params_ s)) then mret (Given None false NOT_LEADER)
  else mret (Forward leader_id req).

Definition user_req (type : msg_type) (entries : list log_entry) : req_msg :=
  ReqMsg 0 type 0 0 0 0 0 entries.

Definition add_srv (x : ext_args) (others : M unit) (srv : srv_config) : M sent :=
  junk ← asks junk_;
  buf ← lift (serialize_srv_config junk srv);
  log ← cs_new_entry 0 buf cluster_server 0;
  send_msg_to_leader x others (user_req add_server_request [log]).

Definition remove_srv (x : ext_args) (others : M unit) (srv_id : Z) : M sent :=
  junk ← asks junk_;
  buf ← lift (alloc junk sz_int);
  buf ← lift (put_int32 srv_id buf);
  buf ← lift (set_pos 0 buf);
  log ← cs_new_entry 0 buf cluster_server 0;
  send_msg_to_leader x others (user_req remove_server_request [log]).

(** The entries of the request; a buffer is rewound first. *)
Fixpoint app_entries (logs : list buffer) : M (list log_entry) :=
  match logs with
  | [] => mret []
  | buf :: logs =>
      buf ← lift (set_pos 0 buf);
      log ← cs_new_entry 0 buf app_log 0;
      rest ← app_entries logs;
      mret (log :: rest)
  end.

Definition append_entries_ext (x : ext_args) (others : M unit) (logs : list buffer) : M sent :=
  match logs with
  | [] => mret (Given None false OK)
  | _ =>
      entries ← app_entries logs;
      send_msg_to_leader x others (user_req client_request entries)
  end.
End UserCmd.

(** ** The connections to the leaders *)
Module AutoForward.
Section forward.
(** [Err] is what an rpc_exception says; the configuration has the servers
    [in_config]; a client may have been [abandoned]; [max_conns] and whether the
    server is in blocking mode come from the parameters. *)
Context {Err : Type} (in_config : Z → bool) (max_connections : Z) (is_blocking_mode : bool).

Definition cmd_result : Type := CmdResult.cmd_result (T := option buffer) (E := option Err) (H := unit).
Definition new_result : cmd_result := CmdResult.new_cmd_result None None.

(** [std::max(1, auto_forwarding_max_connections_)] *)
Definition max_conns : nat := Z.to_nat (1 `max` max_connections).

(** [auto_fwd_pkg]; clients are known by number. *)
Record auto_fwd_pkg := AutoFwdPkg {
  rpc_client_idle_ : list nat;
  rpc_client_in_use_ : list nat
}.
#[export] Instance auto_fwd_pkg_rebuild : Rebuild auto_fwd_pkg := λ p,
  AutoFwdPkg (rpc_client_idle_ p) (rpc_client_in_use_ p).
Definition new_pkg : auto_fwd_pkg := AutoFwdPkg [] [].

(** A request on its way: its package, its client and its number. *)
Record flight := Flight { f_pkg : nat; f_client : nat; f_req : nat }.

(** [choosing] are the calls that look for a client, with the leader they saw,
    their package and their request; [sending] and [flying] the requests whose
    client was told to send and those it did send; [releasing] the clients whose
    response was handled and that are yet to be released. *)
Record state := State {
  auto_fwd_pkgs_ : gmap Z nat;
  pkgs : list auto_fwd_pkg;
  auto_fwd_reqs_ : list nat;
  choosing : list (Z * nat * nat);
  sending : list flight;
  flying : list flight;
  releasing : list (nat * nat);
  results : list cmd_result;
  next_client : nat
}.
#[export] Instance state_rebuild : Rebuild state := λ s,
  State (auto_fwd_pkgs_ s) (pkgs s) (auto_fwd_reqs_ s) (choosing s) (sending s) (flying s) (releasing s)
    (results s) (next_client s).

Definition start : state := State ∅ [] [] [] [] [] [] [] 0.

(** The package of a leader, made when there is none. *)
Definition find_pkg (leader_id : Z) (s : state) : nat * state :=
  match auto_fwd_pkgs_ s !! leader_id with
  | Some k => (k, s)
  | None =>
      let k := length (pkgs s) in
      (k, s <| auto_fwd_pkgs_ ::= <[leader_id := k]> |> <| pkgs ::= (.++ [new_pkg]) |>)
  end.

(** The first part of forwarding a new request. *)
Definition forward (leader_id : Z) (s : state) : state :=
  let r := length (results s) in
  let '(k, s) := find_pkg leader_id s in
  s <| results ::= (.++ [new_result]) |> <| choosing ::= (.++ [(leader_id, k, r)]) |>.

(** [create_client] of the endpoint that the configuration has. *)
Definition create_client (leader_id : Z) (s : state) : outcome (nat * state) :=
  if in_config leader_id then Ok (next_client s, s <| next_client ::= S |>) else Fault (Undefined NullPointer).

Definition set_pkg (k : nat) (p : auto_fwd_pkg) (s : state) : state := s <| pkgs ::= <[k := p]> |>.

(** The choice of a client, under the lock of the package; [None] when a blocking
    call has to wait for one. *)
Definition choose (abandoned : nat → bool) (i : nat) (s : state) : outcome (option state) :=
  '(leader_id, k, r) ← or_ub DanglingPointer (choosing s !! i);
  p ← or_ub DanglingPointer (pkgs s !! k);
  let chosen := s <| choosing ::= delete i |> in
  let send c rest (s : state) :=
    set_pkg k (AutoFwdPkg rest (c :: rpc_client_in_use_ p)) s <| sending ::= (.++ [Flight k c r]) |> in
  match rpc_client_idle_ p with
  | [] =>
      if decide (length (rpc_client_idle_ p) + length (rpc_client_in_use_ p) < max_conns)%nat then
        '(c, s) ← create_client leader_id chosen;
        Ok (Some (send c [] s))
      else if is_blocking_mode then Ok None
      else Ok (Some (chosen <| auto_fwd_reqs_ ::= (.++ [r]) |>))
  | c :: rest =>
      '(c, s) ← (if abandoned c then create_client leader_id chosen else Ok (c, chosen));
      Ok (Some (send c rest s))
  end.

(** [rpc_cli->send] *)
Definition send (i : nat) (s : state) : option state :=
  f ← sending s !! i; Some (s <| sending ::= delete i |> <| flying ::= (.++ [f]) |>).

(** The first part of [auto_fwd_resp_handler]: [presult] is accepted and set; the
    code is the default one. *)
Definition set_presult (answer : resp_msg + Err) (presult : cmd_result) : cmd_result :=
  let '(resp_ctx, perr, presult) :=
    match answer with
    | inr err => (None, Some err, presult)
    | inl resp => if rs_accepted resp then (rs_ctx resp, None, CmdResult.accept presult) else (None, None, presult)
    end in
  (CmdResult.store_result resp_ctx perr (CmdResult.set_result_code OK presult)).2.

Definition respond (i : nat) (answer : resp_msg + Err) (s : state) : option state :=
  f ← flying s !! i;
  Some (s <| flying ::= delete i |> <| results ::= alter (set_presult answer) (f_req f) |>
          <| releasing ::= (.++ [(f_pkg f, f_client f)]) |>).

(** [put_back_to_idle_list] *)
Definition put_back (c : nat) (p : auto_fwd_pkg) : auto_fwd_pkg :=
  AutoFwdPkg (c :: rpc_client_idle_ p) (filter (.≠ c) (rpc_client_in_use_ p)).

(** [auto_fwd_release_rpc_cli], under the locks: the client goes back, or, when
    not in blocking mode, on to the next request in the queue. *)
Definition auto_fwd_release_rpc_cli (i : nat) (s : state) : option state :=
  '(k, c) ← releasing s !! i;
  p ← pkgs s !! k;
  let s := s <| releasing ::= delete i |> in
  Some (if is_blocking_mode then set_pkg k (put_back c p) s
        else match auto_fwd_reqs_ s with
             | [] => set_pkg k (put_back c p) s
             | r :: reqs => s <| auto_fwd_reqs_ := reqs |> <| sending ::= (.++ [Flight k c r]) |>
             end).

(** What [shutdown] does: the queue is cleared, then [cleanup_auto_fwd_pkgs]. *)
Definition shutdown (s : state) : state :=
  s <| auto_fwd_reqs_ := [] |> <| pkgs ::= fmap (λ _, new_pkg) |> <| auto_fwd_pkgs_ := ∅ |>.

(** One part of one thread of a server that is not shut down. *)
Inductive step : state → state → Prop :=
  | step_choose abandoned i s s' : choose abandoned i s = Ok (Some s') → step s s'
  | step_send i s s' : send i s = Some s' → step s s'
  | step_respond i answer s s' : respond i answer s = Some s' → step s s'
  | step_release i s s' : auto_fwd_release_rpc_cli i s = Some s' → step s s'.
Inductive step_new : state → state → Prop :=
  | step_old s s' : step s s' → step_new s s'
  | step_forward leader_id s : step_new s (forward leader_id s).
End forward.
End AutoForward.
