(* ===== verification/RpcClient.v ===== *)
(** * The client of a connection: asio_rpc_client of src/asio_service.cxx

    How a client connects, sends and reads its response: a state machine whose
    steps are the completion handlers of the asynchronous operations.  What is
    written and how a response is read is in RpcFrame; sockets, TLS, resolving
    and timers are asio's, so that which operation completes, and how, is open. *)
From S2P Require Import Prelude Bytes Buffer BufferSpec BufferSerializer LogEntry Crc32 RpcFrame.
Local Open Scope Z_scope.

Definition SEND_RETRY_MAX : Z := 6.

(** What an rpc_exception says. *)
Inductive failure :=
  | AbandonedClient | ConnectTimeout | CustomResolveFailed | ResolveFailed | ConnectFailed | HandshakeFailed
  | SendFailed | ReadFailed | BadResponse (why : client_failure).

(** A call of [send]: a number for its handler, the request, and the timeout. *)
Record job := Job { j_id : nat; j_req : rpc_req; j_timeout_ms : Z }.

(** An asynchronous operation under way, with what it is bound to. *)
Inductive operation :=
  | RetryWait (j : job)
  | CustomResolve (j : job)
  | Resolve (j : job)
  | Connect (j : job)
  | Handshake (j : job)
  | Write (j : job) (req_buf : list byte)
  | ReadHeader (j : job)
  | ReadBody (j : job) (size : Z) (rsp : rpc_resp) (flags : Z).
Definition job_of (op : operation) : job :=
  match op with
  | RetryWait j | CustomResolve j | Resolve j | Connect j | Handshake j | Write j _ | ReadHeader j
  | ReadBody j _ _ _ => j
  end.

(** [calls] are the calls of handlers so far; [timer_] is whether the operation
    timer runs.  [lost] are the requests whose handler an exception kept from
    being called: it leaves the completion handler, [worker_entry] catches it
    and goes on; or it leaves [send] to whoever called it. *)
Record client := Client {
  is_open : bool;
  attempting_conn_ : bool;
  ssl_ready_ : bool;
  num_send_fails_ : Z;
  abandoned_ : bool;
  socket_busy_ : bool;
  timer_ : bool;
  operations : list operation;
  calls : list (nat * (rpc_resp + failure));
  lost : list (nat * exn)
}.
#[export] Instance client_rebuild : Rebuild client := λ c,
  Client (is_open c) (attempting_conn_ c) (ssl_ready_ c) (num_send_fails_ c) (abandoned_ c) (socket_busy_ c)
    (timer_ c) (operations c) (calls c) (lost c).

Definition new_client : client := Client false false false 0 false false false [] [] [].

Section client.
Context (junk : nat → byte) (o : options) (ssl_enabled_ custom_resolver_ : bool).

Definition when_done (j : job) (result : rpc_resp + failure) (c : client) : client :=
  c <| calls ::= (.++ [(j_id j, result)]) |>.
Definition begin (op : operation) (c : client) : client := c <| operations ::= (.++ [op]) |>.

(** What an exception of [m] leaves behind: everything as it was.  An assertion
    ends the process. *)
Definition unless_thrown {A} (j : job) (c : client) (m : outcome A) (k : A → outcome client) : outcome client :=
  match m with
  | Fault (Exn assertion_failed) => throw assertion_failed
  | Fault (Exn e) => Ok (c <| lost ::= (.++ [(j_id j, e)]) |>)
  | _ => m ≫= k
  end.

Definition set_busy_flag (to : bool) (c : client) : outcome client :=
  if Bool.eqb (socket_busy_ c) to then throw assertion_failed else Ok (c <| socket_busy_ := to |>).

Definition retry_later (j : job) (c : client) : client :=
  begin (RetryWait j) (c <| num_send_fails_ ::= (λ n, u64 (n + 1)) |>).

Definition send (j : job) (c : client) : outcome client :=
  if abandoned_ c then Ok (when_done j (inr AbandonedClient) c)
  else if negb (is_open c) then
    if attempting_conn_ c then Ok (retry_later j c)
    else
      let c := c <| attempting_conn_ := true |> in
      Ok (begin (if custom_resolver_ then CustomResolve j else Resolve j) c)
  else if ssl_enabled_ && negb (ssl_ready_ c) then Ok (retry_later j c)
  else
    c ← set_busy_flag true c;
    let c := c <| num_send_fails_ := 0 |> in
    unless_thrown j c (encode_request junk o (j_req j)) (λ req_buf,
      let c := if decide (j_timeout_ms j ≠ 0) then c <| timer_ := true |> else c in
      Ok (begin (Write j req_buf) c)).

(** *** The completion handlers: [err] is whether there was an error *)

Definition send_retry (j : job) (err : bool) (c : client) : outcome client :=
  if err || bool_decide (SEND_RETRY_MAX ≤ num_send_fails_ c) then
    Ok (when_done j (inr ConnectTimeout) (c <| abandoned_ := true |>))
  else send j c.

Definition custom_resolved (j : job) (err : bool) (c : client) : client :=
  if err then when_done j (inr CustomResolveFailed) c else begin (Resolve j) c.
Definition resolved (j : job) (err : bool) (c : client) : client :=
  if err then when_done j (inr ResolveFailed) c else begin (Connect j) c.

Definition connected (j : job) (err : bool) (c : client) : outcome client :=
  if err then Ok (when_done j (inr ConnectFailed) (c <| abandoned_ := true |>))
  else if ssl_enabled_ then Ok (begin (Handshake j) c)
  else send j c.

Definition handle_handshake (j : job) (err : bool) (c : client) : outcome client :=
  if err then Ok (when_done j (inr HandshakeFailed) (c <| abandoned_ := true |>))
  else send j (c <| ssl_ready_ := true |>).

Definition sent (j : job) (err : bool) (c : client) : client :=
  if err then when_done j (inr SendFailed) (c <| timer_ := false |> <| abandoned_ := true |>)
  else begin (ReadHeader j) c.

(** The end of [response_read], which has allocated the buffer of the body, and
    of [ctx_read]. *)
Definition act (j : job) (a : client_action) (c : client) : outcome client :=
  match a with
  | Failed why => Ok (when_done j (inr (BadResponse why)) c)
  | RpcFrame.ReadCtx size rsp flags => Ok (begin (ReadBody j size rsp flags) c)
  | Received rsp =>
      c ← set_busy_flag false (c <| timer_ := false |>);
      Ok (when_done j (inl rsp) c)
  end.

Definition header_read (j : job) (err : bool) (resp_buf : list byte) (c : client) : outcome client :=
  if err then Ok (when_done j (inr ReadFailed) (c <| abandoned_ := true |>))
  else unless_thrown j c (response_read junk o (j_req j) resp_buf) (λ a, act j a c).

(** No error is looked at: [ctx_buf] is what the buffer then holds. *)
Definition body_read (j : job) (rsp : rpc_resp) (flags : Z) (ctx_buf : list byte) (c : client) : outcome client :=
  unless_thrown j c (b ← received junk ctx_buf; ctx_read junk o (j_req j) rsp flags b) (λ a, act j a c).

(** Operation [i] completes, with an error or not, and, when it reads, with
    [bytes] in its buffer. *)
Definition complete (i : nat) (err : bool) (bytes : list byte) (c : client) : outcome client :=
  op ← or_ub DanglingPointer (operations c !! i);
  let c := c <| operations ::= delete i |> in
  match op with
  | RetryWait j => send_retry j err c
  | CustomResolve j => Ok (custom_resolved j err c)
  | Resolve j => Ok (resolved j err c)
  | Connect j => connected j err (if err then c else c <| is_open := true |>)
  | Handshake j => handle_handshake j err c
  | Write j _ => Ok (sent j err c)
  | ReadHeader j => header_read j err bytes c
  | ReadBody j _ rsp flags => body_read j rsp flags bytes c
  end.

(** How many bytes the buffer of an operation has. *)
Definition to_read (op : operation) : Z :=
  match op with ReadHeader _ => RPC_RESP_HEADER_SIZE | ReadBody _ size _ _ => size | _ => 0 end.
Definition fills (i : nat) (bytes : list byte) (c : client) : Prop :=
  ∀ op, operations c !! i = Some op → Z.of_nat (length bytes) = to_read op.

(** A connection attempt opens the socket before it is through. *)
Definition open_socket (c : client) : option client :=
  if existsb (λ op, match op with Connect _ => true | _ => false end) (operations c)
  then Some (c <| is_open := true |>) else None.

(** [cancel_socket], when the operation timer fires: what is under way will
    complete with an error. *)
Definition cancel_socket (c : client) : option client :=
  if timer_ c then
    let c := c <| timer_ := false |> in
    Some (if is_open c then c <| abandoned_ := true |> else c)
  else None.

Inductive step : client → client → Prop :=
  | step_complete i err bytes c c' : fills i bytes c → complete i err bytes c = Ok c' → step c c'
  | step_open c c' : open_socket c = Some c' → step c c'
  | step_timer c c' : cancel_socket c = Some c' → step c c'.

(** A client that is given a request only when it has answered the one before,
    as a peer does it and the forwarding. *)
Inductive reachable : nat → client → Prop :=
  | reach_new : reachable 0 new_client
  | reach_step n c c' : reachable n c → step c c' → reachable n c'
  | reach_send n j c c' :
      reachable n c → operations c = [] → j_id j = n → send j c = Ok c' → reachable (S n) c'.
End client.
