(* ===== verification/RpcClientThms.v ===== *)
(** * Theorems about the client of a connection

    Whoever sends one request at a time gets one answer to each, soon, and the
    client is never found busy; but for what a damaged response leaves behind,
    and for what an exception takes with it. *)
From S2P Require Import Prelude Bytes Buffer BufferSpec BufferSerializer LogEntry Crc32 RpcFrame.
From S2P Require Import RpcFrameSpec RpcRespThms RpcClient.
Local Open Scope Z_scope.

(** What the socket has gone through when an operation is under way. *)
Definition uses_socket (op : operation) : bool :=
  match op with Write _ _ | ReadHeader _ | ReadBody _ _ _ _ => true | _ => false end.
Definition after_open (op : operation) : bool :=
  match op with Handshake _ => true | _ => uses_socket op end.
Definition bad_response (c : client) : Prop := ∃ k why, (k, inr (BadResponse why)) ∈ calls c.
(** Something went wrong that does not give the client up. *)
Definition troubled (c : client) : Prop := bad_response c ∨ lost c ≠ [].
Definition ids (c : client) : list nat :=
  (j_id ∘ job_of <$> operations c) ++ (fst <$> calls c) ++ (fst <$> lost c).

(** One operation at most is under way: [op]. *)
Definition fails_ok (op : option operation) (c : client) : Prop :=
  match op with
  | Some (RetryWait _) => 1 ≤ num_send_fails_ c ≤ SEND_RETRY_MAX
  | _ => abandoned_ c = true ∨ num_send_fails_ c = 0
  end.
(** The sizes that [response_read] begins to read. *)
Definition size_ok (op : option operation) : Prop :=
  match op with Some (ReadBody _ size _ _) => 0 < size < 0x80000000 | _ => True end.
Record calm (n : nat) (op : option operation) (c : client) : Prop := {
  m_ops : operations c = option_list op;
  m_ids : ids c ≡ₚ seq 0 n;
  m_attempt : is_open c = true ∨ op ≠ None → attempting_conn_ c = true;
  m_open : (∃ op', op = Some op' ∧ after_open op' = true) → is_open c = true;
  m_fails : fails_ok op c;
  m_busy : socket_busy_ c = true →
           (∃ op', op = Some op' ∧ uses_socket op' = true) ∨ abandoned_ c = true ∨ troubled c;
  m_used : (∃ op', op = Some op' ∧ uses_socket op' = true) → socket_busy_ c = true;
  m_size : size_ok op
}.

Definition rank (op : option operation) (c : client) : Z :=
  match op with
  | None => 0
  | Some (RetryWait _) => 20 - num_send_fails_ c
  | Some (CustomResolve _) => 8
  | Some (Resolve _) => 7
  | Some (Connect _) => 6
  | Some (Handshake _) => 5
  | Some (Write _ _) => 4
  | Some (ReadHeader _) => 3
  | Some (ReadBody _ _ _ _) => 2
  end.

Lemma rank_nonneg n op c : calm n op c → 0 ≤ rank op c.
Proof.
  intros Hc. pose proof (m_fails _ _ _ Hc) as Hf. unfold SEND_RETRY_MAX in Hf.
  destruct op as [[]|]; cbn in *; unfold SEND_RETRY_MAX in *; lia.
Qed.

Section client.
Context (junk : nat → byte) (o : options) (ssl custom : bool).
#[local] Notation send := (send junk o ssl custom).
#[local] Notation complete := (complete junk o ssl custom).

(** The state in which [send] is called for job [j]: nothing under way, and all
    but [j] among the requests. *)
Record sending (n : nat) (j : job) (c : client) : Prop := {
  d_ops : operations c = [];
  d_ids : j_id j :: ids c ≡ₚ seq 0 n;
  d_attempt : is_open c = true → attempting_conn_ c = true;
  d_fails : abandoned_ c = true ∨ 0 ≤ num_send_fails_ c < SEND_RETRY_MAX;
  d_tried : 0 < num_send_fails_ c → abandoned_ c = true ∨ attempting_conn_ c = true;
  d_busy : socket_busy_ c = true → abandoned_ c = true ∨ troubled c
}.

Lemma ids_begin op c : ids (begin op c) ≡ₚ j_id (job_of op) :: ids c.
Proof. unfold ids, begin. cbn. rewrite fmap_app. cbn. solve_Permutation. Qed.
Lemma ids_done j r c : ids (when_done j r c) ≡ₚ j_id j :: ids c.
Proof. unfold ids, when_done. cbn. rewrite fmap_app. cbn. solve_Permutation. Qed.
Definition lose (j : job) (e : exn) (c : client) : client := c <| lost ::= (.++ [(j_id j, e)]) |>.
Lemma ids_lose j e c : ids (lose j e c) ≡ₚ j_id j :: ids c.
Proof. unfold ids, lose. cbn. rewrite fmap_app. cbn. solve_Permutation. Qed.

(** What [unless_thrown] returns. *)
Lemma unless_thrown_Ok {A} j c (m : outcome A) k c' :
  unless_thrown j c m k = Ok c' →
  (∃ a, m = Ok a ∧ k a = Ok c') ∨ ∃ e, m = throw e ∧ e ≠ assertion_failed ∧ c' = lose j e c.
Proof.
  destruct m as [a|[[]| | |]]; cbn; intros H; simplify_eq; first [left; by eexists|right; by eexists].
Qed.

Lemma bad_more j r c : troubled c → troubled (when_done j r c).
Proof. intros [(k & why & Hin)|?]; [left|by right]. exists k, why. cbn. apply elem_of_app. by left. Qed.
Lemma lose_troubled j e c : troubled (lose j e c).
Proof. right. cbn. by destruct (lost c). Qed.

Lemma sending_done n j r c :
  sending n j c → abandoned_ c = true ∨ num_send_fails_ c = 0 → calm n None (when_done j r c).
Proof.
  intros [Ho Hi Ha Hf Ht Hb] Hab. split.
  - done.
  - by rewrite ids_done.
  - intros [?|?]; [by apply Ha|done].
  - by intros (? & ? & _).
  - done.
  - intros [?|?]%Hb; right; [by left|right; by apply bad_more].
  - by intros (? & ? & _).
  - done.
Qed.

(** A request that could not be encoded. *)
Lemma sending_lost n j e c :
  sending n j c → abandoned_ c = false → is_open c = true →
  calm n None (lose j e (c <| socket_busy_ := true |> <| num_send_fails_ := 0 |>)).
Proof.
  intros [Ho Hi Ha Hf Ht Hb] Hab Hop. split; try done.
  - by rewrite ids_lose.
  - intros _. by apply Ha.
  - by right.
  - intros _. right. right. apply lose_troubled.
Qed.

Lemma calm_begin n op c :
  j_id (job_of op) :: ids c ≡ₚ seq 0 n → operations c = [] →
  attempting_conn_ c = true → (after_open op = true → is_open c = true) → fails_ok (Some op) c →
  (socket_busy_ c = true → uses_socket op = true ∨ abandoned_ c = true ∨ troubled c) →
  (uses_socket op = true → socket_busy_ c = true) → size_ok (Some op) →
  calm n (Some op) (begin op c).
Proof.
  intros Hi Ho Ha Hop Hf Hb Hu Hsz. split.
  - unfold begin. cbn. by rewrite Ho.
  - by rewrite ids_begin.
  - done.
  - intros (op' & [= <-] & ?). by apply Hop.
  - destruct op; done.
  - intros [?|[?|?]]%Hb; [left; by eexists|right; by left|right; by right].
  - intros (op' & [= <-] & ?). by apply Hu.
  - done.
Qed.

Lemma retry_calm n j c :
  sending n j c → abandoned_ c = false → attempting_conn_ c = true →
  calm n (Some (RetryWait j)) (retry_later j c) ∧
  rank (Some (RetryWait j)) (retry_later j c) = 19 - num_send_fails_ c.
Proof.
  intros [Ho Hi Ha Hf Ht Hb] Hab Hatt. destruct Hf as [?|Hf]; [congruence|]. unfold SEND_RETRY_MAX in Hf.
  assert (u64 (num_send_fails_ c + 1) = num_send_fails_ c + 1) as Hu by (apply Z.mod_small; lia).
  split; [|unfold rank, retry_later; cbn; lia]. unfold retry_later. apply calm_begin; cbn; try done.
  - unfold SEND_RETRY_MAX. lia.
  - intros [?|?]%Hb; [right; by left|by right; right].
Qed.

Lemma send_calm n j c c' :
  sending n j c → send j c = Ok c' →
  ∃ op, calm n op c' ∧ rank op c' ≤ 8 `max` (19 - num_send_fails_ c) ∧
        (is_open c = true → (ssl = true → ssl_ready_ c = true) → rank op c' ≤ 4).
Proof.
  intros Hs Hsend. pose proof Hs as [Ho Hi Ha Hf Ht Hb]. unfold RpcClient.send in Hsend.
  destruct (abandoned_ c) eqn:Hab.
  { simplify_eq. exists None. split; [by apply sending_done; [|left]|]. cbn. lia. }
  destruct (is_open c) eqn:Hop; cbn in Hsend.
  - specialize (Ha eq_refl). destruct (ssl && negb (ssl_ready_ c)) eqn:Hssl.
    + simplify_eq. destruct (retry_calm n j c Hs Hab Ha) as [Hc Hr]. exists (Some (RetryWait j)).
      split; [done|]. rewrite Hr. split; [lia|]. intros _ Hready. apply andb_true_iff in Hssl as [H1 H2].
      by rewrite (Hready H1) in H2.
    + unfold set_busy_flag in Hsend. destruct (socket_busy_ c) eqn:Hbusy; [done|]. cbn in Hsend.
      apply unless_thrown_Ok in Hsend as [(buf & He & Hsend)|(e & He & _ & ->)].
      2:{ exists None. split; [by apply sending_lost|]. cbn. lia. }
      injection Hsend as <-. exists (Some (Write j buf)). split; [|cbn; lia].
      set (c1 := c <| socket_busy_ := true |> <| num_send_fails_ := 0 |>).
      destruct (decide (j_timeout_ms j ≠ 0)); (apply calm_begin; try done; [by right|by left]).
  - destruct (attempting_conn_ c) eqn:Hatt.
    + simplify_eq. destruct (retry_calm n j c Hs Hab Hatt) as [Hc Hr]. exists (Some (RetryWait j)).
      split; [done|]. rewrite Hr. split; [lia|done].
    + simplify_eq. destruct Hf as [?|Hf]; [congruence|].
      assert (num_send_fails_ c = 0) as H0.
      { destruct (decide (num_send_fails_ c = 0)) as [|Hne]; [done|]. destruct Ht; [lia|congruence..]. }
      exists (Some (if custom then CustomResolve j else Resolve j)). split; [|destruct custom; cbn; split; [lia|done|lia|done]].
      destruct custom; (apply calm_begin; try done; [by right|]);
        (intros [?|?]%Hb; [right; left; cbn; congruence|by right; right]).
Qed.

(** *** Completions *)
Lemma drop_only n op c :
  calm n (Some op) c → c <| operations ::= delete 0%nat |> = c <| operations := [] |>.
Proof. intros Hc. destruct c. pose proof (m_ops _ _ _ Hc) as Ho. cbn in Ho. by subst. Qed.

Lemma ids_only n op c : calm n (Some op) c → j_id (job_of op) :: ids (c <| operations := [] |>) ≡ₚ seq 0 n.
Proof. intros Hc. rewrite <- (m_ids _ _ _ Hc). unfold ids. by rewrite (m_ops _ _ _ Hc). Qed.

(** What is left of the client when an operation that does not use the socket
    completes. *)
Lemma calm_sending n op c :
  calm n (Some op) c → uses_socket op = false →
  match op with RetryWait _ => num_send_fails_ c < SEND_RETRY_MAX | _ => True end →
  sending n (job_of op) (c <| operations := [] |>).
Proof.
  intros Hc Hu Hf. pose proof (ids_only _ _ _ Hc) as Hi. destruct Hc as [Ho _ Ha Hop Hfl Hb Hus].
  split; cbn; try done.
  - intros _. apply Ha. by right.
  - destruct op; cbn in Hfl; destruct Hfl; unfold SEND_RETRY_MAX in *; try (by left); right; lia.
  - intros _. right. apply Ha. by right.
  - intros [(op' & [= <-] & ?)|?]%Hb; [congruence|done].
Qed.

Lemma calm_done n op j r c :
  calm n (Some op) c → job_of op = j → abandoned_ c = true ∨ num_send_fails_ c = 0 →
  (uses_socket op = true → abandoned_ c = true ∨ troubled (when_done j r c)) →
  calm n None (when_done j r (c <| operations := [] |>)).
Proof.
  intros Hc <- Hf Hu. pose proof (ids_only _ _ _ Hc) as Hi. destruct Hc as [Ho _ Ha Hop _ Hb Hus]. split; try done.
  - by rewrite ids_done.
  - intros [?|?]; [apply Ha; by left|done].
  - by intros (? & ? & _).
  - intros [(op' & [= <-] & H)|[H|H]]%Hb; right; [by apply Hu|by left|right]. exact (bad_more (job_of op) r c H).
  - by intros (? & ? & _).
Qed.

Lemma calm_lost n op e c :
  calm n (Some op) c → uses_socket op = true → calm n None (lose (job_of op) e (c <| operations := [] |>)).
Proof.
  intros Hc Hu. pose proof (ids_only _ _ _ Hc) as Hi. pose proof (m_fails _ _ _ Hc) as Hf.
  destruct Hc as [Ho _ Ha Hop _ Hb Hus]. split; try done.
  - by rewrite ids_lose.
  - intros [?|?]; [apply Ha; by left|done].
  - by intros (? & ? & _).
  - by destruct op.
  - intros _. right. right. apply lose_troubled.
  - by intros (? & ? & _).
Qed.

Lemma act_calm n op j a c c' :
  calm n (Some op) c → uses_socket op = true → job_of op = j →
  match a with ReadCtx size _ _ => 0 < size < 0x80000000 | _ => True end →
  act j a (c <| operations := [] |>) = Ok c' →
  ∃ op', calm n op' c' ∧ rank op' c' ≤ 2 ∧ (op' = None ∨ ∃ size rsp flags, a = ReadCtx size rsp flags).
Proof.
  intros Hc Hu Hj Hsz Ha. pose proof (ids_only _ _ _ Hc) as Hi. rewrite Hj in Hi.
  assert (abandoned_ c = true ∨ num_send_fails_ c = 0) as Hf by (pose proof (m_fails _ _ _ Hc); by destruct op).
  pose proof (m_used _ _ _ Hc (ex_intro _ op (conj eq_refl Hu))) as Hbusy.
  destruct a as [why|size rsp flags|rsp]; unfold act in Ha.
  - simplify_eq. exists None. split; [|split; [cbn; lia|by left]]. eapply calm_done; [done|done|done|].
    intros _. right. left. exists (j_id (job_of op)), why. cbn. apply elem_of_app. right. by left.
  - simplify_eq. exists (Some (ReadBody (job_of op) size rsp flags)). split; [|split; [cbn; lia|right; by eexists _, _, _]].
    destruct Hc as [Ho _ Hat Hop _ Hb Hus]. apply calm_begin; cbn; try done.
    + apply Hat. by right.
    + intros _. apply Hop. exists op. split; [done|]. by destruct op.
    + by left.
  - unfold set_busy_flag in Ha. replace (socket_busy_ _) with true in Ha by done.
    cbn [Bool.eqb] in Ha. rewrite bind_ret in Ha. injection Ha as <-.
    exists None. split; [|split; [cbn; lia|by left]]. destruct Hc as [Ho _ Hat Hop _ Hb Hus]. split; try done.
    + by rewrite ids_done.
    + intros [?|?]; [apply Hat; by left|done].
    + by intros (? & ? & _).
    + by intros (? & ? & _).
Qed.

Lemma calm_abandon n op c : calm n op c → calm n op (c <| abandoned_ := true |>).
Proof.
  intros [Ho Hi Ha Hop Hf Hb Hu]. split; try done.
  - destruct op as [[]|]; cbn in *; auto.
  - intros [?|[?|?]]%Hb; [by left|by right; left|by right; right].
Qed.

Lemma calm_not_retry n op c :
  calm n (Some op) c → (∀ j, op ≠ RetryWait j) → abandoned_ c = true ∨ num_send_fails_ c = 0.
Proof. intros Hc Hno. pose proof (m_fails _ _ _ Hc) as Hf. destruct op; cbn in Hf; naive_solver. Qed.

(** Two operations that only lead to the next. *)
Lemma calm_next n op op' c :
  calm n (Some op) c → job_of op' = job_of op → (∀ j, op ≠ RetryWait j) → (∀ j, op' ≠ RetryWait j) →
  (after_open op' = true → after_open op = true ∨ is_open c = true) → uses_socket op' = uses_socket op → size_ok (Some op') →
  calm n (Some op') (begin op' (c <| operations := [] |>)).
Proof.
  intros Hc Hj Hn Hn' Ho Hu Hsz. pose proof (ids_only _ _ _ Hc) as Hi. pose proof (calm_not_retry _ _ _ Hc Hn) as Hf.
  destruct Hc as [Hops _ Ha Hop _ Hb Hus]. apply calm_begin; cbn; try done.
  - by rewrite Hj.
  - apply Ha. by right.
  - intros [H|H]%Ho; [apply Hop; by eexists|done].
  - destruct op'; cbn; try done. by destruct (Hn' j).
  - intros [(? & [= <-] & ?)|[?|?]]%Hb; [left; congruence|by right; left|by right; right].
  - rewrite Hu. intros ?. apply Hus. by eexists.
Qed.

Lemma calm_opened n op c : calm n (Some op) c → after_open op = false → calm n (Some op) (c <| is_open := true |>).
Proof.
  intros [Hops Hi Ha Hop Hf Hb Hu] _. split; try done.
  all: intros _; apply Ha; by right.
Qed.

Lemma abandon_drop c :
  c <| operations := [] |> <| abandoned_ := true |> = c <| abandoned_ := true |> <| operations := [] |>.
Proof. by destruct c. Qed.

Lemma open_drop c : c <| operations := [] |> <| is_open := true |> = c <| is_open := true |> <| operations := [] |>.
Proof. by destruct c. Qed.
Lemma ready_drop c : c <| operations := [] |> <| ssl_ready_ := true |> = c <| ssl_ready_ := true |> <| operations := [] |>.
Proof. by destruct c. Qed.

Lemma complete_calm n op i err bytes c c' :
  calm n op c → fills i bytes c → complete i err bytes c = Ok c' → ∃ op', calm n op' c' ∧ 0 ≤ rank op' c' < rank op c.
Proof.
  intros Hc Hfill Hcomp. unfold RpcClient.complete, fills in *. rewrite (m_ops _ _ _ Hc) in Hcomp, Hfill.
  destruct op as [op|]; [|done]. destruct i as [|i]; [|done]. specialize (Hfill op eq_refl).
  change (or_ub DanglingPointer (option_list (Some op) !! 0%nat)) with (Ok op) in Hcomp.
  rewrite bind_ret, (drop_only n op c Hc) in Hcomp. cbv zeta in Hcomp.
  destruct op as [j|j|j|j|j|j buf|j|j size rsp flags].
  - pose proof (m_fails _ _ _ Hc) as Hf. cbn in Hf. unfold send_retry in Hcomp. cbn in Hcomp.
    unfold SEND_RETRY_MAX in *. destruct (err || bool_decide _) eqn:He.
    + simplify_eq. exists None. split; [|cbn; lia].
      rewrite abandon_drop. apply (calm_done n (RetryWait j) j (inr ConnectTimeout) (c <| abandoned_ := true |>)); [by apply calm_abandon|done|by left|done].
    + apply orb_false_iff in He as [_ He%bool_decide_eq_false_1].
      destruct (send_calm n j _ c' (calm_sending n (RetryWait j) c Hc eq_refl ltac:(cbn; unfold SEND_RETRY_MAX; lia)) Hcomp)
        as (op' & Hc' & Hr & _).
      exists op'. split; [done|]. split; [by eapply rank_nonneg|]. cbn in *. lia.
  - unfold custom_resolved in Hcomp. destruct err; simplify_eq.
    + exists None. split; [|cbn; lia]. by apply (calm_done n (CustomResolve j)); [|done|eapply calm_not_retry|].
    + exists (Some (Resolve j)). split; [by eapply calm_next|cbn; lia].
  - unfold resolved in Hcomp. destruct err; simplify_eq.
    + exists None. split; [|cbn; lia]. by apply (calm_done n (Resolve j)); [|done|eapply calm_not_retry|].
    + exists (Some (Connect j)). split; [by eapply calm_next|cbn; lia].
  - unfold connected in Hcomp. destruct err; [simplify_eq|].
    2: destruct (bool_decide_reflect (ssl = true)) as [Hssl|Hssl%not_true_is_false].
    2: replace ssl with true in Hcomp by done; simplify_eq.
    + exists None. split; [|cbn; lia].
      rewrite abandon_drop. by apply (calm_done n (Connect j) j (inr ConnectFailed) (c <| abandoned_ := true |>)); [apply calm_abandon| |left|].
    + exists (Some (Handshake j)). split; [|cbn; lia].
      rewrite open_drop. apply (calm_next n (Connect j) (Handshake j) (c <| is_open := true |>)); [by apply calm_opened|done..|by right|done|done].
    + replace (if ssl then _ else _) with (send j (c <| operations := [] |> <| is_open := true |>)) in Hcomp by by rewrite Hssl.
      rewrite open_drop in Hcomp. destruct (send_calm n j _ c' (calm_sending n (Connect j) _ (calm_opened n _ c Hc eq_refl) eq_refl I) Hcomp)
        as (op' & Hc' & _ & Hr).
      exists op'. split; [done|]. split; [by eapply rank_nonneg|]. cbn [rank].
      enough (rank op' c' ≤ 4) by lia. apply Hr; [done|congruence].
  - unfold handle_handshake in Hcomp. destruct err; [simplify_eq|].
    + exists None. split; [|cbn; lia].
      rewrite abandon_drop. by apply (calm_done n (Handshake j) j (inr HandshakeFailed) (c <| abandoned_ := true |>)); [apply calm_abandon| |left|].
    + assert (calm n (Some (Handshake j)) (c <| ssl_ready_ := true |>)) as Hc2 by by destruct Hc.
      rewrite ready_drop in Hcomp.
      destruct (send_calm n j _ c' (calm_sending n (Handshake j) _ Hc2 eq_refl I) Hcomp) as (op' & Hc' & _ & Hr).
      exists op'. split; [done|]. split; [by eapply rank_nonneg|]. cbn [rank].
      enough (rank op' c' ≤ 4) by lia. apply Hr; [|done]. apply (m_open _ _ _ Hc). by eexists.
  - unfold sent in Hcomp. destruct err; simplify_eq.
    + exists None. split; [|cbn; lia].
      replace (update timer_ _ _) with (c <| timer_ := false |> <| operations := [] |>) by by destruct c.
      rewrite abandon_drop.
      apply (calm_done n (Write j buf) j (inr SendFailed) (c <| timer_ := false |> <| abandoned_ := true |>));
        [apply calm_abandon; by destruct Hc|done|by left|by left].
    + exists (Some (ReadHeader j)). split; [|cbn; lia]. eapply (calm_next n (Write j buf)); by auto.
  - unfold header_read in Hcomp. destruct err; [simplify_eq|].
    + exists None. split; [|cbn; lia].
      rewrite abandon_drop. by apply (calm_done n (ReadHeader j) j (inr ReadFailed) (c <| abandoned_ := true |>)); [apply calm_abandon| |left|left].
    + apply unless_thrown_Ok in Hcomp as [(a & Ha & Hcomp)|(e & _ & _ & ->)].
      2:{ exists None. split; [by apply (calm_lost n (ReadHeader j))|]. cbn. lia. }
      destruct (act_calm n (ReadHeader j) j a c c' Hc eq_refl eq_refl) as (op' & Hc' & Hr & _); [|done|].
      { destruct (response_read_total junk o (j_req j) bytes) as [(? & H)|(a' & H & ?)]; [|congruence|].
        - apply Nat2Z.inj. by rewrite Hfill.
        - rewrite Ha in H. by injection H as ->. }
      exists op'. split; [done|]. split; [by eapply rank_nonneg|]. cbn [rank]. lia.
  - unfold body_read in Hcomp. pose proof (m_size _ _ _ Hc) as Hsz. cbn in Hsz, Hfill.
    assert (fits bytes) as Hf by (unfold fits; lia).
    rewrite received_spec, bind_ret in Hcomp by done.
    apply unless_thrown_Ok in Hcomp as [(a & Ha & Hcomp)|(e & _ & _ & ->)].
    2:{ exists None. split; [by apply (calm_lost n (ReadBody j size rsp flags))|]. cbn. lia. }
    assert (∀ size' rsp' flags', a ≠ ReadCtx size' rsp' flags') as Hend.
    { destruct (ctx_read_total junk o (j_req j) rsp flags bytes Hf) as [(? & H)|(a' & H & ?)]; [congruence|].
      rewrite Ha in H. by injection H as ->. }
    destruct (act_calm n (ReadBody j size rsp flags) j a c c' Hc eq_refl eq_refl) as (op' & Hc' & Hr & Hop'); [|done|].
    { destruct a; try done. by destruct (Hend _ _ _ eq_refl). }
    exists op'. split; [done|]. split; [by eapply rank_nonneg|]. cbn [rank].
    destruct Hop' as [->|(sz' & rsp' & flags' & ->)]; [cbn; lia|]. by destruct (Hend _ _ _ eq_refl).
Qed.

(** *** All that can be reached *)
Lemma open_calm n op c c' : calm n op c → open_socket c = Some c' → calm n op c'.
Proof.
  unfold open_socket. intros Hc H. rewrite (m_ops _ _ _ Hc) in H. destruct op as [op|]; [|done].
  destruct op; try done. injection H as <-. by apply calm_opened.
Qed.

Lemma cancel_calm n op c c' : calm n op c → cancel_socket c = Some c' → calm n op c'.
Proof.
  unfold cancel_socket. intros Hc H. destruct (timer_ c); [|done]. injection H as <-.
  assert (calm n op (c <| timer_ := false |>)) as Hc1 by by destruct Hc.
  case_match; [by apply calm_abandon|done].
Qed.

Lemma calm_reachable n c : reachable junk o ssl custom n c → ∃ op, calm n op c.
Proof.
  induction 1 as [|n c c' _ [op Hc] Hs|n j c c' _ [op Hc] Hops Hj Hsend].
  - exists None. split; try done; cbn; naive_solver.
  - destruct Hs as [i err bytes c c' Hfill H|c c' H|c c' H].
    + destruct (complete_calm _ _ _ _ _ _ _ Hc Hfill H) as (op' & Hc' & _). by exists op'.
    + exists op. by eapply open_calm.
    + exists op. by eapply cancel_calm.
  - assert (op = None) as ->.
    { pose proof (m_ops _ _ _ Hc) as Ho. rewrite Hops in Ho. by destruct op. }
    destruct Hc as [_ Hi Ha _ Hf Hb _ _]. destruct (send_calm (S n) j c c') as (op & Hc & _); [|done|by exists op].
    split; try done.
    + rewrite Hi, Hj, seq_S. cbn. by rewrite Permutation_app_comm.
    + intros Ho. apply Ha. by left.
    + cbn in Hf. unfold SEND_RETRY_MAX. destruct Hf; [by left|right; lia].
    + cbn in Hf. intros ?. destruct Hf; [by left|lia].
    + intros [(? & ? & _)|?]%Hb; done.
Qed.

Definition completes (c c' : client) : Prop :=
  ∃ i err bytes, fills i bytes c ∧ complete i err bytes c = Ok c'.

Lemma completes_calm k n op c c' :
  calm n op c → nsteps completes k c c' → ∃ op', calm n op' c' ∧ Z.of_nat k + rank op' c' ≤ rank op c.
Proof.
  intros Hc Hk. revert op Hc. induction Hk as [|k c c1 c' (i & err & bytes & Hfill & H) _ IH]; intros op Hc.
  - exists op. split; [done|lia].
  - destruct (complete_calm _ _ _ _ _ _ _ Hc Hfill H) as (op1 & Hc1 & Hr).
    destruct (IH op1 Hc1) as (op' & Hc' & Hr'). exists op'. split; [done|lia].
Qed.

Lemma rank_bound n op c : calm n op c → rank op c ≤ 19.
Proof. intros Hc. pose proof (m_fails _ _ _ Hc) as Hf. destruct op as [[]|]; cbn in *; lia. Qed.

(** *** What is lost *)
Definition thrown (j : job) (e : exn) : Prop :=
  encode_request junk o (j_req j) = throw e ∨
  (∃ hdr, Z.of_nat (length hdr) = RPC_RESP_HEADER_SIZE ∧ response_read junk o (j_req j) hdr = throw e) ∨
  ∃ rsp flags bytes, (b ← received junk bytes; ctx_read junk o (j_req j) rsp flags b) = throw e.
Definition accounted (c : client) : Prop := ∀ k e, (k, e) ∈ lost c → ∃ j, j_id j = k ∧ thrown j e.

Lemma accounted_keep c c' : lost c' = lost c → accounted c → accounted c'.
Proof. unfold accounted. by intros ->. Qed.
Lemma accounted_lose j e c : thrown j e → accounted c → accounted (lose j e c).
Proof. intros He Hc k e' [H|[= -> ->]%list_elem_of_singleton]%elem_of_app; [by apply Hc|by exists j]. Qed.

Lemma either_result {A} (b : bool) (m1 m2 r : A) : (if b then m1 else m2) = r → m1 = r ∨ m2 = r.
Proof. destruct b; [by left|by right]. Qed.

Lemma send_accounted j c c' : send j c = Ok c' → accounted c → accounted c'.
Proof.
  unfold RpcClient.send. intros H. destruct (abandoned_ c); [simplify_eq; by apply accounted_keep|].
  destruct (negb (is_open c)).
  { destruct (attempting_conn_ c); simplify_eq; by apply accounted_keep. }
  destruct (ssl && negb (ssl_ready_ c)); [simplify_eq; by apply accounted_keep|].
  unfold set_busy_flag in H. destruct (Bool.eqb _ _); [done|]. cbn in H.
  apply unless_thrown_Ok in H as [(buf & _ & [= <-])|(e & He & _ & ->)].
  - case_match; by apply accounted_keep.
  - intros ?. apply accounted_lose; [by left|done].
Qed.

Lemma act_accounted j a c c' : act j a c = Ok c' → accounted c → accounted c'.
Proof.
  destruct a; cbn; intros H; simplify_eq; try (by apply accounted_keep).
  unfold set_busy_flag in H. case_match; [done|]. cbn in H. simplify_eq. by apply accounted_keep.
Qed.

Lemma complete_accounted i err bytes c c' :
  fills i bytes c → complete i err bytes c = Ok c' → accounted c → accounted c'.
Proof.
  unfold RpcClient.complete. intros Hfill H Hc. apply bind_Ok in H as (op & Hop%or_ub_Ok & H).
  specialize (Hfill op Hop). set (c0 := c <| operations ::= delete i |>) in *.
  assert (accounted c0) as Hc0 by done. clearbody c0. destruct op as [j|j|j|j|j|j buf|j|j size rsp flags].
  - unfold send_retry in H. case_match; [simplify_eq; by eapply accounted_keep|by eapply send_accounted].
  - unfold custom_resolved in H. case_match; simplify_eq; by eapply accounted_keep.
  - unfold resolved in H. case_match; simplify_eq; by eapply accounted_keep.
  - destruct err; [unfold connected in H; simplify_eq; by eapply accounted_keep|].
    apply either_result in H as [H|H]; [simplify_eq; by eapply accounted_keep|].
    eapply send_accounted; [done|by eapply accounted_keep].
  - unfold handle_handshake in H. case_match; simplify_eq; [by eapply accounted_keep|].
    eapply send_accounted; [done|by eapply accounted_keep].
  - unfold sent in H. case_match; simplify_eq; by eapply accounted_keep.
  - unfold header_read in H. case_match; [simplify_eq; by eapply accounted_keep|].
    apply unless_thrown_Ok in H as [(a & _ & H)|(e & He & _ & ->)]; [by eapply act_accounted|].
    apply accounted_lose; [|done]. right. left. by exists bytes.
  - unfold body_read in H.
    apply unless_thrown_Ok in H as [(a & _ & H)|(e & He & _ & ->)]; [by eapply act_accounted|].
    apply accounted_lose; [|done]. right. right. by exists rsp, flags, bytes.
Qed.

Lemma accounted_reachable n c : reachable junk o ssl custom n c → accounted c.
Proof.
  induction 1 as [|n c c' _ IH Hs|n j c c' _ IH Hops Hj Hsend].
  - intros k e H. by apply elem_of_nil in H.
  - destruct Hs as [i err bytes c c' Hfill H|c c' H|c c' H].
    + by eapply complete_accounted.
    + unfold open_socket in H. case_match; simplify_eq. by eapply accounted_keep.
    + unfold cancel_socket in H. repeat case_match; simplify_eq; by eapply accounted_keep.
  - by eapply send_accounted.
Qed.

(** *** What ends the process *)
Lemma unless_thrown_Fault {A} j c (m : outcome A) k f :
  unless_thrown j c m k = Fault f → (∃ a, m = Ok a ∧ k a = Fault f) ∨ m = Fault f ∧ ∀ e, f = Exn e → e = assertion_failed.
Proof.
  destruct m as [a|[[]| | |]]; cbn; intros H; simplify_eq; (left; by eexists) || (right; split; [done|]; by intros ? [= <-]).
Qed.

Lemma send_fault j c f :
  send j c = Fault f →
  (f = Exn assertion_failed ∧ socket_busy_ c = true ∧ abandoned_ c = false) ∨
  encode_request junk o (j_req j) = Fault f.
Proof.
  unfold RpcClient.send. intros H. destruct (abandoned_ c) eqn:Hab; [done|].
  destruct (negb (is_open c)); [by destruct (attempting_conn_ c)|].
  destruct (ssl && negb (ssl_ready_ c)); [done|]. unfold set_busy_flag in H. destruct (socket_busy_ c); cbn in H; [simplify_eq; by left|right].
  apply unless_thrown_Fault in H as [(buf & _ & H)|[H _]]; done.
Qed.

Lemma sending_fault n j c f :
  sending n j c → send j c = Fault f →
  (f = Exn assertion_failed ∧ troubled c) ∨ encode_request junk o (j_req j) = Fault f.
Proof.
  intros Hs [(-> & Hb & Hab)|?]%send_fault; [left|by right]. split; [done|].
  destruct (d_busy _ _ _ Hs Hb); [congruence|done].
Qed.

Lemma act_fault n op j a c f :
  calm n (Some op) c → uses_socket op = true → act j a (c <| operations := [] |>) ≠ Fault f.
Proof.
  intros Hc Hu. pose proof (m_used _ _ _ Hc (ex_intro _ op (conj eq_refl Hu))) as Hbusy.
  destruct a; try done. unfold act, set_busy_flag. by replace (socket_busy_ _) with true by done.
Qed.

Lemma complete_fault n op err bytes c f :
  calm n (Some op) c → fills 0 bytes c → complete 0 err bytes c = Fault f →
  (f = Exn assertion_failed ∧ troubled c) ∨
  encode_request junk o (j_req (job_of op)) = Fault f ∨
  (f = Exn assertion_failed ∧ ∃ j size rsp flags, op = ReadBody j size rsp flags ∧
     (b ← received junk bytes; ctx_read junk o (j_req j) rsp flags b) = Fault f).
Proof.
  intros Hc Hfill Hcomp. unfold RpcClient.complete, fills in *. rewrite (m_ops _ _ _ Hc) in Hcomp, Hfill.
  specialize (Hfill op eq_refl).
  change (or_ub DanglingPointer (option_list (Some op) !! 0%nat)) with (Ok op) in Hcomp.
  rewrite bind_ret, (drop_only n op c Hc) in Hcomp. cbv zeta in Hcomp.
  assert (∀ c1, sending n (job_of op) c1 → (troubled c1 → troubled c) → send (job_of op) c1 = Fault f →
    (f = Exn assertion_failed ∧ troubled c) ∨ encode_request junk o (j_req (job_of op)) = Fault f) as Hsend.
  { intros c1 Hs Ht [[]|]%(sending_fault n); [left; split; [done|by apply Ht]|by right|done]. }
  enough (encode_request junk o (j_req (job_of op)) = Fault f ∨ (f = Exn assertion_failed ∧ troubled c) ∨
    (f = Exn assertion_failed ∧ ∃ j size rsp flags, op = ReadBody j size rsp flags ∧
     (b ← received junk bytes; ctx_read junk o (j_req j) rsp flags b) = Fault f)) by tauto.
  destruct op as [j|j|j|j|j|j buf|j|j size rsp flags]; cbn [job_of] in *.
  - unfold send_retry in Hcomp. cbn in Hcomp. unfold SEND_RETRY_MAX in *.
    destruct (err || bool_decide _) eqn:He; [done|]. apply orb_false_iff in He as [_ He%bool_decide_eq_false_1].
    apply Hsend in Hcomp; [tauto| |done].
    apply (calm_sending n (RetryWait j) c Hc eq_refl). cbn. unfold SEND_RETRY_MAX. lia.
  - by unfold custom_resolved in Hcomp; case_match.
  - by unfold resolved in Hcomp; case_match.
  - destruct err; [done|]. unfold connected in Hcomp. rewrite open_drop in Hcomp.
    apply either_result in Hcomp as [|Hcomp]; [done|]. apply Hsend in Hcomp; [tauto| |done].
    by apply (calm_sending n (Connect j)); [apply calm_opened| |].
  - unfold handle_handshake in Hcomp. destruct err; [done|]. rewrite ready_drop in Hcomp.
    apply Hsend in Hcomp; [tauto| |done]. apply (calm_sending n (Handshake j)); [by destruct Hc|done|done].
  - by unfold sent in Hcomp; case_match.
  - unfold header_read in Hcomp. destruct err; [done|].
    apply unless_thrown_Fault in Hcomp as [(a & _ & H)|[H Hf]].
    + by apply (act_fault n (ReadHeader j)) in H.
    + destruct (response_read_total junk o (j_req j) bytes) as [(? & H')|(? & H' & _)];
        [apply Nat2Z.inj; by rewrite Hfill| |congruence].
      rewrite H in H'. injection H' as ->. by specialize (Hf _ eq_refl).
  - unfold body_read in Hcomp. pose proof (m_size _ _ _ Hc) as Hsz. cbn in Hsz, Hfill.
    apply unless_thrown_Fault in Hcomp as [(a & _ & H)|[H Hf]].
    + by apply (act_fault n (ReadBody j size rsp flags)) in H.
    + right. right. split; [|by exists j, size, rsp, flags].
      rewrite received_spec in H by (unfold fits; lia). ok_bind in H.
      destruct (ctx_read_total junk o (j_req j) rsp flags bytes) as [(? & H')|(? & H' & _)];
        [unfold fits; lia| |congruence].
      rewrite H in H'. injection H' as ->. f_equal. by apply Hf.
Qed.
End client.

(** C37: a client that is given a request only when the one before is done,
    over TLS or not, with or without a resolver of its own, whichever operations
    fail and whatever bytes the server sends, with sockets that open early and
    timers that fire.  Each of [n] requests has had its handler called once, but
    for one at most whose operation is the only one under way, and for those
    that an exception kept from being answered: of a request that cannot be
    encoded, of a header with a negative size ([response_read_any]), or of a
    body whose parts are longer than it is.  What is under way is over within 19
    completions.  As long as no response was damaged, refused or lost, each
    completion, whatever it brings, is carried through, unless the encoding of
    the request has undefined behaviour or fails an assertion, or the assertion
    on the parts of the body fails; and the next request finds the client idle,
    and is put on its way unless it cannot be encoded. *)
Theorem client_answers_once (junk : nat → byte) (o : options) (ssl custom : bool) (n : nat) (c : client) :
  reachable junk o ssl custom n c →
  let reads_body j rsp flags bytes := b ← received junk bytes; ctx_read junk o (j_req j) rsp flags b in
  let untroubled := (∀ k why, (k, inr (BadResponse why)) ∉ calls c) ∧ lost c = [] in
  (j_id ∘ job_of <$> operations c) ++ (fst <$> calls c) ++ (fst <$> lost c) ≡ₚ seq 0 n ∧
  (length (operations c) ≤ 1)%nat ∧
  (∀ k e, (k, e) ∈ lost c → ∃ j, j_id j = k ∧
     (encode_request junk o (j_req j) = throw e ∨
      (∃ hdr, Z.of_nat (length hdr) = RPC_RESP_HEADER_SIZE ∧ response_read junk o (j_req j) hdr = throw e) ∨
      ∃ rsp flags bytes, reads_body j rsp flags bytes = throw e)) ∧
  (∀ k c', nsteps (completes junk o ssl custom) k c c' → (k ≤ 19)%nat) ∧
  (∀ op err bytes f, operations c = [op] → fills 0 bytes c → complete junk o ssl custom 0 err bytes c = Fault f →
     untroubled →
     encode_request junk o (j_req (job_of op)) = Fault f ∨
     f = Exn assertion_failed ∧ ∃ j size rsp flags, op = ReadBody j size rsp flags ∧ reads_body j rsp flags bytes = Fault f) ∧
  (operations c = [] → untroubled →
   ∀ j, (∃ c', send junk o ssl custom j c = Ok c') ∨ ∃ f, encode_request junk o (j_req j) = Fault f).
Proof.
  intros Hreach reads_body untroubled. pose proof (accounted_reachable _ _ _ _ _ _ Hreach) as Hacc.
  apply calm_reachable in Hreach as [op Hc].
  assert (untroubled → ¬ troubled c) as Hgood by (intros [Hg Hl] [(k & why & Hin)|]; [by eapply Hg|done]).
  split_and!.
  - apply Hc.
  - rewrite (m_ops _ _ _ Hc). by destruct op; cbn; lia.
  - exact Hacc.
  - intros k c' Hk. destruct (completes_calm _ _ _ _ _ _ _ _ _ Hc Hk) as (op' & Hc' & Hr).
    pose proof (rank_bound _ _ _ Hc). pose proof (rank_nonneg _ _ _ Hc'). lia.
  - intros op' err bytes f Hop Hfill Hf Hu%Hgood. pose proof (m_ops _ _ _ Hc) as Ho. rewrite Hop in Ho.
    destruct op as [op|]; [|done]. injection Ho as <-.
    destruct (complete_fault _ _ _ _ _ _ _ _ _ _ Hc Hfill Hf) as [[_ ?]|[?|?]]; [done|by left|by right].
  - intros Hops Hu%Hgood j. destruct (send junk o ssl custom j c) as [c'|f] eqn:Hs; [left; by eexists|right].
    apply send_fault in Hs as [(_ & Hb & Hab)|?]; [|by eexists].
    destruct (m_busy _ _ _ Hc Hb) as [(op' & -> & _)|[?|?]]; [|congruence|done].
    pose proof (m_ops _ _ _ Hc) as Ho. by rewrite Hops in Ho.
Qed.

(** A damaged response leaves the client busy and not abandoned: the next
    request, which the pool of the forwarding gives it, hits the assertion. *)
Definition a_job (k : nat) : job := Job k (RpcReq 1 1 1 2 0 0 0 []) 0.
Definition zeros (k : nat) : byte := byte_of_Z 0.

Example damaged_response_then_assertion :
  let go := complete zeros default_options false false 0 false in
  (c ← send zeros default_options false false (a_job 0) new_client;
   c ← go [] c; c ← go [] c; c ← go [] c; c ← go (replicate (Z.to_nat RPC_RESP_HEADER_SIZE) (byte_of_Z 0)) c;
   Ok (calls c, operations c, abandoned_ c)) = Ok ([(0%nat, inr (BadResponse CrcMismatch))], [], false) ∧
  (c ← send zeros default_options false false (a_job 0) new_client;
   c ← go [] c; c ← go [] c; c ← go [] c; c ← go (replicate (Z.to_nat RPC_RESP_HEADER_SIZE) (byte_of_Z 0)) c;
   send zeros default_options false false (a_job 1) c) = throw assertion_failed.
Proof. split; vm_compute; reflexivity. Qed.

(** A response whose checksum is right and whose size is negative: the allocation
    throws, the handler is never called, and the client stays busy. *)
Definition negative_size : list byte :=
  let head := word_bytes 1 1 ++ resp_rest (RpcResp 1 2 2 1 1 true 0 None) 1 (-1) in
  head ++ word_bytes 8 (crc32_8 head 0).
Definition size_error : exn := out_of_range "size exceed the max size that nuraft::buffer could support".

Lemma negative_size_throws q : response_read zeros default_options q negative_size = throw size_error.
Proof.
  unfold negative_size. rewrite response_read_any by (split || idtac; by vm_compute).
  rewrite decide_False by (intros H; apply H; by vm_compute). reflexivity.
Qed.

(** The client when it waits for the header of its first response. *)
Definition waiting : client := Client true true false 0 false true false [ReadHeader (a_job 0)] [] [].

Example negative_size_is_lost :
  let go := complete zeros default_options false false 0 false in
  (c ← send zeros default_options false false (a_job 0) new_client; c ← go [] c; c ← go [] c; go [] c) = Ok waiting ∧
  ∃ c, go negative_size waiting = Ok c ∧
    calls c = [] ∧ operations c = [] ∧ lost c = [(0%nat, size_error)] ∧ abandoned_ c = false ∧
    send zeros default_options false false (a_job 1) c = throw assertion_failed.
Proof.
  cbv zeta. split; [by vm_compute|]. eexists (lose (a_job 0) size_error (waiting <| operations := [] |>)).
  split; [|done]. unfold complete, waiting. cbn [operations lookup list_lookup or_ub].
  rewrite bind_ret. unfold header_read. by rewrite negative_size_throws.
Qed.

Example client_answers_once_witness :
  let c := when_done (a_job 0) (inr ResolveFailed) (new_client <| attempting_conn_ := true |>) in
  reachable zeros default_options false false 1 c ∧
  (length (operations c) ≤ 1)%nat ∧
  ((∃ c', send zeros default_options false false (a_job 1) c = Ok c') ∨
   ∃ f, encode_request zeros default_options (j_req (a_job 1)) = Fault f).
Proof.
  intros c. assert (reachable zeros default_options false false 1 c) as Hr.
  { eapply reach_step; [eapply (reach_send _ _ _ _ 0 (a_job 0)); [apply reach_new|done|done|reflexivity]|].
    apply (step_complete _ _ _ _ 0 true []); [by intros op [= <-]|reflexivity]. }
  destruct (client_answers_once _ _ _ _ _ _ Hr) as (_ & H1 & _ & _ & _ & H2). split_and!; [exact Hr|exact H1|].
  apply H2; [done|]. split; [|done]. intros k why Hin. by apply list_elem_of_singleton in Hin.
Defined.
