(* ===== verification/Stats.v ===== *)
(** * Statistics

    src/histogram.h and src/stat_mgr.{hxx,cxx}.  The atomics are read and written
    one after the other.  What computes with percentiles ([find], [estimate]) and
    the index of other platforms ([getIdx]) is floating-point arithmetic of the C
    library and is left out. *)
From S2P Require Import Prelude.
From Stdlib Require String.
Local Open Scope Z_scope.

(** ** Histogram *)
Module Histogram.
Definition MAX_BINS : nat := 65.
Definition MAX_TRIAL : nat := 3.

Record histogram := Histogram { bins : list Z; count : Z; sum : Z; max : Z }.
#[export] Instance histogram_rebuild : Rebuild histogram := λ h, Histogram (bins h) (count h) (sum h) (max h).

Definition new_histogram : histogram := Histogram (replicate MAX_BINS 0) 0 0 0.

(** [__builtin_clzl] of what is not zero. *)
Definition clzl (val : Z) : Z := 63 - Z.log2 val.

Definition bin_of (val : Z) : nat :=
  if decide (val ≠ 0) then Z.to_nat (clzl val) else Nat.pred MAX_BINS.

(** The loop that raises the maximum. *)
Fixpoint raise_max (num_trial : nat) (val : Z) (h : histogram) : histogram :=
  match num_trial with
  | O => h
  | S num_trial => if decide (max h < val) then raise_max num_trial val (h <| max := val |>) else h
  end.

Definition add (val : Z) (h : histogram) : histogram :=
  raise_max MAX_TRIAL val
    (h <| bins ::= alter (λ n, u64 (n + 1)) (bin_of val) |>
       <| count ::= (λ n, u64 (n + 1)) |> <| sum ::= (λ n, u64 (n + val)) |>).

(** [operator=], which the copying constructor calls on new bins. *)
Definition assign (src h : histogram) : histogram :=
  h <| count := count src |> <| sum := sum src |> <| max := max src |>
    <| bins ::= imap (λ i n, default n (bins src !! i)) |>.

(** [operator+=] and [operator+] *)
Definition plus (rhs lhs : histogram) : histogram :=
  let lhs := lhs <| count ::= (λ n, u64 (n + count rhs)) |> <| sum ::= (λ n, u64 (n + sum rhs)) |> in
  let lhs := if decide (max lhs < max rhs) then lhs <| max := max rhs |> else lhs in
  lhs <| bins ::= imap (λ i n, u64 (n + default 0 (bins rhs !! i))) |>.

Definition getTotal (h : histogram) : Z := count h.
Definition getSum (h : histogram) : Z := sum h.
Definition getAverage (h : histogram) : Z := if decide (count h ≠ 0) then sum h `div` count h else 0.
Definition getMax (h : histogram) : Z := max h.

(** ** HistItr: an index, which is [MAX_BINS] at the end *)
Definition next (idx : nat) : nat := if decide (MAX_BINS < S idx)%nat then MAX_BINS else S idx.
(** Both decrements; the index 0 wraps to the greatest [size_t]. *)
Definition prev (idx : Z) : Z :=
  if decide (idx ≠ 0 ∨ idx = Z.of_nat MAX_BINS) then Z.of_nat MAX_BINS else u64 (idx - 1).

Definition itr_begin (h : histogram) : nat :=
  match list_find (λ n, n ≠ 0) (bins h) with Some (i, _) => i | None => length (bins h) end.
Definition itr_end : nat := MAX_BINS.

Definition getCount (idx : nat) (h : histogram) : outcome Z := or_ub OutOfBounds (bins h !! idx).

(** [1 << n] of 64 bits *)
Definition shl1 (n : Z) : outcome Z := if decide (0 ≤ n < 64) then Ok (Z.shiftl 1 n) else undefined ShiftTooFar.
Definition idx_rev (idx : nat) : Z := u64 (Z.of_nat MAX_BINS - Z.of_nat idx - 1).

Definition getLowerBound (idx : nat) : outcome Z :=
  if decide (idx_rev idx ≠ 0) then shl1 (u64 (idx_rev idx - 1)) else Ok 0.
Definition getUpperBound (idx : nat) : outcome Z :=
  if decide (idx = 0%nat) then Ok (2 ^ 64 - 1) else shl1 (idx_rev idx).
End Histogram.

(** ** stat_elem *)
Module Stats.
Import Histogram.

Inductive stat_type := COUNTER | HISTOGRAM | GAUGE.
#[export] Instance stat_type_eq_dec : EqDecision stat_type.
Proof. solve_decision. Defined.

Record stat_elem := StatElem {
  stat_type_ : stat_type;
  stat_name_ : string;
  counter_ : Z;
  gauge_ : Z;
  hist_ : option histogram
}.
#[export] Instance stat_elem_rebuild : Rebuild stat_elem := λ x,
  StatElem (stat_type_ x) (stat_name_ x) (counter_ x) (gauge_ x) (hist_ x).

Definition new_stat_elem (type : stat_type) (name : string) : stat_elem :=
  StatElem type name 0 0 (if decide (type = HISTOGRAM) then Some new_histogram else None).

(** The map of the manager in the order of its names, and the element that is
    handed out when there are no statistics. *)
Record stat_mgr := StatMgr { stat_map_ : list (string * stat_elem); dummy_elem : stat_elem }.
#[export] Instance stat_mgr_rebuild : Rebuild stat_mgr := λ m, StatMgr (stat_map_ m) (dummy_elem m).

Definition new_stat_mgr : stat_mgr := StatMgr [] (new_stat_elem COUNTER "dummy").

(** A pointer to an element: one of the map, known by its name, or the dummy. *)
Inductive stat_ptr := Named (name : string) | Dummy.

Fixpoint find (name : string) (l : list (string * stat_elem)) : option stat_elem :=
  match l with
  | [] => None
  | (k, x) :: l => if decide (k = name) then Some x else find name l
  end.
(** [stat_map_.insert] of a name that is not there. *)
Fixpoint insert (name : string) (x : stat_elem) (l : list (string * stat_elem)) : list (string * stat_elem) :=
  match l with
  | [] => [(name, x)]
  | (k, y) :: l => if String.ltb name k then (name, x) :: (k, y) :: l else (k, y) :: insert name x l
  end.

Definition deref (p : stat_ptr) (m : stat_mgr) : option stat_elem :=
  match p with Named name => find name (stat_map_ m) | Dummy => Some (dummy_elem m) end.
Definition store (p : stat_ptr) (x : stat_elem) (m : stat_mgr) : stat_mgr :=
  match p with
  | Named name => m <| stat_map_ ::= fmap (λ e, if decide (e.1 = name) then (name, x) else e) |>
  | Dummy => m <| dummy_elem := x |>
  end.
(** A method of the element. *)
Definition call (p : stat_ptr) (f : stat_elem → outcome stat_elem) (m : stat_mgr) : outcome stat_mgr :=
  x ← or_ub DanglingPointer (deref p m); x ← f x; Ok (store p x m).

Section stats.
(** [ENABLE_RAFT_STATS] *)
Context (enabled : bool).

Definition counts (f : stat_elem → stat_elem) (x : stat_elem) : outcome stat_elem :=
  if negb enabled then Ok x
  else if decide (stat_type_ x = HISTOGRAM) then throw assertion_failed
  else Ok (f x).

Definition inc (amount : Z) : stat_elem → outcome stat_elem :=
  counts (λ x, if decide (stat_type_ x = COUNTER) then x <| counter_ ::= (λ n, u64 (n + amount)) |>
               else x <| gauge_ ::= (λ n, i64 (n + amount)) |>).
Definition dec (amount : Z) : stat_elem → outcome stat_elem :=
  counts (λ x, if decide (stat_type_ x = COUNTER) then x <| counter_ ::= (λ n, u64 (n - amount)) |>
               else x <| gauge_ ::= (λ n, i64 (n - amount)) |>).
Definition set (value : Z) : stat_elem → outcome stat_elem :=
  counts (λ x, if decide (stat_type_ x = COUNTER) then x <| counter_ := u64 value |>
               else x <| gauge_ := value |>).
Definition add_value (val : Z) (x : stat_elem) : outcome stat_elem :=
  if negb enabled then Ok x
  else if decide (stat_type_ x ≠ HISTOGRAM) then throw assertion_failed
  else h ← or_ub NullPointer (hist_ x); Ok (x <| hist_ := Some (add val h) |>).

(** [operator+=], [operator-=], [operator++], [operator--] and [operator=] *)
Definition plus_assign (amount : Z) (x : stat_elem) : outcome stat_elem :=
  match stat_type_ x with COUNTER | GAUGE => inc amount x | HISTOGRAM => add_value amount x end.
Definition minus_assign (amount : Z) (x : stat_elem) : outcome stat_elem :=
  match stat_type_ x with COUNTER | GAUGE => dec amount x | HISTOGRAM => throw assertion_failed end.
Definition increment : stat_elem → outcome stat_elem := inc 1.
Definition decrement : stat_elem → outcome stat_elem := dec 1.
Definition assign_value (val : Z) : stat_elem → outcome stat_elem := set (i64 val).

Definition reset (x : stat_elem) : outcome stat_elem :=
  match stat_type_ x with
  | COUNTER | GAUGE => set 0 x
  | HISTOGRAM => h ← or_ub NullPointer (hist_ x); Ok (x <| hist_ := Some (assign new_histogram h) |>)
  end.

(** ** stat_mgr *)
Definition get_stat (name : string) (m : stat_mgr) : option stat_ptr :=
  match find name (stat_map_ m) with Some _ => Some (Named name) | None => None end.

Definition create_stat (type : stat_type) (name : string) (m : stat_mgr) : stat_ptr * stat_mgr :=
  if negb enabled then (Dummy, m)
  else
    match find name (stat_map_ m) with
    | Some _ => (Named name, m)
    | None => (Named name, m <| stat_map_ ::= insert name (new_stat_elem type name) |>)
    end.

Definition get_all_stats (m : stat_mgr) : list stat_ptr := Named <$> (stat_map_ m).*1.

Definition reset_stat (name : string) (m : stat_mgr) : outcome stat_mgr :=
  match get_stat name m with Some p => call p reset m | None => Ok m end.

Definition reset_all_stats (m : stat_mgr) : outcome stat_mgr :=
  foldl (λ m p, m ← m; call p reset m) (Ok m) (get_all_stats m).

(** ** raft_server: what a user reads *)
Definition elem_of_name (name : string) (m : stat_mgr) : option stat_elem := p ← get_stat name m; deref p m.

Definition get_stat_counter (name : string) (m : stat_mgr) : Z :=
  match elem_of_name name m with
  | None => 0
  | Some x => match stat_type_ x with COUNTER => counter_ x | GAUGE => u64 (gauge_ x) | HISTOGRAM => 0 end
  end.
Definition get_stat_gauge (name : string) (m : stat_mgr) : Z :=
  match elem_of_name name m with
  | None => 0
  | Some x => match stat_type_ x with COUNTER => i64 (counter_ x) | GAUGE => gauge_ x | HISTOGRAM => 0 end
  end.

(** The [double] nearest to an unsigned word, ties to even. *)
Definition to_double (x : Z) : Z :=
  let e := Z.log2 x - 52 in
  if decide (e ≤ 0) then x
  else
    let q := x `div` 2 ^ e in let r := x mod 2 ^ e in
    let up := bool_decide (2 * r > 2 ^ e) || (bool_decide (2 * r = 2 ^ e) && Z.odd q) in
    (if up then q + 1 else q) * 2 ^ e.

(** The loop over the iterator, with the map from bounds to counts. *)
Fixpoint read_bins (fuel : nat) (idx : nat) (h : histogram) (out : gmap Z Z) : outcome (gmap Z Z) :=
  match fuel with
  | O => Fault OutOfFuel
  | S fuel =>
      if decide (idx = itr_end) then Ok out
      else
        cnt ← getCount idx h;
        out ← (if decide (cnt ≠ 0) then
                 bound ← getUpperBound idx;
                 Ok (match out !! to_double bound with Some _ => out | None => <[to_double bound := cnt]> out end)
               else Ok out);
        read_bins fuel (next idx) h out
  end.

Definition get_stat_histogram (name : string) (out : gmap Z Z) (m : stat_mgr) : outcome (bool * gmap Z Z) :=
  match elem_of_name name m with
  | None => Ok (false, out)
  | Some x =>
      if decide (stat_type_ x ≠ HISTOGRAM) then Ok (false, out)
      else
        h ← or_ub NullPointer (hist_ x);
        out ← read_bins (S MAX_BINS) (itr_begin h) h out;
        Ok (true, out)
  end.
End stats.
End Stats.

(** ** The bins *)
Module StatsThms.
Import Histogram Stats.

(** The bounds that the iterator has for a bin contain the value, the upper one
    only if it is the greatest word. *)
Definition in_bin (i : nat) (v : Z) : Prop :=
  ∃ lo hi, getLowerBound i = Ok lo ∧ getUpperBound i = Ok hi ∧ lo ≤ v ≤ hi ∧ (i = 0%nat ∨ v < hi).

Lemma idx_rev_eq i : (i < 65)%nat → idx_rev i = 64 - Z.of_nat i.
Proof. intros Hi. unfold idx_rev. change (Z.of_nat MAX_BINS) with 65. rewrite wrap_u_id by range. lia. Qed.

Lemma lower_bound_run i : (i < 64)%nat → getLowerBound i = Ok (2 ^ (63 - Z.of_nat i)).
Proof.
  intros Hi. unfold getLowerBound. rewrite idx_rev_eq, decide_True, wrap_u_id by (lia || range).
  unfold shl1. rewrite decide_True, Z.shiftl_1_l by lia. do 2 f_equal. lia.
Qed.

Lemma upper_bound_run i : (0 < i < 65)%nat → getUpperBound i = Ok (2 ^ (64 - Z.of_nat i)).
Proof.
  intros Hi. unfold getUpperBound. rewrite decide_False, idx_rev_eq by lia.
  unfold shl1. by rewrite decide_True, Z.shiftl_1_l by lia.
Qed.

Lemma in_bin_iff i v : (i < 65)%nat → in_u 64 v → in_bin i v ↔ i = bin_of v.
Proof.
  intros Hi [Hv Hv']. unfold bin_of, clzl, in_bin.
  destruct (decide (i = 64%nat)) as [->|Hne].
  - change (getLowerBound 64) with (@Ok Z 0). change (getUpperBound 64) with (@Ok Z 1). split.
    + intros (lo & hi & [= <-] & [= <-] & ? & [?|?]); [lia|]. by rewrite decide_False by lia.
    + case_decide as H0; [|intros _; exists 0, 1; split_and!; [done|done|lia|lia|right; lia]].
      pose proof (Z.log2_nonneg v). lia.
  - assert (i < 64)%nat as Hi' by lia. rewrite lower_bound_run by done.
    assert (2 ^ (64 - Z.of_nat i) = 2 * 2 ^ (63 - Z.of_nat i)) as Hpow
      by (rewrite <- Z.pow_succ_r by lia; f_equal; lia).
    assert (0 < 2 ^ (63 - Z.of_nat i)) as Hpos by (apply Z.pow_pos_nonneg; lia).
    assert ((∃ lo hi, Ok (2 ^ (63 - Z.of_nat i)) = Ok lo ∧ getUpperBound i = Ok hi ∧ lo ≤ v ≤ hi ∧
              (i = 0%nat ∨ v < hi)) ↔ 2 ^ (63 - Z.of_nat i) ≤ v < 2 ^ (64 - Z.of_nat i)) as ->.
    { destruct (decide (i = 0%nat)) as [->|H0].
      - change (getUpperBound 0) with (@Ok Z (2 ^ 64 - 1)). change (64 - Z.of_nat 0) with 64. split.
        + intros (lo & hi & [= <-] & [= <-] & ? & _). lia.
        + intros ?. exists (2 ^ (63 - Z.of_nat 0)), (2 ^ 64 - 1). split_and!; [done|done|lia|lia|by left].
      - rewrite upper_bound_run by lia. split.
        + intros (lo & hi & [= <-] & [= <-] & ? & [?|?]); lia.
        + intros ?. exists (2 ^ (63 - Z.of_nat i)), (2 ^ (64 - Z.of_nat i)). split_and!; [done|done|lia|lia|right; lia]. }
    split.
    + intros [H1 H2]. rewrite decide_True by lia.
      assert (Z.log2 v = 63 - Z.of_nat i) as ->; [|lia].
      apply Z.log2_unique; [lia|]. replace (Z.succ (63 - Z.of_nat i)) with (64 - Z.of_nat i) by lia. done.
    + case_decide as H0; [|cbn; lia]. intros Heq. assert (0 < v) as Hpos' by lia.
      pose proof (Z.log2_spec v Hpos') as Hlog. pose proof (Z.log2_nonneg v).
      assert (Z.log2 v < 64) by (apply Z.log2_lt_pow2; lia).
      assert (Z.log2 v = 63 - Z.of_nat i) as Hl by lia. rewrite Hl in Hlog.
      replace (Z.succ (63 - Z.of_nat i)) with (64 - Z.of_nat i) in Hlog by lia. done.
Qed.

Lemma bin_of_lt v : in_u 64 v → (bin_of v < 65)%nat.
Proof.
  intros [Hv Hv']. unfold bin_of, clzl. case_decide; [|cbn; lia]. pose proof (Z.log2_nonneg v). lia.
Qed.

(** ** Filling a histogram *)
Definition filled (vals : list Z) : histogram := foldl (λ h v, add v h) new_histogram vals.
Definition in_bins (i : nat) (vals : list Z) : list Z := filter (λ v, i = bin_of v) vals.
Definition count_in (i : nat) (vals : list Z) : Z := Z.of_nat (length (in_bins i vals)).

Record holds_values (vals : list Z) (h : histogram) : Prop := {
  hv_length : length (bins h) = MAX_BINS;
  hv_bins : ∀ i, (i < MAX_BINS)%nat → bins h !! i = Some (u64 (count_in i vals));
  hv_count : count h = u64 (Z.of_nat (length vals));
  hv_sum : sum h = u64 (foldr Z.add 0 vals);
  hv_max : max h = foldr Z.max 0 vals
}.

Lemma raise_max_eq n val h : raise_max (S n) val h = h <| max := max h `max` val |>.
Proof.
  cbn. case_decide as Hlt.
  - replace (max h `max` val) with val by lia. destruct n; cbn; [done|]. by rewrite decide_False by lia.
  - replace (max h `max` val) with (max h) by lia. by destruct h.
Qed.

Lemma count_in_snoc i vals v : count_in i (vals ++ [v]) = count_in i vals + (if decide (i = bin_of v) then 1 else 0).
Proof.
  unfold count_in, in_bins. rewrite filter_app, length_app, filter_cons, filter_nil. case_decide; cbn; lia.
Qed.

Lemma foldr_add_snoc l v : foldr Z.add 0 (l ++ [v]) = foldr Z.add 0 l + v.
Proof. induction l as [|x l IH]; cbn; lia. Qed.
Lemma foldr_max_snoc l v : 0 ≤ v → foldr Z.max 0 (l ++ [v]) = foldr Z.max 0 l `max` v.
Proof. intros Hv. induction l as [|x l IH]; cbn; lia. Qed.

Lemma add_eq val h :
  add val h = Histogram (alter (λ n, u64 (n + 1)) (bin_of val) (bins h)) (u64 (count h + 1)) (u64 (sum h + val))
                (max h `max` val).
Proof. unfold add, MAX_TRIAL. by rewrite (raise_max_eq 2). Qed.

Lemma add_holds vals v h : in_u 64 v → holds_values vals h → holds_values (vals ++ [v]) (add v h).
Proof.
  intros Hv [Hl Hb Hc Hs Hm]. pose proof (bin_of_lt v Hv) as Hlt. rewrite add_eq. split; cbn [bins count sum max].
  - by rewrite length_alter.
  - intros i Hi. rewrite count_in_snoc, list_lookup_alter. case_decide as Heq.
    + subst i. rewrite decide_True, Hb by done. cbn. by rewrite wrap_u_add.
    + rewrite decide_False, Z.add_0_r by done. by apply Hb.
  - rewrite Hc, length_app, wrap_u_add. cbn. do 2 f_equal. lia.
  - by rewrite Hs, foldr_add_snoc, wrap_u_add.
  - rewrite Hm, foldr_max_snoc; [done|apply Hv].
Qed.

Lemma new_holds : holds_values [] new_histogram.
Proof.
  split; [done| |done..]. intros i Hi. unfold new_histogram, bins. by rewrite lookup_replicate_2.
Qed.

Lemma filled_holds vals : Forall (in_u 64) vals → holds_values vals (filled vals).
Proof.
  unfold filled. induction vals as [|v vals IH] using rev_ind; intros Hv; [apply new_holds|].
  apply Forall_app in Hv as [Hv [Hv' _]%Forall_cons]. rewrite foldl_app. cbn. by apply add_holds; [|apply IH].
Qed.

(** Two histograms with the same values are the same. *)
Lemma holds_values_inj vals h h' : holds_values vals h → holds_values vals h' → h = h'.
Proof.
  intros [Hl Hb Hc Hs Hm] [Hl' Hb' Hc' Hs' Hm']. destruct h as [b c s m], h' as [b' c' s' m']. cbn in *.
  f_equal; [|congruence..]. apply list_eq. intros i. destruct (decide (i < MAX_BINS)%nat) as [Hi|Hi].
  - by rewrite Hb, Hb'.
  - by rewrite !lookup_ge_None_2 by lia.
Qed.

Lemma count_in_app i vals vals' : count_in i (vals ++ vals') = count_in i vals + count_in i vals'.
Proof. unfold count_in, in_bins. rewrite filter_app, length_app. lia. Qed.

Lemma plus_holds vals vals' h h' :
  holds_values vals h → holds_values vals' h' → holds_values (vals ++ vals') (plus h' h).
Proof.
  intros [Hl Hb Hc Hs Hm] [Hl' Hb' Hc' Hs' Hm']. unfold plus. split.
  - case_decide; cbn; by rewrite length_imap.
  - intros i Hi.
    assert (imap (λ i n, u64 (n + default 0 (bins h' !! i))) (bins h) !! i = Some (u64 (count_in i (vals ++ vals')))) as Heq.
    { rewrite list_lookup_imap, Hb, Hb' by done. cbn.
      by rewrite wrap_u_add, Z.add_comm, wrap_u_add, Z.add_comm, count_in_app. }
    by case_decide.
  - assert (u64 (count h + count h') = u64 (Z.of_nat (length (vals ++ vals')))) as Heq.
    { rewrite Hc, Hc', wrap_u_add, Z.add_comm, wrap_u_add, length_app. f_equal. lia. }
    by case_decide.
  - assert (u64 (sum h + sum h') = u64 (foldr Z.add 0 (vals ++ vals'))) as Heq.
    { rewrite Hs, Hs', wrap_u_add, Z.add_comm, wrap_u_add. f_equal.
      clear. induction vals as [|x l IH]; cbn; lia. }
    by case_decide.
  - assert (foldr Z.max 0 (vals ++ vals') = foldr Z.max 0 vals `max` foldr Z.max 0 vals') as ->.
    { assert (0 ≤ foldr Z.max 0 vals') by (clear; induction vals'; cbn; lia).
      clear -H. induction vals as [|x l IH]; cbn; lia. }
    rewrite <- Hm, <- Hm'. case_decide; cbn in *; lia.
Qed.
(** ** Reading *)

(** The bounds as [double]s. *)
Lemma upper_double i :
  (i < 65)%nat → ∃ hi, getUpperBound i = Ok hi ∧ to_double hi = 2 ^ (64 - Z.of_nat i).
Proof.
  intros Hi.
  assert (Forall (λ i, match getUpperBound i with
                       | Ok hi => to_double hi =? 2 ^ (64 - Z.of_nat i)
                       | Fault _ => false
                       end = true) (seq 0 65)) as Hall by (apply (bool_decide_unpack _); by vm_compute).
  rewrite Forall_forall in Hall. specialize (Hall i). rewrite elem_of_seq in Hall. specialize (Hall ltac:(lia)).
  destruct (getUpperBound i) as [hi|]; [|done]. exists hi. split; [done|]. by apply Z.eqb_eq.
Qed.

Lemma pow_bin_inj (i j : nat) :
  (i < 65)%nat → (j < 65)%nat → 2 ^ (64 - Z.of_nat i) = 2 ^ (64 - Z.of_nat j) → i = j.
Proof. intros Hi Hj H. apply Z.pow_inj_r in H; lia. Qed.

Lemma read_bins_run h fuel idx out :
  length (bins h) = MAX_BINS → (idx ≤ 65)%nat → (65 - idx < fuel)%nat →
  (∀ j, (idx ≤ j < 65)%nat → out !! (2 ^ (64 - Z.of_nat j)) = None) →
  ∃ out', read_bins fuel idx h out = Ok out' ∧
    ∀ b n, out' !! b = Some n ↔
      out !! b = Some n ∨ ∃ i, (idx ≤ i < 65)%nat ∧ b = 2 ^ (64 - Z.of_nat i) ∧ bins h !! i = Some n ∧ n ≠ 0.
Proof.
  intros Hl. revert idx out. induction fuel as [|fuel IH]; intros idx out Hle Hfuel Hnone; [lia|].
  cbn [read_bins]. case_decide as Hend.
  { exists out. split; [done|]. intros b n. split; [by left|]. intros [?|(i & Hi & _)]; [done|].
    unfold itr_end, MAX_BINS in Hend. lia. }
  assert (idx < 65)%nat as Hlt by (unfold itr_end, MAX_BINS in Hend; lia).
  destruct (lookup_lt_is_Some_2 (bins h) idx) as [cnt Hcnt]; [rewrite Hl; unfold MAX_BINS; lia|].
  unfold getCount. rewrite Hcnt. cbn [or_ub]. ok_bind.
  destruct (upper_double idx Hlt) as (hi & Hhi & Hd).
  set (out1 := if decide (cnt ≠ 0) then <[2 ^ (64 - Z.of_nat idx) := cnt]> out else out).
  assert ((if decide (cnt ≠ 0) then
             bound ← getUpperBound idx;
             Ok (match out !! to_double bound with Some _ => out | None => <[to_double bound := cnt]> out end)
           else Ok out) = Ok out1) as ->.
  { unfold out1. case_decide; [|done]. rewrite Hhi. ok_bind. by rewrite Hd, Hnone by lia. }
  ok_bind.
  assert (next idx = S idx) as -> by (unfold next; rewrite decide_False; [done|unfold MAX_BINS; lia]).
  destruct (IH (S idx) out1) as (out' & Hrun & Hout); [lia|lia| |].
  { intros j Hj. unfold out1. case_decide; [|apply Hnone; lia].
    rewrite lookup_insert_ne; [apply Hnone; lia|]. intros Heq%pow_bin_inj; lia. }
  exists out'. split; [done|]. intros b n. rewrite Hout. unfold out1. split.
  - intros [H|(i & Hi & -> & Hn)]; [|right; exists i; split; [lia|done]].
    case_decide; [|by left]. apply lookup_insert_Some in H as [[<- <-]|[_ H]]; [|by left].
    right. exists idx. split; [lia|done].
  - intros [H|(i & Hi & -> & Hn & Hn0)].
    + left. case_decide; [|done]. rewrite lookup_insert_ne; [done|]. intros <-. by rewrite Hnone in H by lia.
    + destruct (decide (i = idx)) as [->|Hne].
      * rewrite Hcnt in Hn. injection Hn as <-. left. rewrite decide_True by done. apply lookup_insert_eq.
      * right. exists i. split; [lia|done].
Qed.

(** Nothing is before the first bin that is not empty. *)
Lemma itr_begin_first h i n :
  length (bins h) = MAX_BINS → bins h !! i = Some n → n ≠ 0 → (itr_begin h ≤ i)%nat.
Proof.
  intros Hl Hi Hn. unfold itr_begin. destruct (list_find _ _) as [[j m]|] eqn:Hf.
  - apply list_find_Some in Hf as (_ & _ & Hall). destruct (decide (j ≤ i)%nat) as [|Hgt]; [done|].
    exfalso. by apply (Hall i n); [|lia|].
  - rewrite list_find_None, Forall_forall in Hf. exfalso. by apply (Hf n); [apply list_elem_of_lookup_2 in Hi|].
Qed.

Lemma itr_begin_le h : length (bins h) = MAX_BINS → (itr_begin h ≤ 65)%nat.
Proof.
  intros Hl. unfold itr_begin. destruct (list_find _ _) as [[j m]|] eqn:Hf; [|by rewrite Hl].
  apply list_find_Some in Hf as (Hj & _). apply lookup_lt_Some in Hj. rewrite Hl in Hj. unfold MAX_BINS in Hj. lia.
Qed.

(** ** The elements of the manager *)
Lemma find_insert name x l : find name l = None → find name (insert name x l) = Some x.
Proof.
  induction l as [|[k y] l IH]; cbn; [by rewrite decide_True|]. case_decide as Hk; [done|]. intros Hf.
  destruct (String.ltb name k); cbn; [by rewrite decide_True|]. by rewrite decide_False, IH.
Qed.

Lemma find_store name x y m :
  find name (stat_map_ m) = Some y → find name (stat_map_ (store (Named name) x m)) = Some x.
Proof.
  cbn. induction (stat_map_ m) as [|[k z] l IH]; cbn; [done|]. case_decide as Hk.
  - intros _. by rewrite decide_True.
  - intros Hf. by rewrite decide_False, IH.
Qed.

Definition add_values (name : string) (vals : list Z) (m : stat_mgr) : outcome stat_mgr :=
  foldl (λ m v, m ← m; call (Named name) (add_value true v) m) (Ok m) vals.

Lemma add_value_run v x h :
  stat_type_ x = HISTOGRAM → hist_ x = Some h → add_value true v x = Ok (x <| hist_ := Some (add v h) |>).
Proof. intros Ht Hh. unfold add_value. cbn [negb]. rewrite decide_False by tauto. by rewrite Hh. Qed.

Lemma add_values_run name vals h x m :
  find name (stat_map_ m) = Some x → stat_type_ x = HISTOGRAM → hist_ x = Some h →
  ∃ m' x', add_values name vals m = Ok m' ∧ find name (stat_map_ m') = Some x' ∧ stat_type_ x' = HISTOGRAM ∧
    hist_ x' = Some (foldl (λ h v, add v h) h vals).
Proof.
  intros Hf Ht Hh. unfold add_values. revert h x m Hf Ht Hh.
  induction vals as [|v vals IH]; intros h x m Hf Ht Hh; [by exists m, x|]. cbn [foldl].
  rewrite bind_ret. unfold call at 2. cbn [deref]. rewrite Hf. cbn [or_ub]. ok_bind.
  rewrite (add_value_run v x h) by done. ok_bind. eapply IH; [by eapply find_store|done|done].
Qed.

(** C40: a histogram reports the values it was given.  After a statistic is
    created under a new name and fewer than 2^64 values are added through its
    pointer, [get_stat_histogram] returns, and what it puts in an empty map is
    exactly the number of values in each bin that has any, under the upper bound
    of the bin; the bins' bounds, which never shift too far, part all 64-bit
    words.  The count is exact, the sum is that of 64 bits, the maximum the
    greatest value, and adding two histograms with [+=] is as adding all values
    to one. *)
Theorem histogram_reports (name : string) (vals vals' : list Z) (m : stat_mgr) :
  find name (stat_map_ m) = None → Forall (in_u 64) vals → Forall (in_u 64) vals' → Z.of_nat (length vals) < 2 ^ 64 →
  ∃ m' out h, add_values name vals (create_stat true HISTOGRAM name m).2 = Ok m' ∧
    get_stat_histogram name ∅ m' = Ok (true, out) ∧
    (∀ b n, out !! b = Some n ↔ ∃ i hi, (i < MAX_BINS)%nat ∧ getUpperBound i = Ok hi ∧ b = to_double hi ∧
       n = Z.of_nat (length (filter (λ v, i = bin_of v) vals)) ∧ n ≠ 0) ∧
    (∀ i v, (i < MAX_BINS)%nat → in_u 64 v → i = bin_of v ↔ in_bin i v) ∧
    (elem_of_name name m' ≫= hist_) = Some h ∧
    count h = Z.of_nat (length vals) ∧ sum h = u64 (foldr Z.add 0 vals) ∧ max h = foldr Z.max 0 vals ∧
    plus (filled vals') h = filled (vals ++ vals').
Proof.
  intros Hnew Hv Hv' Hlen. unfold create_stat. rewrite Hnew. cbn [negb snd].
  set (x := new_stat_elem HISTOGRAM name). set (m1 := m <| stat_map_ ::= insert name x |>).
  destruct (add_values_run name vals new_histogram x m1) as (m' & x' & Hrun & Hf & Ht & Hh);
    [by apply find_insert|done|done|].
  fold (filled vals) in Hh. pose proof (filled_holds vals Hv) as Hold. pose proof Hold as [Hl Hb Hc Hs Hm].
  assert (elem_of_name name m' = Some x') as Hel by (unfold elem_of_name, get_stat; by rewrite Hf).
  destruct (read_bins_run (filled vals) (S MAX_BINS) (itr_begin (filled vals)) ∅) as (out & Hread & Hout);
    [done|by apply itr_begin_le|unfold MAX_BINS; lia|done|].
  exists m', out, (filled vals). split; [done|]. split.
  { unfold get_stat_histogram. rewrite Hel, decide_False, Hh by tauto. cbn [or_ub]. ok_bind.
    by rewrite Hread. }
  split; [|split; [intros i v Hi Hv1; symmetry; by apply in_bin_iff|]].
  - intros b n. rewrite Hout, lookup_empty.
    assert (∀ i, (i < MAX_BINS)%nat → u64 (count_in i vals) = count_in i vals) as Hu.
    { intros i _. apply wrap_u_id. unfold count_in, in_bins. pose proof (length_filter (λ v, i = bin_of v) vals).
      unfold in_u. lia. }
    split.
    + intros [?|(i & Hi & -> & Hn & Hn0)]; [done|]. assert (i < MAX_BINS)%nat as Hi' by (unfold MAX_BINS; lia).
      destruct (upper_double i) as (hi & Hhi & Hd); [lia|]. rewrite Hb, Hu in Hn by done. injection Hn as <-.
      by exists i, hi.
    + intros (i & hi & Hi & Hhi & -> & -> & Hn0). right. exists i.
      assert (bins (filled vals) !! i = Some (count_in i vals)) as Hi' by by rewrite Hb, Hu.
      split; [split; [by eapply itr_begin_first|unfold MAX_BINS in Hi; lia]|]. split; [|done].
      destruct (upper_double i Hi) as (hi' & Hhi' & Hd). rewrite Hhi in Hhi'. by injection Hhi' as <-.
  - rewrite Hel. cbn. split; [done|]. split; [by rewrite Hc; apply wrap_u_id; unfold in_u; lia|].
    split; [done|]. split; [done|]. eapply holds_values_inj.
    + apply plus_holds; [done|by apply filled_holds].
    + apply filled_holds. by apply Forall_app.
Qed.

(** Three values, two of them in the bin of 4 to 7. *)
Example histogram_reports_witness :
  let vals := [5; 0; 7] in
  get_stat_histogram "h" ∅ (match add_values "h" vals (create_stat true HISTOGRAM "h" new_stat_mgr).2 with
                            | Ok m => m | Fault _ => new_stat_mgr end) = Ok (true, {[1 := 1; 8 := 2]}) ∧
  ∃ m' out h, add_values "h" vals (create_stat true HISTOGRAM "h" new_stat_mgr).2 = Ok m' ∧
    get_stat_histogram "h" ∅ m' = Ok (true, out) ∧
    (∀ b n, out !! b = Some n ↔ ∃ i hi, (i < MAX_BINS)%nat ∧ getUpperBound i = Ok hi ∧ b = to_double hi ∧
       n = Z.of_nat (length (filter (λ v, i = bin_of v) vals)) ∧ n ≠ 0) ∧
    (∀ i v, (i < MAX_BINS)%nat → in_u 64 v → i = bin_of v ↔ in_bin i v) ∧
    (elem_of_name "h" m' ≫= hist_) = Some h ∧
    count h = Z.of_nat (length vals) ∧ sum h = u64 (foldr Z.add 0 vals) ∧ max h = foldr Z.max 0 vals ∧
    plus (filled [9]) h = filled (vals ++ [9]).
Proof.
  intros vals. split; [by vm_compute|].
  apply (histogram_reports "h" vals [9] new_stat_mgr); [done|by repeat constructor|by repeat constructor|by vm_compute].
Defined.

(** ** What goes wrong *)

(** Decrementing an iterator that is not at the first bin goes to the end. *)
Lemma prev_goes_to_end idx : 0 < idx → prev idx = Z.of_nat MAX_BINS.
Proof. intros H. unfold prev. rewrite decide_True; [done|lia]. Qed.
End StatsThms.
